(* ===== verification/_CoqProject ===== *)
-Q . S2P
Prelude.v
Lifecycle.v
CxxString.v
CxxContainers.v
Types.v
Sodium.v
SecureBuffer.v
SecureHeap.v
Crypto.v
IdentityService.v
AgentRegistry.v
RegistrySpec.v
RegistryProps.v
Framing.v
PeerHandshake.v
ControlProtocol.v
ControlProps.v
RegistrySync.v
Protobuf.v
ProtoWire.v
ProtoPeers.v
ControlProtobuf.v
Reputation.v
GossipScheduler.v
ControlServer.v
SyncClient.v
Injection.v
SyncLiveness.v
Crc32.v
SecurePath.v
Persistence.v
TestSuite.v
PersistenceProps.v
PowerLoss.v
IdentityStore.v
WindowsAcl.v
UdpResponder.v
GossipService.v
Engine.v
Node.v
Cluster.v
Main.v
Console.v
PyText.v
PySdk.v
PySdkProps.v
PySdkNode.v
PySdkList.v
PySdkSync.v
PySdkProbe.v
