(* ===== verification/Prelude.v ===== *)
(** * BeaconNode: a verification development

    BeaconNode is a peer-to-peer registry of agents.  A node keeps a table of agent
    registrations with revisions and expiry times, accepts commands on a TCP control port (a
    line protocol and a protobuf protocol in binary frames), exchanges entries with its peers
    by gossip, answers UDP handshakes, pins the signing key of every agent on first use, and
    logs accepted registrations to disk.  This library models the C++ program under [src/src],
    and the Python SDK under [src/python] that talks to it, as Rocq functions and relations and
    proves the properties that make them correct.

    ** The files, in dependency order

    - [Prelude]: machine integers, bytes, list lemmas, the hint database [beacon], the tactics
      [split_tests] and [bool_to_prop], the class [RoundTrip].
    - [Lifecycle]: what the three network services share, [start], [stop] and the worker
      thread, as one step relation over the interface [WorkerLoop].
    - [CxxString], [CxxContainers]: what the sources use of the C++ library, as executable
      functions: [istringstream >>], [getline], [find], [substr], [to_string], [from_chars],
      [stoi]; [std::map] with its iteration order; [std::sort] as the interface [StdSort].
    - [Types]: [types.hpp], [config.hpp], [config.cpp].
    - [Sodium]: the interface to libsodium ([Sodium], laws [SodiumLaws]).
    - [SecureBuffer]: [beacon_net/secure_buffer.hpp] (key buffers: allocation, wiping,
      comparison) on values; [SecureHeap]: the same class and [SecureAllocator] with pointers
      into a heap.
    - [Crypto]: [beacon/crypto.cpp] (hexadecimal text, canonical payload, signatures).
    - [IdentityService]: [beacon/identity_service.cpp] (the trust store).
    - [AgentRegistry]: [beacon/agent_registry.cpp], the operations; [RegistrySpec]: the
      abstract registry (a map from agent id to record), operations as events, the step
      relation and the refinement; [RegistryProps]: merging, queries, expiry, keys.
    - [Framing]: [beacon/framing.cpp]; [PeerHandshake]: [beacon/peer_handshake.cpp].
    - [ControlProtocol], [ControlProps]: [beacon/control_protocol.cpp] (the line protocol).
    - [RegistrySync]: [beacon/registry_sync.cpp] (what to push, the commands of gossip).
    - [Protobuf]: the messages of [proto/beaconnode/v1] and the interface to their codec;
      [ProtoWire]: the wire format of the messages, with the fields of the [.proto] files;
      [ProtoPeers]: the messages no code uses; [ControlProtobuf]: [beacon/control_protobuf.cpp].
    - [Reputation], [GossipScheduler]: [beacon/reputation.cpp], [beacon/gossip_scheduler.cpp].
    - [ControlServer]: [beacon_net/control_server.cpp] (sessions, the accept loop).
    - [SyncClient]: [beacon_net/sync_client.cpp] (a synchronisation round with a peer);
      [Injection]: what the line format does with spaces and with an end that is missing;
      [SyncLiveness]: several rounds, and chains of nodes.
    - [Crc32], [SecurePath], [Persistence], [PersistenceProps]:
      [beacon_net/persistence_service.cpp] (checksum, path check, log and snapshot);
      [PowerLoss]: the same operations as system calls, with [fsync] and power failures.
    - [TestSuite]: the C++ test programs of the repository, evaluated on the model.
    - [IdentityStore]: [beacon/identity_store.cpp]; [WindowsAcl]: its Windows branch;
      [UdpResponder]:
      [beacon_net/udp_handshake_responder.cpp]; [GossipService]:
      [beacon_net/gossip_service.cpp].
    - [Engine]: [beacon_engine/main.cpp] (command line, restart, housekeeping), and the threads
      that store and log records concurrently; [Node]: all threads of a running node, as steps
      of locked operations; [Cluster]: several nodes and their clients; [Main]: [main] put
      together, on the file system; [Console]: what it prints.
    - [PyText]: what the SDK uses of Python (text, numbers, dictionaries); [PySdk]: the modules
      of [python/src/beaconnode] ([client.py], [framing.py], [identity.py], [models.py],
      [sync.py], [peer.py]); [PySdkProps]: frames, signatures and commands against the C++
      code; [PySdkNode], [PySdkList], [PySdkSync], [PySdkProbe]: the client connected to
      the control server and to the UDP responder of a node, and to two nodes.

    ** How the model corresponds to the code

    Structs are records, enums are inductive types, one definition per function, with the
    names of the source.  A 64-bit number is a [Z]; arithmetic that can wrap is written with
    [wrap].  [std::string] is [string], byte vectors are [list byte], [std::map] is [gmap],
    the vector of records is a list updated in place.  A member function takes the state of
    its object and returns the new one; a callback acts on a world the operations thread
    (the disk, in the engine).  Exceptions and early returns are values of [option] or of a
    sum.  Every reading of the clock is an argument.  Threads are step relations: the worker
    of a service in steps between two tests of its flag ([accept_step], [receive_step],
    [timer_step]), the threads of a node in steps of one locked operation each
    ([guarded_step], and [node_step] for a node whose clients and peers are arbitrary), a
    cluster in steps of its nodes ([cluster_step]).

    Code outside the repository is an interface with the documented contract as laws, and a
    concrete instance for the witnesses: libsodium ([Sodium]), the Ed25519 of the Python package
    [cryptography] ([PyEd25519], with [Ed25519Interop] between the two: what one signs, the other
    verifies; nothing is assumed of other signatures), the protobuf runtime
    ([ProtoMessage], whose laws [ProtoWire] proves of the documented wire format), [std::sort]
    and [std::shuffle] (permutations; nothing is assumed of the order of equal elements), what a
    record holds after it was moved from ([MovedFrom], without any law), TCP ([Transport]), datagrams ([Datagrams]), path
    resolution ([PathEnv]), the failures of the file system ([Machine]), the rights of the
    process ([Permissions]) and the Windows calls ([Win32]).

    ** What the theorems show

    - Registry: it refines a map from agent id to record along every sequence of operations
      ([registry_refines_map]); its invariant is inductive; revisions never decrease; [upsert]
      is specified on every branch; merging converges whatever the order and duplication of
      what is merged, if no signature is refused ([merge_converges]); everything merged has a known origin
      ([merge_provenance]); paging by revision loses nothing.
    - Node: under every interleaving of its threads, the registry stays well-formed, holds
      nothing that was not admitted, and forgets no pinned key ([node_invariant]); the
      handlers are sequences of such steps ([handlers_refine_node_steps]); a kill at any
      moment loses only records whose callback had not run ([crash_restart_history]);
      starting the engine is repeatable, at any two times ([main_once_repeatable]), and reads no
      file but its own ([main_ignores_config_file]).
    - Cluster, for registrations the line format carries and messages that arrive whole or not
      at all: however nodes gossip, fail and restart from their logs, every registration on
      every node goes back to one a client offered ([cluster_provenance]), and nodes that hold
      an agent at the same revision hold the same registration ([cluster_agreement]), both up to
      the metadata a restart loses; rounds over connections that may fail, lines, protobuf
      requests and restarts of the program are steps of the cluster
      ([program_refines_cluster], [restart_refines_cluster]).
    - Trust: first-use pinning over all histories ([identity_trust_on_first_use]); what a node
      signs verifies; payloads of different registrations differ; the admission rule of the
      control port; a strict node without libsodium refuses everything.  Key buffers are
      memory safe, hand back only zeroed blocks and implement their value semantics
      ([secure_buffers_memory_safe]); the identity survives restarts, and what a crash during
      its creation leaves is described exactly; on Windows the key file gets an access list for
      its user alone, without a leak on any path ([windows_restriction]).
    - Protocols: round trips of frames, handshakes, hexadecimal text, commands and responses;
      validation of commands; equivalence of the line and the protobuf protocol; the server
      keeps the registry's invariant whatever bytes arrive; the laws assumed of the protobuf
      runtime hold of the wire format ([wire_codecs_lawful]).
    - Threads: each service stops in a few steps of its worker once [stop] is joining, whatever
      the network does, unless its worker is kept by a client that does not send or read, or
      waits on because the wake-up of [stop] failed ([stop_drains], and its counterparts for UDP
      and gossip, from one lemma of [Lifecycle]).
    - Synchronisation, of records the line format carries and over connections that work: a
      round between two nodes, through both codecs and the server ([sync_round]); delivery of newer entries, and of all of them by enough rounds
      ([sync_catches_up]), along chains of any length ([chain_dissemination]); robustness
      against any answer.
    - Python SDK: it writes and reads the frames of the node ([sdk_frames_agree]); both sides
      sign the same bytes, and what the SDK signs verifies ([sdk_signatures_verify]);
      registrations the protocol in use can carry reach the registry over either protocol, and
      the client reports the truth ([sdk_store_end_to_end]), also at
      a node that requires signatures ([sdk_signed_register]); heartbeats likewise
      ([sdk_heartbeat_end_to_end]); a listing gives back what is stored
      ([sdk_list_round_trip]); [sync_with_peer] moves exactly the two pages
      ([sdk_sync_round]); probing is answered ([sdk_probe_answered]); an identity file keeps
      its key ([sdk_identity_stable]).
    - Persistence: crash safety of the log at every byte ([wal_crash_recovery]), the snapshot
      cycle, isolation of a corrupted entry (CRC-32 detects every change within 32
      consecutive bits), exact behaviour of the path check, and durability across a restart for
      every interleaving of the threads that store and log ([restart_restores_registry]).  An
      append that has returned survives a power failure ([append_survives_power_loss]), and a
      snapshot is atomic on storage that keeps the order of its changes
      ([snapshot_atomic_on_ordered_storage]).
    - Behaviours that contradict the intent of the code are stated as theorems too: recovered
      agents that expire at once, keys of which the C++ library decides whether the protobuf
      protocol pins them, registrations the
      revision watermark never transfers, entries lost behind a torn log entry, a
      re-registration a restart undoes, a failed rename that costs the log, a build without
      libsodium that locks itself out, a failed allocation that leaks a key, a pinned key the
      control port does not enforce, entries of equal revision lost at the end of a page,
      heartbeats and purges a restart takes back, a silent client that blocks the server, a
      failed wake-up that leaves [stop] hanging, metadata keys that make payloads collide, a
      key file that is readable before it is restricted, a registration with spaces that
      becomes another one at the peers, an answer cut short that is merged, a snapshot whose
      rename a power failure undoes after the log is gone, an SDK client that takes over the
      agents it merges, listed numbers the protobuf client refuses, a build without protobuf
      whose answer the client cannot read.

    ** Fuel and bounds

    The replay of the log takes the length of the text as fuel: every turn reads at least
    eight bytes, and [replay_fuel] shows that more fuel changes nothing.  [to_string] takes
    the binary length of the number, which [to_string_go_spec] shows to be enough.  Everything
    else is structural.

    ** Not modelled

    The bytes of TCP beyond what a session receives and answers, and how long anything takes (a
    peer that never answers is modelled, a slow one is not); the messages of the persistence
    service and of failures on the console, and the sleep between two turns of the engine; the
    creation of directories; links and the identity of renamed files (a file is its path);
    in [Cluster], answers that are cut short and registrations outside the line format (what they
    do to one node is in [Injection]); in [PowerLoss], log entries that exceed the buffer of
    the stream and reach the kernel in several writes; memory exhaustion other than in key
    buffers; data races inside a locked operation (the lock
    of the source makes each one atomic); the destructors; of the Python SDK, text that is
    not ASCII, the base64 text of a public key and the import of optional packages; the churn
    simulation and its test, and the build files. *)

From Stdlib Require Export ZArith Lia.
From Stdlib Require Import Strings.Byte.
From stdpp Require Export base tactics strings gmap numbers.
From stdpp Require Export sorting list.
From Stdlib Require Strings.Ascii Strings.String.
Export Ascii.AsciiSyntax String.StringSyntax.
Delimit Scope char_scope with char.
Delimit Scope string_scope with string.

Open Scope Z_scope.

#[global] Arguments Z.eqb : simpl never.
#[global] Arguments Z.ltb : simpl never.
#[global] Arguments Z.leb : simpl never.

(** ** Scope, notations *)

Declare Scope beacon_scope.
Delimit Scope beacon_scope with beacon.
Open Scope beacon_scope.

Abbreviation byte := Byte.byte.
Abbreviation ascii := Ascii.ascii.
Abbreviation bytes := (list Byte.byte).

(** [u64 z] reads "[z] is a value of [std::uint64_t]"; the other widths alike. *)
Abbreviation in_width w z := (0 <= z < 2 ^ w) (only parsing).
Abbreviation u8 z := (in_width 8 z).
Abbreviation u16 z := (in_width 16 z).
Abbreviation u32 z := (in_width 32 z).
Abbreviation u64 z := (in_width 64 z).

(** ** Definitions *)

(** Conversion to an unsigned type of [w] bits: reduction modulo [2 ^ w]. *)
Definition wrap (w z : Z) : Z := z mod 2 ^ w.

(** The value of a [std::uint8_t], and [static_cast<std::uint8_t>]. *)
Definition Z_of_byte (b : byte) : Z := Z.of_N (Byte.to_N b).
Definition byte_of_Z (z : Z) : byte :=
  default Byte.x00 (Byte.of_N (Z.to_N (wrap 8 z))).

(** A [std::string] holds bytes; the two views of the same buffer. *)
Definition bytes_of_string (s : string) : bytes := String.list_byte_of_string s.
Definition string_of_bytes (bs : bytes) : string := String.string_of_list_byte bs.

#[global] Instance byte_eq_dec : EqDecision byte := Byte.byte_eq_dec.
#[global] Instance byte_inhabited : Inhabited byte := populate Byte.x00.

(** ** Tactics *)

(** Split every boolean test and [decide] of the goal, in the order the code makes them. *)
Ltac split_tests :=
  repeat (first [ case_match | case_decide | case_bool_decide ]; simplify_eq/=).

(** Turn boolean comparisons of hypotheses and goal into arithmetic facts. *)
Ltac bool_to_prop :=
  repeat match goal with
  | H : (_ <? _) = true |- _ => apply Z.ltb_lt in H
  | H : (_ <? _) = false |- _ => apply Z.ltb_ge in H
  | H : (_ <=? _) = true |- _ => apply Z.leb_le in H
  | H : (_ <=? _) = false |- _ => apply Z.leb_gt in H
  | H : (_ =? _) = true |- _ => apply Z.eqb_eq in H
  | H : (_ =? _) = false |- _ => apply Z.eqb_neq in H
  | H : (_ && _) = true |- _ => apply andb_true_iff in H as [? ?]
  | H : (_ || _) = false |- _ => apply orb_false_iff in H as [? ?]
  | H : negb _ = true |- _ => apply negb_true_iff in H
  | H : negb _ = false |- _ => apply negb_false_iff in H
  end.

Create HintDb beacon.
Create Rewrite HintDb beacon.

(** ** Machine integers and bytes *)

Lemma wrap_small w z : 0 <= z < 2 ^ w -> wrap w z = z.
Proof. apply Z.mod_small. Qed.

Lemma wrap_range w z : 0 <= w -> 0 <= wrap w z < 2 ^ w.
Proof. intros. apply Z.mod_pos_bound, Z.pow_pos_nonneg; lia. Qed.

Lemma Z_of_byte_range b : u8 (Z_of_byte b).
Proof. destruct b; vm_compute; intuition congruence. Qed.

Lemma byte_of_Z_of_byte b : byte_of_Z (Z_of_byte b) = b.
Proof. by destruct b. Qed.

Lemma Z_of_byte_of_Z z : Z_of_byte (byte_of_Z z) = wrap 8 z.
Proof.
  unfold byte_of_Z, Z_of_byte.
  pose proof (wrap_range 8 z ltac:(lia)) as Hr. change (2 ^ 8) with 256 in Hr.
  destruct (Byte.of_N (Z.to_N (wrap 8 z))) as [b|] eqn:Hb; simpl.
  - apply Byte.to_of_N in Hb. rewrite Hb. lia.
  - apply Byte.of_N_None_iff in Hb. lia.
Qed.

#[global] Instance Z_of_byte_inj : Inj (=) (=) Z_of_byte.
Proof. intros x y H. by rewrite <- (byte_of_Z_of_byte x), H, byte_of_Z_of_byte. Qed.

Lemma bytes_of_string_of_bytes bs : bytes_of_string (string_of_bytes bs) = bs.
Proof. apply String.list_byte_of_string_of_list_byte. Qed.

Lemma string_of_bytes_of_string s : string_of_bytes (bytes_of_string s) = s.
Proof. apply String.string_of_list_byte_of_string. Qed.

#[export] Hint Resolve Z_of_byte_range wrap_range : beacon.
#[export] Hint Rewrite byte_of_Z_of_byte Z_of_byte_of_Z bytes_of_string_of_bytes
  string_of_bytes_of_string : beacon.

(** ** Lists *)

Lemma list_find_insert {A} (P : A -> Prop) `{forall x, Decision (P x)} (l : list A) i x y :
  list_find P l = Some (i, x) -> P y -> list_find P (<[i:=y]> l) = Some (i, y).
Proof.
  intros (Hi & Hx & Hlt)%list_find_Some Hy. apply list_find_Some.
  pose proof (lookup_lt_Some _ _ _ Hi).
  split; [by apply list_lookup_insert_eq|]. split; [done|].
  intros j z Hj ?. rewrite list_lookup_insert_ne in Hj by lia. eauto.
Qed.

Lemma fmap_insert_same {A B} (f : A -> B) (l : list A) i x y :
  l !! i = Some x -> f y = f x -> f <$> <[i:=y]> l = f <$> l.
Proof.
  intros Hi Hf. rewrite list_fmap_insert. rewrite Hf.
  apply list_insert_id. by rewrite list_lookup_fmap, Hi.
Qed.

Lemma NoDup_fmap_filter {A B} (f : A -> B) (P : A -> Prop) `{forall x, Decision (P x)} (l : list A) :
  NoDup (f <$> l) -> NoDup (f <$> filter P l).
Proof.
  induction l as [|x l IH]; [done|]. csimpl. intros [Hx Hl]%NoDup_cons.
  rewrite filter_cons. case_decide; [|auto]. csimpl. apply NoDup_cons. split; [|auto].
  intros (z & Hz & [_ Hin]%list_elem_of_filter)%list_elem_of_fmap.
  apply Hx, list_elem_of_fmap. eauto.
Qed.

Lemma filter_none {A} (P : A -> Prop) `{forall x, Decision (P x)} (l : list A) :
  (forall x, x ∈ l -> ~ P x) -> filter P l = [].
Proof.
  induction l as [|x l IH]; intros Hl; [done|]. rewrite filter_cons_False by (apply Hl; set_solver). apply IH. set_solver.
Qed.

Lemma filter_all {A} (P : A -> Prop) `{forall x, Decision (P x)} (l : list A) :
  (forall x, x ∈ l -> P x) -> filter P l = l.
Proof.
  induction l as [|x l IH]; intros Hl; [done|]. rewrite filter_cons_True by (apply Hl; set_solver). f_equal. apply IH. set_solver.
Qed.

Lemma StronglySorted_weaken {A} (R1 R2 : relation A) l :
  (forall x y, R1 x y -> R2 x y) -> StronglySorted R1 l -> StronglySorted R2 l.
Proof.
  intros HR. induction 1 as [|x l _ IH Hx]; constructor; [done|].
  eapply Forall_impl; [exact Hx|]. auto.
Qed.

(** ** Bytes packed into words *)

Lemma shiftl_lor_add a b n : 0 <= n -> 0 <= b < 2 ^ n -> Z.lor (Z.shiftl a n) b = a * 2 ^ n + b.
Proof.
  intros Hn Hb. rewrite <- Z.add_nocarry_lor.
  - rewrite Z.shiftl_mul_pow2 by done. done.
  - apply Z.bits_inj'. intros i Hi. rewrite Z.land_spec, Z.bits_0.
    destruct (Z.lt_ge_cases i n).
    + by rewrite Z.shiftl_spec_low.
    + rewrite <- (Z.mod_small b (2 ^ n)) by done. rewrite Z.mod_pow2_bits_high by lia. apply andb_false_r.
Qed.

Lemma Z_of_byte_shiftr v n : 0 <= n ->
  Z_of_byte (byte_of_Z (Z.land (Z.shiftr v n) 255)) = (v / 2 ^ n) mod 256.
Proof.
  intros Hn. rewrite Z_of_byte_of_Z. unfold wrap. change 255 with (Z.ones 8).
  rewrite Z.land_ones, Z.shiftr_div_pow2 by lia. change (2 ^ 8) with 256. by rewrite Z.mod_mod.
Qed.

Lemma Z_of_byte_land v : Z_of_byte (byte_of_Z (Z.land v 255)) = v mod 256.
Proof. by rewrite <- (Z.shiftr_0_r v) at 1; rewrite Z_of_byte_shiftr, Z.div_1_r. Qed.

(** Four bytes, most significant first, and the word they make. *)
Definition be32 (b3 b2 b1 b0 : byte) : Z :=
  Z_of_byte b3 * 2 ^ 24 + Z_of_byte b2 * 2 ^ 16 + Z_of_byte b1 * 2 ^ 8 + Z_of_byte b0.

Lemma be32_range b3 b2 b1 b0 : u32 (be32 b3 b2 b1 b0).
Proof.
  unfold be32. pose proof (Z_of_byte_range b3). pose proof (Z_of_byte_range b2).
  pose proof (Z_of_byte_range b1). pose proof (Z_of_byte_range b0). lia.
Qed.

(** The value of the bytes of a word is the word, reduced to 32 bits. *)
Lemma be32_of_word v b3 b2 b1 b0 :
  Z_of_byte b3 = (v / 2 ^ 24) mod 256 -> Z_of_byte b2 = (v / 2 ^ 16) mod 256 ->
  Z_of_byte b1 = (v / 2 ^ 8) mod 256 -> Z_of_byte b0 = v mod 256 -> be32 b3 b2 b1 b0 = wrap 32 v.
Proof.
  unfold be32, wrap. intros -> -> -> ->.
  replace (v / 2 ^ 24) with (v / 256 / 256 / 256) by (rewrite !Z.div_div by lia; done).
  replace (v / 2 ^ 16) with (v / 256 / 256) by (rewrite !Z.div_div by lia; done).
  change (2 ^ 8) with 256. change (2 ^ 16) with 65536. change (2 ^ 24) with 16777216.
  change (2 ^ 32) with 4294967296. Z.to_euclidean_division_equations. lia.
Qed.

Lemma be32_byte b3 b2 b1 b0 :
  (be32 b3 b2 b1 b0 / 2 ^ 24) mod 256 = Z_of_byte b3 /\ (be32 b3 b2 b1 b0 / 2 ^ 16) mod 256 = Z_of_byte b2 /\
  (be32 b3 b2 b1 b0 / 2 ^ 8) mod 256 = Z_of_byte b1 /\ be32 b3 b2 b1 b0 mod 256 = Z_of_byte b0.
Proof.
  unfold be32. pose proof (Z_of_byte_range b3). pose proof (Z_of_byte_range b2).
  pose proof (Z_of_byte_range b1). pose proof (Z_of_byte_range b0).
  change (2 ^ 8) with 256 in *. change (2 ^ 16) with 65536. change (2 ^ 24) with 16777216.
  split_and!; Z.to_euclidean_division_equations; lia.
Qed.

Lemma be32_lor b3 b2 b1 b0 :
  Z.lor (Z.lor (Z.lor (Z.shiftl (Z_of_byte b3) 24) (Z.shiftl (Z_of_byte b2) 16))
    (Z.shiftl (Z_of_byte b1) 8)) (Z_of_byte b0) = be32 b3 b2 b1 b0.
Proof.
  pose proof (Z_of_byte_range b3). pose proof (Z_of_byte_range b2).
  pose proof (Z_of_byte_range b1). pose proof (Z_of_byte_range b0). unfold be32.
  rewrite <- !Z.lor_assoc. rewrite (shiftl_lor_add (Z_of_byte b1) _ 8) by lia.
  rewrite (shiftl_lor_add (Z_of_byte b2) _ 16) by lia.
  rewrite (shiftl_lor_add (Z_of_byte b3) _ 24) by lia. lia.
Qed.

(** ** Codecs

    [RoundTrip ok enc dec]: decoding what was encoded gives the value back, for every value
    that satisfies [ok].  Instances: frames, handshake messages, log records. *)
Class RoundTrip {A B : Type} (ok : A -> Prop) (enc : A -> B) (dec : B -> option A) :=
  round_trip : forall a, ok a -> dec (enc a) = Some a.

Lemma round_trip_inj {A B} (ok : A -> Prop) (enc : A -> B) dec `{!RoundTrip ok enc dec} a1 a2 :
  ok a1 -> ok a2 -> enc a1 = enc a2 -> a1 = a2.
Proof. intros H1 H2 Heq. apply (f_equal dec) in Heq. rewrite !round_trip in Heq by done. by simplify_eq. Qed.
