(* ===== verification/Lifecycle.v ===== *)
(** * Worker threads: the life cycle of the three network services

    [ControlServer], [UdpHandshakeResponder] and [GossipService] have the same [start], [stop]
    and destructor ([control_server.cpp], [udp_handshake_responder.cpp],
    [gossip_service.cpp]): a thread that runs [run()], the atomic flag [stopping_] the owner
    and the thread share, and a [stop] that sets the flag, wakes the thread up and joins it.
    What differs, the loop and how it is woken up, is the interface [WorkerLoop]; the steps of
    owner, worker and outside world are one step relation over it, and the theorems about
    stopping are proved once, for every loop that satisfies [WorkerLaws]. *)

From S2P Require Import Prelude.

(** ** Definitions *)

(** The loop of a service: [P] is where the worker is, [Q] what it shares with others (what
    waits at its socket, the node's state, what it has done). *)
Class WorkerLoop (P Q : Type) := {
  run_entry : P;
  run_returned : P;
  (** A step of [run], made while [stopping_] has the given value. *)
  wstep : bool -> P -> Q -> P -> Q -> Prop;
  (** What [stop] does between setting the flag and joining. *)
  wake : P -> Q -> Q -> Prop;
  (** What other threads and the network may do meanwhile. *)
  outside : option P -> Q -> Q -> Prop;
}.

(** Where the thread that owns the service is: outside of [stop], between its first statement
    and the wake-up, or in [worker_.join()]. *)
Inductive owner_pc := OwnerIdle | StopCalled | StopJoining.

(** [worker_] is [None] when it is not joinable. *)
Record Service (P Q : Type) := mkService {
  stopping_ : bool;
  worker_ : option P;
  shared : Q;
  owner : owner_pc;
}.
Arguments mkService {P Q}.
Arguments stopping_ {P Q}.
Arguments worker_ {P Q}.
Arguments shared {P Q}.
Arguments owner {P Q}.

Section lifecycle.
Context {P Q : Type} {Loop : WorkerLoop P Q}.
Implicit Types (s : Service P Q) (p : P) (q : Q).

(** A constructed service. *)
Definition new_service q : Service P Q := mkService false None q OwnerIdle.

Definition start s : Service P Q :=
  match worker_ s with
  | Some _ => s
  | None => mkService false (Some run_entry) (shared s) (owner s)
  end.

(** The first statement of [stop]. *)
Definition stop_flag s : Service P Q := mkService true (worker_ s) (shared s) StopCalled.

Inductive service_step : Service P Q -> Service P Q -> Prop :=
| CallStart s : owner s = OwnerIdle -> service_step s (start s)
| CallStop s : owner s = OwnerIdle -> service_step s (stop_flag s)
| StopNotJoinable b q : service_step (mkService b None q StopCalled) (mkService b None q OwnerIdle)
| StopWake b p q q' : wake p q q' ->
    service_step (mkService b (Some p) q StopCalled) (mkService b (Some p) q' StopJoining)
| StopJoin b q : service_step (mkService b (Some run_returned) q StopJoining) (mkService b None q OwnerIdle)
| WorkerMoves b p q p' q' o : wstep b p q p' q' ->
    service_step (mkService b (Some p) q o) (mkService b (Some p') q' o)
| OutsideMoves b w q q' o : outside w q q' -> service_step (mkService b w q o) (mkService b w q' o).

(** A run of the worker, counted in its own steps, while the outside does what it wants and the
    owner waits. *)
Inductive worker_runs : nat -> Service P Q -> Service P Q -> Prop :=
| RunsRefl s : worker_runs 0 s s
| RunsWorker n b p q p' q' o s : wstep b p q p' q' -> worker_runs n (mkService b (Some p') q' o) s ->
    worker_runs (S n) (mkService b (Some p) q o) s
| RunsOutside n b w q q' o s : outside w q q' -> worker_runs n (mkService b w q' o) s ->
    worker_runs n (mkService b w q o) s.

(** What a loop promises, so that [stop] works: told to stop, it approaches the end of [run] at
    every step ([drain]); if it is able to move ([ready]), nothing takes that ability away; it
    finishes at most the work it is at ([busy], [completed]); and it may be [blocked] on a peer
    for good.  Whether the wake-up makes it able to move is a question of its own, because
    [stop] ignores the failures of the wake-up. *)
Class WorkerLaws := {
  drain : P -> nat;
  blocked : P -> Prop;
  ready : P -> Q -> Prop;
  busy : P -> nat;
  completed : Q -> nat;
  drain_wstep p q p' q' : wstep true p q p' q' -> (drain p' < drain p)%nat;
  ready_wstep p q p' q' : ready p q -> wstep true p q p' q' -> ready p' q';
  ready_outside p q q' : ready p q -> outside (Some p) q q' -> ready p q';
  ready_progress p q : ready p q -> p = run_returned \/ exists p' q', wstep true p q p' q';
  wake_total p q : exists q', wake p q q';
  blocked_wstep b p q p' q' : blocked p -> ~ wstep b p q p' q';
  completed_wstep p q p' q' : wstep true p q p' q' -> (completed q' + busy p' <= completed q + busy p)%nat;
  completed_outside w q q' : outside w q q' -> completed q' = completed q;
}.

(** ** Lemmas *)

(** In every reachable state: the flag is set while [stop] is under way; a thread that is being
    joined exists; and once [stop] has returned there is no thread. *)
Definition service_inv s : Prop :=
  match owner s with
  | OwnerIdle => stopping_ s = true -> worker_ s = None
  | StopCalled => stopping_ s = true
  | StopJoining => stopping_ s = true /\ worker_ s <> None
  end.

Context {Laws : WorkerLaws}.

Lemma service_step_inv s s' : service_inv s -> service_step s s' -> service_inv s'.
Proof.
  unfold service_inv. destruct 2 as [s Ho|s Ho|b q|b p q q' Hw|b q|b p q p' q' o Hw|b w q q' o Ho]; simpl in *.
  - unfold start. rewrite Ho in H. destruct (worker_ s) eqn:Hw; simpl; by rewrite Ho, ?Hw.
  - done.
  - done.
  - done.
  - done.
  - destruct o; [|done|].
    + intros ->. discriminate (H eq_refl).
    + by destruct H as [-> _].
  - by destruct o.
Qed.

Lemma service_reachable_inv q s : rtc service_step (new_service q) s -> service_inv s.
Proof.
  intros Hr. refine (rtc_ind_r service_inv _ _ _ _ Hr); [done|]. intros s1 s2 _ Hs Hi. by eapply service_step_inv.
Qed.

(** While the worker runs with the flag set, it uses up its [drain], stays able to move and
    completes no more than what it is at. *)
Lemma worker_runs_drain n s s' p : worker_runs n s s' -> stopping_ s = true -> worker_ s = Some p ->
  ready p (shared s) ->
  exists p', worker_ s' = Some p' /\ stopping_ s' = true /\ owner s' = owner s /\ ready p' (shared s') /\
    (n + drain p' <= drain p)%nat /\ (completed (shared s') + busy p' <= completed (shared s) + busy p)%nat.
Proof.
  intros Hrun. revert p. induction Hrun as [s|n b p0 q p1 q1 o s Hw _ IH|n b w q q1 o s Ho _ IH]; simpl; intros p Hb Hp Hr.
  - exists p. split_and!; [done..|lia|lia].
  - subst b. injection Hp as ->. pose proof (drain_wstep _ _ _ _ Hw). pose proof (completed_wstep _ _ _ _ Hw).
    destruct (IH p1) as (p' & ? & ? & ? & ? & ? & ?); [done|done|by eapply ready_wstep|].
    exists p'. simpl in *. split_and!; [done..|lia|lia].
  - subst b w. pose proof (completed_outside _ _ _ Ho).
    destruct (IH p) as (p' & ? & ? & ? & ? & ? & ?); [done|done|by eapply ready_outside|].
    exists p'. simpl in *. split_and!; [done..|lia|lia].
Qed.

(** Stopping a service.  In every reachable state in which the owner waits in [join] and the
    worker is able to move: however the worker and the outside world go on, the worker makes at
    most [drain] more steps and completes at most the work it was at; and at every moment of it
    the worker is able to move still, and the join returns or the worker does move, so the join
    does return, to a service without thread. *)
Lemma stop_returns q s p n s' :
  rtc service_step (new_service q) s -> owner s = StopJoining -> worker_ s = Some p -> ready p (shared s) ->
  worker_runs n s s' ->
  (n <= drain p)%nat /\ (completed (shared s') <= completed (shared s) + busy p)%nat /\
  exists p', worker_ s' = Some p' /\ ready p' (shared s') /\
  (service_step s' (mkService true None (shared s') OwnerIdle) \/
   exists p1 q1, wstep true p' (shared s') p1 q1 /\ service_step s' (mkService true (Some p1) q1 StopJoining)).
Proof.
  intros Hreach%service_reachable_inv Hj Hp Hr Hrun. unfold service_inv in Hreach. rewrite Hj in Hreach.
  destruct Hreach as [Hst _].
  destruct (worker_runs_drain _ _ _ _ Hrun Hst Hp Hr) as (p' & Hp' & Hst' & Ho' & Hr' & Hn & Hc).
  split; [lia|]. split; [lia|]. exists p'. split; [done|]. split; [done|]. destruct s' as [b w q' o]; simpl in *. subst b w o. rewrite Hj.
  destruct (ready_progress _ _ Hr') as [->|(p1 & q1 & Hw)].
  - left. constructor.
  - right. exists p1, q1. split; [done|]. by constructor.
Qed.

(** Once [stop] has returned, nothing runs until the next [start]: a step that follows is a
    call by the owner, or made outside. *)
Lemma stopped_is_quiet q s s' :
  rtc service_step (new_service q) s -> owner s = OwnerIdle -> stopping_ s = true -> service_step s s' ->
  s' = start s \/ worker_ s' = None /\ completed (shared s') = completed (shared s).
Proof.
  intros Hreach%service_reachable_inv Ho Hst Hstep. unfold service_inv in Hreach. rewrite Ho in Hreach.
  specialize (Hreach Hst). destruct Hstep as [s _|s _|b q1|b p q1 q' Hw|b q1|b p q1 p' q' o Hw|b w q1 q' o Hout];
    simpl in *; simplify_eq; [by left|by right..|].
  right. split; [done|]. by eapply completed_outside.
Qed.

(** A worker that is blocked on a silent peer keeps [stop] from returning: the owner stays in
    [join] and the worker where it is, whatever happens outside. *)
Lemma blocked_stays s s' p : owner s = StopJoining -> worker_ s = Some p -> blocked p -> p <> run_returned ->
  rtc service_step s s' -> owner s' = StopJoining /\ worker_ s' = Some p /\ completed (shared s') = completed (shared s).
Proof.
  intros Ho Hp Hb Hne Hr. revert Ho Hp. induction Hr as [s|s1 s2 s3 Hstep _ IH]; intros Ho Hp; [done|].
  assert (Hs : owner s2 = StopJoining /\ worker_ s2 = Some p /\ completed (shared s2) = completed (shared s1)).
  { destruct Hstep as [s Hi|s Hi|b q1|b p1 q1 q' Hw|b q1|b p1 q1 p' q' o Hw|b w q1 q' o Hout]; simpl in *; simplify_eq.
    - congruence.
    - congruence.
    - by destruct (blocked_wstep _ _ _ _ _ Hb Hw).
    - split_and!; [done|done|]. by eapply completed_outside. }
  destruct Hs as (Ho2 & Hp2 & Hc2). destruct (IH Ho2 Hp2) as (? & ? & ?). split_and!; congruence.
Qed.
End lifecycle.
