(* ===== verification/CxxString.v ===== *)
(** * The parts of the C++ string library the sources use

    [std::istringstream >> token], [std::getline], [find], [substr], [rfind(p, 0) == 0],
    [std::to_string], [std::from_chars] and [std::stoi], as executable functions on
    [String.string], with the lemmas on them that the codecs of the program need. *)

From S2P Require Import Prelude.

(** ** Definitions *)

Fixpoint str_forall (p : ascii -> bool) (s : string) : bool :=
  match s with
  | EmptyString => true
  | String c s' => p c && str_forall p s'
  end.

(** [std::isspace] of the "C" locale. *)
Definition isspace (c : ascii) : bool := Ascii.is_space c.

Definition head_is (p : ascii -> bool) (s : string) : bool :=
  match s with EmptyString => true | String c _ => p c end.

(** The tokens [while (stream >> token)] yields, in order. *)
Fixpoint tokens (s : string) : list string :=
  match s with
  | EmptyString => []
  | String c s' =>
      if isspace c then tokens s'
      else if head_is isspace s' then String c EmptyString :: tokens s'
      else match tokens s' with
           | t :: ts => String c t :: ts
           | [] => [String c EmptyString]
           end
  end.

Definition newline : ascii := "010"%char.
Definition nl : string := String newline EmptyString.

(** The lines [while (std::getline(stream, line))] yields, in order. *)
Fixpoint getlines (s : string) : list string :=
  match s with
  | EmptyString => []
  | String c s' =>
      if decide (c = newline) then EmptyString :: getlines s'
      else match getlines s' with
           | l :: ls => String c l :: ls
           | [] => [String c EmptyString]
           end
  end.

(** [s.find(c)]; [None] is [std::string::npos]. *)
Fixpoint find_char (c : ascii) (s : string) : option nat :=
  match s with
  | EmptyString => None
  | String d s' => if decide (d = c) then Some 0%nat else S <$> find_char c s'
  end.

(** [s.substr(pos)] and [s.substr(pos, n)], for [pos <= s.size()]. *)
Definition substr_from (s : string) (pos : nat) : string :=
  String.substring pos (String.length s - pos) s.
Definition substr (s : string) (pos n : nat) : string := String.substring pos n s.

(** [s.rfind(prefix, 0) == 0]. *)
Definition starts_with (s prefix : string) : bool := String.prefix prefix s.

Definition str_empty (s : string) : bool :=
  match s with EmptyString => true | _ => false end.

(** Decimal digits. *)
Definition digit_char (d : Z) : ascii := Ascii.ascii_of_N (Z.to_N (48 + d)).
Definition char_digit (c : ascii) : option Z :=
  let n := Z.of_N (Ascii.N_of_ascii c) in
  if (48 <=? n) && (n <=? 57) then Some (n - 48) else None.
Definition is_digit (c : ascii) : bool := bool_decide (is_Some (char_digit c)).

Fixpoint to_string_go (fuel : nat) (n : Z) (acc : string) : string :=
  match fuel with
  | O => acc
  | S fuel' =>
      let acc' := String (digit_char (n mod 10)) acc in
      if n <? 10 then acc' else to_string_go fuel' (n / 10) acc'
  end.

(** [std::to_string] of an unsigned value. *)
Definition to_string (n : Z) : string :=
  to_string_go (S (Z.to_nat (Z.log2 n))) n EmptyString.

(** Horner evaluation of the longest prefix of digits. *)
Fixpoint read_digits (acc : Z) (s : string) : Z * string :=
  match s with
  | EmptyString => (acc, EmptyString)
  | String c s' =>
      match char_digit c with
      | Some d => read_digits (acc * 10 + d) s'
      | None => (acc, s)
      end
  end.

Inductive errc := errc_ok | errc_invalid_argument | errc_result_out_of_range.
#[global] Instance errc_eq_dec : EqDecision errc.
Proof. solve_decision. Defined.

(** [std::from_chars(begin, end, value)] on an unsigned type with values up to [max]: the
    error code, the value stored ([None]: left unmodified) and the text from [ptr] on. *)
Record from_chars_result := FromChars {
  fc_ec : errc;
  fc_value : option Z;
  fc_rest : string;
}.
Definition from_chars (max : Z) (s : string) : from_chars_result :=
  if head_is (fun c => negb (is_digit c)) s
  then FromChars errc_invalid_argument None s
  else let '(v, rest) := read_digits 0 s in
       if v <=? max then FromChars errc_ok (Some v) rest
       else FromChars errc_result_out_of_range None rest.

Fixpoint skip_spaces (s : string) : string :=
  match s with
  | EmptyString => EmptyString
  | String c s' => if isspace c then skip_spaces s' else s
  end.

(** [std::stoi]: [None] is the exception ([invalid_argument] or [out_of_range]). *)
Definition stoi (s : string) : option Z :=
  let s1 := skip_spaces s in
  let '(neg, s2) := match s1 with
                    | String "-" r => (true, r)
                    | String "+" r => (false, r)
                    | _ => (false, s1)
                    end in
  if head_is (fun c => negb (is_digit c)) s2 then None
  else let '(m, _) := read_digits 0 s2 in
       let v := if (neg : bool) then - m else m in
       if (- 2 ^ 31 <=? v) && (v <? 2 ^ 31) then Some v else None.

Definition uint64_max : Z := 2 ^ 64 - 1.
Definition uint32_max : Z := 2 ^ 32 - 1.

(** A word is what [>>] returns whole: not empty, and without white space. *)
Definition no_space (s : string) : bool := str_forall (fun c => negb (isspace c)) s.
Definition is_word (s : string) : bool := negb (str_empty s) && no_space s.

(** A character of [s] never is [c]. *)
Definition no_char (c : ascii) (s : string) : bool :=
  str_forall (fun d => negb (bool_decide (d = c))) s.

Definition space : string := " ".

(** ** Concatenation and character predicates *)

Lemma str_app_nil_l s : EmptyString +:+ s = s.
Proof. done. Qed.
Lemma str_app_cons c s t : String c s +:+ t = String c (s +:+ t).
Proof. done. Qed.
Lemma str_app_nil_r s : s +:+ EmptyString = s.
Proof. induction s as [|c s IH]; [done|]. by rewrite str_app_cons, IH. Qed.
Lemma str_app_assoc s t u : (s +:+ t) +:+ u = s +:+ (t +:+ u).
Proof. induction s as [|c s IH]; [done|]. by rewrite !str_app_cons, IH. Qed.

Lemma str_length_app s t :
  String.length (s +:+ t) = (String.length s + String.length t)%nat.
Proof. induction s as [|c s IH]; [done|]. rewrite str_app_cons. simpl. by rewrite IH. Qed.

Lemma str_forall_app p s t : str_forall p (s +:+ t) = str_forall p s && str_forall p t.
Proof. induction s as [|c s IH]; [done|]. rewrite str_app_cons; simpl. by rewrite IH, andb_assoc. Qed.

Lemma str_forall_impl p q s :
  (forall c, p c = true -> q c = true) -> str_forall p s = true -> str_forall q s = true.
Proof.
  intros Hpq. induction s as [|c s IH]; [done|]; simpl. rewrite !andb_true_iff.
  intros [??]; eauto.
Qed.

Lemma str_empty_true s : str_empty s = true <-> s = EmptyString.
Proof. by destruct s. Qed.
Lemma str_empty_false s : str_empty s = false <-> s <> EmptyString.
Proof. by destruct s. Qed.

Create Rewrite HintDb str.
#[export] Hint Rewrite str_app_assoc str_app_nil_r : str.

Lemma is_word_spec s : is_word s = true <-> s <> EmptyString /\ no_space s = true.
Proof. unfold is_word. rewrite andb_true_iff, negb_true_iff, str_empty_false. done. Qed.

(** ** Tokens *)

Lemma tokens_space c s : isspace c = true -> tokens (String c s) = tokens s.
Proof. simpl. by intros ->. Qed.

(** A word followed by white space (or the end) is the first token. *)
Lemma tokens_word_app t r :
  is_word t = true -> head_is isspace r = true -> tokens (t +:+ r) = t :: tokens r.
Proof.
  intros [Hne Ht]%is_word_spec Hr. induction t as [|c t IH]; [done|].
  rewrite str_app_cons. unfold no_space in *. simpl in *.
  apply andb_true_iff in Ht as [Hc%negb_true_iff Ht]. rewrite Hc.
  destruct t as [|c' t]; [rewrite str_app_nil_l, Hr; done|].
  rewrite IH by done. rewrite str_app_cons. simpl in *.
  apply andb_true_iff in Ht as [Hc'%negb_true_iff _]. by rewrite Hc'.
Qed.

Lemma tokens_word t : is_word t = true -> tokens t = [t].
Proof. intros. rewrite <- (str_app_nil_r t) at 1. by rewrite tokens_word_app. Qed.

Lemma tokens_word_space t s :
  is_word t = true -> tokens (t +:+ " " +:+ s) = t :: tokens s.
Proof. intros. rewrite str_app_cons, str_app_nil_l. by rewrite tokens_word_app. Qed.

(** Every token is a word: the split keeps no white space and no empty piece. *)
Lemma tokens_words s : Forall (fun t => is_word t = true) (tokens s).
Proof.
  induction s as [|c s IH]; [constructor|]. simpl. destruct (isspace c) eqn:Hc; [done|].
  assert (Hone : is_word (String c EmptyString) = true).
  { unfold is_word, no_space; simpl. by rewrite Hc. }
  destruct (head_is isspace s); [by constructor|].
  destruct (tokens s) as [|t ts]; [by constructor|].
  apply Forall_cons in IH as [[_ Ht]%is_word_spec Hts]. constructor; [|done].
  apply is_word_spec. split; [done|]. unfold no_space in *; simpl. by rewrite Hc, Ht.
Qed.

(** ** Lines *)

Lemma getlines_line l r :
  no_char newline l = true -> getlines (l +:+ nl +:+ r) = l :: getlines r.
Proof.
  intros Hl. induction l as [|c l IH].
  - done.
  - unfold no_char in *; simpl in Hl. apply andb_true_iff in Hl as [Hc Hl].
    apply negb_true_iff, bool_decide_eq_false in Hc.
    rewrite str_app_cons. simpl. rewrite decide_False by done. by rewrite IH.
Qed.

(** ** Searching and slicing *)

Lemma find_char_app c a b :
  no_char c a = true -> find_char c (a +:+ String c b) = Some (String.length a).
Proof.
  intros H. induction a as [|d a IH].
  - rewrite str_app_nil_l. simpl. by rewrite decide_True.
  - unfold no_char in *; simpl in H. apply andb_true_iff in H as [Hd%negb_true_iff%bool_decide_eq_false Ha].
    rewrite str_app_cons. simpl. rewrite decide_False by done. by rewrite IH.
Qed.

Lemma substring_app_r a b n :
  String.substring (String.length a) n (a +:+ b) = String.substring 0 n b.
Proof. induction a as [|c a IH]; [done|]. by rewrite str_app_cons. Qed.

Lemma substring_all a b : String.substring 0 (String.length a) (a +:+ b) = a.
Proof.
  induction a as [|c a IH]; [by destruct b|]. rewrite str_app_cons. simpl. by rewrite IH.
Qed.

Lemma substr_from_app a b : substr_from (a +:+ b) (String.length a) = b.
Proof.
  unfold substr_from. rewrite str_length_app, substring_app_r.
  replace (_ + _ - _)%nat with (String.length b) by lia.
  rewrite <- (str_app_nil_r b) at 2. apply substring_all.
Qed.

Lemma substr_from_after a c b : substr_from (a +:+ String c b) (S (String.length a)) = b.
Proof.
  replace (a +:+ String c b) with ((a +:+ String c EmptyString) +:+ b)
    by (by rewrite str_app_assoc).
  replace (S (String.length a)) with (String.length (a +:+ String c EmptyString))
    by (rewrite str_length_app; simpl; lia).
  apply substr_from_app.
Qed.

Lemma substr_mid a k b : substr (a +:+ k +:+ b) (String.length a) (String.length k) = k.
Proof. unfold substr. rewrite substring_app_r. apply substring_all. Qed.

Lemma starts_with_app p s : starts_with (p +:+ s) p = true.
Proof.
  unfold starts_with. induction p as [|c p IH]; [by destruct s|].
  rewrite str_app_cons. simpl. by destruct (Ascii.ascii_dec c c).
Qed.

(** ** Decimal numbers *)

Lemma digit_char_spec d : 0 <= d < 10 ->
  char_digit (digit_char d) = Some d /\ isspace (digit_char d) = false.
Proof.
  intros Hd. assert (Hc : d = 0 \/ d = 1 \/ d = 2 \/ d = 3 \/ d = 4 \/ d = 5 \/ d = 6 \/
    d = 7 \/ d = 8 \/ d = 9) by lia.
  by repeat destruct Hc as [->|Hc]; [..|subst].
Qed.

Lemma is_digit_spec c : is_digit c = true <-> is_Some (char_digit c).
Proof. apply bool_decide_eq_true. Qed.

(** What the printer writes in front of [acc]: digits only, at least one, of value [n]. *)
Lemma to_string_go_spec fuel n acc :
  0 <= n < 2 ^ Z.of_nat fuel -> fuel <> O ->
  exists ds, to_string_go fuel n acc = ds +:+ acc /\ ds <> EmptyString /\
    str_forall is_digit ds = true /\
    forall a r, read_digits a (ds +:+ r) = read_digits (a * 10 ^ Z.of_nat (String.length ds) + n) r.
Proof.
  revert n acc. induction fuel as [|fuel IH]; [done|]. intros n acc Hn _. simpl.
  pose proof (Z.mod_pos_bound n 10 ltac:(lia)) as Hm.
  destruct (digit_char_spec (n mod 10) Hm) as [Hd _].
  assert (Hdig : is_digit (digit_char (n mod 10)) = true) by (apply is_digit_spec; eauto).
  destruct (n <? 10) eqn:Hlt; bool_to_prop.
  - exists (String (digit_char (n mod 10)) EmptyString). split_and!; [done|done|by simpl; rewrite Hdig|].
    intros a r. rewrite str_app_cons, str_app_nil_l. simpl. rewrite Hd.
    f_equal. rewrite Z.mod_small by lia. lia.
  - assert (Hfuel : fuel <> O) by (intros ->; change (2 ^ Z.of_nat 1) with 2 in Hn; lia).
    destruct (IH (n / 10) (String (digit_char (n mod 10)) acc)) as (ds & Heq & Hne & Hall & Hread).
    { split; [apply Z.div_pos; lia|]. apply Z.div_lt_upper_bound; [lia|].
      rewrite Nat2Z.inj_succ, Z.pow_succ_r in Hn by lia. lia. }
    { done. }
    exists (ds +:+ String (digit_char (n mod 10)) EmptyString). split_and!.
    + rewrite Heq, str_app_assoc. done.
    + by destruct ds.
    + rewrite str_forall_app, Hall. simpl. by rewrite Hdig.
    + intros a r. rewrite str_app_assoc, str_app_cons, str_app_nil_l, Hread. simpl.
      rewrite Hd, str_length_app. simpl. f_equal.
      rewrite Nat.add_1_r, Nat2Z.inj_succ, Z.pow_succ_r by lia.
      pose proof (Z.div_mod n 10 ltac:(lia)). lia.
Qed.

Lemma to_string_spec n : 0 <= n ->
  to_string n <> EmptyString /\ str_forall is_digit (to_string n) = true /\
  forall r, read_digits 0 (to_string n +:+ r) = read_digits n r.
Proof.
  intros Hn. unfold to_string.
  destruct (to_string_go_spec (S (Z.to_nat (Z.log2 n))) n EmptyString) as (ds & -> & ? & ? & Hr).
  - split; [done|]. rewrite Nat2Z.inj_succ, Z2Nat.id by apply Z.log2_nonneg.
    destruct (decide (n = 0)) as [->|]; [done|]. apply Z.log2_spec; lia.
  - done.
  - rewrite str_app_nil_r. split_and!; [done..|]. intros r. by rewrite Hr.
Qed.

Lemma digit_not_space c : is_digit c = true -> isspace c = false.
Proof.
  rewrite is_digit_spec. unfold char_digit. intros [d Hd].
  destruct (isspace c) eqn:Hs; [|done].
  by destruct c as [[] [] [] [] [] [] [] []].
Qed.

Lemma to_string_word n : 0 <= n -> is_word (to_string n) = true.
Proof.
  intros Hn. destruct (to_string_spec n Hn) as (Hne & Hd & _). apply is_word_spec.
  split; [done|]. eapply str_forall_impl; [|done].
  intros c Hc. by rewrite digit_not_space.
Qed.

Lemma to_string_no_char c n : 0 <= n -> is_digit c = false -> no_char c (to_string n) = true.
Proof.
  intros Hn Hc. destruct (to_string_spec n Hn) as (_ & Hd & _).
  eapply str_forall_impl; [|done]. intros d Hdd.
  apply negb_true_iff, bool_decide_eq_false. intros ->. congruence.
Qed.

(** [from_chars] reads back what [to_string] printed, and stops right behind it. *)
Lemma from_chars_to_string max n r :
  0 <= n <= max -> head_is (fun c => negb (is_digit c)) r = true ->
  from_chars max (to_string n +:+ r) = FromChars errc_ok (Some n) r.
Proof.
  intros Hn Hr. destruct (to_string_spec n ltac:(lia)) as (Hne & Hd & Hread).
  unfold from_chars.
  assert (Hh : head_is (fun c => negb (is_digit c)) (to_string n +:+ r) = false).
  { destruct (to_string n) as [|c s]; [done|]. rewrite str_app_cons. simpl in *.
    apply andb_true_iff in Hd as [-> _]. done. }
  rewrite Hh, Hread.
  assert (Hstop : read_digits n r = (n, r)).
  { destruct r as [|c r']; [done|]. simpl in *. apply negb_true_iff in Hr.
    destruct (char_digit c) eqn:Hc; [|done].
    assert (is_digit c = true) by (apply is_digit_spec; eauto). congruence. }
  rewrite Hstop. replace (n <=? max) with true by (symmetry; apply Z.leb_le; lia). done.
Qed.

(** ** What a failed [from_chars] means *)

Lemma read_digits_nonneg a s : 0 <= a -> 0 <= (read_digits a s).1.
Proof.
  revert a. induction s as [|c s IH]; intros a Ha; simpl; [lia|].
  destruct (char_digit c) eqn:Hc; [|done]. apply IH.
  unfold char_digit in Hc. split_tests. bool_to_prop. lia.
Qed.

Lemma from_chars_range max s v :
  fc_value (from_chars max s) = Some v -> 0 <= v <= max.
Proof.
  unfold from_chars. destruct (head_is _ _); [done|].
  pose proof (read_digits_nonneg 0 s ltac:(lia)) as Hnn.
  destruct (read_digits 0 s) as [w r]; simpl in *.
  destruct (w <=? max) eqn:Hle; simpl; [|done]. intros [= ->]. bool_to_prop. lia.
Qed.

Example to_string_ex : to_string 43170 = "43170" /\ to_string 0 = "0" /\
  to_string uint64_max = "18446744073709551615".
Proof. by vm_compute. Qed.
Example from_chars_ex :
  from_chars uint64_max "12abc" = FromChars errc_ok (Some 12) "abc" /\
  from_chars uint64_max "18446744073709551616" = FromChars errc_result_out_of_range None "" /\
  from_chars uint64_max "-1" = FromChars errc_invalid_argument None "-1".
Proof. by vm_compute. Qed.
Example stoi_ex : stoi " -12x" = Some (-12) /\ stoi "4294967296" = None /\ stoi "x" = None.
Proof. by vm_compute. Qed.
Example getlines_ex : getlines ("a" +:+ nl +:+ nl +:+ "b") = ["a"; ""; "b"]%string.
Proof. by vm_compute. Qed.

(** ** Injectivity *)

Lemma to_string_inj n m : 0 <= n -> 0 <= m -> to_string n = to_string m -> n = m.
Proof.
  intros Hn Hm Heq. destruct (to_string_spec n Hn) as (_ & _ & Hrn).
  destruct (to_string_spec m Hm) as (_ & _ & Hrm).
  specialize (Hrn ""). specialize (Hrm ""). rewrite Heq, Hrm in Hrn. by simpl in Hrn; simplify_eq.
Qed.

Lemma split_char_inj c k1 k2 v1 v2 :
  no_char c k1 = true -> no_char c k2 = true ->
  k1 +:+ String c v1 = k2 +:+ String c v2 -> k1 = k2 /\ v1 = v2.
Proof.
  intros H1 H2 Heq. pose proof (find_char_app c k1 v1 H1) as Hf1.
  pose proof (find_char_app c k2 v2 H2) as Hf2. rewrite Heq, Hf2 in Hf1. injection Hf1 as Hlen.
  pose proof (substring_all k1 (String c v1)) as Ha1. pose proof (substring_all k2 (String c v2)) as Ha2.
  rewrite Heq, <- Hlen, Ha2 in Ha1. split; [done|]. subst k2.
  apply (inj (String.app k1)) in Heq. by injection Heq.
Qed.

Definition unlines (ls : list string) : string := foldr (fun l rest => l +:+ nl +:+ rest) "" ls.

Lemma getlines_unlines ls :
  Forall (fun l => no_char newline l = true) ls -> getlines (unlines ls) = ls.
Proof. induction 1 as [|l ls Hl _ IH]; [done|]. simpl. by rewrite getlines_line, IH. Qed.

Lemma getlines_one l : no_char newline l = true -> l <> "" -> getlines l = [l].
Proof.
  induction l as [|c l IH]; intros Hn Hne; [done|]. unfold no_char in *. simpl in *. apply andb_true_iff in Hn as [Hc Hn].
  rewrite decide_False by (intros ->; done). destruct l as [|d l]; [done|]. by rewrite IH.
Qed.

(** A last line without its newline is a line all the same. *)
Lemma getlines_last ls l : Forall (fun l => no_char newline l = true) ls -> no_char newline l = true -> l <> EmptyString ->
  getlines (unlines ls +:+ l) = ls ++ [l].
Proof.
  intros Hls Hl Hne. induction Hls as [|k ls Hk _ IH]; [by apply getlines_one|].
  unfold unlines. cbn [foldr]. fold (unlines ls). autorewrite with str. by rewrite getlines_line, IH.
Qed.

Lemma unlines_app ls ks : unlines (ls ++ ks) = unlines ls +:+ unlines ks.
Proof. induction ls as [|l ls IH]; [done|]. simpl. rewrite IH. by autorewrite with str. Qed.

(** ** [key=value] tokens *)

(** What follows the first '=' of a token; nothing if there is none. *)
Definition after_equals (token : string) : string :=
  match find_char "="%char token with
  | None => ""
  | Some equals => substr_from token (S equals)
  end.

Lemma after_equals_pair p v : no_char "="%char p = true -> after_equals (p +:+ "=" +:+ v) = v.
Proof.
  intros Hp. unfold after_equals. change ("=" +:+ v) with (String "=" v).
  rewrite find_char_app by done. apply substr_from_after.
Qed.

(** The same for a literal [lit] that ends in its only '='. *)
Definition key_literal (lit : string) : Prop :=
  let p := String.substring 0 (String.length lit - 1) lit in
  lit = p +:+ "=" /\ no_char "="%char p = true.
Lemma after_equals_literal lit v : key_literal lit -> after_equals (lit +:+ v) = v.
Proof.
  unfold key_literal. generalize (String.substring 0 (String.length lit - 1) lit) as p.
  intros p [-> Hp]. rewrite str_app_assoc. by apply after_equals_pair.
Qed.

(** A key, '=' and a value without white space make one token. *)
Lemma is_word_pair p v : is_word p = true -> no_space v = true -> is_word (p +:+ "=" +:+ v) = true.
Proof.
  intros [Hne Hp]%is_word_spec Hv. apply is_word_spec. split; [by destruct p|].
  unfold no_space in *. rewrite !str_forall_app, Hp, Hv. done.
Qed.

(** Parsing a whole text as an unsigned number of at most [max]: the value is stored even
    when characters follow it, success needs that none do. *)
Definition parse_unsigned (max : Z) (value : string) (old : Z) : Z * bool :=
  let result := from_chars max value in
  (default old (fc_value result), bool_decide (fc_ec result = errc_ok) && str_empty (fc_rest result)).

Lemma parse_unsigned_to_string max n old : 0 <= n <= max -> parse_unsigned max (to_string n) old = (n, true).
Proof.
  intros Hn. unfold parse_unsigned. rewrite <- (str_app_nil_r (to_string n)).
  by rewrite from_chars_to_string.
Qed.

Lemma parse_unsigned_range max value old : 0 <= old <= max -> 0 <= (parse_unsigned max value old).1 <= max.
Proof.
  intros Ho. unfold parse_unsigned; simpl. destruct (fc_value (from_chars max value)) as [v|] eqn:Hv; simpl; [|done].
  by eapply from_chars_range.
Qed.

(** Success means the text is the decimal numeral of the value: digits only. *)
Lemma read_digits_all a s v : read_digits a s = (v, "") -> str_forall is_digit s = true.
Proof.
  revert a. induction s as [|c s IH]; intros a; simpl; [done|].
  destruct (char_digit c) eqn:Hc; [|done]. intros H.
  rewrite (IH _ H), andb_true_r. apply is_digit_spec. eauto.
Qed.

Lemma parse_unsigned_success max value old v :
  parse_unsigned max value old = (v, true) ->
  value <> "" /\ str_forall is_digit value = true /\ read_digits 0 value = (v, "") /\ 0 <= v <= max.
Proof.
  unfold parse_unsigned. intros [= Hv Hok%andb_true_iff]. destruct Hok as [Hec Hrest].
  apply bool_decide_eq_true in Hec. apply str_empty_true in Hrest.
  unfold from_chars in *. destruct (head_is _ value) eqn:Hh; [done|].
  destruct (read_digits 0 value) as [w r] eqn:Hr. destruct (w <=? max) eqn:Hle; simpl in *; [|done].
  subst. pose proof (read_digits_nonneg 0 value ltac:(lia)) as Hn. rewrite Hr in Hn. simpl in *. bool_to_prop.
  split_and!; [by intros ->|by eapply read_digits_all|done|lia|lia].
Qed.

Lemma str_forall_substring p n m s : str_forall p s = true -> str_forall p (String.substring n m s) = true.
Proof.
  revert n m. induction s as [|c s IH]; intros n m Hs; simpl in *; [by destruct n, m|].
  apply andb_true_iff in Hs as [Hc Hs]. destruct n as [|n]; [|by apply IH].
  destruct m as [|m]; simpl; [done|]. by rewrite Hc, IH.
Qed.

Lemma after_equals_no_space t : no_space t = true -> no_space (after_equals t) = true.
Proof. intros Ht. unfold after_equals. case_match; [by apply str_forall_substring|done]. Qed.

Lemma starts_with_app_l s p t : starts_with s p = true -> starts_with (s +:+ t) p = true.
Proof.
  unfold starts_with. revert p. induction s as [|c s IH]; intros [|d p]; simpl; try done.
  - by destruct t.
  - destruct (Ascii.ascii_dec d c); [apply IH|done].
Qed.

#[global] Arguments starts_with : simpl never.
#[global] Arguments after_equals : simpl never.
#[global] Arguments parse_unsigned : simpl never.
#[global] Arguments to_string : simpl never.
#[global] Arguments tokens : simpl never.

(** Decide the prefix tests on a token [key=value] with a literal key. *)
Ltac resolve_prefix :=
  repeat match goal with
  | |- context [starts_with ?t ?p] =>
      first [ replace (starts_with t p) with false by reflexivity
            | replace (starts_with t p) with true by (symmetry; exact (starts_with_app p _)) ]
  end.
