(* ===== verification/CxxContainers.v ===== *)
(** * The containers and algorithms of the C++ library the sources use

    - [std::map<std::string, V>] is a [gmap string V]; iteration visits the keys in
      increasing order ([map_items]).
    - [std::sort] is an interface ([StdSort]): any function that returns a permutation
      ordered by the comparator.  The standard fixes nothing more (the order of equivalent
      elements is free), so the clients' theorems are proved against the interface;
      [merge_sort_StdSort] shows it is inhabited and gives the witnesses a function to run.
    - [std::find_if] on a vector is stdpp's [list_find]; [end()] is [None]. *)

From S2P Require Import Prelude.

(** ** Definitions *)

Definition key_le {V} (p q : string * V) : Prop := String.le p.1 q.1.
#[global] Instance key_le_dec {V} : RelDecision (@key_le V).
Proof. intros p q. unfold key_le. apply _. Defined.
#[global] Instance key_le_trans {V} : Transitive (@key_le V).
Proof. intros p q r. unfold key_le. apply transitivity. Qed.
#[global] Instance key_le_total {V} : Total (@key_le V).
Proof. intros p q. unfold key_le. apply total, _. Qed.

(** The pairs [for (const auto& [key, value] : m)] visits. *)
Definition map_items {V} (m : gmap string V) : list (string * V) :=
  merge_sort key_le (map_to_list m).

(** Storing pairs one after the other: [m[key] = value]. *)
Definition map_store {V} (m : gmap string V) (kvs : list (string * V)) : gmap string V :=
  foldl (fun m kv => <[kv.1 := kv.2]> m) m kvs.

(** [std::sort(begin, end, less)] for a strict weak order given as a key comparison. *)
Class StdSort := {
  std_sort : forall {A : Type}, (A -> A -> bool) -> list A -> list A;
  std_sort_perm : forall A (less : A -> A -> bool) l, std_sort less l ≡ₚ l;
  std_sort_sorted : forall A (less : A -> A -> bool) l,
    (forall x y, less x y = true -> less y x = false) ->
    (forall x y z, less y x = false -> less z y = false -> less z x = false) ->
    StronglySorted (fun x y => less y x = false) (std_sort less l);
}.

(** The instance: stdpp's merge sort, run with "not greater". *)
Definition not_greater {A} (less : A -> A -> bool) (x y : A) : Prop := less y x = false.
#[global] Instance not_greater_dec {A} (less : A -> A -> bool) : RelDecision (not_greater less).
Proof. intros x y. unfold not_greater. apply _. Defined.

(** [v.resize(n)] of a longer vector keeps the first [n] elements. *)
Definition shrink_to {A} (n : Z) (l : list A) : list A := take (Z.to_nat n) l.

(** [v.size()]. *)
Definition size_of {A} (l : list A) : Z := Z.of_nat (length l).

(** ** [std::sort] *)

Lemma merge_sort_not_greater {A} (less : A -> A -> bool) l :
  (forall x y, less x y = true -> less y x = false) ->
  (forall x y z, less y x = false -> less z y = false -> less z x = false) ->
  StronglySorted (not_greater less) (merge_sort (not_greater less) l).
Proof.
  intros Hasym Htrans.
  assert (Htr : Transitive (not_greater less)) by (intros x y z; apply Htrans).
  assert (Hto : Total (not_greater less)).
  { intros x y. unfold not_greater. destruct (less y x) eqn:H; [right; auto|by left]. }
  apply StronglySorted_merge_sort; apply _.
Qed.

#[global] Instance merge_sort_StdSort : StdSort := {|
  std_sort A less l := merge_sort (not_greater less) l;
  std_sort_perm A less l := merge_sort_Permutation (not_greater less) l;
  std_sort_sorted A less l := merge_sort_not_greater less l;
|}.

(** ** [std::map] *)

Section map.
Context {V : Type}.
Implicit Types (m : gmap string V) (l : list (string * V)).

Lemma map_items_perm m : map_items m ≡ₚ map_to_list m.
Proof. apply merge_sort_Permutation. Qed.

Lemma map_items_sorted m : StronglySorted key_le (map_items m).
Proof. apply (StronglySorted_merge_sort key_le). Qed.

Lemma map_items_NoDup m : NoDup (map_items m).*1.
Proof. rewrite map_items_perm. apply NoDup_fst_map_to_list. Qed.

Lemma elem_of_map_items m k v : (k, v) ∈ map_items m <-> m !! k = Some v.
Proof. rewrite map_items_perm. apply elem_of_map_to_list. Qed.

Lemma map_store_list_to_map m l :
  NoDup l.*1 -> map_store m l = list_to_map l ∪ m.
Proof.
  revert m. induction l as [|[k v] l IH]; intros m; csimpl.
  - intros _. by rewrite (left_id_L ∅ (∪)).
  - intros [Hk Hl]%NoDup_cons. rewrite IH by done.
    simpl. rewrite <- insert_union_l, insert_union_r; [done|].
    by apply not_elem_of_list_to_map.
Qed.

(** Storing the pairs of a map in iteration order rebuilds the map. *)
Lemma map_store_items m : map_store ∅ (map_items m) = m.
Proof.
  rewrite map_store_list_to_map by apply map_items_NoDup.
  rewrite (right_id_L ∅ (∪)). etrans; [|apply list_to_map_to_list].
  apply list_to_map_proper; [apply map_items_NoDup|apply map_items_perm].
Qed.

(** Iteration order is a function of the contents: a list with the same pairs, ordered by
    key, is [map_items]. *)
Lemma map_items_unique m l :
  NoDup l.*1 -> StronglySorted key_le l -> list_to_map l = m -> map_items m = l.
Proof.
  intros Hnd Hl Hm.
  assert (Hp : map_items m ≡ₚ l).
  { rewrite map_items_perm, <- Hm. by apply map_to_list_to_map. }
  eapply (StronglySorted_unique_strong key_le); [|apply map_items_sorted|done|done].
  intros [k1 v1] [k2 v2] H1 H2 Hle Hge. unfold key_le in *; simpl in *.
  assert (k1 = k2) as -> by (by apply (anti_symm String.le)).
  apply elem_of_map_items in H1. rewrite <- Hp in H2. apply elem_of_map_items in H2. congruence.
Qed.
End map.

Lemma size_of_nonneg {A} (l : list A) : 0 <= size_of l.
Proof. unfold size_of. lia. Qed.
Lemma size_of_app {A} (l k : list A) : size_of (l ++ k) = size_of l + size_of k.
Proof. unfold size_of. rewrite length_app. lia. Qed.
Lemma size_of_cons {A} (x : A) l : size_of (x :: l) = 1 + size_of l.
Proof. unfold size_of. simpl length. lia. Qed.
#[export] Hint Resolve size_of_nonneg : beacon.

Example map_items_ex :
  map_items (<["b" := 1]> (<["a" := 2]> (<["ab" := 3]> ∅)) : gmap string Z)
  = [("a", 2); ("ab", 3); ("b", 1)]%string.
Proof. by vm_compute. Qed.
