(* ===== verification/Types.v ===== *)
(** * The data model: [src/src/beacon/types.hpp] and [src/src/beacon/config.hpp]

    A [TimePoint] is a reading of [std::chrono::steady_clock], counted in nanoseconds as an
    integer; durations are integers of the unit their type names. *)

From S2P Require Import Prelude CxxContainers.

Definition TimePoint : Type := Z.

(** [Clock::duration] of a number of milliseconds, minutes or hours. *)
Definition milliseconds (n : Z) : Z := n * 1000000.
Definition minutes (n : Z) : Z := milliseconds (n * 60000).
Definition hours (n : Z) : Z := minutes (n * 60).

Record AgentRecord := mkAgentRecord {
  agent_id : string;
  node_id : string;
  endpoint : string;
  metadata : gmap string string;
  revision : Z;
  expires_at : TimePoint;
  public_key_hex : string;
  signature_hex : string;
}.
#[global] Instance AgentRecord_eq_dec : EqDecision AgentRecord.
Proof. solve_decision. Defined.

(** [AgentRecord record;] at clock reading [now]: the member initialisers. *)
Definition default_AgentRecord (now : TimePoint) : AgentRecord :=
  mkAgentRecord "" "" "" ∅ 0 now "" "".

(** Assignments to one member. *)
Definition set_agent_id v r :=
  mkAgentRecord v (node_id r) (endpoint r) (metadata r) (revision r) (expires_at r) (public_key_hex r) (signature_hex r).
Definition set_node_id v r :=
  mkAgentRecord (agent_id r) v (endpoint r) (metadata r) (revision r) (expires_at r) (public_key_hex r) (signature_hex r).
Definition set_endpoint v r :=
  mkAgentRecord (agent_id r) (node_id r) v (metadata r) (revision r) (expires_at r) (public_key_hex r) (signature_hex r).
Definition set_metadata v r :=
  mkAgentRecord (agent_id r) (node_id r) (endpoint r) v (revision r) (expires_at r) (public_key_hex r) (signature_hex r).
Definition set_revision v r :=
  mkAgentRecord (agent_id r) (node_id r) (endpoint r) (metadata r) v (expires_at r) (public_key_hex r) (signature_hex r).
Definition set_expires_at v r :=
  mkAgentRecord (agent_id r) (node_id r) (endpoint r) (metadata r) (revision r) v (public_key_hex r) (signature_hex r).
Definition set_public_key_hex v r :=
  mkAgentRecord (agent_id r) (node_id r) (endpoint r) (metadata r) (revision r) (expires_at r) v (signature_hex r).
Definition set_signature_hex v r :=
  mkAgentRecord (agent_id r) (node_id r) (endpoint r) (metadata r) (revision r) (expires_at r) (public_key_hex r) v.

Record RegistryStats := mkRegistryStats {
  active_agents : Z;
  highest_revision : Z;
}.

Record NodeConfig := mkNodeConfig {
  cfg_node_id : string;
  listen_host : string;
  listen_port : Z;
  control_host : string;
  control_port : Z;
}.

Record GossipConfig := mkGossipConfig {
  interval : Z;
  fanout : Z;
  max_registry_items_per_round : Z;
}.

Record LifecycleConfig := mkLifecycleConfig {
  heartbeat_ttl : Z;
  purge_interval : Z;
}.

Record TrustConfig := mkTrustConfig {
  malformed_threshold : Z;
  rate_limit_per_minute : Z;
  require_signatures : bool;
}.

Record BeaconConfig := mkBeaconConfig {
  node : NodeConfig;
  gossip : GossipConfig;
  lifecycle : LifecycleConfig;
  trust : TrustConfig;
}.

(** [default_config()] of [config.cpp]: the member initialisers of [config.hpp]. *)
Definition default_config : BeaconConfig :=
  mkBeaconConfig
    (mkNodeConfig "dev-node" "0.0.0.0" 43170 "127.0.0.1" 43171)
    (mkGossipConfig 2000 3 256)
    (mkLifecycleConfig 30000 10000)
    (mkTrustConfig 5 120 false).
