(* ===== verification/Sodium.v ===== *)
(** * The interface to libsodium

    libsodium is not part of the repository.  [Sodium] collects the build option
    [BEACONNODE_ENABLE_LIBSODIUM] and the library functions the sources call; [SodiumLaws]
    states what the library's documentation promises of them.  [toy_sodium] is a concrete
    instance (a key is its own verifier: the signature of a message under a key is a keyed
    checksum) that satisfies the laws and lets the witnesses run; it plays no role in the
    theorems. *)

From S2P Require Import Prelude CxxContainers.

Class Sodium := {
  sodium_enabled : bool;
  crypto_sign_PUBLICKEYBYTES : Z;
  crypto_sign_BYTES : Z;
  crypto_sign_SECRETKEYBYTES : Z;
  (** signature, message, public key; 0 when the signature is good *)
  crypto_sign_verify_detached : bytes -> bytes -> bytes -> Z;
  (** message, secret key *)
  crypto_sign_detached : bytes -> bytes -> bytes;
  (** the random draw; public key and secret key *)
  crypto_sign_keypair : Z -> bytes * bytes;
  (** two blocks and the number of bytes compared *)
  sodium_memcmp : bytes -> bytes -> Z -> Z;
}.

(** What the libsodium documentation states of them. *)
Class SodiumLaws {S : Sodium} := {
  keypair_sizes : forall seed,
    size_of (crypto_sign_keypair seed).1 = crypto_sign_PUBLICKEYBYTES /\
    size_of (crypto_sign_keypair seed).2 = crypto_sign_SECRETKEYBYTES;
  signature_size : forall m sk, size_of (crypto_sign_detached m sk) = crypto_sign_BYTES;
  sign_then_verify : forall seed m,
    crypto_sign_verify_detached
      (crypto_sign_detached m (crypto_sign_keypair seed).2) m (crypto_sign_keypair seed).1 = 0;
  key_sizes : crypto_sign_PUBLICKEYBYTES = 32 /\ crypto_sign_BYTES = 64 /\
    crypto_sign_SECRETKEYBYTES = 64;
  memcmp_equal : forall a b n,
    sodium_memcmp a b n = 0 <-> take (Z.to_nat n) a = take (Z.to_nat n) b;
}.
Arguments SodiumLaws : clear implicits.

(** ** A concrete instance *)

Definition toy_mac (m key : bytes) : byte :=
  byte_of_Z (foldl (fun acc b => acc * 31 + Z_of_byte b) 7 (m ++ take 32 key)).

#[global] Instance toy_sodium : Sodium := {|
  sodium_enabled := true;
  crypto_sign_PUBLICKEYBYTES := 32;
  crypto_sign_BYTES := 64;
  crypto_sign_SECRETKEYBYTES := 64;
  crypto_sign_verify_detached sig m pk :=
    if decide (sig = replicate 64 (toy_mac m pk)) then 0 else -1;
  crypto_sign_detached m sk := replicate 64 (toy_mac m sk);
  crypto_sign_keypair seed :=
    (replicate 32 (byte_of_Z seed), replicate 64 (byte_of_Z seed));
  sodium_memcmp a b n :=
    if decide (take (Z.to_nat n) a = take (Z.to_nat n) b) then 0 else -1;
|}.

(** The same functions in a build without libsodium. *)
Definition no_sodium : Sodium := {|
  sodium_enabled := false;
  crypto_sign_PUBLICKEYBYTES := 32;
  crypto_sign_BYTES := 64;
  crypto_sign_SECRETKEYBYTES := 64;
  crypto_sign_verify_detached _ _ _ := -1;
  crypto_sign_detached _ _ := [];
  crypto_sign_keypair _ := ([], []);
  sodium_memcmp _ _ _ := -1;
|}.

#[global] Instance toy_sodium_laws : SodiumLaws toy_sodium.
Proof.
  split.
  - done.
  - done.
  - intros seed m. apply decide_True. done.
  - done.
  - intros a b n. unfold sodium_memcmp, toy_sodium. case_decide; naive_solver.
Qed.
