(* ===== verification/SecureBuffer.v ===== *)
(** * Locked key buffers: [src/src/beacon_net/secure_buffer.hpp]

    A buffer is its two members: [data_], the block it owns ([None] is [nullptr]), and
    [size_].  What the allocator returns is an argument of the operations that allocate
    ([None]: out of memory; the contents of a fresh block are arbitrary).  Operations that
    free a block also return its contents at the moment it is handed back, so that wiping
    can be stated. *)

From S2P Require Import Prelude CxxContainers Sodium.

(** ** Definitions *)

Record SecureBuffer := mkSecureBuffer {
  data_ : option bytes;
  size_ : Z;
}.
#[global] Instance SecureBuffer_eq_dec : EqDecision SecureBuffer.
Proof. solve_decision. Defined.

Definition empty_buffer : SecureBuffer := mkSecureBuffer None 0.

(** [alloc(size)] on a buffer: the buffer after it, and whether it returned normally
    (otherwise [std::bad_alloc] left it).  [data_] is assigned before the test. *)
Definition alloc (block : option bytes) (size : Z) (b : SecureBuffer) : SecureBuffer * bool :=
  match block with
  | None => (mkSecureBuffer None (size_ b), false)
  | Some blk => (mkSecureBuffer (Some blk) size, true)
  end.

(** [explicit SecureBuffer(std::size_t size)]. *)
Definition new_buffer (block : option bytes) (size : Z) : SecureBuffer * bool :=
  if 0 <? size then alloc block size empty_buffer else (empty_buffer, true).

(** The loop [p[i] = 0] for [i < size] over a block. *)
Fixpoint zero_first (n : nat) (blk : bytes) : bytes :=
  match n, blk with
  | O, _ => blk
  | S _, [] => []
  | S n', _ :: blk' => Byte.x00 :: zero_first n' blk'
  end.

(** [wipe_and_free]: the contents of the block handed back, if there is one. *)
Definition wipe_and_free (b : SecureBuffer) : option bytes :=
  zero_first (Z.to_nat (size_ b)) <$> data_ b.

(** The move constructor: the new buffer and what is left of [other]. *)
Definition move_construct (other : SecureBuffer) : SecureBuffer * SecureBuffer :=
  (other, empty_buffer).

(** Move assignment between distinct objects: the target, [other], the freed block. *)
Definition move_assign (this other : SecureBuffer) : SecureBuffer * SecureBuffer * option bytes :=
  (other, empty_buffer, wipe_and_free this).

Definition clear (b : SecureBuffer) : SecureBuffer * option bytes :=
  (empty_buffer, wipe_and_free b).

(** [std::memcpy(dst, src, n)]. *)
Definition memcpy (dst src : bytes) (n : nat) : bytes := take n src ++ drop n dst.

(** [resize(new_size)]: the buffer, whether it returned normally, and the freed block. *)
Definition resize (block : option bytes) (new_size : Z) (b : SecureBuffer)
    : SecureBuffer * bool * option bytes :=
  if (new_size =? size_ b) || (new_size =? 0) then
    if new_size =? 0 then let '(b', freed) := clear b in (b', true, freed) else (b, true, None)
  else
    let old := data_ b in
    let old_size := size_ b in
    let '(b', ok) := alloc block new_size b in
    if ok then
      let filled := match old, data_ b' with
                    | Some o, Some d =>
                        Some (memcpy d o (Z.to_nat (if old_size <? new_size then old_size else new_size)))
                    | _, d => d
                    end in
      (mkSecureBuffer filled (size_ b'), true, zero_first (Z.to_nat old_size) <$> old)
    else (b', false, None).

(** The portable comparison loop: [diff |= a[i] ^ b[i]] for [i < n]. *)
Fixpoint diff_loop (n : nat) (a b : bytes) (diff : Z) : Z :=
  match n, a, b with
  | S n', x :: a', y :: b' => diff_loop n' a' b' (Z.lor diff (Z.lxor (Z_of_byte x) (Z_of_byte y)))
  | _, _, _ => diff
  end.

Definition constant_time_equals {S : Sodium} (this other : SecureBuffer) : bool :=
  if negb (size_ this =? size_ other) then false
  else match data_ this, data_ other with
       | Some a, Some b =>
           if sodium_enabled then sodium_memcmp a b (size_ this) =? 0
           else diff_loop (Z.to_nat (size_ this)) a b 0 =? 0
       | None, None => true
       | _, _ => false
       end.

(** [empty], [operator bool], [operator[]] ([None]: undefined), and what a loop from [begin()]
    to [end()] sees. *)
Definition is_empty (b : SecureBuffer) : bool := size_ b =? 0.
Definition has_block (b : SecureBuffer) : bool := match data_ b with None => false | Some _ => true end.
Definition byte_at (i : Z) (b : SecureBuffer) : option byte := blk ← data_ b; if 0 <=? i then blk !! Z.to_nat i else None.
Definition iterated (b : SecureBuffer) : bytes :=
  match data_ b with None => [] | Some blk => take (Z.to_nat (size_ b)) blk end.

(** The class invariant: the recorded size is the size of the block. *)
Definition buffer_ok (b : SecureBuffer) : Prop :=
  match data_ b with
  | None => size_ b = 0
  | Some blk => size_ b = size_of blk /\ 0 < size_ b
  end.

(** The bytes a buffer holds. *)
Definition contents (b : SecureBuffer) : bytes := default [] (data_ b).

(** [SecureBuffer(bytes.size())] followed by [std::copy(begin, end, buffer.data())]. *)
Definition buffer_of_bytes (bs : bytes) : SecureBuffer :=
  match bs with [] => empty_buffer | _ => mkSecureBuffer (Some bs) (size_of bs) end.

(** ** Lemmas *)

Lemma lxor_bytes_0 x y : Z.lxor (Z_of_byte x) (Z_of_byte y) = 0 <-> x = y.
Proof. rewrite Z.lxor_eq_0_iff. split; [apply (inj Z_of_byte)|by intros ->]. Qed.

Lemma diff_loop_0 n a b d : length a = n -> length b = n ->
  diff_loop n a b d = 0 <-> d = 0 /\ a = b.
Proof.
  revert a b d. induction n as [|n IH]; intros [|x a] [|y b] d; simpl; try done.
  { intros _ _. split; [done|by intros [-> _]]. }
  intros [= Ha] [= Hb]. rewrite IH by done. rewrite Z.lor_eq_0_iff, lxor_bytes_0.
  split; [by intros [[-> ->] ->]|by intros [-> [= -> ->]]].
Qed.

Lemma zero_first_all n blk : length blk = n -> zero_first n blk = replicate n Byte.x00.
Proof.
  revert blk. induction n as [|n IH]; intros [|x blk]; simpl; try done.
  intros [= H]. by rewrite IH.
Qed.

Lemma buffer_of_bytes_ok bs : buffer_ok (buffer_of_bytes bs) /\ contents (buffer_of_bytes bs) = bs.
Proof.
  destruct bs as [|b bs]; [done|]. unfold buffer_of_bytes, buffer_ok, contents. simpl.
  unfold size_of. simpl length. split; [|done]. split; lia.
Qed.

(** Comparison of well-formed buffers is equality of contents, in both builds. *)
Lemma constant_time_equals_contents {S : Sodium} `{!SodiumLaws S} a b :
  buffer_ok a -> buffer_ok b ->
  constant_time_equals a b = true <-> contents a = contents b.
Proof.
  unfold buffer_ok, constant_time_equals, contents.
  destruct a as [[a|] na], b as [[b|] nb]; simpl; intros Ha Hb.
  - destruct Ha as [-> Ha], Hb as [-> Hb].
    destruct (size_of a =? size_of b) eqn:Hn; bool_to_prop; simpl;
      [|split; [done|]; intros ->; congruence].
    assert (length a = length b) as Hlen by (unfold size_of in *; lia).
    destruct sodium_enabled; rewrite Z.eqb_eq.
    + rewrite memcmp_equal. unfold size_of. rewrite Nat2Z.id.
      by rewrite firstn_all, Hlen, firstn_all.
    + rewrite diff_loop_0 by (unfold size_of; rewrite Nat2Z.id; done). split; [by intros [_ ->]|done].
  - destruct Ha as [-> Ha]; subst nb. rewrite (proj2 (Z.eqb_neq _ _)) by lia. simpl.
    split; [done|]. intros Heq. rewrite Heq in Ha. done.
  - destruct Hb as [-> Hb]; subst na. rewrite (proj2 (Z.eqb_neq _ _)) by lia. simpl.
    split; [done|]. intros Heq. rewrite <- Heq in Hb. done.
  - subst. done.
Qed.

(** In a well-formed buffer the accessors agree: it is empty exactly when it has no block, and
    both indexing and iteration see its contents. *)
Lemma accessors_agree b : buffer_ok b ->
  is_empty b = negb (has_block b) /\ iterated b = contents b /\
  forall i, 0 <= i < size_ b -> byte_at i b = contents b !! Z.to_nat i /\ is_Some (byte_at i b).
Proof.
  unfold buffer_ok, is_empty, has_block, iterated, byte_at, contents. destruct (data_ b) as [blk|]; simpl.
  - intros [Hs Hp]. rewrite (proj2 (Z.eqb_neq _ _)) by lia. split_and!; [done| |].
    + apply take_ge. unfold size_of in Hs. lia.
    + intros i Hi. rewrite (proj2 (Z.leb_le 0 i)) by lia. split; [done|]. apply lookup_lt_is_Some_2. unfold size_of in Hs. lia.
  - intros ->. split_and!; [done|done|lia].
Qed.

Lemma memcpy_length dst src n :
  (n <= length src)%nat -> (n <= length dst)%nat -> length (memcpy dst src n) = length dst.
Proof. intros. unfold memcpy. rewrite length_app, length_take, length_drop. lia. Qed.

(** ** Properties *)

(** Whatever an operation hands back to the allocator has been overwritten with zeros. *)
Definition wiped (freed : option bytes) : Prop :=
  match freed with None => True | Some blk => blk = replicate (length blk) Byte.x00 end.

Lemma wipe_and_free_wiped b : buffer_ok b -> wiped (wipe_and_free b).
Proof.
  unfold buffer_ok, wipe_and_free. destruct (data_ b) as [blk|]; [|done]. intros [-> _]. simpl.
  rewrite zero_first_all by (unfold size_of; lia). by rewrite length_replicate.
Qed.

(** Key material is compared and discarded safely: [constant_time_equals] holds exactly of
    buffers with equal contents; and [clear], move assignment and a [resize] that returns give
    only zeroed blocks back, keep the class invariant, and a growing [resize] keeps the old
    contents in front. *)
Theorem secure_buffer_contract {S : Sodium} {L : SodiumLaws S} a b block n
    (a_ok : buffer_ok a) (b_ok : buffer_ok b) (positive : 0 < n)
    (fresh : match block with Some blk => size_of blk = n | None => False end) :
  (constant_time_equals a b = true <-> contents a = contents b) /\
  wiped (clear a).2 /\ wiped (move_assign a b).2 /\
  (let '(a', returned, freed) := resize block n a in
   returned = true /\ wiped freed /\ buffer_ok a' /\ size_ a' = n /\
   take (Z.to_nat (Z.min n (size_ a))) (contents a') = take (Z.to_nat (Z.min n (size_ a))) (contents a)).
Proof.
  split; [by apply constant_time_equals_contents|].
  split; [by apply wipe_and_free_wiped|]. split; [by apply wipe_and_free_wiped|].
  destruct block as [blk|]; [|done]. unfold resize. rewrite (proj2 (Z.eqb_neq n 0)), orb_false_r by lia.
  destruct (n =? size_ a) eqn:Hn; bool_to_prop; [by subst n|]. cbn [alloc].
  pose proof (wipe_and_free_wiped a a_ok) as Hw. unfold wipe_and_free in Hw. split; [done|]. split; [done|].
  unfold buffer_ok in a_ok. unfold contents, buffer_ok. cbn [data_ size_].
  destruct (data_ a) as [old|]; cbn [from_option id].
  - destruct a_ok as [Hs Hpos]. set (m := Z.to_nat (if size_ a <? n then size_ a else n)).
    assert (Hm : m = Z.to_nat (Z.min n (size_ a))) by (subst m; case_match; bool_to_prop; lia).
    assert (Hlen : length (memcpy blk old m) = length blk).
    { apply memcpy_length; unfold size_of in *; lia. }
    split; [split; [unfold size_of in *; lia|lia]|]. split; [done|]. rewrite <- Hm. unfold memcpy.
    rewrite take_app_le by (rewrite length_take; unfold size_of in *; lia). by rewrite take_take, Nat.min_id.
  - split; [done|]. split; [done|]. by rewrite a_ok, Z.min_r by lia.
Qed.

Lemma secure_buffer_contract_witness :
  let a := buffer_of_bytes [Byte.x01; Byte.x02] in
  let block := Some [Byte.xaa; Byte.xaa; Byte.xaa] in
  constant_time_equals a a = true /\
  (let '(a', returned, freed) := resize block 3 a in
   returned = true /\ wiped freed /\ buffer_ok a' /\ size_ a' = 3 /\
   take (Z.to_nat (Z.min 3 (size_ a))) (contents a') = take (Z.to_nat (Z.min 3 (size_ a))) (contents a)).
Proof.
  intros a block.
  destruct (secure_buffer_contract a a block 3) as (H1 & _ & _ & H2).
  - split; reflexivity.
  - split; reflexivity.
  - lia.
  - reflexivity.
  - split; [apply H1; reflexivity|exact H2].
Defined.

(** When the allocation in [resize] fails, the old key block is lost without being wiped or
    freed: [alloc] has already overwritten the pointer, and the buffer that is left has a size
    but no block. *)
Theorem resize_failure_leaks_key b blk n
    (holds_key : data_ b = Some blk) (b_ok : buffer_ok b) (positive : 0 < n) (changes : n <> size_ b) :
  let '(b', returned, freed) := resize None n b in
  returned = false /\ freed = None /\ data_ b' = None /\ ~ buffer_ok b'.
Proof.
  unfold resize. rewrite (proj2 (Z.eqb_neq n 0)), (proj2 (Z.eqb_neq n (size_ b))) by lia. cbn [orb alloc].
  split_and!; [done..|]. unfold buffer_ok in *. rewrite holds_key in b_ok. simpl. lia.
Qed.

Lemma resize_failure_leaks_key_witness :
  let '(b', returned, freed) := resize None 5 (buffer_of_bytes [Byte.x01]) in
  returned = false /\ freed = None /\ data_ b' = None /\ ~ buffer_ok b'.
Proof.
  apply (resize_failure_leaks_key (buffer_of_bytes [Byte.x01]) [Byte.x01] 5).
  - reflexivity.
  - split; reflexivity.
  - lia.
  - discriminate.
Defined.
