(* ===== verification/SecureHeap.v ===== *)
(** * Key buffers in memory: [src/src/beacon_net/secure_buffer.hpp]

    [SecureBuffer] describes a buffer by the block it owns; the class holds a pointer.  Here
    buffers are pointers into a heap, [std::malloc] and [std::free] act on it, several named
    buffers live at once, and freeing or overwriting memory that is not allocated is undefined
    behaviour.  The operations are shown to implement those of [SecureBuffer] on the values
    the buffers hold, and to be memory safe: no undefined behaviour, no sharing, nothing handed
    back unwiped, and nothing leaked unless an allocation fails. *)

From S2P Require Import Prelude CxxContainers Sodium SecureBuffer.

(** ** Definitions *)

(** The members of the class: [data_] is an address, [None] for [nullptr]. *)
Record Buffer := mkBuffer {
  b_data : option Z;
  b_size : Z;
}.
Definition null_buffer : Buffer := mkBuffer None 0.

(** The memory: allocated blocks, and the contents of every block that was handed back, at the
    moment it was; and the buffers of the program by name. *)
Record Memory := mkMemory {
  heap : gmap Z bytes;
  freed : list bytes;
  buffers : gmap string Buffer;
}.

(** What [malloc] answers: out of memory, or a block at an address. *)
Definition malloc_answer : Type := option (Z * bytes).
Definition malloc_ok (m : Memory) (size : Z) (answer : malloc_answer) : Prop :=
  match answer with
  | None => True
  | Some (a, blk) => heap m !! a = None /\ size_of blk = size
  end.

(** An operation returns, throws [std::bad_alloc], or its behaviour is undefined. *)
Inductive outcome := Returns (m : Memory) | Throws (m : Memory) | Undefined.

Definition set_buffer (x : string) (b : Buffer) (m : Memory) : Memory :=
  mkMemory (heap m) (freed m) (<[x := b]> (buffers m)).

(** The loop over [data_] and [std::free]. *)
Definition wipe_free (a : option Z) (size : Z) (m : Memory) : option Memory :=
  match a with
  | None => Some m
  | Some a =>
      match heap m !! a with
      | None => None
      | Some blk => Some (mkMemory (delete a (heap m)) (freed m ++ [zero_first (Z.to_nat size) blk]) (buffers m))
      end
  end.

(** [alloc]: [data_] is assigned before the test, [size_] after it. *)
Definition heap_alloc (answer : malloc_answer) (size : Z) (b : Buffer) (m : Memory) : Buffer * Memory * bool :=
  match answer with
  | None => (mkBuffer None (b_size b), m, false)
  | Some (a, blk) => (mkBuffer (Some a) size, mkMemory (<[a := blk]> (heap m)) (freed m) (buffers m), true)
  end.

Definition heap_resize (x : string) (n : Z) (answer : malloc_answer) (b : Buffer) (m : Memory) : outcome :=
  if (n =? b_size b) || (n =? 0) then
    if n =? 0 then
      match wipe_free (b_data b) (b_size b) m with
      | None => Undefined
      | Some m' => Returns (set_buffer x null_buffer m')
      end
    else Returns m
  else
    let old := b_data b in
    let old_size := b_size b in
    let '(b', m1, ok) := heap_alloc answer n b m in
    if ok then
      let copied :=
        match old, b_data b' with
        | Some o, Some a =>
            match heap m1 !! o, heap m1 !! a with
            | Some src, Some dst =>
                Some (mkMemory (<[a := memcpy dst src (Z.to_nat (if old_size <? n then old_size else n))]> (heap m1))
                        (freed m1) (buffers m1))
            | _, _ => None
            end
        | _, _ => Some m1
        end in
      match copied with
      | None => Undefined
      | Some m2 =>
          match wipe_free old old_size m2 with
          | None => Undefined
          | Some m3 => Returns (set_buffer x b' m3)
          end
      end
    else Throws (set_buffer x b' m1).

(** The operations of the class on named buffers. *)
Inductive buffer_op :=
| OpNew (x : string) (size : Z) (answer : malloc_answer)
| OpMoveNew (x y : string)
| OpMoveAssign (x y : string)
| OpResize (x : string) (n : Z) (answer : malloc_answer)
| OpClear (x : string)
| OpWrite (x : string) (i : Z) (v : byte)
| OpDestroy (x : string).

Definition exec_op (op : buffer_op) (m : Memory) : outcome :=
  match op with
  | OpNew x size answer =>
      if 0 <? size then
        let '(b, m', ok) := heap_alloc answer size null_buffer m in
        if ok then Returns (set_buffer x b m') else Throws m'
      else Returns (set_buffer x null_buffer m)
  | OpMoveNew x y =>
      match buffers m !! y with
      | None => Undefined
      | Some other => Returns (set_buffer x other (set_buffer y null_buffer m))
      end
  | OpMoveAssign x y =>
      match buffers m !! x, buffers m !! y with
      | Some b, Some other =>
          if bool_decide (x <> y) then
            match wipe_free (b_data b) (b_size b) m with
            | None => Undefined
            | Some m' => Returns (set_buffer y null_buffer (set_buffer x other m'))
            end
          else Returns m
      | _, _ => Undefined
      end
  | OpResize x n answer =>
      match buffers m !! x with None => Undefined | Some b => heap_resize x n answer b m end
  | OpClear x =>
      match buffers m !! x with
      | None => Undefined
      | Some b => match wipe_free (b_data b) (b_size b) m with
                  | None => Undefined
                  | Some m' => Returns (set_buffer x null_buffer m')
                  end
      end
  | OpWrite x i v =>
      match buffers m !! x with
      | Some (mkBuffer (Some a) _) =>
          match heap m !! a with
          | Some blk => if (0 <=? i) && (i <? size_of blk)
                        then Returns (mkMemory (<[a := <[Z.to_nat i := v]> blk]> (heap m)) (freed m) (buffers m))
                        else Undefined
          | None => Undefined
          end
      | _ => Undefined
      end
  | OpDestroy x =>
      match buffers m !! x with
      | None => Undefined
      | Some b => match wipe_free (b_data b) (b_size b) m with
                  | None => Undefined
                  | Some m' => Returns (mkMemory (heap m') (freed m') (delete x (buffers m')))
                  end
      end
  end.

(** What a program has to respect: names are declared once and used while they live, [malloc]
    answers with fresh blocks, and indices are in range. *)
Definition op_ok (op : buffer_op) (m : Memory) : Prop :=
  match op with
  | OpNew x size answer => buffers m !! x = None /\ malloc_ok m size answer
  | OpMoveNew x y => buffers m !! x = None /\ is_Some (buffers m !! y)
  | OpMoveAssign x y => is_Some (buffers m !! x) /\ is_Some (buffers m !! y)
  | OpResize x n answer => is_Some (buffers m !! x) /\ 0 <= n /\ malloc_ok m n answer
  | OpClear x | OpDestroy x => is_Some (buffers m !! x)
  | OpWrite x i v => exists b a, buffers m !! x = Some b /\ b_data b = Some a /\ 0 <= i < b_size b
  end.

(** Running a program from the empty memory: [clean] while no operation has thrown. *)
Inductive executes : list buffer_op -> bool -> Memory -> Prop :=
| ExecNil : executes [] true (mkMemory ∅ [] ∅)
| ExecReturns ops clean m op m' : executes ops clean m -> op_ok op m -> exec_op op m = Returns m' ->
    executes (ops ++ [op]) clean m'
| ExecThrows ops clean m op m' : executes ops clean m -> op_ok op m -> exec_op op m = Throws m' ->
    executes (ops ++ [op]) false m'.

(** The value a buffer holds. *)
Definition value_of (m : Memory) (b : Buffer) : SecureBuffer :=
  mkSecureBuffer (b_data b ≫= fun a => heap m !! a) (b_size b).
Definition values (m : Memory) : gmap string SecureBuffer := value_of m <$> buffers m.

(** ** The invariant *)

Definition owns (m : Memory) (x : string) (a : Z) : Prop :=
  exists b, buffers m !! x = Some b /\ b_data b = Some a.

Record memory_ok (m : Memory) : Prop := mkMemoryOk {
  mo_blocks : forall x b a, buffers m !! x = Some b -> b_data b = Some a ->
    exists blk, heap m !! a = Some blk /\ size_of blk = b_size b /\ 0 < b_size b;
  mo_apart : forall x y a, owns m x a -> owns m y a -> x = y;
  mo_wiped : Forall (fun blk => blk = replicate (length blk) Byte.x00) (freed m);
}.
Definition no_leak (m : Memory) : Prop := forall a blk, heap m !! a = Some blk -> exists x, owns m x a.

(** Replacing the buffer [x] and the heap, as long as the blocks of the others stay. *)
Section replace.
Context (m : Memory) (x : string) (b' : Buffer) (h' : gmap Z bytes) (f' : list bytes).
Abbreviation m' := (mkMemory h' f' (<[x := b']> (buffers m))).
Context (others : forall y a, y <> x -> owns m y a -> h' !! a = heap m !! a /\ b_data b' <> Some a).

Lemma owns_replace y a : owns m' y a <-> (y = x /\ b_data b' = Some a) \/ (y <> x /\ owns m y a).
Proof.
  unfold owns. simpl. split.
  - intros (b & [[<- <-]|[Hne Hb]]%lookup_insert_Some & Ha); [by left|right]. eauto.
  - intros [[-> Ha]|[Hne (b & Hb & Ha)]]; [exists b'; by rewrite lookup_insert_eq|exists b; by rewrite lookup_insert_ne].
Qed.

Lemma memory_ok_replace : memory_ok m ->
  (forall a, b_data b' = Some a -> exists blk, h' !! a = Some blk /\ size_of blk = b_size b' /\ 0 < b_size b') ->
  Forall (fun blk => blk = replicate (length blk) Byte.x00) f' -> memory_ok m'.
Proof.
  intros [Hb Hap _] Hnew Hw. split; [| |done].
  - simpl. intros y b a [[<- <-]|[Hne Hy]]%lookup_insert_Some Ha; [by apply Hnew|].
    destruct (others y a) as [-> _]; [done|by exists b|]. by eapply Hb.
  - intros y z a [[-> H1]|[Hy H1]]%owns_replace [[-> H2]|[Hz H2]]%owns_replace; [done| | |by eapply Hap].
    + by destruct (others z a Hz H2) as [_ []].
    + by destruct (others y a Hy H1) as [_ []].
Qed.

Lemma no_leak_replace :
  (forall a blk, h' !! a = Some blk -> b_data b' = Some a \/ exists y, y <> x /\ owns m y a) -> no_leak m'.
Proof.
  intros H a blk [Ha|(y & Hy & Ho)]%H; [exists x; apply owns_replace; by left|exists y; apply owns_replace; by right].
Qed.

Lemma values_replace : values m' = <[x := value_of m' b']> (values m).
Proof.
  unfold values. simpl. rewrite fmap_insert. apply map_eq. intros y. destruct (decide (y = x)) as [-> |Hne].
  - by rewrite !lookup_insert_eq.
  - rewrite !lookup_insert_ne, !lookup_fmap by done. destruct (buffers m !! y) as [[[a|] s]|] eqn:Hy; [|done..].
    simpl. unfold value_of; simpl. destruct (others y a Hne) as [-> _]; [by eexists|done].
Qed.
End replace.

(** The heap without the block a buffer owns. *)
Definition released (m : Memory) (b : Buffer) : gmap Z bytes :=
  match b_data b with None => heap m | Some a => delete a (heap m) end.

Lemma option_list_wiped freed_ : wiped freed_ -> Forall (fun blk => blk = replicate (length blk) Byte.x00) (option_list freed_).
Proof. destruct freed_ as [blk|]; [intros H; by apply Forall_cons_2|constructor]. Qed.

Lemma value_of_wiped m x b : memory_ok m -> buffers m !! x = Some b -> wiped (wipe_and_free (value_of m b)).
Proof.
  intros [Hok _ _] Hb. unfold wipe_and_free, value_of; simpl. destruct (b_data b) as [a|] eqn:Ha; [|done].
  destruct (Hok x b a Hb Ha) as (blk & Hblk & Hs & Hp). simpl. rewrite Hblk. simpl.
  rewrite zero_first_all by (unfold size_of in Hs; lia). by rewrite length_replicate.
Qed.

Lemma wipe_free_ok m x b : memory_ok m -> buffers m !! x = Some b ->
  wipe_free (b_data b) (b_size b) m =
  Some (mkMemory (released m b) (freed m ++ option_list (wipe_and_free (value_of m b))) (buffers m)).
Proof.
  intros [Hok _ _] Hb. unfold wipe_free, released, wipe_and_free, value_of; simpl.
  destruct (b_data b) as [a|] eqn:Ha; simpl; [|by rewrite app_nil_r; destruct m].
  destruct (Hok x b a Hb Ha) as (blk & -> & _). done.
Qed.

(** The blocks of the other buffers survive a release. *)
Lemma released_others m x b y a : memory_ok m -> buffers m !! x = Some b -> y <> x -> owns m y a ->
  released m b !! a = heap m !! a.
Proof.
  intros [_ Hap _] Hb Hne Ho. unfold released. destruct (b_data b) as [a'|] eqn:Ha; [|done].
  apply lookup_delete_ne. intros ->. destruct Hne. apply (Hap y x a); [done|by exists b].
Qed.

Lemma released_lookup m b a blk : released m b !! a = Some blk -> heap m !! a = Some blk /\ b_data b <> Some a.
Proof.
  unfold released. destruct (b_data b) as [a'|]; [|by intros ->]. intros [Hne H]%lookup_delete_Some. split; [done|congruence].
Qed.

(** ** The operations on values *)

(** The same operations, on buffers that hold their blocks: those of [SecureBuffer].  The
    buffers after it, whether it returned, and what was handed back. *)
Definition value_op (op : buffer_op) (vs : gmap string SecureBuffer) : gmap string SecureBuffer * bool * list bytes :=
  match op with
  | OpNew x size answer =>
      let '(b, ok) := new_buffer (snd <$> answer) size in
      (if (ok : bool) then <[x := b]> vs else vs, ok, [])
  | OpMoveNew x y =>
      let '(b, other) := move_construct (default empty_buffer (vs !! y)) in
      (<[x := b]> (<[y := other]> vs), true, [])
  | OpMoveAssign x y =>
      if bool_decide (x <> y) then
        let '(b, other, handed_back) := move_assign (default empty_buffer (vs !! x)) (default empty_buffer (vs !! y)) in
        (<[y := other]> (<[x := b]> vs), true, option_list handed_back)
      else (vs, true, [])
  | OpResize x n answer =>
      let '(b, ok, handed_back) := resize (snd <$> answer) n (default empty_buffer (vs !! x)) in
      (<[x := b]> vs, ok, option_list handed_back)
  | OpClear x =>
      let '(b, handed_back) := clear (default empty_buffer (vs !! x)) in
      (<[x := b]> vs, true, option_list handed_back)
  | OpWrite x i v =>
      let b := default empty_buffer (vs !! x) in
      (<[x := mkSecureBuffer (<[Z.to_nat i := v]> <$> data_ b) (size_ b)]> vs, true, [])
  | OpDestroy x => (delete x vs, true, option_list (wipe_and_free (default empty_buffer (vs !! x))))
  end.

(** An operation that is used as it should has defined behaviour, keeps the invariant, leaks
    nothing if it returns, and acts on the values as [value_op] says. *)
Definition op_good (op : buffer_op) (m : Memory) : Prop :=
  match exec_op op m with
  | Undefined => False
  | Returns m' => memory_ok m' /\ (no_leak m -> no_leak m') /\
      exists fs, value_op op (values m) = (values m', true, fs) /\ freed m' = freed m ++ fs
  | Throws m' => memory_ok m' /\ exists fs, value_op op (values m) = (values m', false, fs) /\ freed m' = freed m ++ fs
  end.

Lemma values_lookup m x b : buffers m !! x = Some b -> default empty_buffer (values m !! x) = value_of m b.
Proof. intros Hb. unfold values. by rewrite lookup_fmap, Hb. Qed.

Definition release (m : Memory) (x : string) (b : Buffer) : Memory :=
  mkMemory (released m b) (freed m ++ option_list (wipe_and_free (value_of m b))) (<[x := null_buffer]> (buffers m)).

Lemma release_good m x b : memory_ok m -> buffers m !! x = Some b ->
  memory_ok (release m x b) /\ (no_leak m -> no_leak (release m x b)) /\
  values (release m x b) = <[x := empty_buffer]> (values m).
Proof.
  intros Hok Hb. assert (Hothers : forall y a, y <> x -> owns m y a -> released m b !! a = heap m !! a /\ b_data null_buffer <> Some a).
  { intros y a Hne Ho. split; [by eapply released_others|done]. }
  split_and!.
  - apply memory_ok_replace; [done|done|done|]. apply Forall_app_2; [apply Hok|]. apply option_list_wiped. by eapply value_of_wiped.
  - intros Hl. apply no_leak_replace. intros a blk [Ha Hna]%released_lookup. right. destruct (Hl a blk Ha) as (y & Hy).
    exists y. split; [|done]. intros ->. destruct Hy as (b0 & Hb0 & Ha0). congruence.
  - unfold release. by rewrite (values_replace m x null_buffer).
Qed.

(** Giving a buffer another one's block: [y] holds [other], [x] nothing. *)
Lemma transfer_good m x y other : memory_ok m -> x <> y -> buffers m !! y = Some other ->
  (forall b, buffers m !! x = Some b -> b_data b = None) ->
  let m' := set_buffer x other (set_buffer y null_buffer m) in
  memory_ok m' /\ (no_leak m -> no_leak m') /\ values m' = <[x := value_of m other]> (<[y := empty_buffer]> (values m)).
Proof.
  intros Hok Hne Hy Hx m'. pose proof Hok as [Hblk Hap Hw].
  assert (Hown : forall z a, owns (set_buffer y null_buffer m) z a <-> z <> y /\ owns m z a).
  { intros z a. unfold set_buffer. rewrite owns_replace. naive_solver. }
  assert (H1 : memory_ok (set_buffer y null_buffer m)) by (by apply memory_ok_replace).
  assert (Ho : forall z a, z <> x -> owns (set_buffer y null_buffer m) z a ->
    heap m !! a = heap (set_buffer y null_buffer m) !! a /\ b_data other <> Some a).
  { intros z a Hz [Hzy Hza]%Hown. split; [done|]. intros Ha. destruct Hzy. apply (Hap z y a Hza). by exists other. }
  subst m'. split_and!.
  - apply memory_ok_replace; [exact Ho|done| |done]. intros a Ha. by eapply Hblk.
  - intros Hl. apply no_leak_replace. intros a blk Ha. destruct (Hl a blk Ha) as (z & Hz). destruct (decide (z = y)) as [-> |Hzy].
    + left. destruct Hz as (b & Hb & Hba). congruence.
    + right. exists z. split; [|by apply Hown]. intros ->. destruct Hz as (b & Hb & Hba). by rewrite (Hx b Hb) in Hba.
  - unfold set_buffer at 1. rewrite (values_replace (set_buffer y null_buffer m) x other) by exact Ho. f_equal.
    unfold set_buffer. by rewrite (values_replace m y null_buffer).
Qed.

Lemma op_move_new m x y : memory_ok m -> op_ok (OpMoveNew x y) m -> op_good (OpMoveNew x y) m.
Proof.
  intros Hok [Hx [other Hy]]. unfold op_good, exec_op. rewrite Hy.
  assert (Hne : x <> y) by congruence.
  destruct (transfer_good m x y other Hok Hne Hy) as (H1 & H2 & H3); [congruence|].
  split_and!; [done|done|]. exists []. rewrite app_nil_r. split; [|done]. unfold value_op. rewrite (values_lookup m y other Hy). by rewrite H3.
Qed.

Lemma op_move_assign m x y : memory_ok m -> op_ok (OpMoveAssign x y) m -> op_good (OpMoveAssign x y) m.
Proof.
  intros Hok [[b Hx] [other Hy]]. unfold op_good, exec_op. rewrite Hx, Hy. case_bool_decide as Hne.
  - rewrite (wipe_free_ok m x b Hok Hx). destruct (release_good m x b Hok Hx) as (H1 & H2 & H3).
    assert (Hy1 : buffers (release m x b) !! y = Some other) by (simpl; by rewrite lookup_insert_ne).
    destruct (transfer_good (release m x b) x y other H1 Hne Hy1) as (H4 & H5 & H6).
    { simpl. rewrite lookup_insert_eq. by intros ? [= <-]. }
    assert (Heq : set_buffer y null_buffer (set_buffer x other (mkMemory (released m b)
        (freed m ++ option_list (wipe_and_free (value_of m b))) (buffers m))) =
      set_buffer x other (set_buffer y null_buffer (release m x b))).
    { unfold set_buffer, release. simpl. f_equal. rewrite (insert_insert_ne _ x y other) by done.
      by rewrite insert_insert_eq. }
    rewrite Heq. split_and!; [done|by auto|]. eexists. split; [|done]. unfold value_op. rewrite bool_decide_eq_true_2 by done.
    rewrite (values_lookup m x b Hx), (values_lookup m y other Hy). unfold move_assign. f_equal. f_equal. rewrite H6, H3.
    assert (Hv : value_of (release m x b) other = value_of m other).
    { unfold value_of. f_equal. simpl. destruct (b_data other) as [a|] eqn:Ha; [|done]. simpl.
      apply (released_others m x b y a Hok Hx (not_eq_sym Hne)). by exists other. }
    rewrite Hv. rewrite (insert_insert_ne _ x y (value_of m other)) by done.
    by rewrite insert_insert_eq.
  - split_and!; [done|done|]. exists []. rewrite app_nil_r. unfold value_op. by rewrite bool_decide_eq_false_2 by (intros Hn; by apply Hn).
Qed.

Lemma op_clear m x : memory_ok m -> op_ok (OpClear x) m -> op_good (OpClear x) m.
Proof.
  intros Hok [b Hx]. unfold op_good, exec_op. rewrite Hx, (wipe_free_ok m x b Hok Hx).
  destruct (release_good m x b Hok Hx) as (H1 & H2 & H3). split_and!; [done|done|]. eexists. split; [|done].
  unfold value_op. rewrite (values_lookup m x b Hx). unfold clear. by rewrite <- H3.
Qed.

Lemma op_destroy m x : memory_ok m -> op_ok (OpDestroy x) m -> op_good (OpDestroy x) m.
Proof.
  intros Hok [b Hx]. unfold op_good, exec_op. rewrite Hx, (wipe_free_ok m x b Hok Hx). cbn [heap freed buffers].
  destruct (release_good m x b Hok Hx) as ([Hb Hap Hw] & Hl & Hv).
  set (m' := mkMemory _ _ (delete x (buffers m))).
  assert (Hown : forall z a, owns m' z a <-> owns (release m x b) z a).
  { intros z a. unfold owns. simpl. split.
    - intros (bz & [Hne Hz]%lookup_delete_Some & Ha). exists bz. by rewrite lookup_insert_ne.
    - intros (bz & [[<- <-]|[Hne Hz]]%lookup_insert_Some & Ha); [done|]. exists bz. by rewrite lookup_delete_ne. }
  split_and!.
  - split; [| |done].
    + intros y by_ a Hy Ha. simpl in Hy. apply lookup_delete_Some in Hy as [Hne Hy]. apply (Hb y by_ a); [|done]. simpl. by rewrite lookup_insert_ne.
    + intros y z a Hy%Hown Hz%Hown. by eapply Hap.
  - intros Hl0 a blk Ha. destruct (Hl Hl0 a blk Ha) as (z & Hz). exists z. by apply Hown.
  - eexists. split; [|done]. unfold value_op. rewrite (values_lookup m x b Hx). f_equal. f_equal.
    apply (f_equal (delete x)) in Hv. rewrite delete_insert_eq in Hv. rewrite <- Hv. unfold values. simpl.
    by rewrite fmap_insert, delete_insert_eq, fmap_delete.
Qed.

Lemma op_write m x i v : memory_ok m -> op_ok (OpWrite x i v) m -> op_good (OpWrite x i v) m.
Proof.
  intros Hok (b & a & Hx & Ha & Hi). pose proof Hok as [Hblk Hap Hw].
  destruct (Hblk x b a Hx Ha) as (blk & Hb & Hs & Hp). unfold op_good, exec_op. rewrite Hx. destruct b as [da sz]; simpl in *; subst da.
  rewrite Hb, (proj2 (Z.leb_le 0 i)), (proj2 (Z.ltb_lt i _)) by lia. cbn [andb].
  assert (Heq : buffers m = <[x := mkBuffer (Some a) sz]> (buffers m)) by (symmetry; by apply insert_id).
  assert (Hlen : size_of (<[Z.to_nat i := v]> blk) = size_of blk) by (unfold size_of; by rewrite length_insert).
  rewrite Heq. assert (Ho : forall y a0, y <> x -> owns m y a0 ->
    <[a := <[Z.to_nat i := v]> blk]> (heap m) !! a0 = heap m !! a0 /\ b_data (mkBuffer (Some a) sz) <> Some a0).
  { intros y a0 Hne Hy. assert (a <> a0) by (intros ->; apply Hne, (Hap y x a0 Hy); by eexists).
    split; [by rewrite lookup_insert_ne|simpl; congruence]. }
  split_and!.
  - apply memory_ok_replace; [done|done| |done]. intros a0 [= <-]. eexists. rewrite lookup_insert_eq, Hlen. done.
  - intros Hl. apply no_leak_replace. intros a0 blk0 [[<- _]|[Hne H0]]%lookup_insert_Some; [by left|].
    destruct (decide (Some a = Some a0)) as [?|]; [by left|right]. destruct (Hl a0 blk0 H0) as (y & Hy). exists y. split; [|done].
    intros ->. destruct Hy as (b & Hb0 & Ha0). rewrite Hx in Hb0. by simplify_eq.
  - exists []. rewrite app_nil_r. split; [|done]. unfold value_op. rewrite (values_lookup m x _ Hx). f_equal. f_equal.
    rewrite (values_replace m x) by exact Ho. f_equal. unfold value_of. simpl. by rewrite Hb, lookup_insert_eq.
Qed.

(** A fresh block is nobody's. *)
Lemma fresh_unowned m y a : memory_ok m -> heap m !! a = None -> ~ owns m y a.
Proof. intros [Hblk _ _] Ha (b & Hb & Hba). destruct (Hblk y b a Hb Hba) as (blk & ? & _). congruence. Qed.

(** Giving a fresh block to a buffer that has none. *)
Lemma acquire_good m x a blk n : memory_ok m -> (forall b, buffers m !! x = Some b -> b_data b = None) ->
  heap m !! a = None -> size_of blk = n -> 0 < n ->
  let m' := mkMemory (<[a := blk]> (heap m)) (freed m) (<[x := mkBuffer (Some a) n]> (buffers m)) in
  memory_ok m' /\ (no_leak m -> no_leak m') /\ values m' = <[x := mkSecureBuffer (Some blk) n]> (values m).
Proof.
  intros Hok Hx Ha Hsz Hn m'. assert (Ho : forall y a0, y <> x -> owns m y a0 ->
    <[a := blk]> (heap m) !! a0 = heap m !! a0 /\ b_data (mkBuffer (Some a) n) <> Some a0).
  { intros y a0 Hne Hy. assert (a <> a0) by (intros ->; by destruct (fresh_unowned m y a0)).
    split; [by rewrite lookup_insert_ne|simpl; congruence]. }
  split_and!.
  - apply memory_ok_replace; [done|done| |apply Hok]. intros a0 [= <-]. exists blk. by rewrite lookup_insert_eq.
  - intros Hl. apply no_leak_replace. intros a0 blk0 [[<- _]|[Hne H0]]%lookup_insert_Some; [by left|right].
    destruct (Hl a0 blk0 H0) as (y & Hy). exists y. split; [|done]. intros ->. destruct Hy as (b & Hb & Hba).
    by rewrite (Hx b Hb) in Hba.
  - subst m'. rewrite (values_replace m x) by exact Ho. f_equal. unfold value_of. simpl. by rewrite lookup_insert_eq.
Qed.

Lemma op_new m x size answer : memory_ok m -> op_ok (OpNew x size answer) m -> op_good (OpNew x size answer) m.
Proof.
  intros Hok [Hx Hm]. unfold op_good, exec_op, value_op, new_buffer. destruct (0 <? size) eqn:Hs; bool_to_prop.
  - destruct answer as [[a blk]|]; simpl.
    + destruct Hm as [Ha Hsz]. destruct (acquire_good m x a blk size Hok) as (H1 & H2 & H3); [congruence|done..|].
      split_and!; [exact H1|exact H2|]. exists []. rewrite app_nil_r. split; [|done]. unfold set_buffer. simpl. by rewrite H3.
    + split; [done|]. exists []. by rewrite app_nil_r.
  - split_and!.
    + apply memory_ok_replace; [done|done|done|apply Hok].
    + intros Hl. apply no_leak_replace. intros a0 blk0 H0. right. destruct (Hl a0 blk0 H0) as (y & Hy). exists y. split; [|done].
      intros ->. destruct Hy as (? & ? & _). congruence.
    + exists []. rewrite app_nil_r. split; [|done]. unfold set_buffer. by rewrite (values_replace m x).
Qed.

(** The heap after a [resize] that moved the contents to a fresh block. *)
Lemma resize_moved m x b o src a blk n filled : memory_ok m -> buffers m !! x = Some b -> b_data b = Some o ->
  heap m !! o = Some src -> heap m !! a = None -> size_of filled = n -> 0 < n ->
  let m' := mkMemory (delete o (<[a := filled]> (<[a := blk]> (heap m))))
    (freed m ++ option_list (wipe_and_free (value_of m b))) (<[x := mkBuffer (Some a) n]> (buffers m)) in
  memory_ok m' /\ (no_leak m -> no_leak m') /\ values m' = <[x := mkSecureBuffer (Some filled) n]> (values m).
Proof.
  intros Hok Hx Ho Hsrc Ha Hs Hn m'. pose proof Hok as [Hblk Hap Hw].
  assert (Hoa : o <> a) by congruence.
  assert (Hnew : heap m' !! a = Some filled) by (simpl; by rewrite lookup_delete_ne, lookup_insert_eq).
  assert (Hothers : forall y a0, y <> x -> owns m y a0 -> heap m' !! a0 = heap m !! a0 /\ b_data (mkBuffer (Some a) n) <> Some a0).
  { intros y a0 Hne Hy. assert (a <> a0) by (intros ->; by destruct (fresh_unowned m y a0)).
    assert (o <> a0) by (intros ->; apply Hne, (Hap y x a0 Hy); by exists b). simpl. split; [|congruence].
    by rewrite lookup_delete_ne, !lookup_insert_ne. }
  split_and!.
  - apply memory_ok_replace; [exact Hothers|done| |].
    + intros a0 [= <-]. exists filled. done.
    + apply Forall_app_2; [done|]. apply option_list_wiped. by eapply value_of_wiped.
  - intros Hl. apply no_leak_replace. intros a0 blk0 [Hne [[<- _]|[Hna [[<- _]|[_ H0]]%lookup_insert_Some]]%lookup_insert_Some]%lookup_delete_Some;
      [by left|by left|right]. destruct (Hl a0 blk0 H0) as (y & Hy). exists y. split; [|done].
    intros ->. destruct Hy as (b0 & Hb0 & Ha0). congruence.
  - subst m'. rewrite (values_replace m x) by exact Hothers. f_equal. unfold value_of. simpl. simpl in Hnew. by rewrite Hnew.
Qed.

(** The copy fills the fresh block. *)
Lemma resize_filled blk src old_size n : size_of blk = n -> size_of src = old_size ->
  size_of (memcpy blk src (Z.to_nat (if old_size <? n then old_size else n))) = n.
Proof.
  intros Hb Hs. unfold size_of in *. destruct (old_size <? n) eqn:Hlt; bool_to_prop; rewrite memcpy_length; lia.
Qed.

Lemma op_resize m x n answer : memory_ok m -> op_ok (OpResize x n answer) m -> op_good (OpResize x n answer) m.
Proof.
  intros Hok ([b Hx] & Hn & Hm). pose proof Hok as [Hblk Hap Hw]. unfold op_good, exec_op, value_op.
  rewrite Hx, (values_lookup m x b Hx). unfold heap_resize, resize. cbn [size_ value_of].
  destruct ((n =? b_size b) || (n =? 0)) eqn:Hcase.
  - destruct (n =? 0).
    + rewrite (wipe_free_ok m x b Hok Hx). destruct (release_good m x b Hok Hx) as (H1 & H2 & H3).
      split_and!; [done|done|]. eexists. split; [|done]. unfold clear. by rewrite <- H3.
    + split_and!; [done|done|]. exists []. rewrite app_nil_r. split; [|done]. rewrite insert_id; [done|].
      unfold values. by rewrite lookup_fmap, Hx.
  - apply orb_false_iff in Hcase as [Hne H0]. bool_to_prop. destruct answer as [[a blk]|]; cbn [heap_alloc alloc snd fmap option_fmap option_map].
    + destruct Hm as [Ha Hsz]. destruct (b_data b) as [o|] eqn:Ho; cbn [b_data].
      * destruct (Hblk x b o Hx Ho) as (src & Hsrc & Hss & Hpos). cbn [heap]. rewrite lookup_insert_ne, Hsrc, lookup_insert_eq by congruence.
        set (k := Z.to_nat _). set (filled := memcpy blk src k).
        assert (Hlen : size_of filled = n) by by apply resize_filled.
        unfold wipe_free. cbn [heap freed buffers]. rewrite !lookup_insert_ne, Hsrc by congruence.
        destruct (resize_moved m x b o src a blk n filled Hok Hx Ho Hsrc Ha Hlen ltac:(lia)) as (H1 & H2 & H3).
        assert (Hfr : option_list (wipe_and_free (value_of m b)) = [zero_first (Z.to_nat (b_size b)) src]).
        { unfold wipe_and_free, value_of. rewrite Ho. simpl. by rewrite Hsrc. }
        rewrite Hfr in *. split_and!; [exact H1|exact H2|]. eexists. split; [|done]. unfold set_buffer. cbn [heap freed buffers].
        rewrite H3. unfold value_of. cbn [data_ size_ mbind option_bind]. rewrite Ho. simpl. by rewrite Hsrc.
      * unfold wipe_free, set_buffer. cbn [heap freed buffers].
        destruct (acquire_good m x a blk n Hok) as (H1 & H2 & H3); [congruence|done|done|lia|].
        split_and!; [exact H1|exact H2|]. exists []. rewrite app_nil_r. split; [|done]. rewrite H3. unfold value_of. by rewrite Ho.
    + assert (Hothers : forall y a0, y <> x -> owns m y a0 -> heap m !! a0 = heap m !! a0 /\ b_data (mkBuffer None (b_size b)) <> Some a0) by done.
      split.
      * by apply memory_ok_replace.
      * exists []. rewrite app_nil_r. split; [|done]. unfold set_buffer. by rewrite (values_replace m x) by exact Hothers.
Qed.

Lemma op_ok_good op m : memory_ok m -> op_ok op m -> op_good op m.
Proof.
  destruct op; [apply op_new|apply op_move_new|apply op_move_assign|apply op_resize|apply op_clear|apply op_write|apply op_destroy].
Qed.

Lemma executes_ok ops clean m : executes ops clean m -> memory_ok m /\ (clean = true -> no_leak m).
Proof.
  induction 1 as [|ops clean m op m' _ [Hok Hl] Hop Hex|ops clean m op m' _ [Hok Hl] Hop Hex].
  - split; [|intros _ a blk; simpl; by rewrite lookup_empty]. split; simpl; [by intros x b a; rewrite lookup_empty| |constructor].
    intros x y a (b & Hb & _). simpl in Hb. by rewrite lookup_empty in Hb.
  - pose proof (op_ok_good op m Hok Hop) as Hg. unfold op_good in Hg. rewrite Hex in Hg. destruct Hg as (H1 & H2 & _). auto.
  - pose proof (op_ok_good op m Hok Hop) as Hg. unfold op_good in Hg. rewrite Hex in Hg. by destruct Hg as [H1 _].
Qed.

(** ** [SecureAllocator] *)

(** [n * sizeof(T)], in [std::size_t]. *)
Definition allocation_size (sizeof n : Z) : Z := wrap 64 (n * sizeof).

(** [allocate] returns [nullptr] when [malloc] does. *)
Definition allocate (answer : malloc_answer) (m : Memory) : option Z * Memory :=
  match answer with
  | None => (None, m)
  | Some (a, blk) => (Some a, mkMemory (<[a := blk]> (heap m)) (freed m) (buffers m))
  end.

Definition deallocate (sizeof n : Z) (p : option Z) (m : Memory) : option Memory :=
  wipe_free p (allocation_size sizeof n) m.

(** Allocating and deallocating the same number of objects leaves the memory as it was and hands
    a zeroed block back. *)
Lemma deallocate_allocated sizeof n a blk m : malloc_ok m (allocation_size sizeof n) (Some (a, blk)) ->
  let '(p, m1) := allocate (Some (a, blk)) m in
  deallocate sizeof n p m1 = Some (mkMemory (heap m) (freed m ++ [replicate (length blk) Byte.x00]) (buffers m)).
Proof.
  intros [Ha Hs]. unfold allocate, deallocate, wipe_free. cbn [heap freed buffers]. rewrite lookup_insert_eq, delete_insert_id by done.
  replace (Z.to_nat (allocation_size sizeof n)) with (length blk) by (unfold size_of in Hs; lia). by rewrite zero_first_all.
Qed.

(** ** Properties *)

(** (C25) Key buffers are memory safe and implement their value semantics: after any program of
    constructions, moves, resizes, writes and destructions, everything ever handed back to
    the allocator was overwritten with zeros; no two buffers share a block; as long as no
    allocation failed, every allocated block belongs to a live buffer, so nothing is left when
    the last one is destroyed; and no further operation has undefined behaviour (no double
    free, no use after free), but does to the values of all buffers exactly what the
    operation of [SecureBuffer] does. *)
Theorem secure_buffers_memory_safe ops clean m (ran : executes ops clean m) :
  Forall (fun blk => blk = replicate (length blk) Byte.x00) (freed m) /\
  (forall x y a, owns m x a -> owns m y a -> x = y) /\
  (clean = true -> (forall a blk, heap m !! a = Some blk -> exists x, owns m x a) /\ (buffers m = ∅ -> heap m = ∅)) /\
  forall op, op_ok op m ->
    match exec_op op m with
    | Undefined => False
    | Returns m' => exists fs, value_op op (values m) = (values m', true, fs) /\ freed m' = freed m ++ fs
    | Throws m' => exists fs, value_op op (values m) = (values m', false, fs) /\ freed m' = freed m ++ fs
    end.
Proof.
  apply executes_ok in ran as [Hok Hl]. pose proof Hok as [_ Hap Hw]. split_and!; [done|done| |].
  - intros Hc. specialize (Hl Hc). split; [done|]. intros He. apply map_eq. intros a. rewrite lookup_empty.
    destruct (heap m !! a) as [blk|] eqn:Ha; [|done]. destruct (Hl a blk Ha) as (x & b & Hb & _). rewrite He in Hb. by rewrite lookup_empty in Hb.
  - intros op Hop. pose proof (op_ok_good op m Hok Hop) as Hg. unfold op_good in Hg.
    destruct (exec_op op m); [apply Hg|apply Hg|done].
Qed.

(** A key is created, moved and resized; the old block is handed back as zeros. *)
Lemma secure_buffers_memory_safe_witness :
  let ops := [OpNew "a" 2 (Some (1, [Byte.xaa; Byte.xbb])); OpMoveNew "b" "a"; OpResize "b" 1 (Some (2, [Byte.x11]))] in
  exists m, executes ops true m /\ freed m = [[Byte.x00; Byte.x00]] /\ values m = {[ "a" := empty_buffer; "b" := buffer_of_bytes [Byte.xaa] ]} /\
    Forall (fun blk => blk = replicate (length blk) Byte.x00) (freed m) /\ exec_op (OpDestroy "b") m <> Undefined.
Proof.
  intros ops.
  set (m1 := mkMemory {[1 := [Byte.xaa; Byte.xbb]]} [] {["a"%string := mkBuffer (Some 1) 2]}).
  set (m2 := mkMemory {[1 := [Byte.xaa; Byte.xbb]]} [] (<["b"%string := mkBuffer (Some 1) 2]> (<["a"%string := null_buffer]> {["a"%string := mkBuffer (Some 1) 2]}))).
  set (m3 := mkMemory (delete 1 (<[2 := [Byte.xaa]]> (<[2 := [Byte.x11]]> {[1 := [Byte.xaa; Byte.xbb]]}))) [[Byte.x00; Byte.x00]]
    (<["b"%string := mkBuffer (Some 2) 1]> (buffers m2))).
  assert (Hrun : executes ops true m3).
  { apply (ExecReturns (take 2 ops) true m2 (OpResize "b" 1 (Some (2, [Byte.x11]))) m3).
    - apply (ExecReturns (take 1 ops) true m1 (OpMoveNew "b" "a") m2).
      + apply (ExecReturns [] true (mkMemory ∅ [] ∅) (OpNew "a" 2 (Some (1, [Byte.xaa; Byte.xbb]))) m1).
        * apply ExecNil.
        * split; [reflexivity|split; reflexivity].
        * reflexivity.
      + split; [reflexivity|eexists; reflexivity].
      + reflexivity.
    - split; [eexists; reflexivity|]. split; [lia|split; reflexivity].
    - reflexivity. }
  exists m3. split; [exact Hrun|].
  destruct (secure_buffers_memory_safe ops true m3 Hrun) as (H1 & _ & _ & H2).
  split; [reflexivity|]. split; [by vm_compute|]. split; [exact H1|].
  specialize (H2 (OpDestroy "b"%string) ltac:(eexists; reflexivity)). intros Heq. rewrite Heq in H2. exact H2.
Defined.
