(* ===== verification/Crypto.v ===== *)
(** * Signatures and hexadecimal text: [src/src/beacon/crypto.hpp], [crypto.cpp]

    libsodium is the interface of [Sodium.v]; everything else of [crypto.cpp] is defined
    here: the canonical payload, hexadecimal text, signature verification, signing. *)

From S2P Require Import Prelude CxxString CxxContainers Types Sodium SecureBuffer.

(** ** Definitions *)

Inductive SignatureStatus := Valid | Missing | Invalid | Unsupported.
#[global] Instance SignatureStatus_eq_dec : EqDecision SignatureStatus.
Proof. solve_decision. Defined.

Definition char_code (c : ascii) : Z := Z.of_N (Ascii.N_of_ascii c).

Definition hex_value (value : ascii) : Z :=
  let v := char_code value in
  if (char_code "0"%char <=? v) && (v <=? char_code "9"%char) then v - char_code "0"%char
  else if (char_code "a"%char <=? v) && (v <=? char_code "f"%char) then 10 + v - char_code "a"%char
  else if (char_code "A"%char <=? v) && (v <=? char_code "F"%char) then 10 + v - char_code "A"%char
  else -1.

Definition canonical_agent_payload (record : AgentRecord) : string :=
  "agent_id=" +:+ agent_id record +:+ nl +:+
  "node_id=" +:+ node_id record +:+ nl +:+
  "endpoint=" +:+ endpoint record +:+ nl +:+
  "revision=" +:+ to_string (revision record) +:+ nl +:+
  foldr (fun kv rest => "metadata." +:+ kv.1 +:+ "=" +:+ kv.2 +:+ nl +:+ rest) ""
    (map_items (metadata record)).

Definition canonical_entry_payload (agent_id capability endpoint : string) (timestamp : Z) : string :=
  "agent_id=" +:+ agent_id +:+ nl +:+
  "capability=" +:+ capability +:+ nl +:+
  "endpoint=" +:+ endpoint +:+ nl +:+
  "timestamp=" +:+ to_string timestamp +:+ nl.

(** The loop of [decode_hex]; [None] is its early [return {}]. *)
Fixpoint decode_hex_loop (hex : string) : option bytes :=
  match hex with
  | EmptyString => Some []
  | String h (String l rest) =>
      let high := hex_value h in
      let low := hex_value l in
      if (high <? 0) || (low <? 0) then None
      else (fun bs => byte_of_Z (Z.lor (Z.shiftl high 4) low) :: bs) <$> decode_hex_loop rest
  | String _ EmptyString => None
  end.

Definition decode_hex (hex : string) : bytes :=
  if decide (String.length hex mod 2 <> 0)%nat then []
  else default [] (decode_hex_loop hex).

(** [std::hex << std::setw(2) << std::setfill('0')] of an [int] below 256. *)
Definition hex_digit (d : Z) : ascii :=
  Ascii.ascii_of_N (Z.to_N (if d <? 10 then 48 + d else 87 + d)).
Definition hex_int (n : Z) : string :=
  if n <? 16 then String (hex_digit n) ""
  else String (hex_digit (n / 16)) (String (hex_digit (n mod 16)) "").
Definition setw2 (s : string) : string :=
  if (String.length s <? 2)%nat then String "0" s else s.

Fixpoint encode_hex (bs : bytes) : string :=
  match bs with
  | [] => ""
  | b :: bs' => setw2 (hex_int (Z_of_byte b)) +:+ encode_hex bs'
  end.

Section sodium.
Context {S : Sodium}.

Definition verify_agent_signature (record : AgentRecord) : SignatureStatus :=
  if str_empty (public_key_hex record) || str_empty (signature_hex record) then Missing
  else
    let public_key := decode_hex (public_key_hex record) in
    let signature := decode_hex (signature_hex record) in
    if bool_decide (public_key = []) || bool_decide (signature = []) then Invalid
    else if sodium_enabled then
      if negb (size_of public_key =? crypto_sign_PUBLICKEYBYTES) ||
         negb (size_of signature =? crypto_sign_BYTES) then Invalid
      else
        let payload := canonical_agent_payload record in
        let result := crypto_sign_verify_detached signature (bytes_of_string payload) public_key in
        if result =? 0 then Valid else Invalid
    else Unsupported.

(** [ensure_sodium_initialized]; [init] is what [sodium_init()] returned. *)
Definition ensure_sodium_initialized (init : Z) : bool :=
  if sodium_enabled then negb (init <? 0) else true.

(** [generate_ed25519_keypair]: the public and the secret key. *)
Definition generate_ed25519_keypair (seed : Z) : SecureBuffer * SecureBuffer :=
  if sodium_enabled then
    let '(pk, sk) := crypto_sign_keypair seed in
    (mkSecureBuffer (Some pk) crypto_sign_PUBLICKEYBYTES,
     mkSecureBuffer (Some sk) crypto_sign_SECRETKEYBYTES)
  else (empty_buffer, empty_buffer).

(** [sign_ed25519]; libsodium reports the size of what it wrote, to which the buffer is
    resized ([block] is the allocator's answer, used only if the sizes differ). *)
Definition sign_ed25519 (block : option bytes) (payload private_key : SecureBuffer) : SecureBuffer :=
  if sodium_enabled then
    if negb (size_ private_key =? crypto_sign_SECRETKEYBYTES) then empty_buffer
    else
      let sig := crypto_sign_detached (contents payload) (contents private_key) in
      (resize block (size_of sig) (mkSecureBuffer (Some sig) crypto_sign_BYTES)).1.1
  else empty_buffer.

Definition verify_ed25519 (payload signature public_key : SecureBuffer) : bool :=
  if sodium_enabled then
    if negb (size_ public_key =? crypto_sign_PUBLICKEYBYTES) ||
       negb (size_ signature =? crypto_sign_BYTES) then false
    else crypto_sign_verify_detached (contents signature) (contents payload) (contents public_key) =? 0
  else false.

(** A record carrying the key and the signature of its own canonical payload. *)
Definition signed_record (seed : Z) (r : AgentRecord) : AgentRecord :=
  let '(pk, sk) := crypto_sign_keypair seed in
  set_signature_hex
    (encode_hex (crypto_sign_detached (bytes_of_string (canonical_agent_payload r)) sk))
    (set_public_key_hex (encode_hex pk) r).
End sodium.

Definition signature_status_message (status : SignatureStatus) : string :=
  match status with
  | Valid => "valid"
  | Missing => "missing_signature"
  | Invalid => "invalid_signature"
  | Unsupported => "signature_verification_unsupported"
  end.

(** Fields whose text cannot be mistaken for the payload's own separators. *)
Definition clean_record (r : AgentRecord) : Prop :=
  no_char newline (agent_id r) = true /\ no_char newline (node_id r) = true /\
  no_char newline (endpoint r) = true /\ 0 <= revision r /\
  forall k v, metadata r !! k = Some v ->
    no_char newline k = true /\ no_char "="%char k = true /\ no_char newline v = true.

(** Lower-case form of a hexadecimal digit. *)
Definition lower_hex (c : ascii) : ascii :=
  if (char_code "A"%char <=? char_code c) && (char_code c <=? char_code "F"%char)
  then Ascii.ascii_of_N (Z.to_N (char_code c + 32)) else c.
Fixpoint str_map (f : ascii -> ascii) (s : string) : string :=
  match s with EmptyString => EmptyString | String c s' => String (f c) (str_map f s') end.
Definition is_hex (c : ascii) : bool := negb (hex_value c <? 0).

(** The lines of the canonical payload. *)
Definition payload_lines (r : AgentRecord) : list string :=
  ("agent_id=" +:+ agent_id r) :: ("node_id=" +:+ node_id r) ::
  ("endpoint=" +:+ endpoint r) :: ("revision=" +:+ to_string (revision r)) ::
  ((fun kv => "metadata." +:+ kv.1 +:+ "=" +:+ kv.2) <$> map_items (metadata r)).

(** ** Hexadecimal text *)

Lemma hex_value_range c : -1 <= hex_value c < 16.
Proof. unfold hex_value. split_tests; bool_to_prop; vm_compute (char_code _) in *; lia. Qed.

Lemma encode_hex_byte b r :
  decode_hex_loop (setw2 (hex_int (Z_of_byte b)) +:+ r) = cons b <$> decode_hex_loop r.
Proof. by destruct b. Qed.

Lemma encode_hex_byte_length b : String.length (setw2 (hex_int (Z_of_byte b))) = 2%nat.
Proof. by destruct b. Qed.

Lemma encode_hex_length bs : String.length (encode_hex bs) = (2 * length bs)%nat.
Proof.
  induction bs as [|b bs IH]; [done|]. simpl.
  rewrite str_length_app, encode_hex_byte_length, IH. lia.
Qed.

Lemma decode_encode_hex_loop bs : decode_hex_loop (encode_hex bs) = Some bs.
Proof. induction bs as [|b bs IH]; [done|]. cbn [encode_hex]. by rewrite encode_hex_byte, IH. Qed.

Lemma decode_encode_hex bs : decode_hex (encode_hex bs) = bs.
Proof.
  unfold decode_hex. rewrite encode_hex_length, decode_encode_hex_loop.
  rewrite decide_False; [done|]. rewrite Nat.mul_comm, Nat.Div0.mod_mul. lia.
Qed.

Lemma encode_hex_empty bs : encode_hex bs = "" <-> bs = [].
Proof.
  split; [|by intros ->]. intros H%(f_equal String.length). rewrite encode_hex_length in H.
  destruct bs; simpl in *; [done|lia].
Qed.

Lemma lower_hex_digit c : is_hex c = true -> lower_hex c = hex_digit (hex_value c).
Proof. by destruct c as [[] [] [] [] [] [] [] []]. Qed.

Lemma hex_pair_encode h l : 0 <= h < 16 -> 0 <= l < 16 ->
  setw2 (hex_int (Z_of_byte (byte_of_Z (Z.lor (Z.shiftl h 4) l)))) =
  String (hex_digit h) (String (hex_digit l) "").
Proof.
  set (ok h l := bool_decide (setw2 (hex_int (Z_of_byte (byte_of_Z (Z.lor (Z.shiftl h 4) l)))) =
    String (hex_digit h) (String (hex_digit l) ""))).
  assert (Hall : forallb (fun h => forallb (ok h) (seqZ 0 16)) (seqZ 0 16) = true) by by vm_compute.
  intros Hh Hl. rewrite forallb_forall in Hall.
  specialize (Hall h). rewrite <- list_elem_of_In, elem_of_seqZ, forallb_forall in Hall.
  specialize (Hall ltac:(lia) l). rewrite <- list_elem_of_In, elem_of_seqZ in Hall.
  specialize (Hall ltac:(lia)). by apply bool_decide_eq_true in Hall.
Qed.

(** What [decode_hex] accepts: the text it came from, up to letter case. *)
Lemma decode_hex_loop_sound s bs :
  decode_hex_loop s = Some bs -> encode_hex bs = str_map lower_hex s.
Proof.
  revert s. induction bs as [|b bs IH]; intros [|h [|l s]]; simpl; try done.
  - intros Hd. split_tests. by apply fmap_Some in Hd as (? & _ & ?).
  - pose proof (hex_value_range h); pose proof (hex_value_range l).
    destruct ((hex_value h <? 0) || (hex_value l <? 0)) eqn:Hneg; [done|]. bool_to_prop.
    intros (bs' & Hs & [= -> ->])%fmap_Some. rewrite (IH s) by done.
    rewrite hex_pair_encode by lia.
    rewrite !lower_hex_digit by (apply negb_true_iff, Z.ltb_ge; lia). done.
Qed.

Lemma decode_hex_loop_total s : Nat.even (String.length s) = true ->
  str_forall is_hex s = true <-> is_Some (decode_hex_loop s).
Proof.
  remember (String.length s) as n eqn:Hn. revert s Hn.
  induction n as [n IH] using lt_wf_ind. intros [|h [|l s]] Hn He; simpl in *; subst.
  - split; [by eauto|done].
  - done.
  - unfold is_hex at 1 2. destruct (hex_value h <? 0), (hex_value l <? 0); simpl;
      try (split; [done|by intros [? ?]]).
    rewrite fmap_is_Some. apply (IH (String.length s)); [lia|done|done].
Qed.

(** Hexadecimal text: [decode_hex] inverts [encode_hex]; and what it returns for a text
    that is not empty, has even length and only hexadecimal digits encodes back to that text
    in lower case, while every other text decodes to nothing. *)
Theorem hex_codec :
  (forall bs, decode_hex (encode_hex bs) = bs) /\
  (forall s, s <> "" -> Nat.even (String.length s) = true -> str_forall is_hex s = true ->
     decode_hex s <> [] /\ encode_hex (decode_hex s) = str_map lower_hex s) /\
  (forall s, Nat.even (String.length s) = false \/ str_forall is_hex s = false -> decode_hex s = []).
Proof.
  assert (Hmod : forall n, Nat.even n = true <-> (n mod 2 = 0)%nat).
  { intros n. rewrite Nat.even_spec. unfold Nat.Even. split.
    - intros [m ->]. rewrite Nat.mul_comm. apply Nat.Div0.mod_mul.
    - intros Hm. exists (n / 2)%nat. pose proof (Nat.div_mod_eq n 2). lia. }
  split; [apply decode_encode_hex|]. split.
  - intros s Hne He Hh. unfold decode_hex. rewrite decide_False by (rewrite Hmod in He; lia).
    apply (decode_hex_loop_total s He) in Hh as [bs Hbs].
    rewrite Hbs. simpl. pose proof (decode_hex_loop_sound _ _ Hbs) as Henc.
    split; [|done]. intros ->. by destruct s.
  - intros s Hbad. unfold decode_hex. case_decide as Hd; [done|].
    assert (He : Nat.even (String.length s) = true) by (apply Hmod; lia).
    destruct Hbad as [Hbad|Hbad]; [congruence|].
    destruct (decode_hex_loop s) as [bs|] eqn:Hbs; [|done].
    assert (str_forall is_hex s = true) by (apply decode_hex_loop_total; eauto). congruence.
Qed.

(** ** The canonical payload *)

Lemma metadata_lines (l : list (string * string)) :
  foldr (fun kv rest => "metadata." +:+ kv.1 +:+ "=" +:+ kv.2 +:+ nl +:+ rest) "" l =
  unlines ((fun kv => "metadata." +:+ kv.1 +:+ "=" +:+ kv.2) <$> l).
Proof.
  induction l as [|[k v] l IH]; [done|]. csimpl. rewrite IH. unfold unlines. simpl.
  by autorewrite with str.
Qed.

Lemma canonical_agent_payload_lines r : canonical_agent_payload r = unlines (payload_lines r).
Proof.
  unfold canonical_agent_payload, payload_lines. rewrite metadata_lines.
  unfold unlines at 2. cbn [foldr]. fold unlines. by autorewrite with str.
Qed.

Lemma payload_lines_clean r :
  clean_record r -> Forall (fun l => no_char newline l = true) (payload_lines r).
Proof.
  intros (Ha & Hn & He & Hr & Hm). unfold payload_lines, no_char in *.
  repeat constructor; rewrite ?str_forall_app; simpl; try done.
  - by apply to_string_no_char.
  - apply Forall_fmap, Forall_forall. intros [k v] Hkv%elem_of_map_items.
    destruct (Hm k v Hkv) as (Hk & _ & Hv). simpl. rewrite !str_forall_app, Hk, Hv. done.
Qed.

Lemma fmap_inj_on {A B} (f : A -> B) (P : A -> Prop) l k :
  (forall x y, P x -> P y -> f x = f y -> x = y) ->
  Forall P l -> Forall P k -> f <$> l = f <$> k -> l = k.
Proof.
  intros Hf Hl. revert k. induction Hl as [|x l Hx Hl IH]; intros k Hk; destruct Hk; csimpl; try done.
  intros [= ??]. f_equal; eauto.
Qed.

Lemma payload_lines_inj r1 r2 :
  clean_record r1 -> clean_record r2 -> payload_lines r1 = payload_lines r2 ->
  agent_id r1 = agent_id r2 /\ node_id r1 = node_id r2 /\ endpoint r1 = endpoint r2 /\
  revision r1 = revision r2 /\ metadata r1 = metadata r2.
Proof.
  intros (_ & _ & _ & Hr1 & Hm1) (_ & _ & _ & Hr2 & Hm2) [= Ha Hn He Hr Hm].
  repeat match goal with H : String.app _ _ = String.app _ _ |- _ => apply (inj (String.app _)) in H end.
  split_and!; [done..|by apply to_string_inj|].
  rewrite <- (map_store_items (metadata r1)), <- (map_store_items (metadata r2)). f_equal.
  eapply (fmap_inj_on _ (fun kv => no_char "="%char kv.1 = true)); [| | |exact Hm].
  - intros [k1 v1] [k2 v2] H1 H2 Heq. apply (inj (String.app _)) in Heq. simpl in *.
    by apply (split_char_inj "="%char k1 k2 v1 v2 H1 H2) in Heq as [-> ->].
  - apply Forall_forall. intros [k v] Hkv%elem_of_map_items. by apply (Hm1 k v).
  - apply Forall_forall. intros [k v] Hkv%elem_of_map_items. by apply (Hm2 k v).
Qed.

(** (C34) The canonical payload identifies what is signed, within the fields the line protocol can
    carry: two records whose fields contain no newline and whose metadata keys contain no '='
    have the same payload only when agent id, node id, endpoint, revision and metadata agree. *)
Theorem canonical_payload_injective r1 r2 :
  clean_record r1 -> clean_record r2 ->
  canonical_agent_payload r1 = canonical_agent_payload r2 ->
  agent_id r1 = agent_id r2 /\ node_id r1 = node_id r2 /\ endpoint r1 = endpoint r2 /\
  revision r1 = revision r2 /\ metadata r1 = metadata r2.
Proof.
  intros H1 H2. rewrite !canonical_agent_payload_lines. intros Heq%(f_equal getlines).
  rewrite !getlines_unlines in Heq by by apply payload_lines_clean.
  by apply payload_lines_inj.
Qed.

Lemma canonical_payload_injective_witness :
  let r1 := mkAgentRecord "a" "n" "h:1" {["role" := "planner"]} 1 5 "" "" in
  let r2 := mkAgentRecord "a" "n" "h:1" {["role" := "planner"]} 1 9 "aa" "bb" in
  clean_record r1 /\ clean_record r2 /\ metadata r1 = metadata r2.
Proof.
  intros r1 r2.
  assert (Hm : forall k v, ({["role" := "planner"]} : gmap string string) !! k = Some v ->
    no_char newline k = true /\ no_char "="%char k = true /\ no_char newline v = true).
  { intros k v [<- <-]%lookup_singleton_Some. by vm_compute. }
  assert (H1 : clean_record r1) by (split_and!; [done..|exact Hm]).
  assert (H2 : clean_record r2) by (split_and!; [done..|exact Hm]).
  split; [done|]. split; [done|].
  apply (canonical_payload_injective r1 r2 H1 H2). by vm_compute.
Defined.

(** Fields that contain newlines defeat the payload: the two records below differ in
    their metadata (one entry, or two) and have the same canonical payload, so whatever
    signature one of them carries is accepted, or refused, for both. *)
Theorem canonical_payload_collision :
  let m1 : gmap string string := {["k" := "v" +:+ nl +:+ "metadata.z=w"]} in
  let m2 : gmap string string := <["k" := "v"]> {["z" := "w"]} in
  forall (S : Sodium) a n e rev t pk sig,
    let r1 := mkAgentRecord a n e m1 rev t pk sig in
    let r2 := mkAgentRecord a n e m2 rev t pk sig in
    metadata r1 <> metadata r2 /\
    canonical_agent_payload r1 = canonical_agent_payload r2 /\
    verify_agent_signature r1 = verify_agent_signature r2.
Proof.
  intros m1 m2 S a n e rev t pk sig r1 r2.
  assert (Hpay : canonical_agent_payload r1 = canonical_agent_payload r2).
  { unfold canonical_agent_payload, r1, r2; cbn [agent_id node_id endpoint revision metadata].
    do 12 f_equal. }
  split_and!; [|done|].
  - simpl. intros Heq%(f_equal (lookup "z")). vm_compute in Heq. done.
  - unfold verify_agent_signature. rewrite Hpay. done.
Qed.

(** So do metadata keys that contain '='. *)
Theorem metadata_key_collision :
  let m1 : gmap string string := {["a=b" := "c"]} in
  let m2 : gmap string string := {["a" := "b=c"]} in
  forall (S : Sodium) a n e rev t pk sig,
    let r1 := mkAgentRecord a n e m1 rev t pk sig in
    let r2 := mkAgentRecord a n e m2 rev t pk sig in
    metadata r1 <> metadata r2 /\
    canonical_agent_payload r1 = canonical_agent_payload r2 /\
    verify_agent_signature r1 = verify_agent_signature r2.
Proof.
  intros m1 m2 S a n e rev t pk sig r1 r2.
  assert (Hpay : canonical_agent_payload r1 = canonical_agent_payload r2).
  { unfold canonical_agent_payload, r1, r2; cbn [agent_id node_id endpoint revision metadata].
    do 12 f_equal. }
  split_and!; [|done|].
  - simpl. intros Heq%(f_equal (lookup "a")). vm_compute in Heq. done.
  - unfold verify_agent_signature. rewrite Hpay. done.
Qed.

(** ** Verification *)

Section verification.
Context {S : Sodium}.

(** When verification answers [Valid]. *)
Lemma verify_agent_signature_valid r :
  verify_agent_signature r = Valid <->
  sodium_enabled = true /\ decode_hex (public_key_hex r) <> [] /\ decode_hex (signature_hex r) <> [] /\
  size_of (decode_hex (public_key_hex r)) = crypto_sign_PUBLICKEYBYTES /\
  size_of (decode_hex (signature_hex r)) = crypto_sign_BYTES /\
  crypto_sign_verify_detached (decode_hex (signature_hex r))
    (bytes_of_string (canonical_agent_payload r)) (decode_hex (public_key_hex r)) = 0.
Proof.
  unfold verify_agent_signature. split.
  - intros Hv. split_tests. bool_to_prop.
    repeat match goal with H : bool_decide _ = false |- _ => apply bool_decide_eq_false in H end.
    done.
  - intros (-> & Hpk & Hsig & -> & -> & ->).
    rewrite !bool_decide_eq_false_2 by done. rewrite !Z.eqb_refl.
    destruct (public_key_hex r), (signature_hex r); done.
Qed.

(** An empty key or signature is reported as [Missing], whatever else the record holds. *)
Lemma verify_agent_signature_missing r :
  verify_agent_signature r = Missing <-> public_key_hex r = "" \/ signature_hex r = "".
Proof.
  unfold verify_agent_signature.
  destruct (str_empty (public_key_hex r) || str_empty (signature_hex r)) eqn:He.
  - apply orb_true_iff in He. rewrite !str_empty_true in He. tauto.
  - apply orb_false_iff in He. rewrite !str_empty_false in He.
    split; [intros Hv; split_tests|naive_solver].
Qed.

Lemma verify_valid_has_key r : verify_agent_signature r = Valid -> public_key_hex r <> "".
Proof.
  intros (_ & Hpk & _)%verify_agent_signature_valid Hemp. rewrite Hemp in Hpk. by apply Hpk.
Qed.

(** Without libsodium nothing is [Valid]. *)
Lemma verify_disabled r : sodium_enabled = false -> verify_agent_signature r <> Valid.
Proof. intros Hs (He & _)%verify_agent_signature_valid. congruence. Qed.

(** Verification looks at the payload, the key and the signature only. *)
Lemma verify_agent_signature_ext r1 r2 :
  canonical_agent_payload r1 = canonical_agent_payload r2 ->
  public_key_hex r1 = public_key_hex r2 -> signature_hex r1 = signature_hex r2 ->
  verify_agent_signature r1 = verify_agent_signature r2.
Proof. intros Hp Hk Hs. unfold verify_agent_signature. by rewrite Hp, Hk, Hs. Qed.

Lemma signed_record_payload seed r :
  canonical_agent_payload (signed_record seed r) = canonical_agent_payload r.
Proof. unfold signed_record. by destruct (crypto_sign_keypair seed). Qed.

(** A registration signed with a key pair of the library verifies: [verify_agent_signature]
    answers [Valid] on a record that carries the public key and the signature of its own
    canonical payload, when the build has libsodium. *)
Theorem signed_record_valid (L : SodiumLaws S) (enabled : sodium_enabled = true) seed r :
  verify_agent_signature (signed_record seed r) = Valid.
Proof.
  apply verify_agent_signature_valid. rewrite signed_record_payload. unfold signed_record.
  pose proof (keypair_sizes seed) as [Hpk _]. pose proof (sign_then_verify seed) as Hver.
  destruct key_sizes as (Hk & Hs & _).
  destruct (crypto_sign_keypair seed) as [pk sk]; simpl in *.
  rewrite !decode_encode_hex.
  pose proof (signature_size (bytes_of_string (canonical_agent_payload r)) sk) as Hsig.
  split_and!; try done.
  - intros ->. rewrite Hk in Hpk. done.
  - intros Hnil. rewrite Hnil, Hs in Hsig. done.
Qed.
End verification.

Lemma signed_record_valid_witness :
  verify_agent_signature (signed_record 42 (mkAgentRecord "a" "n" "h:1" ∅ 7 0 "" "")) = Valid /\
  @verify_agent_signature no_sodium (signed_record 42 (mkAgentRecord "a" "n" "h:1" ∅ 7 0 "" "")) = Unsupported.
Proof.
  split; [|by vm_compute].
  apply (@signed_record_valid toy_sodium toy_sodium_laws). reflexivity.
Defined.
