(* ===== verification/IdentityService.v ===== *)
(** * The trust store: [src/src/beacon/identity_service.hpp], [identity_service.cpp]

    The first key that signs a valid registration for an agent is pinned; later
    registrations must verify under the same key.  The state is the member
    [trust_store_]; [mutex_] makes each operation one atomic step. *)

From S2P Require Import Prelude CxxString CxxContainers Types Sodium SecureBuffer Crypto.

(** ** Definitions *)

Record IdentityService := mkIdentityService {
  trust_store_ : gmap string SecureBuffer;
}.

Definition new_identity_service : IdentityService := mkIdentityService ∅.

Section service.
Context {S : Sodium}.

Definition verify_and_register (record : AgentRecord) (this : IdentityService)
    : IdentityService * SignatureStatus :=
  let status := verify_agent_signature record in
  if bool_decide (status <> Valid) then (this, status)
  else
    let public_key_bytes := decode_hex (public_key_hex record) in
    if bool_decide (public_key_bytes = []) then (this, Invalid)
    else
      let public_key := buffer_of_bytes public_key_bytes in
      match trust_store_ this !! agent_id record with
      | None => (mkIdentityService (<[agent_id record := public_key]> (trust_store_ this)), Valid)
      | Some existing =>
          if negb (constant_time_equals existing public_key) then (this, Invalid)
          else (this, Valid)
      end.

Definition check_key_consistency (agent : string) (public_key : SecureBuffer) (this : IdentityService) : bool :=
  match trust_store_ this !! agent with
  | None => true
  | Some existing => constant_time_equals existing public_key
  end.
End service.

Definition forget_key (agent : string) (this : IdentityService) : IdentityService :=
  mkIdentityService (delete agent (trust_store_ this)).

Definition trusted_agents (this : IdentityService) : Z := Z.of_nat (size (trust_store_ this)).

(** The store only holds buffers that satisfy their class invariant. *)
Definition identity_ok (this : IdentityService) : Prop :=
  map_Forall (fun _ b => buffer_ok b) (trust_store_ this).

(** The key pinned for an agent. *)
Definition pinned_key (this : IdentityService) (agent : string) : option bytes :=
  contents <$> trust_store_ this !! agent.

(** Verifying a sequence of records, one after the other. *)
Definition verify_all {S : Sodium} (records : list AgentRecord) (this : IdentityService)
    : IdentityService * list SignatureStatus :=
  foldl (fun '(st, out) r => let '(st', s) := verify_and_register r st in (st', out ++ [s]))
    (this, []) records.

(** ** Lemmas *)

Section lemmas.
Context {S : Sodium} {L : SodiumLaws S}.

Lemma verify_and_register_ok record this :
  identity_ok this -> identity_ok (verify_and_register record this).1.
Proof.
  intros Hok. unfold verify_and_register. split_tests; try done.
  apply map_Forall_insert_2; [|done]. apply buffer_of_bytes_ok.
Qed.

(** The answer and the store after it, in one table. *)
Lemma verify_and_register_spec record this : identity_ok this ->
  let key := decode_hex (public_key_hex record) in
  verify_and_register record this =
    match verify_agent_signature record with
    | Valid =>
        match pinned_key this (agent_id record) with
        | None => (mkIdentityService (<[agent_id record := buffer_of_bytes key]> (trust_store_ this)), Valid)
        | Some k => (this, if decide (k = key) then Valid else Invalid)
        end
    | status => (this, status)
    end.
Proof.
  intros Hok key. unfold verify_and_register, pinned_key.
  destruct (verify_agent_signature record) eqn:Hv; simpl; try done.
  apply verify_agent_signature_valid in Hv as (_ & Hne & _).
  fold key. rewrite bool_decide_eq_false_2 by done.
  destruct (trust_store_ this !! agent_id record) as [b|] eqn:Hb; simpl; [|done].
  destruct (buffer_of_bytes_ok key) as [Hbok Hbc].
  pose proof (constant_time_equals_contents b (buffer_of_bytes key) (Hok _ _ Hb) Hbok) as Heq.
  rewrite Hbc in Heq. destruct (constant_time_equals _ _); simpl; case_decide; intuition congruence.
Qed.

Lemma verify_and_register_pinned record this agent k : identity_ok this ->
  pinned_key this agent = Some k ->
  pinned_key (verify_and_register record this).1 agent = Some k /\
  (agent_id record = agent -> (verify_and_register record this).2 = Valid ->
   decode_hex (public_key_hex record) = k).
Proof.
  intros Hok Hk. rewrite verify_and_register_spec by done.
  destruct (verify_agent_signature record); simpl; try done.
  destruct (decide (agent_id record = agent)) as [<-|Hne].
  - rewrite Hk. simpl. split; [done|]. intros _. by case_decide.
  - split; [|done]. destruct (pinned_key this (agent_id record)); simpl; [done|].
    unfold pinned_key in *; simpl. by rewrite lookup_insert_ne.
Qed.

Lemma verify_all_snoc records record this :
  verify_all (records ++ [record]) this =
    let '(st, out) := verify_all records this in
    let '(st', s) := verify_and_register record st in (st', out ++ [s]).
Proof. unfold verify_all. rewrite foldl_app. simpl. by destruct (foldl _ _ _). Qed.

Lemma verify_all_ok records this : identity_ok this -> identity_ok (verify_all records this).1.
Proof.
  intros Hok. induction records as [|r records IH] using rev_ind; [done|].
  rewrite verify_all_snoc. destruct (verify_all records this) as [st out].
  pose proof (verify_and_register_ok r st IH). by destruct (verify_and_register r st).
Qed.

Lemma verify_all_length records this : length (verify_all records this).2 = length records.
Proof.
  induction records as [|r records IH] using rev_ind; [done|].
  rewrite verify_all_snoc. destruct (verify_all records this) as [st out].
  destruct (verify_and_register r st). simpl in *. by rewrite !length_app, IH.
Qed.

(** (C19) Trust on first use: once a key is pinned for an agent, no sequence of registrations
    changes it, and every registration of that agent that is answered [Valid] carries exactly
    the pinned key. *)
Theorem identity_trust_on_first_use records this agent k :
  identity_ok this -> pinned_key this agent = Some k ->
  pinned_key (verify_all records this).1 agent = Some k /\
  forall i r, records !! i = Some r -> agent_id r = agent ->
    (verify_all records this).2 !! i = Some Valid -> decode_hex (public_key_hex r) = k.
Proof.
  intros Hok Hk. induction records as [|x records [IHk IH]] using rev_ind; [done|].
  pose proof (verify_all_ok records this Hok) as Hok'.
  pose proof (verify_all_length records this) as Hlen.
  rewrite verify_all_snoc. destruct (verify_all records this) as [st out]; simpl in *.
  destruct (verify_and_register_pinned x st agent k Hok' IHk) as [Hp Hv].
  destruct (verify_and_register x st) as [st' s]; simpl in *. split; [done|].
  intros i r Hi Ha Hs. apply lookup_app_Some in Hi as [Hi|[Hge Hi]].
  - pose proof (lookup_lt_Some _ _ _ Hi). rewrite lookup_app_l in Hs by lia. eauto.
  - rewrite lookup_app_r in Hs by lia. rewrite Hlen in Hs.
    apply list_lookup_singleton_Some in Hi as [Hi ->]. rewrite Hi in Hs.
    injection Hs as ->. auto.
Qed.
End lemmas.

Lemma identity_trust_on_first_use_witness :
  let r seed rev := signed_record seed (mkAgentRecord "a" "n" "h:1" ∅ rev 0 "" "") in
  let this := (verify_and_register (r 1 1) new_identity_service).1 in
  let k := replicate 32 (byte_of_Z 1) in
  pinned_key (verify_all [r 2 2; r 1 3] this).1 "a" = Some k /\
  (verify_all [r 2 2; r 1 3] this).2 = [Invalid; Valid].
Proof.
  intros r this k. split; [|by vm_compute].
  apply (identity_trust_on_first_use (L := toy_sodium_laws) [r 2 2; r 1 3] this "a" k).
  - apply verify_and_register_ok. apply map_Forall_empty.
  - by vm_compute.
Defined.
