(* ===== verification/AgentRegistry.v ===== *)
(** * The agent registry: [src/src/beacon/agent_registry.hpp], [agent_registry.cpp]

    The state is the vector [records_] and the callback [on_upsert_].  The callback acts on
    some outside world [W] (the write-ahead log in the engine), which [upsert] and [merge]
    thread.  [mutex_] makes each operation one atomic step, except that [upsert] runs the
    callback after it has released the lock: [upsert_locked] and [notify] are its two steps,
    which other threads may separate, and [upsert] is their sequence.  The [IdentityService*] argument
    of [merge] is [None] for the null pointer. *)

From S2P Require Import Prelude CxxString CxxContainers Types Sodium SecureBuffer Crypto IdentityService.

(** ** Definitions *)

Record AgentRegistry (W : Type) := mkAgentRegistry {
  records_ : list AgentRecord;
  on_upsert_ : option (AgentRecord -> W -> W);
}.
Arguments mkAgentRegistry {W}.
Arguments records_ {W}.
Arguments on_upsert_ {W}.

Definition new_registry {W} : AgentRegistry W := mkAgentRegistry [] None.

Definition set_records {W} (rs : list AgentRecord) (this : AgentRegistry W) : AgentRegistry W :=
  mkAgentRegistry rs (on_upsert_ this).

(** [std::find_if] by agent id: the position and the record. *)
Definition find_agent (id : string) (rs : list AgentRecord) : option (nat * AgentRecord) :=
  list_find (fun candidate => agent_id candidate = id) rs.

(** The part of [upsert] under the lock: the registry and whether the record was stored. *)
Definition upsert_locked {W} (record : AgentRecord) (this : AgentRegistry W) : AgentRegistry W * bool :=
  match find_agent (agent_id record) (records_ this) with
  | None => (set_records (records_ this ++ [record]) this, true)
  | Some (i, existing) =>
      if revision record <? revision existing then (this, false)
      else if negb (str_empty (public_key_hex existing)) && negb (str_empty (public_key_hex record)) &&
              bool_decide (public_key_hex existing <> public_key_hex record) then (this, false)
      else (set_records (<[i := record]> (records_ this)) this, true)
  end.

(** The callback, once the lock is released. *)
Definition notify {W} (record : AgentRecord) (this : AgentRegistry W) (w : W) : W :=
  match on_upsert_ this with Some cb => cb record w | None => w end.

Definition upsert {W} (record : AgentRecord) (this : AgentRegistry W) (w : W)
    : AgentRegistry W * W * bool :=
  let '(this', stored) := upsert_locked record this in
  (this', if (stored : bool) then notify record this' w else w, stored).

Definition refresh_heartbeat {W} (id : string) (expires : TimePoint) (rev : Z) (this : AgentRegistry W)
    : AgentRegistry W * bool :=
  match find_agent id (records_ this) with
  | None => (this, false)
  | Some (i, existing) =>
      if rev <? revision existing then (this, false)
      else (set_records (<[i := set_revision rev (set_expires_at expires existing)]> (records_ this)) this, true)
  end.

(** One iteration of the loop of [merge]. *)
Definition merge_one {W} {S : Sodium} (record : AgentRecord)
    (st : AgentRegistry W * W * option IdentityService * Z) : AgentRegistry W * W * option IdentityService * Z :=
  let '(this, w, identity, accepted) := st in
  let '(identity', skip) :=
    match identity with
    | None => (None, false)
    | Some svc =>
        let '(svc', status) := verify_and_register record svc in
        (Some svc', bool_decide (status <> Valid) && bool_decide (status <> Missing))
    end in
  if skip then (this, w, identity', accepted)
  else let '(this', w', ok) := upsert record this w in
       (this', w', identity', if (ok : bool) then accepted + 1 else accepted).

Definition merge {W} {S : Sodium} (records : list AgentRecord) (identity : option IdentityService)
    (this : AgentRegistry W) (w : W) : AgentRegistry W * W * option IdentityService * Z :=
  foldl (fun st record => merge_one record st) (this, w, identity, 0) records.

Definition entries_after_revision {W} {Sort : StdSort} (rev limit : Z) (this : AgentRegistry W)
    : list AgentRecord :=
  let selected := filter (fun r => rev < revision r) (records_ this) in
  let sorted := std_sort (fun left right => revision left <? revision right) selected in
  if (0 <? limit) && (limit <? size_of sorted) then shrink_to limit sorted else sorted.

Definition find {W} (id : string) (this : AgentRegistry W) : option AgentRecord :=
  snd <$> find_agent id (records_ this).

Definition list_agents {W} (this : AgentRegistry W) : list AgentRecord := records_ this.

Definition purge_expired {W} (now : TimePoint) (this : AgentRegistry W) : AgentRegistry W * Z :=
  let before := size_of (records_ this) in
  let kept := filter (fun r => ~ (expires_at r <= now)) (records_ this) in
  (set_records kept this, before - size_of kept).

Definition set_upsert_callback {W} (cb : option (AgentRecord -> W -> W)) (this : AgentRegistry W)
    : AgentRegistry W := mkAgentRegistry (records_ this) cb.

(** One iteration of the loop of [load_from_persistence].  In the second branch the
    assignment of the whole record follows the assignment of [expires_at]. *)
Definition load_one (far_future : TimePoint) (record : AgentRecord) (rs : list AgentRecord)
    : list AgentRecord :=
  match find_agent (agent_id record) rs with
  | None => rs ++ [set_expires_at far_future record]
  | Some (i, existing) =>
      if revision existing <? revision record
      then <[i := record]> (<[i := set_expires_at far_future existing]> rs)
      else rs
  end.

Definition load_from_persistence {W} (now : TimePoint) (records : list AgentRecord) (this : AgentRegistry W)
    : AgentRegistry W :=
  let far_future := now + hours (24 * 365) in
  set_records (foldl (fun rs record => load_one far_future record rs) (records_ this) records) this.

Definition stats {W} (this : AgentRegistry W) : RegistryStats :=
  mkRegistryStats (size_of (records_ this))
    (foldl (fun highest r => Z.max highest (revision r)) 0 (records_ this)).

(** The class invariant: at most one record per agent id, revisions of 64 bits. *)
Definition registry_ok {W} (this : AgentRegistry W) : Prop :=
  NoDup (agent_id <$> records_ this) /\ Forall (fun r => u64 (revision r)) (records_ this).
