(* ===== verification/RegistrySpec.v ===== *)
(** * What the registry promises: an abstract map and the simulation

    Abstractly a registry is a finite map from agent id to record.  [spec_*] are the
    operations on that map; [by_id] is the abstraction function; the lemmas [*_refines] show
    that every operation of [AgentRegistry.v] implements its abstract counterpart.  On top:
    the invariant of reachable states and the order theory of [merge]. *)

From S2P Require Import Prelude CxxString CxxContainers Types Sodium SecureBuffer Crypto IdentityService AgentRegistry.

(** ** The abstract operations *)

Abbreviation registry_map := (gmap string AgentRecord).

Definition by_id (rs : list AgentRecord) : registry_map :=
  list_to_map ((fun r => (agent_id r, r)) <$> rs).

(** Two keys are in conflict when both are present and differ. *)
Definition key_conflict (k1 k2 : string) : bool :=
  negb (str_empty k1) && negb (str_empty k2) && bool_decide (k1 <> k2).

(** A stored record gives way to [record]. *)
Definition replaces (record existing : AgentRecord) : bool :=
  negb (revision record <? revision existing) &&
  negb (key_conflict (public_key_hex existing) (public_key_hex record)).

Definition spec_upsert (record : AgentRecord) (m : registry_map) : registry_map * bool :=
  match m !! agent_id record with
  | None => (<[agent_id record := record]> m, true)
  | Some existing =>
      if replaces record existing then (<[agent_id record := record]> m, true) else (m, false)
  end.

Definition spec_heartbeat (id : string) (expires : TimePoint) (rev : Z) (m : registry_map)
    : registry_map * bool :=
  match m !! id with
  | None => (m, false)
  | Some existing =>
      if rev <? revision existing then (m, false)
      else (<[id := set_revision rev (set_expires_at expires existing)]> m, true)
  end.

Definition spec_merge (records : list AgentRecord) (m : registry_map) : registry_map :=
  foldl (fun m r => (spec_upsert r m).1) m records.

Definition spec_purge (now : TimePoint) (m : registry_map) : registry_map :=
  filter (fun kv => ~ (expires_at kv.2 <= now)) m.

Definition spec_load_one (far_future : TimePoint) (record : AgentRecord) (m : registry_map) : registry_map :=
  match m !! agent_id record with
  | None => <[agent_id record := set_expires_at far_future record]> m
  | Some existing => if revision existing <? revision record then <[agent_id record := record]> m else m
  end.

(** ** Operations as events *)

Inductive event :=
| EvUpsert (record : AgentRecord)
| EvHeartbeat (id : string) (expires : TimePoint) (rev : Z)
| EvPurge (now : TimePoint)
| EvLoad (now : TimePoint) (records : list AgentRecord).

Definition event_ok (e : event) : Prop :=
  match e with
  | EvUpsert r => u64 (revision r)
  | EvHeartbeat _ _ rev => u64 rev
  | EvPurge _ => True
  | EvLoad _ rs => Forall (fun r => u64 (revision r)) rs
  end.

(** What a caller observes: acceptance, or the number of purged records. *)
Inductive output := OutAccepted (ok : bool) | OutPurged (n : Z) | OutNone.

(** The transition of the registry ([merge] is a sequence of [EvUpsert]). *)
Inductive step {W} : AgentRegistry W * W -> event -> output -> AgentRegistry W * W -> Prop :=
| StepUpsert r this w this' w' ok :
    upsert r this w = (this', w', ok) -> step (this, w) (EvUpsert r) (OutAccepted ok) (this', w')
| StepHeartbeat id e rev this w this' ok :
    refresh_heartbeat id e rev this = (this', ok) ->
    step (this, w) (EvHeartbeat id e rev) (OutAccepted ok) (this', w)
| StepPurge now this w this' n :
    purge_expired now this = (this', n) -> step (this, w) (EvPurge now) (OutPurged n) (this', w)
| StepLoad now rs this w :
    step (this, w) (EvLoad now rs) OutNone (load_from_persistence now rs this, w).

Inductive steps {W} : AgentRegistry W * W -> list event -> list output -> AgentRegistry W * W -> Prop :=
| StepsNil s : steps s [] [] s
| StepsCons s1 e o s2 es os s3 :
    step s1 e o s2 -> steps s2 es os s3 -> steps s1 (e :: es) (o :: os) s3.

Definition spec_step (e : event) (m : registry_map) : registry_map * output :=
  match e with
  | EvUpsert r => let '(m', ok) := spec_upsert r m in (m', OutAccepted ok)
  | EvHeartbeat id ex rev => let '(m', ok) := spec_heartbeat id ex rev m in (m', OutAccepted ok)
  | EvPurge now => (spec_purge now m, OutPurged (Z.of_nat (size m) - Z.of_nat (size (spec_purge now m))))
  | EvLoad now rs => (foldl (fun m r => spec_load_one (now + hours (24 * 365)) r m) m rs, OutNone)
  end.

Fixpoint spec_run (es : list event) (m : registry_map) : registry_map * list output :=
  match es with
  | [] => (m, [])
  | e :: es' =>
      let '(m1, o) := spec_step e m in
      let '(m2, os) := spec_run es' m1 in (m2, o :: os)
  end.

Definition is_purge (e : event) : bool := match e with EvPurge _ => true | _ => false end.

(** ** The abstraction function *)

Lemma find_agent_cons aid r rs :
  find_agent aid (r :: rs) =
    if decide (agent_id r = aid) then Some (0%nat, r) else prod_map S id <$> find_agent aid rs.
Proof. done. Qed.

Lemma find_agent_id aid rs i e : find_agent aid rs = Some (i, e) -> rs !! i = Some e /\ agent_id e = aid.
Proof. intros (? & ? & _)%list_find_Some. done. Qed.

Lemma find_agent_None aid rs : find_agent aid rs = None <-> aid ∉ (agent_id <$> rs).
Proof.
  unfold find_agent. rewrite list_find_None, Forall_forall, list_elem_of_fmap.
  split; [intros H (r & -> & Hr); by apply (H r)|intros H r Hr <-; eauto].
Qed.

Lemma by_id_cons r rs : by_id (r :: rs) = <[agent_id r := r]> (by_id rs).
Proof. done. Qed.

Lemma by_id_lookup aid rs : by_id rs !! aid = snd <$> find_agent aid rs.
Proof.
  induction rs as [|r rs IH]; [done|]. rewrite by_id_cons, find_agent_cons, lookup_insert, IH.
  case_decide; [done|]. by destruct (find_agent aid rs) as [[]|].
Qed.

Lemma by_id_snoc r rs :
  find_agent (agent_id r) rs = None -> by_id (rs ++ [r]) = <[agent_id r := r]> (by_id rs).
Proof.
  induction rs as [|x rs IH]; [done|]. rewrite find_agent_cons. case_decide; [done|].
  intros Hn. rewrite fmap_None in Hn. simpl. rewrite !by_id_cons, IH by done.
  by rewrite insert_insert_ne.
Qed.

Lemma by_id_insert i e r rs :
  find_agent (agent_id r) rs = Some (i, e) -> by_id (<[i := r]> rs) = <[agent_id r := r]> (by_id rs).
Proof.
  revert i. induction rs as [|x rs IH]; intros i; [done|]. rewrite find_agent_cons. case_decide as Hx.
  - intros [= <- <-]. simpl. rewrite !by_id_cons, Hx. by rewrite insert_insert_eq.
  - intros ([j y] & Hj & [= -> ->])%fmap_Some. simpl. rewrite !by_id_cons, (IH j) by done.
    by rewrite insert_insert_ne.
Qed.

Lemma by_id_elem rs aid r : by_id rs !! aid = Some r -> r ∈ rs /\ agent_id r = aid.
Proof.
  rewrite by_id_lookup. intros ([i e] & Hf & ->)%fmap_Some. simpl.
  apply find_agent_id in Hf as [Hi ->]. split; [|done]. by eapply list_elem_of_lookup_2.
Qed.

Lemma elem_by_id rs r : NoDup (agent_id <$> rs) -> r ∈ rs -> by_id rs !! agent_id r = Some r.
Proof.
  intros Hnd Hr. apply elem_of_list_to_map_1.
  - by rewrite <- list_fmap_compose.
  - apply list_elem_of_fmap. eauto.
Qed.

(** ** Refinement, operation by operation *)

Lemma find_refines {W} aid (this : AgentRegistry W) : find aid this = by_id (records_ this) !! aid.
Proof. by rewrite by_id_lookup. Qed.

Lemma upsert_cases {W} r (this : AgentRegistry W) w :
  upsert r this w =
    match find_agent (agent_id r) (records_ this) with
    | None => (set_records (records_ this ++ [r]) this, from_option (fun cb => cb r w) w (on_upsert_ this), true)
    | Some (i, e) =>
        if replaces r e
        then (set_records (<[i := r]> (records_ this)) this, from_option (fun cb => cb r w) w (on_upsert_ this), true)
        else (this, w, false)
    end.
Proof.
  unfold upsert, upsert_locked, notify, replaces, key_conflict. destruct (find_agent _ _) as [[i e]|]; [|done].
  destruct (revision r <? revision e); [done|]. simpl.
  destruct (negb (str_empty (public_key_hex e)) && _ && _); done.
Qed.

Lemma upsert_refines {W} r (this : AgentRegistry W) w this' w' ok :
  upsert r this w = (this', w', ok) ->
  spec_upsert r (by_id (records_ this)) = (by_id (records_ this'), ok).
Proof.
  rewrite upsert_cases. unfold spec_upsert. rewrite by_id_lookup.
  destruct (find_agent _ _) as [[i e]|] eqn:Hf; simpl.
  - destruct (replaces r e); intros [= <- <- <-]; [|done]. simpl. by rewrite (by_id_insert i e).
  - intros [= <- <- <-]. simpl. by rewrite by_id_snoc.
Qed.

Lemma elem_of_insert {A} (l : list A) i x y : y ∈ <[i := x]> l -> y = x \/ y ∈ l.
Proof.
  intros (j & Hj)%list_elem_of_lookup_1. destruct (decide (i = j)) as [<-|Hne].
  - apply list_lookup_insert_Some in Hj as [(_ & <- & _)|(? & _)]; [by left|done].
  - rewrite list_lookup_insert_ne in Hj by done. right. by eapply list_elem_of_lookup_2.
Qed.

(** A stored record either was there or is the one just offered. *)
Lemma upsert_elem {W} r (this : AgentRegistry W) w x :
  x ∈ records_ (upsert r this w).1.1 -> x = r \/ x ∈ records_ this.
Proof.
  rewrite upsert_cases. destruct (find_agent _ _) as [[i e]|]; [case_match|]; simpl.
  - apply elem_of_insert.
  - auto.
  - rewrite elem_of_app, list_elem_of_singleton. tauto.
Qed.

Lemma upsert_refused {W} r (this : AgentRegistry W) w e :
  find (agent_id r) this = Some e -> replaces r e = false -> upsert r this w = (this, w, false).
Proof.
  unfold find. rewrite upsert_cases. intros ([i x] & -> & ->)%fmap_Some Hr. simpl in Hr. by rewrite Hr.
Qed.

Lemma heartbeat_refines {W} aid ex rev (this : AgentRegistry W) this' ok :
  refresh_heartbeat aid ex rev this = (this', ok) ->
  spec_heartbeat aid ex rev (by_id (records_ this)) = (by_id (records_ this'), ok).
Proof.
  unfold refresh_heartbeat, spec_heartbeat. rewrite by_id_lookup.
  destruct (find_agent aid _) as [[i e]|] eqn:Hf; simpl; [|by intros [= <- <-]].
  destruct (rev <? revision e); intros [= <- <-]; [done|]. simpl.
  pose proof (find_agent_id _ _ _ _ Hf) as [_ <-].
  by rewrite (by_id_insert i e (set_revision rev (set_expires_at ex e))).
Qed.

Lemma by_id_filter (P : AgentRecord -> Prop) `{forall r, Decision (P r)} rs :
  NoDup (agent_id <$> rs) -> by_id (filter P rs) = filter (fun kv => P kv.2) (by_id rs).
Proof.
  induction rs as [|r rs IH]; [done|]. csimpl. intros [Hr Hnd]%NoDup_cons.
  apply find_agent_None in Hr.
  assert (Hnone : by_id rs !! agent_id r = None) by (by rewrite by_id_lookup, Hr).
  rewrite filter_cons, by_id_cons, map_filter_insert; simpl. case_decide as HP.
  - by rewrite by_id_cons, IH.
  - by rewrite IH, delete_id.
Qed.

Lemma by_id_size rs : NoDup (agent_id <$> rs) -> size (by_id rs) = length rs.
Proof.
  induction rs as [|r rs IH]; [done|]. csimpl. intros [Hr Hnd]%NoDup_cons.
  apply find_agent_None in Hr. rewrite by_id_cons, map_size_insert_None, IH; [done|done|].
  by rewrite by_id_lookup, Hr.
Qed.

Lemma purge_refines {W} now (this : AgentRegistry W) this' n :
  NoDup (agent_id <$> records_ this) -> purge_expired now this = (this', n) ->
  spec_step (EvPurge now) (by_id (records_ this)) = (by_id (records_ this'), OutPurged n).
Proof.
  intros Hnd [= <- <-]. unfold spec_step. cbn [records_ set_records].
  assert (spec_purge now (by_id (records_ this)) =
    by_id (filter (fun r => ~ (expires_at r <= now)) (records_ this))) as ->
    by (symmetry; by apply by_id_filter).
  rewrite !by_id_size by (done || by apply NoDup_fmap_filter). done.
Qed.

Lemma load_one_refines far r rs : by_id (load_one far r rs) = spec_load_one far r (by_id rs).
Proof.
  unfold load_one, spec_load_one. rewrite by_id_lookup.
  destruct (find_agent (agent_id r) rs) as [[i e]|] eqn:Hf; simpl.
  - case_match; [|done]. rewrite list_insert_insert_eq. by rewrite (by_id_insert i e).
  - by rewrite by_id_snoc.
Qed.

Lemma load_refines {W} now records (this : AgentRegistry W) :
  spec_step (EvLoad now records) (by_id (records_ this)) =
  (by_id (records_ (load_from_persistence now records this)), OutNone).
Proof.
  unfold load_from_persistence, spec_step; simpl. f_equal. generalize (records_ this) as rs.
  induction records as [|r records IH]; intros rs; [done|]. simpl. by rewrite <- IH, load_one_refines.
Qed.

(** ** The invariant of reachable states *)

Lemma records_ok_snoc (P : AgentRecord -> Prop) r rs :
  NoDup (agent_id <$> rs) /\ Forall P rs -> P r -> find_agent (agent_id r) rs = None ->
  NoDup (agent_id <$> rs ++ [r]) /\ Forall P (rs ++ [r]).
Proof.
  intros [Hnd HP] Hr Hf%find_agent_None. rewrite fmap_app. split.
  - apply NoDup_app. split; [done|]. split; [|apply NoDup_singleton].
    intros x Hx. simpl. rewrite list_elem_of_singleton. by intros ->.
  - apply Forall_app. split; [done|]. by constructor.
Qed.

Lemma records_ok_insert (P : AgentRecord -> Prop) aid i e r rs :
  NoDup (agent_id <$> rs) /\ Forall P rs -> P r -> find_agent aid rs = Some (i, e) ->
  agent_id r = aid -> NoDup (agent_id <$> <[i := r]> rs) /\ Forall P (<[i := r]> rs).
Proof.
  intros [Hnd HP] Hr [Hi He]%find_agent_id Ha. split; [|by apply Forall_insert].
  by rewrite (fmap_insert_same _ _ _ e) by congruence.
Qed.

Lemma load_one_ok P far r rs :
  (forall t x, P x -> P (set_expires_at t x)) ->
  NoDup (agent_id <$> rs) /\ Forall P rs -> P r ->
  NoDup (agent_id <$> load_one far r rs) /\ Forall P (load_one far r rs).
Proof.
  intros Hset Hok Hr. unfold load_one. destruct (find_agent _ _) as [[i e]|] eqn:Hf.
  - case_match; [|done]. rewrite list_insert_insert_eq. by eapply records_ok_insert.
  - apply records_ok_snoc; [done|auto|done].
Qed.

Lemma upsert_ok {W} r (this : AgentRegistry W) w :
  registry_ok this -> u64 (revision r) -> registry_ok (upsert r this w).1.1.
Proof.
  intros Hok Hr. rewrite upsert_cases. destruct (find_agent _ _) as [[i e]|] eqn:Hf.
  - case_match; [|done]. by eapply records_ok_insert.
  - by apply records_ok_snoc.
Qed.

Lemma heartbeat_ok {W} aid ex rev (this : AgentRegistry W) :
  registry_ok this -> u64 rev -> registry_ok (refresh_heartbeat aid ex rev this).1.
Proof.
  intros Hok Hr. unfold refresh_heartbeat. destruct (find_agent _ _) as [[i e]|] eqn:Hf; [|done].
  case_match; [done|]. pose proof (find_agent_id _ _ _ _ Hf) as [_ He]. by eapply records_ok_insert.
Qed.

Lemma purge_ok {W} now (this : AgentRegistry W) : registry_ok this -> registry_ok (purge_expired now this).1.
Proof.
  intros [Hnd Hf]. split; simpl; [by apply NoDup_fmap_filter|].
  apply Forall_forall. intros r [_ Hr]%list_elem_of_filter. by eapply Forall_forall in Hf.
Qed.

Lemma load_ok {W} now records (this : AgentRegistry W) :
  registry_ok this -> Forall (fun r => u64 (revision r)) records ->
  registry_ok (load_from_persistence now records this).
Proof.
  unfold registry_ok, load_from_persistence; simpl. generalize (records_ this) as rs.
  intros rs Hok Hrs. revert rs Hok. induction Hrs as [|r records Hr _ IH]; intros rs Hok; [done|].
  simpl. apply IH. by apply load_one_ok.
Qed.

Lemma step_ok {W} (s : AgentRegistry W * W) e o s' :
  step s e o s' -> event_ok e -> registry_ok s.1 -> registry_ok s'.1.
Proof.
  intros Hs He Hok. destruct Hs as [r t w t' w' ok Hu|a x v t w t' ok Hu|now t w t' n Hu|now rs t w]; simpl in *.
  - pose proof (upsert_ok r t w Hok He) as H. by rewrite Hu in H.
  - pose proof (heartbeat_ok a x v t Hok He) as H. by rewrite Hu in H.
  - pose proof (purge_ok now t Hok) as H. by rewrite Hu in H.
  - by apply load_ok.
Qed.

Lemma step_refines {W} (s : AgentRegistry W * W) e o s' :
  step s e o s' -> registry_ok s.1 ->
  spec_step e (by_id (records_ s.1)) = (by_id (records_ s'.1), o).
Proof.
  intros Hs [Hnd _]. destruct Hs as [r t w t' w' ok Hu|a x v t w t' ok Hu|now t w t' n Hu|now rs t w]; simpl in *.
  - by rewrite (upsert_refines _ _ _ _ _ _ Hu).
  - by rewrite (heartbeat_refines _ _ _ _ _ _ Hu).
  - apply (purge_refines _ _ _ _ Hnd Hu).
  - apply load_refines.
Qed.

Lemma steps_ok {W} (s : AgentRegistry W * W) es os s' :
  steps s es os s' -> Forall event_ok es -> registry_ok s.1 -> registry_ok s'.1.
Proof.
  induction 1 as [|s1 e o s2 es os s3 Hs _ IH]; [done|].
  intros [He Hes]%Forall_cons Hok. apply IH; [done|]. by eapply step_ok.
Qed.

Lemma steps_refines {W} (s : AgentRegistry W * W) es os s' :
  steps s es os s' -> Forall event_ok es -> registry_ok s.1 ->
  spec_run es (by_id (records_ s.1)) = (by_id (records_ s'.1), os).
Proof.
  induction 1 as [|s1 e o s2 es os s3 Hs Hss IH]; [done|].
  intros [He Hes]%Forall_cons Hok. simpl. rewrite (step_refines _ _ _ _ Hs Hok).
  rewrite IH; [done|done|]. by eapply step_ok.
Qed.

(** ** Revisions *)

(** Close [exists e', lookup = Some e' /\ lower <= upper]. *)
Ltac grow := eexists; split; [eassumption || reflexivity|simpl; lia].

Lemma spec_upsert_grows r m aid e : m !! aid = Some e ->
  exists e', (spec_upsert r m).1 !! aid = Some e' /\ revision e <= revision e'.
Proof.
  intros He. unfold spec_upsert. destruct (decide (agent_id r = aid)) as [<-|Hne].
  - rewrite He. unfold replaces. destruct (negb (revision r <? revision e)) eqn:Hr; simpl.
    + bool_to_prop. destruct (negb _); simpl; [rewrite lookup_insert_eq|]; grow.
    + exists e. split; [done|lia].
  - destruct (m !! agent_id r) as [x|]; [destruct (replaces r x)|]; simpl;
      rewrite ?lookup_insert_ne by done; grow.
Qed.

Lemma spec_heartbeat_grows id ex rev m aid e : m !! aid = Some e ->
  exists e', (spec_heartbeat id ex rev m).1 !! aid = Some e' /\ revision e <= revision e'.
Proof.
  intros He. unfold spec_heartbeat. destruct (decide (id = aid)) as [<-|Hne].
  - rewrite He. case_match eqn:Hr; simpl; [grow|]. bool_to_prop.
    rewrite lookup_insert_eq. grow.
  - destruct (m !! id) as [x|]; [case_match|]; simpl; rewrite ?lookup_insert_ne by done; grow.
Qed.

Lemma spec_load_grows far rs m aid e : m !! aid = Some e ->
  exists e', foldl (fun m r => spec_load_one far r m) m rs !! aid = Some e' /\ revision e <= revision e'.
Proof.
  revert m e. induction rs as [|r rs IH]; intros m e He; simpl; [grow|].
  assert (exists e1, spec_load_one far r m !! aid = Some e1 /\ revision e <= revision e1) as (e1 & H1 & Hle).
  { unfold spec_load_one. destruct (decide (agent_id r = aid)) as [<-|Hne].
    - rewrite He. case_match eqn:Hr; bool_to_prop; [rewrite lookup_insert_eq|]; grow.
    - repeat case_match; rewrite ?lookup_insert_ne by done; grow. }
  destruct (IH _ _ H1) as (e2 & H2 & Hle2). grow.
Qed.

Lemma spec_run_grows es m aid e : Forall (fun e => is_purge e = false) es -> m !! aid = Some e ->
  exists e', (spec_run es m).1 !! aid = Some e' /\ revision e <= revision e'.
Proof.
  intros Hes. revert m e. induction Hes as [|ev es Hev _ IH]; intros m e He; simpl; [grow|].
  assert (exists e1, (spec_step ev m).1 !! aid = Some e1 /\ revision e <= revision e1) as (e1 & H1 & Hle).
  { destruct ev as [r|id ex rev|now|now rs]; simpl; [| |done|by apply spec_load_grows].
    - destruct (spec_upsert_grows r m aid e He) as (e1 & H1 & Hle).
      destruct (spec_upsert r m); eauto.
    - destruct (spec_heartbeat_grows id ex rev m aid e He) as (e1 & H1 & Hle).
      destruct (spec_heartbeat id ex rev m); eauto. }
  destruct (spec_step ev m) as [m1 o]; simpl in *. destruct (IH _ _ H1) as (e2 & H2 & Hle2).
  destruct (spec_run es m1); simpl in *. grow.
Qed.

(** ** Running events *)

Definition do_event {W} (e : event) (s : AgentRegistry W * W) : AgentRegistry W * W * output :=
  let '(this, w) := s in
  match e with
  | EvUpsert r => let '(this', w', ok) := upsert r this w in (this', w', OutAccepted ok)
  | EvHeartbeat id ex rev => let '(this', ok) := refresh_heartbeat id ex rev this in (this', w, OutAccepted ok)
  | EvPurge now => let '(this', n) := purge_expired now this in (this', w, OutPurged n)
  | EvLoad now rs => (load_from_persistence now rs this, w, OutNone)
  end.

Fixpoint run {W} (es : list event) (s : AgentRegistry W * W) : AgentRegistry W * W * list output :=
  match es with
  | [] => (s, [])
  | e :: es' => let '(s1, o) := do_event e s in let '(s2, os) := run es' s1 in (s2, o :: os)
  end.

Lemma do_event_step {W} e (s : AgentRegistry W * W) : step s e (do_event e s).2 (do_event e s).1.
Proof.
  destruct s as [this w], e as [r|id ex rev|now|now rs]; simpl.
  - destruct (upsert r this w) as [[]] eqn:H. by apply StepUpsert.
  - destruct (refresh_heartbeat id ex rev this) eqn:H. by apply StepHeartbeat.
  - by apply StepPurge.
  - apply StepLoad.
Qed.

Lemma run_steps {W} es (s : AgentRegistry W * W) : steps s es (run es s).2 (run es s).1.
Proof.
  revert s. induction es as [|e es IH]; intros s; simpl; [constructor|].
  pose proof (do_event_step e s) as Hs. destruct (do_event e s) as [s1 o].
  specialize (IH s1). destruct (run es s1) as [s2 os]. by econstructor.
Qed.

(** ** The properties *)

(** (C1) The registry implements a map from agent id to record: along every sequence of
    operations the vector, read as a map, goes through exactly the states of the abstract
    operations, with the same answers to the callers, and [find] is lookup in that map. *)
Theorem registry_refines_map {W} (s : AgentRegistry W * W) es os s' :
  steps s es os s' -> Forall event_ok es -> registry_ok s.1 ->
  spec_run es (by_id (records_ s.1)) = (by_id (records_ s'.1), os) /\
  forall aid, find aid s'.1 = by_id (records_ s'.1) !! aid.
Proof. intros. split; [by apply steps_refines|intros aid; apply find_refines]. Qed.

Definition example_events : list event :=
  [ EvUpsert (mkAgentRecord "agent-1" "node-1" "h:9000" ∅ 1 5 "" "");
    EvUpsert (mkAgentRecord "agent-1" "node-1" "h:9999" ∅ 0 5 "" "");
    EvHeartbeat "agent-1" 10 2; EvHeartbeat "agent-2" 10 2; EvPurge 11 ].

Lemma registry_refines_map_witness :
  let s := (new_registry, tt) in
  spec_run example_events ∅ =
    (∅, [OutAccepted true; OutAccepted false; OutAccepted true; OutAccepted false; OutPurged 1]) /\
  find "agent-1" (run example_events s).1.1 = None.
Proof.
  intros s.
  assert (Hev : Forall event_ok example_events) by (repeat constructor; simpl; lia).
  assert (Hok : registry_ok s.1) by (split; [constructor|constructor]).
  destruct (registry_refines_map s example_events _ _ (run_steps example_events s) Hev Hok) as [Hrun Hf].
  split; [exact Hrun|]. rewrite Hf. reflexivity.
Defined.

(** The class invariant holds in every reachable state: starting from the empty
    registry, whatever operations run, no two records share an agent id and every revision
    is a 64-bit value. *)
Theorem registry_invariant {W} (w : W) es os s' :
  steps (new_registry, w) es os s' -> Forall event_ok es -> registry_ok s'.1.
Proof.
  intros Hs He. eapply steps_ok; [done|done|]. split; [apply NoDup_nil_2|by constructor].
Qed.

Lemma registry_invariant_witness : registry_ok (run (take 3 example_events) (new_registry, tt)).1.1.
Proof.
  apply (registry_invariant tt (take 3 example_events) _ _ (run_steps _ _)).
  repeat constructor; simpl; lia.
Defined.

(** Revisions never go back: along any sequence of operations without a purge, an agent
    that is registered stays registered and its revision does not decrease. *)
Theorem revision_monotone {W} (s : AgentRegistry W * W) es os s' aid r :
  steps s es os s' -> Forall event_ok es -> registry_ok s.1 ->
  Forall (fun e => is_purge e = false) es -> find aid s.1 = Some r ->
  exists r', find aid s'.1 = Some r' /\ revision r <= revision r'.
Proof.
  intros Hs He Hok Hp Hr. rewrite find_refines in Hr |- *.
  destruct (spec_run_grows es _ aid r Hp Hr) as (r' & Hr' & Hle).
  rewrite (steps_refines _ _ _ _ Hs He Hok) in Hr'. eauto.
Qed.

Lemma revision_monotone_witness :
  let s1 := (run (take 1 example_events) (new_registry, tt)).1 in
  let s2 := (run [EvHeartbeat "agent-1" 10 7] s1).1 in
  exists r', find "agent-1" s2.1 = Some r' /\ 1 <= revision r'.
Proof.
  intros s1 s2.
  apply (revision_monotone s1 [EvHeartbeat "agent-1" 10 7] _ s2 "agent-1"
    (mkAgentRecord "agent-1" "node-1" "h:9000" ∅ 1 5 "" "") (run_steps _ _)).
  - repeat constructor; simpl; lia.
  - split; simpl; [apply NoDup_singleton|repeat constructor; simpl; lia].
  - repeat constructor.
  - reflexivity.
Defined.

(** [upsert] on every branch: it accepts exactly a new agent, or a record that is not older
    and does not contradict the stored key; acceptance stores the record, leaves the other
    agents alone and runs the callback once with the record; refusal changes nothing. *)
Theorem upsert_behaviour {W} r (this : AgentRegistry W) w :
  let '(this', w', ok) := upsert r this w in
  (ok = true <-> match find (agent_id r) this with None => True | Some e => replaces r e = true end) /\
  (forall aid, find aid this' =
     if bool_decide (ok = true /\ aid = agent_id r) then Some r else find aid this) /\
  (if (ok : bool) then w' = from_option (fun cb => cb r w) w (on_upsert_ this)
   else this' = this /\ w' = w).
Proof.
  destruct (upsert r this w) as [[this' w'] ok] eqn:Hu.
  pose proof (upsert_refines _ _ _ _ _ _ Hu) as Href.
  setoid_rewrite find_refines. rewrite upsert_cases in Hu. unfold spec_upsert in Href.
  rewrite by_id_lookup in Href. rewrite by_id_lookup.
  assert (Hstore : forall aid, <[agent_id r := r]> (by_id (records_ this)) !! aid =
    if bool_decide (true = true /\ aid = agent_id r) then Some r else by_id (records_ this) !! aid).
  { intros aid. rewrite lookup_insert. case_decide; case_bool_decide; intuition congruence. }
  destruct (find_agent (agent_id r) (records_ this)) as [[i e]|] eqn:Hf; simpl in *;
    [destruct (replaces r e) eqn:Hrep|].
  - injection Hu as <- <- <-. injection Href as Href. cbn [set_records records_]. by rewrite <- Href.
  - injection Hu as <- <- <-. done.
  - injection Hu as <- <- <-. injection Href as Href. cbn [set_records records_]. by rewrite <- Href.
Qed.
