(* ===== verification/RegistryProps.v ===== *)
(** * Properties of the registry: merging, synchronisation queries, persistence, keys

    The order theory of [merge] (convergence), the provenance of what [merge] admits, the
    contract of [entries_after_revision] and [stats], and the behaviours of
    [load_from_persistence], [refresh_heartbeat] and [upsert] that concern expiry and keys. *)

From S2P Require Import Prelude CxxString CxxContainers Types Sodium SecureBuffer Crypto IdentityService AgentRegistry RegistrySpec.

(** ** Definitions *)

(** The same registration: equal up to the expiry time, which is local to a node. *)
Definition same_registration (r1 r2 : AgentRecord) : Prop :=
  set_expires_at 0 r1 = set_expires_at 0 r2.
#[global] Instance same_registration_equiv : Equivalence same_registration.
Proof. split; unfold same_registration; congruence. Qed.
#[global] Instance registration_Equiv : Equiv AgentRecord := same_registration.
#[global] Instance registration_Equivalence : Equivalence (≡@{AgentRecord}).
Proof. apply _. Qed.

#[global] Instance revision_proper : Proper ((≡@{AgentRecord}) ==> (=)) revision.
Proof. intros r1 r2 H. by apply (f_equal revision) in H. Qed.
#[global] Instance agent_id_proper : Proper ((≡@{AgentRecord}) ==> (=)) agent_id.
Proof. intros r1 r2 H. by apply (f_equal agent_id) in H. Qed.

(** What a registry and a batch of records say about an agent. *)
Definition says (m : registry_map) (rs : list AgentRecord) (aid : string) (r : AgentRecord) : Prop :=
  m !! aid = Some r \/ (r ∈ rs /\ agent_id r = aid).

(** Nobody contradicts anybody: no two keys for an agent, one registration per revision. *)
Definition coherent (m : registry_map) (rs : list AgentRecord) : Prop :=
  forall aid x y, says m rs aid x -> says m rs aid y ->
    key_conflict (public_key_hex x) (public_key_hex y) = false /\
    (revision x = revision y -> x ≡ y).

(** The map is keyed by agent id, as [by_id] is. *)
Definition keyed (m : registry_map) : Prop := map_Forall (fun aid r => agent_id r = aid) m.

(** ** Merging *)

Lemma by_id_keyed rs : keyed (by_id rs).
Proof. intros aid r H. by apply by_id_elem in H as [_ ?]. Qed.

Lemma spec_upsert_keyed r m : keyed m -> keyed (spec_upsert r m).1.
Proof.
  intros Hk. unfold spec_upsert. destruct (m !! agent_id r) as [e|]; [case_match|]; simpl; try done;
    by apply map_Forall_insert_2.
Qed.

Lemma spec_upsert_other r m aid : agent_id r <> aid -> (spec_upsert r m).1 !! aid = m !! aid.
Proof. intros. unfold spec_upsert. repeat case_match; simpl; by rewrite ?lookup_insert_ne. Qed.

Lemma spec_merge_snoc rs r m : spec_merge (rs ++ [r]) m = (spec_upsert r (spec_merge rs m)).1.
Proof. unfold spec_merge. by rewrite foldl_app. Qed.

Lemma merge_snoc {W} {S : Sodium} rs r identity (this : AgentRegistry W) w :
  merge (rs ++ [r]) identity this w = merge_one r (merge rs identity this w).
Proof. unfold merge. by rewrite foldl_app. Qed.

Lemma merge_ok {W} {S : Sodium} rs identity (reg : AgentRegistry W) w : registry_ok reg ->
  Forall (fun r => u64 (revision r)) rs -> registry_ok (merge rs identity reg w).1.1.1.
Proof.
  intros Hok. induction rs as [|r rs IH] using rev_ind; [done|]. intros [Hrs Hr]%Forall_app.
  apply Forall_cons in Hr as [Hr _]. specialize (IH Hrs). rewrite merge_snoc.
  destruct (merge rs identity reg w) as [[[reg1 w1] id1] n]; simpl in *. unfold merge_one.
  destruct (match id1 with None => _ | Some _ => _ end) as [id2 skip]. destruct skip; [done|].
  pose proof (upsert_ok r reg1 w1 IH Hr) as Hup. by destruct (upsert r reg1 w1) as [[reg2 w2] ok].
Qed.


(** A batch of which the identity service, if there is one, refuses nothing: every record is
    unsigned, or validly signed under the key that is pinned for its agent, if one is, and that
    every other signed record of the batch has for the agent. *)
Definition unrefused {S : Sodium} (identity : option IdentityService) (rs : list AgentRecord) : Prop :=
  forall svc, identity = Some svc -> identity_ok svc /\
    forall r, r ∈ rs -> verify_agent_signature r = Missing \/
      (verify_agent_signature r = Valid /\
       (forall k, pinned_key svc (agent_id r) = Some k -> k = decode_hex (public_key_hex r)) /\
       forall r', r' ∈ rs -> verify_agent_signature r' = Valid -> agent_id r' = agent_id r ->
         decode_hex (public_key_hex r') = decode_hex (public_key_hex r)).

(** Where a pinned key comes from. *)
Definition pins_from {S : Sodium} (svc : IdentityService) (rs : list AgentRecord) (svc' : IdentityService) : Prop :=
  identity_ok svc' /\ forall aid k, pinned_key svc' aid = Some k ->
    pinned_key svc aid = Some k \/
    exists r, r ∈ rs /\ verify_agent_signature r = Valid /\ agent_id r = aid /\ decode_hex (public_key_hex r) = k.

Lemma verify_pins_from {S : Sodium} {L : SodiumLaws S} svc rs svc' r : pins_from svc rs svc' ->
  pins_from svc (rs ++ [r]) (verify_and_register r svc').1.
Proof.
  intros [Hok Hp]. split; [by apply verify_and_register_ok|]. intros aid k. rewrite verify_and_register_spec by done.
  assert (Hold : pinned_key svc' aid = Some k -> pinned_key svc aid = Some k \/ exists r0, r0 ∈ rs ++ [r] /\
    verify_agent_signature r0 = Valid /\ agent_id r0 = aid /\ decode_hex (public_key_hex r0) = k) by (intros [?|(x & ? & ?)]%Hp; [by left|right; exists x; set_solver]).
  destruct (verify_agent_signature r) eqn:Hv; try done.
  destruct (pinned_key svc' (agent_id r)); [done|]. unfold pinned_key at 1. cbn [fst trust_store_].
  destruct (decide (agent_id r = aid)) as [<-|Hne]; [|by rewrite lookup_insert_ne].
  rewrite lookup_insert_eq. cbn [fmap option_fmap option_map]. rewrite (proj2 (buffer_of_bytes_ok _)). intros [= <-]. right. exists r. set_solver.
Qed.

Lemma merge_pins_from {W} {S : Sodium} {L : SodiumLaws S} rs svc (reg : AgentRegistry W) w : identity_ok svc ->
  exists svc', (merge rs (Some svc) reg w).1.2 = Some svc' /\ pins_from svc rs svc'.
Proof.
  intros Hok. induction rs as [|r rs IH] using rev_ind; [exists svc; repeat split; auto|]. rewrite merge_snoc.
  destruct (merge rs (Some svc) reg w) as [[[reg1 w1] id1] n]. destruct IH as (svc1 & Hid & Hp). simpl in Hid. subst id1.
  apply (verify_pins_from _ _ _ r) in Hp. unfold merge_one. destruct (verify_and_register r svc1) as [svc2 status].
  destruct (_ && _); [by exists svc2|]. destruct (upsert r reg1 w1) as [[reg2 w2] ok]. by exists svc2.
Qed.

Lemma merge_identity_none {W} {S : Sodium} rs (reg : AgentRegistry W) w : (merge rs None reg w).1.2 = None.
Proof.
  induction rs as [|r rs IH] using rev_ind; [done|]. rewrite merge_snoc.
  destruct (merge rs None reg w) as [[[reg1 w1] id1] n]. simpl in IH. subst id1. unfold merge_one.
  by destruct (upsert r reg1 w1) as [[reg2 w2] ok].
Qed.

(** A service that pins no other keys than those of the batch refuses none of it later. *)
Lemma unrefused_verdict {S : Sodium} {L : SodiumLaws S} svc rs r rs' svc' : unrefused (Some svc) rs -> r ∈ rs ->
  (forall x, x ∈ rs' -> x ∈ rs) -> pins_from svc rs' svc' ->
  bool_decide ((verify_and_register r svc').2 <> Valid) && bool_decide ((verify_and_register r svc').2 <> Missing) = false.
Proof.
  intros Hun Hr Hsub [Hok Hp]. destruct (Hun svc eq_refl) as [_ Hall]. rewrite verify_and_register_spec by done.
  destruct (Hall r Hr) as [Hm|(Hv & Hpin & Hothers)]; [by rewrite Hm|]. rewrite Hv.
  destruct (pinned_key svc' (agent_id r)) as [k|] eqn:Hk; [|done]. simpl.
  assert (k = decode_hex (public_key_hex r)) as ->; [|by rewrite decide_True].
  destruct (Hp _ _ Hk) as [?|(x & Hx & Hxv & Hxa & <-)]; [auto|]. by apply Hothers; auto.
Qed.

(** A merge that refuses no signature is the abstract merge. *)
Lemma merge_unrefused {W} {S : Sodium} {L : SodiumLaws S} rs identity (reg : AgentRegistry W) w : unrefused identity rs ->
  by_id (records_ (merge rs identity reg w).1.1.1) = spec_merge rs (by_id (records_ reg)).
Proof.
  intros Hun. induction rs as [|r rs IH] using rev_ind; [done|]. rewrite merge_snoc, spec_merge_snoc.
  assert (Hun' : unrefused identity rs).
  { intros svc Hsvc. destruct (Hun svc Hsvc) as [? Hall]. split; [done|]. intros x Hx.
    destruct (Hall x ltac:(set_solver)) as [?|(? & ? & Ho)]; [auto|right]. split_and!; try done. intros r' Hr'. apply Ho. set_solver. }
  specialize (IH Hun'). rewrite <- IH.
  assert (Hend : forall svc0 svc', identity = Some svc0 -> pins_from svc0 rs svc' ->
    bool_decide ((verify_and_register r svc').2 <> Valid) && bool_decide ((verify_and_register r svc').2 <> Missing) = false).
  { intros svc0 svc' -> Hp. apply (unrefused_verdict svc0 (rs ++ [r]) r rs); [done|set_solver..|done]. }
  destruct identity as [svc0|].
  - destruct (Hun svc0 eq_refl) as [Hok _]. destruct (merge_pins_from rs svc0 reg w Hok) as (svc1 & Hid & Hp).
    specialize (Hend svc0 svc1 eq_refl Hp). destruct (merge rs (Some svc0) reg w) as [[[reg1 w1] id1] n]. simpl in Hid. subst id1.
    unfold merge_one. destruct (verify_and_register r svc1) as [svc2 status]. simpl in Hend. rewrite Hend.
    destruct (upsert r reg1 w1) as [[reg2 w2] ok] eqn:Hu. simpl. by rewrite (upsert_refines _ _ _ _ _ _ Hu).
  - pose proof (merge_identity_none rs reg w) as Hid. destruct (merge rs None reg w) as [[[reg1 w1] id1] n]. simpl in Hid. subst id1.
    unfold merge_one. destruct (upsert r reg1 w1) as [[reg2 w2] ok] eqn:Hu. simpl. by rewrite (upsert_refines _ _ _ _ _ _ Hu).
Qed.

(** The same records with other expiry times are not refused either, also not a second time. *)
Lemma unrefused_restamped {S : Sodium} identity rs rs' :
  (forall x, x ∈ rs' -> exists ex r, r ∈ rs /\ x = set_expires_at ex r) -> unrefused identity rs -> unrefused identity rs'.
Proof.
  intros Hst Hun svc Hsvc. destruct (Hun svc Hsvc) as [Hok Hall]. split; [done|]. intros x (ex & r & Hr & ->)%Hst.
  destruct (Hall r Hr) as [Hm|(Hv & Hp & Ho)]; [by left|right]. split_and!; [done|done|]. intros x' (ex' & r' & Hr' & ->)%Hst. exact (Ho r' Hr').
Qed.

Lemma unrefused_merged {W} {S : Sodium} {L : SodiumLaws S} identity rs rs' (reg : AgentRegistry W) w :
  (forall x, x ∈ rs' -> exists ex r, r ∈ rs /\ x = set_expires_at ex r) -> unrefused identity rs ->
  unrefused (merge rs' identity reg w).1.2 rs.
Proof.
  intros Hst Hun svc'. destruct identity as [svc|]; [|by rewrite merge_identity_none].
  destruct (Hun svc eq_refl) as [Hok Hall]. destruct (merge_pins_from rs' svc reg w Hok) as (svc1 & -> & Hok1 & Hp).
  intros [= <-]. split; [done|]. intros r Hr. destruct (Hall r Hr) as [Hm|(Hv & Hpin & Ho)]; [by left|right].
  split_and!; [done| |done]. intros k [?|(x & (ex & r' & Hr' & ->)%Hst & Hxv & Hxa & <-)]%Hp; [auto|]. exact (Ho r' Hr' Hxv Hxa).
Qed.

(** After a merge of a coherent batch an agent has its newest registration. *)
Lemma spec_merge_newest rs m aid : keyed m ->
  (forall x y, says m rs aid x -> says m rs aid y ->
     key_conflict (public_key_hex x) (public_key_hex y) = false) ->
  match spec_merge rs m !! aid with
  | None => forall x, ~ says m rs aid x
  | Some e => says m rs aid e /\ forall x, says m rs aid x -> revision x <= revision e
  end.
Proof.
  intros Hk. induction rs as [|r rs IH] using rev_ind; intros Hc.
  - simpl. destruct (m !! aid) as [e|] eqn:He; unfold says; rewrite He; set_solver by lia.
  - assert (Hsub : forall x, says m rs aid x -> says m (rs ++ [r]) aid x) by (unfold says; set_solver).
    assert (Hnew : forall x, says m (rs ++ [r]) aid x -> says m rs aid x \/ (x = r /\ agent_id r = aid)).
    { unfold says. intros x [?|[[?| ->%list_elem_of_singleton]%elem_of_app Hx]]; auto. }
    specialize (IH (fun x y Hx Hy => Hc x y (Hsub x Hx) (Hsub y Hy))).
    rewrite spec_merge_snoc. destruct (decide (agent_id r = aid)) as [<-|Hne].
    + unfold spec_upsert. assert (Hr : says m (rs ++ [r]) (agent_id r) r) by (right; set_solver).
      destruct (spec_merge rs m !! agent_id r) as [e|] eqn:He.
      * destruct IH as [Hse Hmax]. unfold replaces. rewrite (Hc e r (Hsub e Hse) Hr), andb_true_r.
        destruct (negb (revision r <? revision e)) eqn:Hrev; bool_to_prop; simpl.
        -- rewrite lookup_insert_eq. split; [done|]. intros x [Hx|[-> _]]%Hnew; [|done].
           specialize (Hmax x Hx). lia.
        -- rewrite He. split; [auto|]. intros x [Hx|[-> _]]%Hnew; [auto|lia].
      * simpl. rewrite lookup_insert_eq. split; [done|]. intros x [Hx|[-> _]]%Hnew; [|done].
        by destruct (IH x).
    + rewrite spec_upsert_other by done. destruct (spec_merge rs m !! aid) as [e|].
      * destruct IH as [Hse Hmax]. split; [auto|]. intros x [Hx|[_ Hx]]%Hnew; [auto|done].
      * intros x [Hx|[_ Hx]]%Hnew; [by apply (IH x)|done].
Qed.

(** Two nodes that know the same registrations of an agent end with the same one. *)
Lemma spec_merge_converges rs1 m1 rs2 m2 aid : keyed m1 -> keyed m2 ->
  coherent m1 rs1 -> coherent m2 rs2 ->
  (forall x, says m1 rs1 aid x -> exists y, says m2 rs2 aid y /\ x ≡ y) ->
  (forall y, says m2 rs2 aid y -> exists x, says m1 rs1 aid x /\ y ≡ x) ->
  spec_merge rs1 m1 !! aid ≡ spec_merge rs2 m2 !! aid.
Proof.
  intros Hk1 Hk2 Hc1 Hc2 H12 H21.
  pose proof (spec_merge_newest rs1 m1 aid Hk1 (fun x y Hx Hy => proj1 (Hc1 aid x y Hx Hy))) as N1.
  pose proof (spec_merge_newest rs2 m2 aid Hk2 (fun x y Hx Hy => proj1 (Hc2 aid x y Hx Hy))) as N2.
  destruct (spec_merge rs1 m1 !! aid) as [e1|], (spec_merge rs2 m2 !! aid) as [e2|].
  - destruct N1 as [S1 M1], N2 as [S2 M2]. constructor.
    destruct (H12 e1 S1) as (y & Sy & Hy), (H21 e2 S2) as (x & Sx & Hx).
    pose proof (M2 y Sy) as L1. pose proof (M1 x Sx) as L2.
    rewrite <- Hy in L1. rewrite <- Hx in L2.
    rewrite Hy. apply (Hc2 aid y e2 Sy S2). rewrite <- Hy. lia.
  - destruct N1 as [S1 _]. destruct (H12 e1 S1) as (y & Sy & _). by destruct (N2 y).
  - destruct N2 as [S2 _]. destruct (H21 e2 S2) as (x & Sx & _). by destruct (N1 x).
  - constructor.
Qed.

(** (C15) Gossip converges where no signature is refused: if two registries and the batches merged
    into them together say the same about an agent (in any order, with any duplicates, whatever
    part was already stored), what they say is coherent (no two keys for an agent, one
    registration per revision), and the identity services of the two nodes, if they have one,
    refuse none of the batch (every record is unsigned, or signed validly under the one key of
    its agent), then after merging both hold the same registration of that agent, up to its
    local expiry time. *)
Theorem merge_converges {W} {S : Sodium} {L : SodiumLaws S} rs1 rs2 id1 id2 (this1 this2 : AgentRegistry W) w1 w2 aid :
  let m1 := by_id (records_ this1) in
  let m2 := by_id (records_ this2) in
  unrefused id1 rs1 -> unrefused id2 rs2 ->
  coherent m1 rs1 -> coherent m2 rs2 ->
  (forall x, says m1 rs1 aid x -> exists y, says m2 rs2 aid y /\ x ≡ y) ->
  (forall y, says m2 rs2 aid y -> exists x, says m1 rs1 aid x /\ y ≡ x) ->
  find aid (merge rs1 id1 this1 w1).1.1.1 ≡ find aid (merge rs2 id2 this2 w2).1.1.1.
Proof.
  intros m1 m2 Hu1 Hu2 Hc1 Hc2 H12 H21. rewrite !find_refines, !merge_unrefused by done.
  by apply spec_merge_converges; [apply by_id_keyed..| | | |].
Qed.

Definition rec_a (rev : Z) (exp : TimePoint) := mkAgentRecord "a" "n" "h:1" ∅ rev exp "" "".

Lemma merge_converges_witness :
  let this1 : AgentRegistry unit := new_registry in
  let this2 : AgentRegistry unit := mkAgentRegistry [rec_a 2 99] None in
  find "a" (@merge _ toy_sodium [rec_a 1 5; rec_a 2 5] (Some new_identity_service) this1 tt).1.1.1 ≡
  find "a" (@merge _ toy_sodium [rec_a 1 7] None this2 tt).1.1.1.
Proof.
  intros this1 this2.
  assert (says1 : forall x, says (by_id (records_ this1)) [rec_a 1 5; rec_a 2 5] "a" x <->
                       x = rec_a 1 5 \/ x = rec_a 2 5).
  { intros x. split; [intros [?|[? _]]; [done|set_solver]|].
    intros [-> | ->]; right; (split; [set_solver|done]). }
  assert (says2 : forall x, says (by_id (records_ this2)) [rec_a 1 7] "a" x <->
                       x = rec_a 2 99 \/ x = rec_a 1 7).
  { intros x. split; [intros [[= <-]|[? _]]; [auto|set_solver]|].
    intros [-> | ->]; [by left|right; split; [set_solver|done]]. }
  assert (any1 : forall aid x, says (by_id (records_ this1)) [rec_a 1 5; rec_a 2 5] aid x -> aid = "a"%string).
  { intros aid x [?|[Hx <-]]; [done|]. set_solver. }
  assert (any2 : forall aid x, says (by_id (records_ this2)) [rec_a 1 7] aid x -> aid = "a"%string).
  { intros aid x [H|[Hx <-]]; [|set_solver]. apply by_id_elem in H as [Hx <-]. set_solver. }
  apply (@merge_converges unit toy_sodium toy_sodium_laws [rec_a 1 5; rec_a 2 5] [rec_a 1 7] (Some new_identity_service) None this1 this2 tt tt "a").
  - intros svc [= <-]. split; [apply map_Forall_empty|]. intros r Hr. left. set_solver.
  - intros svc [=].
  - intros aid x y Hx Hy. assert (aid = "a"%string) as -> by eauto. apply says1 in Hx, Hy.
    destruct Hx as [-> | ->], Hy as [-> | ->]; split; try reflexivity; intros [=].
  - intros aid x y Hx Hy. assert (aid = "a"%string) as -> by eauto. apply says2 in Hx, Hy.
    destruct Hx as [-> | ->], Hy as [-> | ->]; split; try reflexivity; intros [=].
  - intros x [-> | ->]%says1; [exists (rec_a 1 7)|exists (rec_a 2 99)]; rewrite says2; split; auto; reflexivity.
  - intros x [-> | ->]%says2; [exists (rec_a 2 5)|exists (rec_a 1 5)]; rewrite says1; split; auto; reflexivity.
Defined.

(** ** What [merge] admits *)

(** The evidence [merge] has for a record: no signature, or a good one under the pinned key. *)
Definition admissible {S : Sodium} (svc : IdentityService) (r : AgentRecord) : Prop :=
  verify_agent_signature r = Missing \/
  (verify_agent_signature r = Valid /\
   pinned_key svc (agent_id r) = Some (decode_hex (public_key_hex r))).

Section provenance.
Context {W : Type} {S : Sodium} {L : SodiumLaws S}.

Lemma verify_and_register_admits r svc : identity_ok svc ->
  bool_decide ((verify_and_register r svc).2 <> Valid) &&
  bool_decide ((verify_and_register r svc).2 <> Missing) = false ->
  admissible (verify_and_register r svc).1 r.
Proof.
  intros Hok. rewrite verify_and_register_spec by done. unfold admissible.
  destruct (verify_agent_signature r); simpl; auto; try done.
  destruct (pinned_key svc (agent_id r)) as [k|] eqn:Hk; simpl.
  - case_decide; [subst k; auto|done].
  - intros _. right. split; [done|]. unfold pinned_key; simpl. rewrite lookup_insert_eq; simpl.
    by rewrite (proj2 (buffer_of_bytes_ok _)).
Qed.

Lemma admissible_stable r x svc : identity_ok svc ->
  admissible svc x -> admissible (verify_and_register r svc).1 x.
Proof.
  intros Hok [Hm|[Hv Hk]]; [by left|right]. split; [done|].
  by apply (verify_and_register_pinned r svc _ _ Hok Hk).
Qed.

Lemma merge_admits rs svc (this : AgentRegistry W) w : identity_ok svc ->
  let '(this', _, identity', _) := merge rs (Some svc) this w in
  exists svc', identity' = Some svc' /\ identity_ok svc' /\
    forall x, x ∈ records_ this' -> x ∈ records_ this \/ (x ∈ rs /\ admissible svc' x).
Proof.
  intros Hok. induction rs as [|r rs IH] using rev_ind; [simpl; eauto 10|]. rewrite merge_snoc.
  destruct (merge rs (Some svc) this w) as [[[t1 w1] id1] n].
  destruct IH as (svc1 & -> & Hok1 & Hin). unfold merge_one.
  pose proof (verify_and_register_ok r svc1 Hok1) as Hok2.
  pose proof (verify_and_register_admits r svc1 Hok1) as Hadm.
  pose proof (fun x => admissible_stable r x svc1 Hok1) as Hst.
  destruct (verify_and_register r svc1) as [svc2 status]; simpl in *.
  assert (Hold : forall x, x ∈ records_ t1 ->
    x ∈ records_ this \/ (x ∈ rs ++ [r] /\ admissible svc2 x)).
  { intros x [?|[??]]%Hin; [by left|right]. split; [set_solver|eauto]. }
  destruct (bool_decide (status <> Valid) && bool_decide (status <> Missing)) eqn:Hskip; [eauto|].
  pose proof (upsert_elem r t1 w1) as Hup. destruct (upsert r t1 w1) as [[t2 w2] ok]; simpl in *.
  exists svc2. split_and!; [done..|]. intros x [-> |Hx]%Hup; [|auto].
  right. split; [set_solver|auto].
Qed.

(** (C18) Provenance: with an identity service, everything a merge leaves in the registry was
    there before or is a record of the batch that either carries no signature or verifies
    under the key the service has pinned for its agent. *)
Theorem merge_provenance rs svc (this : AgentRegistry W) w : identity_ok svc ->
  let '(this', _, identity', _) := merge rs (Some svc) this w in
  exists svc', identity' = Some svc' /\
    forall x, x ∈ records_ this' -> x ∈ records_ this \/ (x ∈ rs /\ admissible svc' x).
Proof.
  intros Hok. pose proof (merge_admits rs svc this w Hok) as H.
  destruct (merge rs (Some svc) this w) as [[[t ?] ?] ?]. destruct H as (svc' & ? & _ & ?). eauto.
Qed.
End provenance.

Lemma merge_provenance_witness :
  let good := signed_record 1 (rec_a 1 5) in
  let forged := set_revision 9 good in
  let '(this', _, identity', n) :=
    @merge unit toy_sodium [good; forged] (Some new_identity_service) new_registry tt in
  this' = mkAgentRegistry [good] None /\ n = 1 /\
  exists svc', identity' = Some svc' /\
    forall x, x ∈ records_ this' -> x ∈ [] \/ (x ∈ [good; forged] /\ admissible svc' x).
Proof.
  intros good forged.
  pose proof (@merge_provenance unit toy_sodium toy_sodium_laws [good; forged] new_identity_service
    new_registry tt (map_Forall_empty _)) as H.
  destruct (merge [good; forged] (Some new_identity_service) new_registry tt) as [[[t w] i] n] eqn:Hm.
  vm_compute in Hm. injection Hm as <- <- <- <-.
  split; [by vm_compute|]. split; [reflexivity|exact H].
Defined.

(** An unsigned record passes every check of a gossip merge: whatever the trust settings,
    [merge] stores a record without key for an unknown agent, because [Missing] is admitted
    and no policy is consulted. *)
Theorem merge_admits_unsigned {W} {S : Sodium} r svc (this : AgentRegistry W) w
    (unsigned : signature_hex r = "") (unknown : find (agent_id r) this = None) :
  let '(this', _, _, n) := merge [r] (Some svc) this w in
  find (agent_id r) this' = Some r /\ n = 1.
Proof.
  assert (Hv : verify_agent_signature r = Missing) by (apply verify_agent_signature_missing; auto).
  unfold merge; simpl. unfold merge_one, verify_and_register. rewrite Hv. simpl.
  destruct (upsert r this w) as [[t w'] ok] eqn:Hu. pose proof (upsert_refines _ _ _ _ _ _ Hu) as Href.
  unfold spec_upsert in Href. rewrite <- find_refines, unknown in Href. injection Href as Hb <-.
  rewrite find_refines, <- Hb, lookup_insert_eq. done.
Qed.

Lemma merge_admits_unsigned_witness :
  let '(this', _, _, n) := @merge unit toy_sodium [rec_a 3 5] (Some new_identity_service) new_registry tt in
  find "a" this' = Some (rec_a 3 5) /\ n = 1.
Proof.
  apply (@merge_admits_unsigned unit toy_sodium (rec_a 3 5) new_identity_service new_registry tt); reflexivity.
Defined.

(** ** Queries of the synchronisation protocol *)

Section queries.
Context {W : Type} {Sort : StdSort}.

Definition newer (rev : Z) (this : AgentRegistry W) : list AgentRecord :=
  filter (fun r => rev < revision r) (records_ this).

Lemma sort_by_revision_sorted (l : list AgentRecord) :
  StronglySorted (fun x y => revision x <= revision y)
    (std_sort (fun left right => revision left <? revision right) l).
Proof.
  eapply StronglySorted_weaken; [|apply std_sort_sorted].
  - simpl. intros x y H. bool_to_prop. lia.
  - intros x y H. bool_to_prop. apply Z.ltb_ge. lia.
  - intros x y z H1 H2. bool_to_prop. apply Z.ltb_ge. lia.
Qed.

Lemma entries_after_page rev limit (this : AgentRegistry W) :
  let page := entries_after_revision rev limit this in
  exists rest, page ++ rest ≡ₚ newer rev this /\
    StronglySorted (fun x y => revision x <= revision y) page /\
    (forall x y, x ∈ page -> y ∈ rest -> revision x <= revision y) /\
    size_of page = (if 0 <? limit then Z.min limit (size_of (newer rev this)) else size_of (newer rev this)).
Proof.
  unfold entries_after_revision, newer. simpl.
  set (sel := filter _ _). set (srt := std_sort _ sel).
  assert (Hp : srt ≡ₚ sel) by apply std_sort_perm.
  assert (Hlen : size_of srt = size_of sel) by (unfold size_of; by rewrite Hp).
  pose proof (sort_by_revision_sorted sel) as Hs. fold srt in Hs.
  destruct ((0 <? limit) && (limit <? size_of srt)) eqn:Hlim.
  - bool_to_prop. exists (drop (Z.to_nat limit) srt). unfold shrink_to. rewrite take_drop.
    rewrite <- (take_drop (Z.to_nat limit) srt) in Hs. apply StronglySorted_app in Hs as (Hx & H1 & _).
    split_and!; [done|done|done|]. unfold size_of in *. rewrite length_take.
    destruct (0 <? limit) eqn:?; bool_to_prop; lia.
  - exists []. rewrite app_nil_r. split_and!; [done|done|set_solver|].
    apply andb_false_iff in Hlim as [Hl|Hl]; [by rewrite Hl|]. bool_to_prop. case_match; bool_to_prop; lia.
Qed.

(** [entries_after_revision]: the answer is ordered by revision and consists of stored
    records newer than the watermark; with a limit it is a page of exactly that size (all of
    them if there are fewer, or if the limit is 0), and every newer record left out is at
    least as new as everything in the page, so the next page continues from it. *)
Theorem entries_after_revision_page rev limit (this : AgentRegistry W) :
  let page := entries_after_revision rev limit this in
  exists rest, page ++ rest ≡ₚ newer rev this /\
    StronglySorted (fun x y => revision x <= revision y) page /\
    (forall x y, x ∈ page -> y ∈ rest -> revision x <= revision y) /\
    size_of page = (if 0 <? limit then Z.min limit (size_of (newer rev this)) else size_of (newer rev this)).
Proof. apply entries_after_page. Qed.

Lemma foldl_max_spec (l : list AgentRecord) a :
  let h := foldl (fun highest r => Z.max highest (revision r)) a l in
  a <= h /\ (forall r, r ∈ l -> revision r <= h) /\ (h = a \/ exists r, r ∈ l /\ revision r = h).
Proof.
  revert a. induction l as [|r l IH]; intros a; simpl; [set_solver by lia|].
  destruct (IH (Z.max a (revision r))) as (Hge & Hall & Hex). split_and!; [lia| |].
  - intros x [-> |Hx]%elem_of_cons; [lia|auto].
  - destruct Hex as [Hex|(x & Hx & Hrx)]; [|right; exists x; set_solver].
    destruct (Z.max_spec a (revision r)) as [[_ Hm]|[_ Hm]]; rewrite Hm in *; [|by left].
    right. exists r. set_solver.
Qed.

(** [stats] reports the number of agents and the highest stored revision: no record is
    newer, and the value is attained (0 in an empty registry). *)
Theorem stats_highest (this : AgentRegistry W) (ok : registry_ok this) :
  active_agents (stats this) = size_of (records_ this) /\
  (forall r, r ∈ records_ this -> revision r <= highest_revision (stats this)) /\
  (records_ this = [] /\ highest_revision (stats this) = 0 \/
   exists r, r ∈ records_ this /\ revision r = highest_revision (stats this)).
Proof.
  destruct (foldl_max_spec (records_ this) 0) as (Hge & Hall & Hex).
  split; [done|]. split; [done|]. destruct Hex as [Hz|Hex]; [|by right].
  destruct (records_ this) as [|r rs] eqn:Hr; [left; split; [done|]; unfold stats; by rewrite Hr|]. right. exists r. split; [set_solver|].
  destruct ok as [_ Hu]. rewrite Hr in Hu. apply Forall_cons in Hu as [Hu _].
  specialize (Hall r ltac:(set_solver)). simpl in *. unfold stats. rewrite Hr. simpl. lia.
Qed.
End queries.

Lemma stats_highest_witness :
  let this : AgentRegistry unit := mkAgentRegistry [rec_a 3 0; mkAgentRecord "b" "n" "h:2" ∅ 7 0 "" ""] None in
  highest_revision (stats this) = 7 /\
  (records_ this = [] /\ highest_revision (stats this) = 0 \/
   exists r, r ∈ records_ this /\ revision r = highest_revision (stats this)).
Proof.
  intros this. split; [reflexivity|]. apply (stats_highest this). split.
  - apply (bool_decide_unpack (NoDup _)). by vm_compute.
  - repeat constructor; simpl; lia.
Defined.

(** ** Expiry after a restart *)

(** Recovered records are given a year, unless a newer copy of the same agent follows:
    the second branch of [load_from_persistence] overwrites the expiry it has just set with
    the one of the recovered record, so an agent that was logged twice is dropped by the next
    purge, while an agent that was logged once survives it. *)
Theorem load_drops_updated_agents {W} now (r1 r2 : AgentRecord) later
    (same : agent_id r1 = agent_id r2) (updated : revision r1 < revision r2)
    (recovered : expires_at r2 <= now) (soon : now <= later < now + hours (24 * 365)) :
  let restart rs := (purge_expired later (load_from_persistence now rs (@new_registry W))).1 in
  find (agent_id r1) (restart [r1]) = Some (set_expires_at (now + hours (24 * 365)) r1) /\
  find (agent_id r1) (restart [r1; r2]) = None.
Proof.
  intros restart. subst restart. unfold load_from_persistence, load_one, find, purge_expired. simpl.
  rewrite same. unfold find_agent at 2; simpl. rewrite decide_True by done. simpl.
  rewrite (proj2 (Z.ltb_lt _ _)) by done. simpl.
  rewrite !filter_cons. simpl. rewrite decide_True by lia. rewrite decide_False by lia.
  unfold find_agent. simpl. by rewrite decide_True.
Qed.

Lemma load_drops_updated_agents_witness :
  let restart rs := (purge_expired 100 (load_from_persistence 50 rs (@new_registry unit))).1 in
  find "a" (restart [rec_a 1 50]) = Some (rec_a 1 (50 + hours (24 * 365))) /\
  find "a" (restart [rec_a 1 50; rec_a 2 50]) = None.
Proof.
  apply (@load_drops_updated_agents unit 50 (rec_a 1 50) (rec_a 2 50) 100);
    unfold hours, minutes, milliseconds; simpl; (reflexivity || lia).
Defined.

(** ** Keys and signatures of stored records *)

(** A heartbeat that advances the revision leaves a record whose signature was made for
    another text: key and signature stay, the canonical payload changes. *)
Theorem heartbeat_detaches_signature {W} aid ex rev (this : AgentRegistry W) r
    (stored : find aid this = Some r) (clean : clean_record r) (newer : revision r < rev) :
  exists r', find aid (refresh_heartbeat aid ex rev this).1 = Some r' /\
    public_key_hex r' = public_key_hex r /\ signature_hex r' = signature_hex r /\
    canonical_agent_payload r' <> canonical_agent_payload r.
Proof.
  destruct (refresh_heartbeat aid ex rev this) as [this' ok] eqn:Hh.
  pose proof (heartbeat_refines _ _ _ _ _ _ Hh) as Href. rewrite find_refines in stored |- *.
  unfold spec_heartbeat in Href. rewrite stored, (proj2 (Z.ltb_ge _ _)) in Href by lia.
  injection Href as Hb _. simpl. rewrite <- Hb, lookup_insert_eq. eexists. split; [done|].
  split; [done|]. split; [done|]. rewrite !canonical_agent_payload_lines. intros Heq%(f_equal getlines).
  assert (clean' : clean_record (set_revision rev (set_expires_at ex r))).
  { destruct clean as (?&?&?&?&?). split_and!; simpl; try done; lia. }
  rewrite !getlines_unlines in Heq by by apply payload_lines_clean.
  apply payload_lines_inj in Heq as (_ & _ & _ & Hrev & _); [|done|done]. simpl in Hrev. lia.
Qed.

Lemma heartbeat_detaches_signature_witness :
  let r := signed_record 1 (rec_a 1 5) in
  let this : AgentRegistry unit := mkAgentRegistry [r] None in
  verify_agent_signature r = Valid /\
  (verify_agent_signature <$> find "a" (refresh_heartbeat "a" 9 2 this).1) = Some Invalid /\
  exists r', find "a" (refresh_heartbeat "a" 9 2 this).1 = Some r' /\
    public_key_hex r' = public_key_hex r /\ signature_hex r' = signature_hex r /\
    canonical_agent_payload r' <> canonical_agent_payload r.
Proof.
  intros r this. split; [by vm_compute|]. split; [by vm_compute|].
  apply (@heartbeat_detaches_signature unit "a" 9 2 this r).
  - reflexivity.
  - split_and!; [reflexivity..|simpl; lia|]. intros k v Hkv. by vm_compute in Hkv.
  - simpl. lia.
Defined.

(** Key pinning of the registry holds only against records that bring a key: a record with
    another key is refused and changes nothing, but the same record is accepted right after
    a record without any key, which erases the stored one. *)
Theorem upsert_key_pinning {W} (this : AgentRegistry W) w e u x
    (stored : find (agent_id x) this = Some e) (same : agent_id u = agent_id x)
    (conflict : key_conflict (public_key_hex e) (public_key_hex x) = true)
    (keyless : public_key_hex u = "") (rev_u : revision e <= revision u)
    (rev_x : revision u <= revision x) :
  upsert x this w = (this, w, false) /\
  (let '(this1, w1, _) := upsert u this w in
   let '(this2, _, ok) := upsert x this1 w1 in ok = true /\ find (agent_id x) this2 = Some x).
Proof.
  split.
  - apply (upsert_refused x this w e stored). unfold replaces. by rewrite conflict, andb_false_r.
  - destruct (upsert u this w) as [[t1 w1] ok1] eqn:H1. apply upsert_refines in H1.
    unfold spec_upsert in H1. rewrite <- find_refines, same, stored in H1. unfold replaces, key_conflict in H1.
    rewrite keyless, andb_false_r, (proj2 (Z.ltb_ge _ _)) in H1 by lia. injection H1 as H1 _.
    destruct (upsert x t1 w1) as [[t2 w2] ok2] eqn:H2. apply upsert_refines in H2.
    unfold spec_upsert in H2. rewrite <- H1, lookup_insert_eq in H2. unfold replaces, key_conflict in H2.
    rewrite keyless, (proj2 (Z.ltb_ge _ _)) in H2 by lia. injection H2 as H2 <-.
    by rewrite find_refines, <- H2, lookup_insert_eq.
Qed.

Lemma upsert_key_pinning_witness :
  let key k rev := mkAgentRecord "a" "n" "h:1" ∅ rev 0 k "" in
  let this : AgentRegistry unit := mkAgentRegistry [key "aa" 1] None in
  upsert (key "bb" 2) this tt = (this, tt, false) /\
  (let '(this1, w1, _) := upsert (key "" 1) this tt in
   let '(this2, _, ok) := upsert (key "bb" 2) this1 w1 in
   ok = true /\ find "a" this2 = Some (key "bb" 2)).
Proof.
  intros key this.
  apply (@upsert_key_pinning unit this tt (key "aa" 1) (key "" 1) (key "bb" 2)); (reflexivity || simpl; lia).
Defined.
