(* ===== verification/Framing.v ===== *)
(** * Binary frames: [src/src/beacon/framing.hpp], [framing.cpp]

    A frame is "BN", a version byte, a 16-bit kind, a 32-bit payload length (both big
    endian) and the payload.  [FrameKind] has a fixed underlying type, so a decoded kind may
    be any 16-bit value: it is that value, with the three named constants. *)

From S2P Require Import Prelude CxxContainers.

(** ** Definitions *)

Definition FrameKind : Type := Z.
Definition ControlRequest : FrameKind := 1.
Definition ControlResponse : FrameKind := 2.
Definition GossipEnvelope : FrameKind := 3.

Record Frame := mkFrame {
  kind : FrameKind;
  payload : bytes;
}.

Definition kMagic0 : byte := Byte.x42.
Definition kMagic1 : byte := Byte.x4e.
Definition kVersion : byte := Byte.x01.
Definition kHeaderSize : Z := 9.

Definition append_u16 (bs : bytes) (value : Z) : bytes :=
  bs ++ [byte_of_Z (Z.land (Z.shiftr value 8) 255)] ++ [byte_of_Z (Z.land value 255)].

Definition append_u32 (bs : bytes) (value : Z) : bytes :=
  bs ++ [byte_of_Z (Z.land (Z.shiftr value 24) 255)] ++ [byte_of_Z (Z.land (Z.shiftr value 16) 255)]
     ++ [byte_of_Z (Z.land (Z.shiftr value 8) 255)] ++ [byte_of_Z (Z.land value 255)].

(** The callers have checked that the offsets are in range. *)
Definition read_u16 (bs : bytes) (offset : nat) : Z :=
  wrap 16 (Z.lor (Z.shiftl (Z_of_byte (bs !!! offset)) 8) (Z_of_byte (bs !!! (offset + 1)%nat))).

Definition read_u32 (bs : bytes) (offset : nat) : Z :=
  Z.lor (Z.lor (Z.lor (Z.shiftl (Z_of_byte (bs !!! offset)) 24)
                      (Z.shiftl (Z_of_byte (bs !!! (offset + 1)%nat)) 16))
               (Z.shiftl (Z_of_byte (bs !!! (offset + 2)%nat)) 8))
        (Z_of_byte (bs !!! (offset + 3)%nat)).

Definition encode_frame (frame : Frame) : bytes :=
  let bs := [kMagic0] ++ [kMagic1] ++ [kVersion] in
  let bs := append_u16 bs (wrap 16 (kind frame)) in
  let bs := append_u32 bs (wrap 32 (size_of (payload frame))) in
  bs ++ payload frame.

Definition decode_frame (bs : bytes) : option Frame :=
  if (size_of bs <? kHeaderSize) || negb (bool_decide (bs !!! 0%nat = kMagic0)) ||
     negb (bool_decide (bs !!! 1%nat = kMagic1)) || negb (bool_decide (bs !!! 2%nat = kVersion))
  then None
  else
    let payload_length := read_u32 bs 5 in
    if negb (size_of bs =? kHeaderSize + payload_length) then None
    else Some (mkFrame (read_u16 bs 3) (drop (Z.to_nat kHeaderSize) bs)).

Definition describe_frame_kind (k : FrameKind) : string :=
  if k =? ControlRequest then "control_request"
  else if k =? ControlResponse then "control_response"
  else if k =? GossipEnvelope then "gossip_envelope"
  else "unknown".

(** ** Lemmas *)

(** The nine header bytes, as the decoder reads them. *)
Lemma decode_frame_cons b0 b1 b2 k1 k0 l3 l2 l1 l0 p :
  decode_frame (b0 :: b1 :: b2 :: k1 :: k0 :: l3 :: l2 :: l1 :: l0 :: p) =
    if bool_decide (b0 = kMagic0) && bool_decide (b1 = kMagic1) && bool_decide (b2 = kVersion) &&
       (size_of p =? be32 l3 l2 l1 l0)
    then Some (mkFrame (Z_of_byte k1 * 2 ^ 8 + Z_of_byte k0) p) else None.
Proof.
  unfold decode_frame. rewrite !size_of_cons.
  pose proof (size_of_nonneg p) as Hp. generalize dependent (size_of p). intros n Hn.
  rewrite (proj2 (Z.ltb_ge _ _)) by (unfold kHeaderSize; lia).
  assert (Hlen : read_u32 (b0 :: b1 :: b2 :: k1 :: k0 :: l3 :: l2 :: l1 :: l0 :: p) 5 = be32 l3 l2 l1 l0)
    by apply be32_lor.
  assert (Hkind : read_u16 (b0 :: b1 :: b2 :: k1 :: k0 :: l3 :: l2 :: l1 :: l0 :: p) 3
                  = Z_of_byte k1 * 2 ^ 8 + Z_of_byte k0).
  { unfold read_u16. simpl. pose proof (Z_of_byte_range k1). pose proof (Z_of_byte_range k0).
    rewrite shiftl_lor_add by lia. apply wrap_small. lia. }
  rewrite Hlen, Hkind. change (drop (Z.to_nat kHeaderSize) _) with p.
  cbn [lookup_total list_lookup_total orb].
  destruct (bool_decide (b0 = _)), (bool_decide (b1 = _)), (bool_decide (b2 = _)); cbn; try done.
  unfold kHeaderSize. destruct (Z.eqb_spec n (be32 l3 l2 l1 l0)) as [He|He].
  - rewrite (proj2 (Z.eqb_eq _ _)) by lia. done.
  - rewrite (proj2 (Z.eqb_neq _ _)) by lia. done.
Qed.

Lemma encode_frame_cons f :
  exists k1 k0 l3 l2 l1 l0,
    encode_frame f = kMagic0 :: kMagic1 :: kVersion :: k1 :: k0 :: l3 :: l2 :: l1 :: l0 :: payload f /\
    Z_of_byte k1 * 2 ^ 8 + Z_of_byte k0 = wrap 16 (kind f) /\
    be32 l3 l2 l1 l0 = wrap 32 (size_of (payload f)).
Proof.
  unfold encode_frame, append_u32, append_u16. simpl. do 6 eexists. split; [reflexivity|].
  rewrite Z_of_byte_shiftr by lia. rewrite !Z_of_byte_land.
  split.
  - pose proof (wrap_range 16 (kind f) ltac:(lia)) as Hr. change (2 ^ 16) with 65536 in Hr.
    change (2 ^ 8) with 256. Z.to_euclidean_division_equations. lia.
  - rewrite be32_of_word with (v := wrap 32 (size_of (payload f)));
      rewrite ?Z_of_byte_shiftr, ?Z_of_byte_land by lia; try done.
    apply wrap_small, wrap_range. lia.
Qed.

(** Frames the format can carry. *)
Definition frame_ok (f : Frame) : Prop := u16 (kind f) /\ u32 (size_of (payload f)).

Lemma decode_encode_frame f : u16 (kind f) ->
  decode_frame (encode_frame f) = if size_of (payload f) <? 2 ^ 32 then Some f else None.
Proof.
  intros Hk. destruct (encode_frame_cons f) as (k1 & k0 & l3 & l2 & l1 & l0 & -> & Hkind & Hlen).
  rewrite decode_frame_cons, Hkind, Hlen. rewrite (wrap_small 16) by done.
  rewrite !bool_decide_eq_true_2 by done. cbn [andb].
  pose proof (size_of_nonneg (payload f)) as Hp. pose proof (wrap_range 32 (size_of (payload f)) ltac:(lia)).
  destruct (size_of (payload f) <? 2 ^ 32) eqn:Hlt; bool_to_prop.
  - rewrite wrap_small by lia. rewrite Z.eqb_refl. by destruct f.
  - rewrite (proj2 (Z.eqb_neq _ _)) by lia. done.
Qed.

Lemma decode_frame_short bs : (size_of bs <? kHeaderSize) = true -> decode_frame bs = None.
Proof. intros H. unfold decode_frame. by rewrite H. Qed.

Lemma encode_decode_frame bs f : decode_frame bs = Some f -> encode_frame f = bs /\ frame_ok f.
Proof.
  destruct (size_of bs <? kHeaderSize) eqn:Hshort; [by rewrite decode_frame_short|].
  destruct bs as [|b0 [|b1 [|b2 [|k1 [|k0 [|l3 [|l2 [|l1 [|l0 p]]]]]]]]]; try done.
  rewrite decode_frame_cons. case_match eqn:Hc; [|done]. intros [= <-]. bool_to_prop.
  repeat match goal with H : bool_decide _ = true |- _ => apply bool_decide_eq_true in H; subst end.
  pose proof (be32_range l3 l2 l1 l0) as Hr.
  pose proof (Z_of_byte_range k1). pose proof (Z_of_byte_range k0).
  assert (Hfok : frame_ok (mkFrame (Z_of_byte k1 * 2 ^ 8 + Z_of_byte k0) p)).
  { split; simpl; lia. }
  split; [|done].
  destruct (encode_frame_cons (mkFrame (Z_of_byte k1 * 2 ^ 8 + Z_of_byte k0) p))
    as (k1' & k0' & m3 & m2 & m1 & m0 & -> & Hk & Hl). simpl in *.
  destruct Hfok as [Hfk Hfl]; simpl in *.
  rewrite wrap_small in Hk by lia. rewrite wrap_small in Hl by lia.
  pose proof (Z_of_byte_range k1'). pose proof (Z_of_byte_range k0').
  assert (k1' = k1) as -> by (apply (inj Z_of_byte); lia).
  assert (k0' = k0) as -> by (apply (inj Z_of_byte); lia).
  destruct (be32_byte m3 m2 m1 m0) as (E3 & E2 & E1 & E0). rewrite Hl in *.
  match goal with Hs : size_of p = be32 _ _ _ _ |- _ => rewrite Hs in * end.
  destruct (be32_byte l3 l2 l1 l0) as (F3 & F2 & F1 & F0).
  rewrite F3 in E3. rewrite F2 in E2. rewrite F1 in E1. rewrite F0 in E0.
  apply (inj Z_of_byte) in E3, E2, E1, E0. by subst.
Qed.

#[global] Instance frame_round_trip_instance : RoundTrip frame_ok encode_frame decode_frame.
Proof.
  intros f [Hk Hs]. rewrite decode_encode_frame by done.
  by rewrite (proj2 (Z.ltb_lt _ _)) by lia.
Qed.

(** (C32) Frames are unambiguous: a byte string decodes to a frame exactly when it is the
    encoding of that frame (which then has a 16-bit kind and a payload below 4 GiB). *)
Theorem frame_codec bs f :
  decode_frame bs = Some f <-> encode_frame f = bs /\ frame_ok f.
Proof.
  split; [apply encode_decode_frame|]. intros [<- Hok]. by apply round_trip.
Qed.

(** A payload of 4 GiB or more does not survive framing: its length field is truncated and
    the receiver refuses the frame (it is never read as a different frame). *)
Theorem frame_oversized f (kind_ok : u16 (kind f)) (big : 2 ^ 32 <= size_of (payload f)) :
  decode_frame (encode_frame f) = None.
Proof. rewrite decode_encode_frame by done. by rewrite (proj2 (Z.ltb_ge _ _)). Qed.

Lemma frame_oversized_witness :
  decode_frame (encode_frame (mkFrame GossipEnvelope (repeat Byte.x00 (Z.to_nat (2 ^ 32))))) = None.
Proof.
  apply (frame_oversized (mkFrame GossipEnvelope (repeat Byte.x00 (Z.to_nat (2 ^ 32))))).
  - unfold GossipEnvelope. cbn [kind]. lia.
  - cbn [payload]. unfold size_of. rewrite repeat_length. lia.
Defined.

Example frame_ex :
  decode_frame (encode_frame (mkFrame GossipEnvelope [Byte.x6f; Byte.x6b])) =
  Some (mkFrame 3 [Byte.x6f; Byte.x6b]) /\
  encode_frame (mkFrame ControlRequest []) =
  [Byte.x42; Byte.x4e; Byte.x01; Byte.x00; Byte.x01; Byte.x00; Byte.x00; Byte.x00; Byte.x00].
Proof. by vm_compute. Qed.
