(* ===== verification/PeerHandshake.v ===== *)
(** * The UDP handshake messages: [src/src/beacon/peer_handshake.hpp], [peer_handshake.cpp] *)

From S2P Require Import Prelude CxxString.

(** ** Definitions *)

Record PeerHello := mkPeerHello {
  hello_node_id : string;
  hello_listen_port : Z;
}.

Record PeerWelcome := mkPeerWelcome {
  welcome_node_id : string;
  welcome_registry_revision : Z;
}.

(** The local helpers of the file. *)
Definition split_tokens (payload : string) : list string := tokens payload.
Definition value_after (token : string) : string := after_equals token.

(** [parse_u16(value, output)]: the new value of [output] and the result. *)
Definition parse_u16 (value : string) (output : Z) : Z * bool :=
  let '(parsed, complete) := parse_unsigned uint32_max value 0 in
  if negb complete || (65535 <? parsed) then (output, false) else (wrap 16 parsed, true).

Definition parse_u64 (value : string) (output : Z) : Z * bool := parse_unsigned uint64_max value output.

Definition encode_peer_hello (hello : PeerHello) : string :=
  "BEACON_HELLO node_id=" +:+ hello_node_id hello +:+ " listen_port=" +:+ to_string (hello_listen_port hello).

(** The loop over [tokens[1..]]; [None] is its early [return std::nullopt]. *)
Fixpoint hello_loop (ts : list string) (hello : PeerHello) : option PeerHello :=
  match ts with
  | [] => Some hello
  | t :: ts' =>
      if starts_with t "node_id=" then
        hello_loop ts' (mkPeerHello (value_after t) (hello_listen_port hello))
      else if starts_with t "listen_port=" then
        let '(port, ok) := parse_u16 (value_after t) (hello_listen_port hello) in
        if negb ok then None else hello_loop ts' (mkPeerHello (hello_node_id hello) port)
      else hello_loop ts' hello
  end.

Definition decode_peer_hello (payload : string) : option PeerHello :=
  match split_tokens payload with
  | [] => None
  | t0 :: ts =>
      if bool_decide (t0 <> "BEACON_HELLO") then None
      else match hello_loop ts (mkPeerHello "" 0) with
           | None => None
           | Some hello =>
               if str_empty (hello_node_id hello) || (hello_listen_port hello =? 0) then None
               else Some hello
           end
  end.

Definition encode_peer_welcome (welcome : PeerWelcome) : string :=
  "BEACON_WELCOME node_id=" +:+ welcome_node_id welcome +:+
  " registry_revision=" +:+ to_string (welcome_registry_revision welcome).

Fixpoint welcome_loop (ts : list string) (welcome : PeerWelcome) : option PeerWelcome :=
  match ts with
  | [] => Some welcome
  | t :: ts' =>
      if starts_with t "node_id=" then
        welcome_loop ts' (mkPeerWelcome (value_after t) (welcome_registry_revision welcome))
      else if starts_with t "registry_revision=" then
        let '(rev, ok) := parse_u64 (value_after t) (welcome_registry_revision welcome) in
        if negb ok then None else welcome_loop ts' (mkPeerWelcome (welcome_node_id welcome) rev)
      else welcome_loop ts' welcome
  end.

Definition decode_peer_welcome (payload : string) : option PeerWelcome :=
  match split_tokens payload with
  | [] => None
  | t0 :: ts =>
      if bool_decide (t0 <> "BEACON_WELCOME") then None
      else match welcome_loop ts (mkPeerWelcome "" 0) with
           | None => None
           | Some welcome => if str_empty (welcome_node_id welcome) then None else Some welcome
           end
  end.

#[global] Arguments parse_u16 : simpl never.
#[global] Arguments parse_u64 : simpl never.

(** Messages the text format can carry. *)
Definition hello_ok (h : PeerHello) : Prop :=
  is_word (hello_node_id h) = true /\ 0 < hello_listen_port h < 2 ^ 16.
Definition welcome_ok (w : PeerWelcome) : Prop :=
  is_word (welcome_node_id w) = true /\ u64 (welcome_registry_revision w).

(** ** Lemmas *)

Lemma parse_u16_to_string p old : u16 p -> parse_u16 (to_string p) old = (p, true).
Proof.
  intros Hp. unfold parse_u16. rewrite parse_unsigned_to_string by (unfold uint32_max; lia). simpl.
  rewrite (proj2 (Z.ltb_ge _ _)) by lia. by rewrite wrap_small.
Qed.

(** A printed message is read back as its three tokens. *)
Lemma message_tokens head k1 v1 k2 v2 :
  is_word head = true -> is_word k1 = true -> is_word k2 = true -> no_space v1 = true -> no_space v2 = true ->
  tokens (head +:+ " " +:+ k1 +:+ "=" +:+ v1 +:+ " " +:+ k2 +:+ "=" +:+ v2) =
  [head; k1 +:+ "=" +:+ v1; k2 +:+ "=" +:+ v2].
Proof.
  intros Hh H1 H2 Hv1 Hv2. rewrite tokens_word_space by done. f_equal.
  replace (k1 +:+ "=" +:+ v1 +:+ " " +:+ k2 +:+ "=" +:+ v2)
    with ((k1 +:+ "=" +:+ v1) +:+ " " +:+ (k2 +:+ "=" +:+ v2)) by by rewrite !str_app_assoc.
  rewrite tokens_word_space by by apply is_word_pair. f_equal. apply tokens_word. by apply is_word_pair.
Qed.

Lemma is_word_no_space s : is_word s = true -> no_space s = true.
Proof. by intros [_ ?]%is_word_spec. Qed.

#[global] Instance hello_round_trip : RoundTrip hello_ok encode_peer_hello decode_peer_hello.
Proof.
  intros [n p] [Hn Hp]. simpl in *. unfold decode_peer_hello, split_tokens.
  assert (Ht : tokens (encode_peer_hello (mkPeerHello n p)) =
    ["BEACON_HELLO"; "node_id" +:+ "=" +:+ n; "listen_port" +:+ "=" +:+ to_string p]%string).
  { rewrite <- message_tokens; auto using is_word_no_space, to_string_word with lia. }
  rewrite Ht. rewrite bool_decide_eq_false_2 by (intros Hf; by apply Hf). cbn [hello_loop]. resolve_prefix.
  unfold value_after. rewrite (after_equals_pair "node_id" n) by done.
  rewrite (after_equals_pair "listen_port" (to_string p)) by done.
  rewrite parse_u16_to_string by lia. simpl.
  apply is_word_spec in Hn as [Hn _]. destruct n as [|c n]; [done|]. simpl.
  by rewrite (proj2 (Z.eqb_neq _ _)) by lia.
Qed.

#[global] Instance welcome_round_trip : RoundTrip welcome_ok encode_peer_welcome decode_peer_welcome.
Proof.
  intros [n r] [Hn Hr]. simpl in *. unfold decode_peer_welcome, split_tokens.
  assert (Ht : tokens (encode_peer_welcome (mkPeerWelcome n r)) =
    ["BEACON_WELCOME"; "node_id" +:+ "=" +:+ n; "registry_revision" +:+ "=" +:+ to_string r]%string).
  { rewrite <- message_tokens; auto using is_word_no_space, to_string_word with lia. }
  rewrite Ht. rewrite bool_decide_eq_false_2 by (intros Hf; by apply Hf). cbn [welcome_loop]. resolve_prefix.
  unfold value_after. rewrite (after_equals_pair "node_id" n) by done.
  rewrite (after_equals_pair "registry_revision" (to_string r)) by done.
  unfold parse_u64. rewrite parse_unsigned_to_string by (unfold uint64_max; lia). simpl.
  apply is_word_spec in Hn as [Hn _]. by destruct n.
Qed.

(** What the loops keep: a node id without white space and numbers in range. *)
Lemma hello_loop_ok ts h h' :
  Forall (fun t => is_word t = true) ts -> no_space (hello_node_id h) = true -> u16 (hello_listen_port h) ->
  hello_loop ts h = Some h' -> no_space (hello_node_id h') = true /\ u16 (hello_listen_port h').
Proof.
  intros Hts. revert h. induction Hts as [|t ts Ht _ IH]; intros h Hn Hp; cbn [hello_loop]; [by intros [= <-]|].
  case_match; [apply IH; [|done]; by apply after_equals_no_space, is_word_no_space|].
  case_match; [|by apply IH]. unfold parse_u16.
  pose proof (parse_unsigned_range uint32_max (value_after t) 0 ltac:(unfold uint32_max; lia)) as Hr.
  destruct (parse_unsigned _ _ _) as [v c]; simpl in *.
  destruct (negb c || (65535 <? v)) eqn:Hc; simpl; [done|]. apply IH; [done|]. apply wrap_range. lia.
Qed.

Lemma welcome_loop_ok ts w w' :
  Forall (fun t => is_word t = true) ts -> no_space (welcome_node_id w) = true ->
  u64 (welcome_registry_revision w) -> welcome_loop ts w = Some w' ->
  no_space (welcome_node_id w') = true /\ u64 (welcome_registry_revision w').
Proof.
  intros Hts. revert w. induction Hts as [|t ts Ht _ IH]; intros w Hn Hp; cbn [welcome_loop]; [by intros [= <-]|].
  case_match; [apply IH; [|done]; by apply after_equals_no_space, is_word_no_space|].
  case_match; [|by apply IH]. unfold parse_u64.
  pose proof (parse_unsigned_range uint64_max (value_after t) (welcome_registry_revision w)
    ltac:(unfold uint64_max; lia)) as Hr.
  destruct (parse_unsigned _ _ _) as [v c]; simpl in Hr. destruct c; cbn [negb]; [|done].
  apply IH; [done|]. simpl. unfold uint64_max in Hr. lia.
Qed.

Lemma decode_peer_hello_ok s h : decode_peer_hello s = Some h -> hello_ok h.
Proof.
  unfold decode_peer_hello, split_tokens. pose proof (tokens_words s) as Hw.
  destruct (tokens s) as [|t0 ts]; [done|]. case_bool_decide; [done|].
  apply Forall_cons in Hw as [_ Hw]. destruct (hello_loop ts _) as [h'|] eqn:Hl; [|done].
  apply hello_loop_ok in Hl as [Hn Hp]; [|done|done|simpl; lia].
  case_match eqn:Hc; [done|]. intros [= <-]. bool_to_prop.
  split; [|lia]. apply is_word_spec. split; [|done]. by apply str_empty_false.
Qed.

Lemma decode_peer_welcome_ok s w : decode_peer_welcome s = Some w -> welcome_ok w.
Proof.
  unfold decode_peer_welcome, split_tokens. pose proof (tokens_words s) as Hw.
  destruct (tokens s) as [|t0 ts]; [done|]. case_bool_decide; [done|].
  apply Forall_cons in Hw as [_ Hw]. destruct (welcome_loop ts _) as [w'|] eqn:Hl; [|done].
  apply welcome_loop_ok in Hl as [Hn Hp]; [|done|done|simpl; lia].
  case_match eqn:Hc; [done|]. intros [= <-].
  split; [|done]. apply is_word_spec. split; [|done]. by apply str_empty_false.
Qed.

(** The handshake messages: a hello or welcome whose node id is a word and whose number is
    in range is read back as sent, and whatever text arrives, what the decoders accept is
    such a message (a port is never 0 and never above 65535). *)
Theorem handshake_codec :
  (forall h, hello_ok h -> decode_peer_hello (encode_peer_hello h) = Some h) /\
  (forall w, welcome_ok w -> decode_peer_welcome (encode_peer_welcome w) = Some w) /\
  (forall s h, decode_peer_hello s = Some h -> hello_ok h) /\
  (forall s w, decode_peer_welcome s = Some w -> welcome_ok w).
Proof.
  split_and!; [apply hello_round_trip|apply welcome_round_trip|apply decode_peer_hello_ok|apply decode_peer_welcome_ok].
Qed.

Example handshake_ex :
  decode_peer_hello "BEACON_HELLO node_id=node-2 listen_port=43170" = Some (mkPeerHello "node-2" 43170) /\
  decode_peer_hello "BEACON_HELLO node_id=node-2 listen_port=65536" = None /\
  decode_peer_hello "BEACON_HELLO listen_port=1" = None /\
  decode_peer_welcome "BEACON_WELCOME node_id=dev-node registry_revision=12" = Some (mkPeerWelcome "dev-node" 12).
Proof. by vm_compute. Qed.
