(* ===== verification/ControlProtocol.v ===== *)
(** * The line protocol: [src/src/beacon/control_protocol.hpp], [control_protocol.cpp]

    [parse_command] turns a line into a command or an error text; [handle_line] executes it
    on the node's state: the registry, the world its callback acts on, and the identity
    service behind the pointer [identity_] ([None]: null).  The steady clock is read by the
    member initialiser of [AgentRecord] ([init]) and at most once more on every path
    ([now]). *)

From S2P Require Import Prelude CxxString CxxContainers Types Sodium SecureBuffer Crypto IdentityService AgentRegistry.

(** ** Definitions *)

Inductive ControlAction := Register | Heartbeat | List_ | Stats | Merge | SyncPull | Unknown.
#[global] Instance ControlAction_eq_dec : EqDecision ControlAction.
Proof. solve_decision. Defined.

Record ControlCommand := mkControlCommand {
  action : ControlAction;
  registration : AgentRecord;
  cmd_agent_id : string;
  error : string;
  after_revision : Z;
  limit : Z;
}.

Definition default_ControlCommand (init : TimePoint) : ControlCommand :=
  mkControlCommand Unknown (default_AgentRecord init) "" "" 0 256.

Definition set_action v c := mkControlCommand v (registration c) (cmd_agent_id c) (error c) (after_revision c) (limit c).
Definition set_registration v c := mkControlCommand (action c) v (cmd_agent_id c) (error c) (after_revision c) (limit c).
Definition set_cmd_agent_id v c := mkControlCommand (action c) (registration c) v (error c) (after_revision c) (limit c).
Definition set_error v c := mkControlCommand (action c) (registration c) (cmd_agent_id c) v (after_revision c) (limit c).
Definition set_after_revision v c := mkControlCommand (action c) (registration c) (cmd_agent_id c) (error c) v (limit c).
Definition set_limit v c := mkControlCommand (action c) (registration c) (cmd_agent_id c) (error c) (after_revision c) v.

Record ControlProtocol := mkControlProtocol {
  lifecycle_ : LifecycleConfig;
  trust_ : TrustConfig;
}.

(** The registry, the world of its callback, and the identity service. *)
Record NodeState (W : Type) := mkNodeState {
  st_registry : AgentRegistry W;
  st_world : W;
  st_identity : option IdentityService;
}.
Arguments mkNodeState {W}.
Arguments st_registry {W}.
Arguments st_world {W}.
Arguments st_identity {W}.

(** The local helpers. *)
Definition control_split_tokens (line : string) : list string := tokens line.
Definition get_value (token : string) : string := after_equals token.
Definition parse_revision (value : string) (rev : Z) : Z * bool := parse_unsigned uint64_max value rev.

(** One token of the loop of [parse_command]: go on with the command, or return it. *)
Definition parse_field (token : string) (command : ControlCommand) : ControlCommand + ControlCommand :=
  let reg f := inl (set_registration (f (registration command)) command) in
  if starts_with token "agent_id=" then
    let id := get_value token in
    inl (set_registration (set_agent_id id (registration command)) (set_cmd_agent_id id command))
  else if starts_with token "node_id=" then reg (set_node_id (get_value token))
  else if starts_with token "endpoint=" then reg (set_endpoint (get_value token))
  else if starts_with token "revision=" then
    match parse_revision (get_value token) 0 with
    | (rev, true) => reg (set_revision rev)
    | (_, false) => inr (set_error "invalid revision" command)
    end
  else if starts_with token "after_revision=" then
    match parse_revision (get_value token) 0 with
    | (rev, true) => inl (set_after_revision rev command)
    | (_, false) => inr (set_error "invalid after_revision" command)
    end
  else if starts_with token "limit=" then
    match parse_revision (get_value token) 0 with
    | (n, true) => inl (set_limit n command)
    | (_, false) => inr (set_error "invalid limit" command)
    end
  else if starts_with token "public_key=" then reg (set_public_key_hex (get_value token))
  else if starts_with token "signature=" then reg (set_signature_hex (get_value token))
  else if starts_with token "metadata." then
    match find_char "="%char token with
    | Some equals =>
        reg (fun r => set_metadata (<[substr token 9 (equals - 9) := substr_from token (S equals)]> (metadata r)) r)
    | None => inl command
    end
  else inl command.

Fixpoint parse_fields (ts : list string) (command : ControlCommand) : ControlCommand + ControlCommand :=
  match ts with
  | [] => inl command
  | t :: ts' => match parse_field t command with
                | inl c => parse_fields ts' c
                | inr c => inr c
                end
  end.

(** The command word: the action and the expiry it sets. *)
Definition parse_action (this : ControlProtocol) (now : TimePoint) (word : string) (command : ControlCommand)
    : ControlCommand + ControlCommand :=
  let expiring c := set_registration (set_expires_at (now + milliseconds (heartbeat_ttl (lifecycle_ this))) (registration c)) c in
  if bool_decide (word = "REGISTER") then inl (expiring (set_action Register command))
  else if bool_decide (word = "MERGE") then inl (expiring (set_action Merge command))
  else if bool_decide (word = "HEARTBEAT") then inl (set_action Heartbeat command)
  else if bool_decide (word = "LIST") then inl (set_action List_ command)
  else if bool_decide (word = "STATS") then inl (set_action Stats command)
  else if bool_decide (word = "SYNC_PULL") then inl (set_action SyncPull command)
  else inr (set_error "unknown command" command).

(** The checks after the loop. *)
Definition check_command (command : ControlCommand) : ControlCommand :=
  if bool_decide (action command ∈ [Register; Merge; Heartbeat]) && str_empty (cmd_agent_id command)
  then set_error "agent_id is required" command
  else if bool_decide (action command ∈ [Register; Merge]) &&
          (str_empty (node_id (registration command)) || str_empty (endpoint (registration command)))
  then set_error "node_id and endpoint are required" command
  else command.

Definition parse_command (this : ControlProtocol) (init now : TimePoint) (line : string) : ControlCommand :=
  let command := default_ControlCommand init in
  match control_split_tokens line with
  | [] => set_error "empty command" command
  | word :: rest =>
      match parse_action this now word command with
      | inr c => c
      | inl c => match parse_fields rest c with
                 | inr c' => c'
                 | inl c' => check_command c'
                 end
      end
  end.

Definition encode_agent_line (record : AgentRecord) : string :=
  "AGENT agent_id=" +:+ agent_id record +:+
  " node_id=" +:+ node_id record +:+
  " endpoint=" +:+ endpoint record +:+
  " revision=" +:+ to_string (revision record) +:+
  (if negb (str_empty (public_key_hex record)) then " public_key=" +:+ public_key_hex record else "") +:+
  (if negb (str_empty (signature_hex record)) then " signature=" +:+ signature_hex record else "") +:+
  foldr (fun kv rest => " metadata." +:+ kv.1 +:+ "=" +:+ kv.2 +:+ rest) "" (map_items (metadata record)) +:+
  nl.

Definition encode_agent_lines (records : list AgentRecord) : string :=
  foldr (fun r rest => encode_agent_line r +:+ rest) "" records.

Section handler.
Context {W : Type} {S : Sodium} {Sort : StdSort}.

(** [register_identity(identity_, record)]. *)
Definition register_identity (identity : option IdentityService) (record : AgentRecord) : option IdentityService :=
  match identity with
  | None => None
  | Some svc => if str_empty (public_key_hex record) then Some svc else Some (verify_and_register record svc).1
  end.

(** The branch REGISTER and MERGE share, up to the text of success. *)
Definition handle_store (this : ControlProtocol) (record : AgentRecord) (success : string) (st : NodeState W)
    : NodeState W * string :=
  let signature_status := verify_agent_signature record in
  if require_signatures (trust_ this) && bool_decide (signature_status <> Valid) then
    (st, "ERR message=" +:+ signature_status_message signature_status +:+ nl)
  else if negb (require_signatures (trust_ this)) && bool_decide (signature_status = Invalid) then
    (st, "ERR message=invalid_signature" +:+ nl)
  else
    let '(reg, w, accepted) := upsert record (st_registry st) (st_world st) in
    let identity := if (accepted : bool) then register_identity (st_identity st) record else st_identity st in
    (mkNodeState reg w identity,
     if (accepted : bool) then success +:+ nl else "ERR message=stale_revision" +:+ nl).

Definition handle_line (this : ControlProtocol) (init now : TimePoint) (line : string) (st : NodeState W)
    : NodeState W * string :=
  let command := parse_command this init now line in
  if negb (str_empty (error command)) then (st, "ERR message=" +:+ error command +:+ nl)
  else match action command with
  | Register => handle_store this (registration command) "OK message=registered" st
  | Merge => handle_store this (registration command) "OK message=merged" st
  | Heartbeat =>
      let expires := now + milliseconds (heartbeat_ttl (lifecycle_ this)) in
      let '(reg, accepted) :=
        refresh_heartbeat (cmd_agent_id command) expires (revision (registration command)) (st_registry st) in
      (mkNodeState reg (st_world st) (st_identity st),
       if (accepted : bool) then "OK message=heartbeat" +:+ nl else "ERR message=unknown_or_stale_agent" +:+ nl)
  | Stats =>
      let s := stats (st_registry st) in
      (st, "OK active_agents=" +:+ to_string (active_agents s) +:+
           " highest_revision=" +:+ to_string (highest_revision s) +:+ nl)
  | List_ =>
      (st, "OK message=list" +:+ nl +:+ encode_agent_lines (list_agents (st_registry st)) +:+ "END" +:+ nl)
  | SyncPull =>
      (st, "OK message=sync_pull" +:+ nl +:+
           encode_agent_lines (entries_after_revision (after_revision command) (limit command) (st_registry st)) +:+
           "END" +:+ nl)
  | Unknown => (st, "ERR message=unhandled_command" +:+ nl)
  end.
End handler.

(** Records the line format can carry: fields are single tokens. *)
Definition line_ok (r : AgentRecord) : Prop :=
  is_word (agent_id r) = true /\ is_word (node_id r) = true /\ is_word (endpoint r) = true /\
  no_space (public_key_hex r) = true /\ no_space (signature_hex r) = true /\ u64 (revision r) /\
  forall k v, metadata r !! k = Some v -> no_space k = true /\ no_char "="%char k = true /\ no_space v = true.

(** ** The tokens of an agent line *)

(** [" f1 f2 ..."]: every field preceded by a space. *)
Definition fields_text (fs : list string) : string := foldr (fun f rest => " " +:+ f +:+ rest) "" fs.

Definition metadata_fields (m : gmap string string) : list string :=
  (fun kv => "metadata." +:+ kv.1 +:+ "=" +:+ kv.2) <$> map_items m.

Definition optional_field (name value : string) : list string :=
  if str_empty value then [] else [name +:+ value].

Definition record_fields (r : AgentRecord) : list string :=
  ["agent_id=" +:+ agent_id r; "node_id=" +:+ node_id r; "endpoint=" +:+ endpoint r;
   "revision=" +:+ to_string (revision r)]%string ++
  optional_field "public_key=" (public_key_hex r) ++ optional_field "signature=" (signature_hex r) ++
  metadata_fields (metadata r).

Lemma fields_text_app fs gs : fields_text (fs ++ gs) = fields_text fs +:+ fields_text gs.
Proof. induction fs as [|f fs IH]; [done|]. simpl. rewrite IH. by autorewrite with str. Qed.

Lemma fields_text_optional name v :
  fields_text (optional_field name v) = if negb (str_empty v) then " " +:+ name +:+ v else "".
Proof. unfold optional_field. destruct (str_empty v); simpl; by autorewrite with str. Qed.

Lemma fields_text_metadata m :
  fields_text (metadata_fields m) =
  foldr (fun kv rest => " metadata." +:+ kv.1 +:+ "=" +:+ kv.2 +:+ rest) "" (map_items m).
Proof.
  unfold metadata_fields. induction (map_items m) as [|[k v] l IH]; [done|]. csimpl.
  unfold fields_text in *. simpl foldr. rewrite IH. by autorewrite with str.
Qed.

Lemma encode_agent_line_fields r :
  encode_agent_line r = "AGENT" +:+ fields_text (record_fields r) +:+ nl.
Proof.
  unfold encode_agent_line, record_fields. rewrite !fields_text_app, !fields_text_optional, fields_text_metadata.
  unfold fields_text at 1. cbn [foldr]. autorewrite with str. done.
Qed.

Lemma tokens_fields head fs r :
  is_word head = true -> Forall (fun f => is_word f = true) fs -> head_is isspace r = true ->
  tokens (head +:+ fields_text fs +:+ r) = head :: fs ++ tokens r.
Proof.
  intros Hh Hfs Hr. revert head Hh. induction Hfs as [|f fs Hf _ IH]; intros head Hh.
  - unfold fields_text. simpl. by apply tokens_word_app.
  - cbn [fields_text foldr]. fold (fields_text fs). autorewrite with str.
    rewrite tokens_word_space by done. rewrite IH by done. done.
Qed.

Lemma word_after_prefix p v : is_word p = true -> no_space v = true -> is_word (p +:+ v) = true.
Proof.
  intros [Hne Hp]%is_word_spec Hv. apply is_word_spec. split; [by destruct p|].
  unfold no_space in *. by rewrite str_forall_app, Hp, Hv.
Qed.

Lemma metadata_field_word k v :
  no_space k = true -> no_space v = true -> is_word ("metadata." +:+ k +:+ "=" +:+ v) = true.
Proof.
  intros Hk Hv. apply word_after_prefix; [done|]. unfold no_space in *. by rewrite !str_forall_app, Hk, Hv.
Qed.

Lemma is_word_no_space_line s : is_word s = true -> no_space s = true.
Proof. by intros [_ ?]%is_word_spec. Qed.

Lemma optional_field_words name v : is_word name = true -> no_space v = true ->
  Forall (fun f => is_word f = true) (optional_field name v).
Proof. intros. unfold optional_field. case_match; repeat constructor. by apply word_after_prefix. Qed.

Lemma record_fields_words r : line_ok r -> Forall (fun f => is_word f = true) (record_fields r).
Proof.
  intros (Ha & Hn & He & Hk & Hs & Hr & Hm). unfold record_fields.
  repeat apply Forall_cons_2; repeat apply Forall_app_2; try by apply optional_field_words.
  - apply word_after_prefix; auto using is_word_no_space_line.
  - apply word_after_prefix; auto using is_word_no_space_line.
  - apply word_after_prefix; auto using is_word_no_space_line.
  - apply word_after_prefix; [done|]. apply is_word_no_space_line, to_string_word. lia.
  - apply Forall_fmap, Forall_forall. intros [k v] Hkv%elem_of_map_items.
    destruct (Hm k v Hkv) as (? & _ & ?). by apply metadata_field_word.
Qed.

(** ** Parsing the fields back *)

Lemma get_value_field lit v : key_literal lit -> get_value (lit +:+ v) = v.
Proof. apply after_equals_literal. Qed.

Lemma parse_field_metadata k v c : no_char "="%char k = true ->
  parse_field ("metadata." +:+ k +:+ "=" +:+ v) c =
  inl (set_registration (set_metadata (<[k := v]> (metadata (registration c))) (registration c)) c).
Proof.
  intros Hk. unfold parse_field. resolve_prefix. cbn match.
  change ("=" +:+ v) with (String "=" v).
  replace ("metadata." +:+ k +:+ String "=" v) with (("metadata." +:+ k) +:+ String "=" v)
    by by rewrite str_app_assoc.
  rewrite find_char_app by (unfold no_char in *; by rewrite str_forall_app, Hk).
  rewrite substr_from_after. rewrite str_length_app, str_app_assoc.
  replace (String.length "metadata." + String.length k - 9)%nat with (String.length k) by (simpl; lia).
  pose proof (substr_mid "metadata." k (String "=" v)) as Hsub.
  change (String.length "metadata.") with 9%nat in Hsub. by rewrite Hsub.
Qed.

Lemma parse_fields_app ts1 ts2 c :
  parse_fields (ts1 ++ ts2) c =
  match parse_fields ts1 c with inl c' => parse_fields ts2 c' | inr c' => inr c' end.
Proof. revert c. induction ts1 as [|t ts1 IH]; intros c; [done|]. simpl. case_match; [apply IH|done]. Qed.

Lemma parse_fields_metadata l c :
  Forall (fun kv => no_char "="%char kv.1 = true) l ->
  parse_fields ((fun kv => "metadata." +:+ kv.1 +:+ "=" +:+ kv.2) <$> l) c =
  inl (set_registration (set_metadata (map_store (metadata (registration c)) l) (registration c)) c).
Proof.
  intros Hl. revert c. induction Hl as [|[k v] l Hk _ IH]; intros c; csimpl.
  - destruct c as [a r i e v n]. by destruct r.
  - rewrite parse_field_metadata by done. rewrite IH. done.
Qed.

(** The record the fields describe, on top of the one the command already has. *)
Definition fields_record (r base : AgentRecord) : AgentRecord :=
  mkAgentRecord (agent_id r) (node_id r) (endpoint r) (metadata r) (revision r) (expires_at base)
    (public_key_hex r) (signature_hex r).

Lemma parse_fields_required r c : u64 (revision r) ->
  parse_fields ["agent_id=" +:+ agent_id r; "node_id=" +:+ node_id r; "endpoint=" +:+ endpoint r;
    "revision=" +:+ to_string (revision r)]%string c =
  inl (set_registration
    (set_revision (revision r) (set_endpoint (endpoint r) (set_node_id (node_id r)
      (set_agent_id (agent_id r) (registration c))))) (set_cmd_agent_id (agent_id r) c)).
Proof.
  intros Hr. cbn [parse_fields]. unfold parse_field. resolve_prefix. cbn match beta zeta.
  rewrite !get_value_field by done.
  unfold parse_revision. rewrite parse_unsigned_to_string by (unfold uint64_max; lia). done.
Qed.

Lemma parse_fields_public_key v c : public_key_hex (registration c) = "" ->
  parse_fields (optional_field "public_key=" v) c =
  inl (set_registration (set_public_key_hex v (registration c)) c).
Proof.
  intros Hc. unfold optional_field. destruct (str_empty v) eqn:Hv.
  - apply str_empty_true in Hv as ->. destruct c as [? [] ? ? ? ?]. simpl in *. by subst.
  - cbn [parse_fields]. unfold parse_field. resolve_prefix. cbn match beta zeta.
    by rewrite get_value_field.
Qed.

Lemma parse_fields_signature v c : signature_hex (registration c) = "" ->
  parse_fields (optional_field "signature=" v) c =
  inl (set_registration (set_signature_hex v (registration c)) c).
Proof.
  intros Hc. unfold optional_field. destruct (str_empty v) eqn:Hv.
  - apply str_empty_true in Hv as ->. destruct c as [? [] ? ? ? ?]. simpl in *. by subst.
  - cbn [parse_fields]. unfold parse_field. resolve_prefix. cbn match beta zeta.
    by rewrite get_value_field.
Qed.

Lemma parse_fields_record r c :
  line_ok r -> metadata (registration c) = ∅ -> public_key_hex (registration c) = "" ->
  signature_hex (registration c) = "" ->
  parse_fields (record_fields r) c =
  inl (set_registration (fields_record r (registration c)) (set_cmd_agent_id (agent_id r) c)).
Proof.
  intros (_ & _ & _ & _ & _ & Hr & Hm) Hm0 Hk0 Hs0. unfold record_fields.
  rewrite parse_fields_app, parse_fields_required by done. cbn match.
  rewrite parse_fields_app, parse_fields_public_key by done. cbn match.
  rewrite parse_fields_app, parse_fields_signature by done. cbn match.
  unfold metadata_fields. rewrite parse_fields_metadata.
  - simpl. by rewrite Hm0, map_store_items.
  - apply Forall_forall. intros [k v] Hkv%elem_of_map_items. by apply (Hm k v).
Qed.
