(* ===== verification/ControlProps.v ===== *)
(** * Properties of the line protocol *)

From S2P Require Import Prelude CxxString CxxContainers Types Sodium SecureBuffer Crypto IdentityService AgentRegistry RegistrySpec ControlProtocol.

(** ** What a parsed command guarantees *)

(** The parts of a command every step of the parser keeps in range. *)
Definition command_in_range (c : ControlCommand) : Prop :=
  u64 (revision (registration c)) /\ u64 (after_revision c) /\ u64 (limit c) /\
  cmd_agent_id c = agent_id (registration c).

(** A command without error text has what its action needs. *)
Definition command_valid (c : ControlCommand) : Prop :=
  command_in_range c /\ action c <> Unknown /\
  (action c = Register \/ action c = Merge \/ action c = Heartbeat -> cmd_agent_id c <> "") /\
  (action c = Register \/ action c = Merge ->
     node_id (registration c) <> "" /\ endpoint (registration c) <> "").

Lemma parse_revision_range value : u64 (parse_revision value 0).1.
Proof.
  unfold parse_revision. pose proof (parse_unsigned_range uint64_max value 0 ltac:(unfold uint64_max; lia)) as H.
  unfold uint64_max in *. lia.
Qed.

Lemma parse_field_range t c : command_in_range c ->
  match parse_field t c with
  | inl c' => command_in_range c' /\ action c' = action c /\ error c' = error c
  | inr c' => error c' <> ""
  end.
Proof.
  intros (Hr & Ha & Hl & Hid). unfold parse_field.
  pose proof (parse_revision_range (get_value t)) as Hp.
  repeat (case_match; simplify_eq/=; try done); by split_and!.
Qed.

Lemma parse_fields_range ts c : command_in_range c ->
  match parse_fields ts c with
  | inl c' => command_in_range c' /\ action c' = action c /\ error c' = error c
  | inr c' => error c' <> ""
  end.
Proof.
  revert c. induction ts as [|t ts IH]; intros c Hc; simpl; [done|].
  pose proof (parse_field_range t c Hc) as Ht. destruct (parse_field t c) as [c1|c1]; [|done].
  destruct Ht as (H1 & Ha & He). specialize (IH c1 H1). rewrite Ha, He in IH. done.
Qed.

Lemma parse_action_range this now word c : command_in_range c -> error c = "" ->
  match parse_action this now word c with
  | inl c' => command_in_range c' /\ action c' <> Unknown /\ error c' = ""
  | inr c' => error c' <> ""
  end.
Proof.
  intros (?&?&?&?) ?. unfold parse_action.
  repeat (case_bool_decide; [by split_and!|]). done.
Qed.

Lemma check_command_valid c : command_in_range c -> action c <> Unknown -> error c = "" ->
  error (check_command c) = "" -> command_valid (check_command c).
Proof.
  intros Hr Hu He. unfold check_command.
  destruct (bool_decide (action c ∈ [Register; Merge; Heartbeat]) && str_empty (cmd_agent_id c)) eqn:H1; [done|].
  destruct (bool_decide (action c ∈ [Register; Merge]) && _) eqn:H2; [done|].
  intros _. split; [done|]. split; [done|]. apply andb_false_iff in H1, H2.
  rewrite bool_decide_eq_false, str_empty_false in H1. rewrite bool_decide_eq_false in H2. split.
  - intros Ha. destruct H1 as [H1|H1]; [|done]. destruct H1. set_solver.
  - intros Ha. destruct H2 as [H2|H2]; [destruct H2; set_solver|].
    apply orb_false_iff in H2. by rewrite !str_empty_false in H2.
Qed.

Lemma parse_command_ok this init now line :
  error (parse_command this init now line) = "" -> command_valid (parse_command this init now line).
Proof.
  unfold parse_command.
  assert (H0 : command_in_range (default_ControlCommand init)) by (split_and!; simpl; lia || done).
  destruct (control_split_tokens line) as [|word rest]; [done|].
  pose proof (parse_action_range this now word _ H0 eq_refl) as H1.
  destruct (parse_action this now word _) as [c1|c1]; [|done]. destruct H1 as (H1 & Hu & He).
  pose proof (parse_fields_range rest c1 H1) as H2.
  destruct (parse_fields rest c1) as [c2|c2]; [|done]. destruct H2 as (H2 & Ha & He2).
  apply check_command_valid; [done|congruence|congruence].
Qed.


(** (C31) Validation: whatever the line, a command that comes back without an error has a known
    action, an agent id where the action names an agent, a node id and an endpoint where it
    stores one, and numbers that fit 64 bits. *)
Theorem parse_command_validates this init now line :
  let c := parse_command this init now line in error c = "" -> command_valid c.
Proof. apply parse_command_ok. Qed.

Lemma parse_command_validates_witness :
  let p := mkControlProtocol (lifecycle default_config) (trust default_config) in
  command_valid (parse_command p 0 0 "HEARTBEAT agent_id=agent-1 revision=2") /\
  error (parse_command p 0 0 "HEARTBEAT agent_id=agent-1 revision=2x") = "invalid revision"%string /\
  error (parse_command p 0 0 "REGISTER agent_id=a node_id=n") = "node_id and endpoint are required"%string.
Proof.
  intros p. split; [|by vm_compute].
  apply (parse_command_validates p 0 0 "HEARTBEAT agent_id=agent-1 revision=2"). by vm_compute.
Defined.

(** ** Lines that carry a record *)

Lemma parse_command_record this init now word act r tail :
  line_ok r -> head_is isspace tail = true -> tokens tail = [] -> is_word word = true ->
  (word = "REGISTER" /\ act = Register \/ word = "MERGE" /\ act = Merge)%string ->
  parse_command this init now (word +:+ fields_text (record_fields r) +:+ tail) =
  mkControlCommand act
    (set_expires_at (now + milliseconds (heartbeat_ttl (lifecycle_ this))) r) (agent_id r) "" 0 256.
Proof.
  intros Hok Htail Htok Hw Hact. unfold parse_command, control_split_tokens.
  rewrite tokens_fields by auto using record_fields_words. rewrite Htok, app_nil_r.
  assert (Hpa : parse_action this now word (default_ControlCommand init) =
    inl (mkControlCommand act (default_AgentRecord (now + milliseconds (heartbeat_ttl (lifecycle_ this)))) "" "" 0 256)).
  { destruct Hact as [[-> ->]|[-> ->]]; reflexivity. }
  rewrite Hpa, parse_fields_record by done. unfold check_command.
  destruct Hok as (Ha & Hn & He & _). apply is_word_spec in Ha as [Ha _], Hn as [Hn _], He as [He _].
  apply str_empty_false in Ha, Hn, He. cbn [cmd_agent_id set_registration set_cmd_agent_id fields_record
    registration node_id endpoint action agent_id]. rewrite Ha, Hn, He, !andb_false_r.
  by destruct r.
Qed.

(** ** What a line can store, a line can carry *)

(** The fields of a record are pieces of words. *)
Definition words_only (r : AgentRecord) : Prop :=
  no_space (agent_id r) = true /\ no_space (node_id r) = true /\ no_space (endpoint r) = true /\
  no_space (public_key_hex r) = true /\ no_space (signature_hex r) = true /\
  forall k v, metadata r !! k = Some v -> no_space k = true /\ no_char "="%char k = true /\ no_space v = true.

Lemma substring_zero n s : String.substring n 0 s = "".
Proof. revert n. induction s as [|c s IH]; intros n; destruct n; simpl; [done..|apply IH]. Qed.

Lemma find_char_before c s i n : find_char c s = Some i -> no_char c (substr s n (i - n)) = true.
Proof.
  unfold substr, no_char. revert i n. induction s as [|d s IH]; intros i n; simpl; [done|].
  case_decide as Hd; [intros [= <-]; destruct n; [done|]; by rewrite substring_zero|].
  intros (j & Hj & ->)%fmap_Some. destruct n as [|n]; simpl; [|by apply IH].
  rewrite bool_decide_false by done. specialize (IH j 0%nat Hj). by rewrite Nat.sub_0_r in IH.
Qed.

Lemma parse_field_words t c : is_word t = true -> words_only (registration c) ->
  match parse_field t c with inl c' => words_only (registration c') | inr _ => True end.
Proof.
  intros Ht (H1 & H2 & H3 & H4 & H5 & H6). pose proof (after_equals_no_space t (proj2 (proj1 (is_word_spec t) Ht))) as Hv. unfold parse_field, get_value.
  repeat (case_match; simplify_eq/=; try done); try by split_and!.
  split_and!; simpl; try done. intros k v [[<- <-]|[_ Hkv]]%lookup_insert_Some; [|by apply (H6 k v)].
  apply is_word_spec in Ht as [_ Ht].
  split_and!; [by apply str_forall_substring|by apply find_char_before|by apply str_forall_substring].
Qed.

Lemma parse_fields_words ts c : Forall (fun t => is_word t = true) ts -> words_only (registration c) ->
  match parse_fields ts c with inl c' => words_only (registration c') | inr _ => True end.
Proof.
  intros Hts. revert c. induction Hts as [|t ts Ht _ IH]; intros c Hc; simpl; [done|].
  pose proof (parse_field_words t c Ht Hc) as Hp. destruct (parse_field t c) as [c1|c1]; [by apply IH|done].
Qed.

Lemma encode_hex_no_space bs : no_space (encode_hex bs) = true.
Proof.
  induction bs as [|b bs IH]; [done|]. cbn [encode_hex]. unfold no_space in *. rewrite str_forall_app, IH, andb_true_r.
  by destruct b.
Qed.

(** Whatever a command of the line protocol stores can be written into a line and read back. *)
Lemma parse_command_line_ok this init now line :
  let c := parse_command this init now line in
  error c = "" -> action c = Register \/ action c = Merge -> line_ok (registration c).
Proof.
  intros c He Ha. pose proof (parse_command_ok this init now line He) as ((Hr & _ & _ & Hid) & _ & Hc & Hn). fold c in Hr, Hid, Hc, Hn.
  destruct (Hn Ha) as [Hn1 Hn2]. assert (Hne : cmd_agent_id c <> "") by (apply Hc; tauto). rewrite Hid in Hne. clear Hc Hn.
  enough (words_only (registration c)) as (H1 & H2 & H3 & H4 & H5 & H6) by (split_and!; try done; (by apply is_word_spec) || apply Hr).
  clear Hr Hid Hn1 Hn2 Hne Ha. subst c. unfold parse_command in *.
  pose proof (tokens_words line) as Hw. unfold control_split_tokens in *.
  assert (H0 : forall t, words_only (default_AgentRecord t)) by (intros t; by split_and!).
  destruct (tokens line) as [|word rest]; [done|]. apply Forall_cons in Hw as [_ Hw].
  assert (H1 : match parse_action this now word (default_ControlCommand init) with
               | inl c => words_only (registration c) | inr _ => True end).
  { unfold parse_action. repeat (case_bool_decide; [apply H0|]). done. }
  destruct (parse_action _ _ _ _) as [c1|c1] eqn:Hact.
  - pose proof (parse_fields_words rest c1 Hw H1) as H2. destruct (parse_fields rest c1) as [c2|c2] eqn:Hf.
    + unfold check_command in *. repeat case_match; done.
    + exfalso. assert (Hc1 : command_in_range c1).
      { pose proof (parse_action_range this now word (default_ControlCommand init)) as Hr. rewrite Hact in Hr. apply Hr; [|done].
        split_and!; simpl; lia || done. }
      pose proof (parse_fields_range rest c1 Hc1) as Hr. rewrite Hf in Hr. done.
  - exfalso. pose proof (parse_action_range this now word (default_ControlCommand init)) as Hr. rewrite Hact in Hr.
    apply Hr; [|done|done]. split_and!; simpl; lia || done.
Qed.

(** ** What a response says about the state *)

Section handler.
Context {W : Type} {S : Sodium} {Sort : StdSort}.
Implicit Types (st : NodeState W).

Lemma upsert_false r (reg : AgentRegistry W) w reg' w' :
  upsert r reg w = (reg', w', false) -> reg' = reg /\ w' = w.
Proof. rewrite upsert_cases. repeat case_match; by intros [= <- <-]. Qed.

Lemma heartbeat_false aid ex rev (reg : AgentRegistry W) reg' :
  refresh_heartbeat aid ex rev reg = (reg', false) -> reg' = reg.
Proof. unfold refresh_heartbeat. repeat case_match; by intros [= <-]. Qed.

Lemma handle_store_response this r ok st st' resp :
  starts_with ok "OK" = true -> handle_store this r ok st = (st', resp) ->
  starts_with resp "OK" = true \/ starts_with resp "ERR" = true /\ st' = st.
Proof.
  intros Hok. unfold handle_store.
  case_match; [intros [= <- <-]; by right|]. case_match; [intros [= <- <-]; by right|].
  destruct (upsert r (st_registry st) (st_world st)) as [[reg w] acc] eqn:Hu. intros [= <- <-].
  destruct acc; [left|right].
  - by apply starts_with_app_l.
  - apply upsert_false in Hu as [-> ->]. split; [done|]. by destruct st.
Qed.

(** The command a line is executed as: [None] for a line answered with a parse error. *)
Definition executed (this : ControlProtocol) (init now : TimePoint) (line : string) : option ControlCommand :=
  let c := parse_command this init now line in if str_empty (error c) then Some c else None.

(** Responses tell the truth: every answer begins with "OK" or "ERR"; after an "ERR" answer
    nothing of the state has changed; and a LIST, STATS or SYNC_PULL never changes it. *)
Theorem handle_line_responses this init now line st :
  let '(st', resp) := handle_line this init now line st in
  (starts_with resp "OK" = true \/ starts_with resp "ERR" = true /\ st' = st) /\
  (forall c, executed this init now line = Some c -> action c ∈ [List_; Stats; SyncPull] -> st' = st).
Proof.
  unfold handle_line, executed. destruct (str_empty (error _)); cbn [negb];
    [|split; [right; done|done]].
  set (c := parse_command this init now line).
  destruct (action c) eqn:Ha.
  - destruct (handle_store this (registration c) _ st) as [st' resp] eqn:Hs.
    apply handle_store_response in Hs; [|done]. split; [done|]. intros ? [= <-]. rewrite Ha. set_solver.
  - destruct (refresh_heartbeat _ _ _ _) as [reg acc] eqn:Hh. destruct acc.
    + split; [by left|]. intros ? [= <-]. rewrite Ha. set_solver.
    + apply heartbeat_false in Hh as ->. split; [right; by destruct st|]. by destruct st.
  - split; [by left|done].
  - split; [by left|done].
  - destruct (handle_store this (registration c) _ st) as [st' resp] eqn:Hs.
    apply handle_store_response in Hs; [|done]. split; [done|]. intros ? [= <-]. rewrite Ha. set_solver.
  - split; [by left|done].
  - split; [by right|done].
Qed.

Lemma handle_store_records this r ok st x :
  x ∈ records_ (st_registry (handle_store this r ok st).1) ->
  x ∈ records_ (st_registry st) \/
  x = r /\ (require_signatures (trust_ this) = true -> verify_agent_signature r = Valid) /\
    verify_agent_signature r <> Invalid.
Proof.
  unfold handle_store.
  destruct (require_signatures (trust_ this) && _) eqn:H1; [by left|].
  destruct (negb (require_signatures (trust_ this)) && _) eqn:H2; [by left|].
  pose proof (upsert_elem r (st_registry st) (st_world st) x) as Hx.
  destruct (upsert r (st_registry st) (st_world st)) as [[reg w] acc]; simpl in *.
  intros [-> |?]%Hx; [right|by left]. split; [done|].
  destruct (require_signatures (trust_ this)); simpl in *;
    rewrite bool_decide_eq_false in *.
  - apply dec_stable in H1. by rewrite H1.
  - done.
Qed.

(** A heartbeat only touches expiry and revision of a stored record. *)
Lemma heartbeat_records aid ex rev (reg : AgentRegistry W) x :
  x ∈ records_ (refresh_heartbeat aid ex rev reg).1 ->
  x ∈ records_ reg \/ exists y, y ∈ records_ reg /\ x = set_revision rev (set_expires_at ex y).
Proof.
  unfold refresh_heartbeat. destruct (find_agent aid (records_ reg)) as [[i e]|] eqn:Hf; [|by left].
  case_match; [by left|]. simpl. intros [-> |?]%elem_of_insert; [right|by left].
  apply find_agent_id in Hf as [Hi _]. exists e. split; [|done]. by eapply list_elem_of_lookup_2.
Qed.

(** (C17) Admission control of the control port: a record found in the registry after a line was
    there before, or is a stored record with refreshed expiry and revision (HEARTBEAT), or is
    the record of the line itself, whose signature is then not [Invalid], and is [Valid] when
    the node requires signatures. *)
Theorem handle_line_admission this init now line st x :
  let st' := (handle_line this init now line st).1 in
  x ∈ records_ (st_registry st') ->
  x ∈ records_ (st_registry st) \/
  (exists y ex rev, y ∈ records_ (st_registry st) /\ x = set_revision rev (set_expires_at ex y)) \/
  (x = registration (parse_command this init now line) /\ verify_agent_signature x <> Invalid /\
   (require_signatures (trust_ this) = true -> verify_agent_signature x = Valid)).
Proof.
  intros st'. subst st'. unfold handle_line. destruct (str_empty (error _)); cbn [negb]; [|by left].
  set (c := parse_command this init now line).
  destruct (action c); simpl; try by left.
  - intros [?|(-> & ? & ?)]%handle_store_records; [by left|]. do 2 right. done.
  - pose proof (heartbeat_records (cmd_agent_id c) (now + milliseconds (heartbeat_ttl (lifecycle_ this)))
      (revision (registration c)) (st_registry st) x) as Hh.
    destruct (refresh_heartbeat _ _ _ _) as [reg acc]; simpl in *.
    intros [?|(y & ? & ->)]%Hh; [by left|]. right; left. eauto.
  - intros [?|(-> & ? & ?)]%handle_store_records; [by left|]. do 2 right. done.
Qed.

(** A node that requires signatures and was built without libsodium fails closed: no line
    adds a record or changes a stored one beyond the expiry and revision of a heartbeat. *)
Theorem strict_without_sodium_fails_closed this init now line st x
    (strict : require_signatures (trust_ this) = true) (no_lib : sodium_enabled = false) :
  x ∈ records_ (st_registry (handle_line this init now line st).1) ->
  exists y ex rev, y ∈ records_ (st_registry st) /\
    (x = y \/ x = set_revision rev (set_expires_at ex y)).
Proof.
  unfold handle_line. destruct (str_empty (error _)); cbn [negb]; [|intros ?; exists x, 0, 0; by auto].
  set (c := parse_command this init now line).
  assert (Hst : forall r ok, x ∈ records_ (st_registry (handle_store this r ok st).1) ->
    exists y ex rev, y ∈ records_ (st_registry st) /\ (x = y \/ x = set_revision rev (set_expires_at ex y))).
  { intros r ok [?|(_ & Hv & _)]%handle_store_records; [exists x, 0, 0; auto|].
    by destruct (verify_disabled r no_lib (Hv strict)). }
  destruct (action c); simpl; eauto; try (intros ?; exists x, 0, 0; by auto).
  pose proof (heartbeat_records (cmd_agent_id c) (now + milliseconds (heartbeat_ttl (lifecycle_ this)))
    (revision (registration c)) (st_registry st) x) as Hh.
  destruct (refresh_heartbeat _ _ _ _) as [reg acc]; simpl in *.
  intros [?|(y & ? & ->)]%Hh; [exists x, 0, 0; auto|eauto 10].
Qed.

Lemma handle_store_ok this r ok st :
  u64 (revision r) -> registry_ok (st_registry st) -> registry_ok (st_registry (handle_store this r ok st).1).
Proof.
  intros Hr Hok. unfold handle_store. case_match; [done|]. case_match; [done|].
  pose proof (upsert_ok r (st_registry st) (st_world st) Hok Hr) as Hup.
  by destruct (upsert r (st_registry st) (st_world st)) as [[reg w] acc].
Qed.

Lemma handle_line_ok this init now line st :
  registry_ok (st_registry st) -> registry_ok (st_registry (handle_line this init now line st).1).
Proof.
  intros Hok. unfold handle_line. destruct (str_empty (error _)) eqn:He; cbn [negb]; [|done].
  apply str_empty_true in He. apply parse_command_ok in He as ((Hr & _) & _).
  destruct (action _); simpl; try done; try by apply handle_store_ok.
  pose proof (heartbeat_ok (cmd_agent_id (parse_command this init now line))
    (now + milliseconds (heartbeat_ttl (lifecycle_ this)))
    (revision (registration (parse_command this init now line))) (st_registry st) Hok Hr) as Hh.
  by destruct (refresh_heartbeat _ _ _ _) as [reg acc].
Qed.
(** (C36) The control port does not enforce the pinned key: a registration of an agent that is not
    in the registry at the moment (it has expired, say), validly signed under another key than
    the one pinned for the agent, is answered OK and stored, although the trust store refuses
    it (its answer is not read) and a gossip merge of the same record is refused. *)
Theorem control_port_ignores_pinned_key {SL : SodiumLaws S} this init now line st svc key
    (parsed : error (parse_command this init now line) = ""%string)
    (registers : action (parse_command this init now line) = Register) :
  let r := registration (parse_command this init now line) in
  st_identity st = Some svc -> identity_ok svc -> pinned_key svc (agent_id r) = Some key ->
  decode_hex (public_key_hex r) <> key -> verify_agent_signature r = Valid -> find (agent_id r) (st_registry st) = None ->
  (let '(st', response) := handle_line this init now line st in
   response = "OK message=registered" +:+ nl /\ find (agent_id r) (st_registry st') = Some r /\ st_identity st' = Some svc) /\
  (let '(reg', _, _, n) := merge [r] (Some svc) (st_registry st) (st_world st) in reg' = st_registry st /\ n = 0).
Proof.
  intros r Hid Hok Hk Hne Hv Hf.
  assert (Hreg : verify_and_register r svc = (svc, Invalid)).
  { rewrite verify_and_register_spec, Hv, Hk by done. rewrite decide_False by done. done. }
  split.
  - unfold handle_line. rewrite parsed, registers. cbn [str_empty negb]. fold r. unfold handle_store. rewrite Hv.
    rewrite bool_decide_eq_false_2, andb_false_r by (intros Hn; by apply Hn). rewrite bool_decide_eq_false_2, andb_false_r by done.
    destruct (upsert r (st_registry st) (st_world st)) as [[reg w] acc] eqn:Hu. pose proof (upsert_refines _ _ _ _ _ _ Hu) as Href.
    unfold spec_upsert in Href. rewrite <- find_refines, Hf in Href. injection Href as Hb <-.
    split; [done|]. cbn [st_registry st_identity]. split; [by rewrite find_refines, <- Hb, lookup_insert_eq|].
    unfold register_identity. rewrite Hid, Hreg. by destruct (str_empty _).
  - unfold merge; simpl. unfold merge_one. by rewrite Hreg.
Qed.
End handler.

Definition strict_protocol : ControlProtocol :=
  mkControlProtocol (lifecycle default_config) (mkTrustConfig 5 120 true).
Definition open_protocol : ControlProtocol :=
  mkControlProtocol (lifecycle default_config) (trust default_config).
Definition empty_node : NodeState unit := mkNodeState new_registry tt (Some new_identity_service).

(** The transcript of the repository's own test, and the strict node's refusals. *)
Example transcript_ex :
  let run line st := handle_line open_protocol 0 0 line st in
  let '(st1, r1) := run "REGISTER agent_id=agent-2 node_id=node-2 endpoint=127.0.0.1:9001 revision=1 metadata.role=worker" empty_node in
  let '(st2, r2) := run "HEARTBEAT agent_id=agent-2 revision=2" st1 in
  let '(_, r3) := run "STATS" st2 in
  let '(_, r4) := run "SYNC_PULL after_revision=1 limit=10" st2 in
  r1 = "OK message=registered" +:+ nl /\ r2 = "OK message=heartbeat" +:+ nl /\
  r3 = "OK active_agents=1 highest_revision=2" +:+ nl /\
  r4 = "OK message=sync_pull" +:+ nl +:+
       "AGENT agent_id=agent-2 node_id=node-2 endpoint=127.0.0.1:9001 revision=2 metadata.role=worker" +:+ nl +:+
       "END" +:+ nl.
Proof. by vm_compute. Qed.

Lemma handle_line_admission_witness :
  let line := "REGISTER agent_id=a node_id=n endpoint=h:1 revision=1"%string in
  let st' := (handle_line open_protocol 0 0 line empty_node).1 in
  let x := registration (parse_command open_protocol 0 0 line) in
  x ∈ [] \/
  (exists y ex rev, y ∈ [] /\ x = set_revision rev (set_expires_at ex y)) \/
  (x = registration (parse_command open_protocol 0 0 line) /\ verify_agent_signature x <> Invalid /\
   (false = true -> verify_agent_signature x = Valid)).
Proof.
  intros line st' x. apply (handle_line_admission open_protocol 0 0 line empty_node x).
  apply (bool_decide_unpack (x ∈ _)). by vm_compute.
Defined.

Lemma strict_without_sodium_fails_closed_witness :
  let x := mkAgentRecord "a" "n" "h:1" ∅ 1 5 "" "" in
  let st := mkNodeState (mkAgentRegistry [x] None) tt (Some new_identity_service) in
  let line := "REGISTER agent_id=b node_id=n endpoint=h:2 revision=1"%string in
  (@handle_line _ no_sodium _ strict_protocol 0 0 line st).2 = "ERR message=missing_signature" +:+ nl /\
  exists y ex rev, y ∈ [x] /\ (x = y \/ x = set_revision rev (set_expires_at ex y)).
Proof.
  intros x st line. split; [by vm_compute|].
  apply (@strict_without_sodium_fails_closed unit no_sodium _ strict_protocol 0 0 line st x).
  - reflexivity.
  - reflexivity.
  - vm_compute. constructor.
Defined.

(** Agent "a" is pinned to the key of seed 1 and has expired; seed 2 registers it. *)
Lemma control_port_ignores_pinned_key_witness :
  let first := signed_record 1 (mkAgentRecord "a" "n" "h:1" ∅ 1 0 "" "") in
  let stolen := signed_record 2 (mkAgentRecord "a" "x" "h:2" ∅ 1 0 "" "") in
  let svc := (verify_and_register first new_identity_service).1 in
  let st := mkNodeState (@new_registry unit) tt (Some svc) in
  let line := "REGISTER" +:+ fields_text (record_fields stolen) in
  let '(st', response) := handle_line strict_protocol 0 0 line st in
  response = "OK message=registered" +:+ nl /\ (endpoint <$> find "a" (st_registry st')) = Some "h:2"%string /\ st_identity st' = Some svc.
Proof.
  intros first stolen svc st line.
  destruct (@control_port_ignores_pinned_key unit toy_sodium _ toy_sodium_laws strict_protocol 0 0 line st svc
    (replicate 32 (byte_of_Z 1))) as [H _].
  - by vm_compute.
  - by vm_compute.
  - reflexivity.
  - apply verify_and_register_ok, map_Forall_empty.
  - by vm_compute.
  - by vm_compute.
  - by vm_compute.
  - by vm_compute.
  - assert (Ha : agent_id (registration (parse_command strict_protocol 0 0 line)) = "a"%string) by by vm_compute.
    assert (He : endpoint (registration (parse_command strict_protocol 0 0 line)) = "h:2"%string) by by vm_compute.
    rewrite Ha in H. destruct (handle_line strict_protocol 0 0 line st) as [st' response].
    destruct H as (H1 & H2 & H3). split; [exact H1|]. split; [|exact H3]. rewrite H2. exact (f_equal Some He).
Defined.
