(* ===== verification/RegistrySync.v ===== *)
(** * Planning a synchronisation round: [src/src/beacon/registry_sync.hpp], [registry_sync.cpp]

    [RegistrySync] asks the registry for the entries a peer lacks; the two encoders write the
    commands a node sends to a peer's control port.  The round trip with [parse_command] of
    the line protocol is the contract between the two ends. *)

From S2P Require Import Prelude CxxString CxxContainers Types Sodium SecureBuffer Crypto IdentityService AgentRegistry RegistrySpec ControlProtocol ControlProps.

(** ** Definitions *)

Record SyncPlan := mkSyncPlan {
  local_revision : Z;
  push_entries_of : list AgentRecord;
}.

Record RegistrySync := mkRegistrySync { sync_max_entries : Z }.

Definition plan_push_pull {W} {Sort : StdSort} (this : RegistrySync) (registry : AgentRegistry W)
    (remote_revision : Z) : SyncPlan :=
  mkSyncPlan (highest_revision (stats registry))
    (entries_after_revision remote_revision (sync_max_entries this) registry).

Definition merge_remote {W} {S : Sodium} (remote_entries : list AgentRecord) (identity : option IdentityService)
    (registry : AgentRegistry W) (w : W) : AgentRegistry W * W * option IdentityService * Z :=
  merge remote_entries identity registry w.

(** [s.back()] of a string that is not empty, and [s.pop_back()]. *)
Fixpoint str_back (s : string) : option ascii :=
  match s with
  | EmptyString => None
  | String c EmptyString => Some c
  | String _ s' => str_back s'
  end.
Fixpoint pop_back (s : string) : string :=
  match s with
  | EmptyString => EmptyString
  | String _ EmptyString => EmptyString
  | String c s' => String c (pop_back s')
  end.

(** [s.replace(0, n, by)]. *)
Definition replace_front (s : string) (n : nat) (by_ : string) : string := by_ +:+ substr_from s n.

Definition encode_merge_command (record : AgentRecord) : string :=
  let command := replace_front (encode_agent_line record) 5 "MERGE" in
  if bool_decide (str_back command = Some newline) then pop_back command else command.

Definition encode_sync_pull_command (after lim : Z) : string :=
  "SYNC_PULL after_revision=" +:+ to_string after +:+ " limit=" +:+ to_string lim.

(** ** Lemmas *)

Lemma str_back_snoc s c : str_back (s +:+ String c "") = Some c.
Proof.
  induction s as [|d s IH]; [done|]. rewrite str_app_cons. simpl.
  destruct (s +:+ String c "") eqn:E; [by destruct s|done].
Qed.

Lemma pop_back_snoc s c : pop_back (s +:+ String c "") = s.
Proof.
  induction s as [|d s IH]; [done|]. rewrite str_app_cons. simpl.
  destruct (s +:+ String c "") eqn:E; [by destruct s|by rewrite IH].
Qed.

Lemma encode_merge_command_fields r :
  encode_merge_command r = "MERGE" +:+ fields_text (record_fields r).
Proof.
  unfold encode_merge_command, replace_front. rewrite encode_agent_line_fields.
  rewrite (substr_from_app "AGENT" (fields_text (record_fields r) +:+ nl) : substr_from _ 5 = _).
  rewrite <- str_app_assoc. unfold nl. by rewrite str_back_snoc, bool_decide_true, pop_back_snoc.
Qed.

Lemma parse_merge_command this init now r : line_ok r ->
  parse_command this init now (encode_merge_command r) =
  mkControlCommand Merge (set_expires_at (now + milliseconds (heartbeat_ttl (lifecycle_ this))) r) (agent_id r) "" 0 256.
Proof.
  intros Hr. rewrite encode_merge_command_fields.
  rewrite <- (str_app_nil_r (_ +:+ fields_text _)), str_app_assoc.
  apply parse_command_record; auto.
Qed.

Lemma sync_pull_tokens after lim : 0 <= after -> 0 <= lim ->
  tokens (encode_sync_pull_command after lim) =
  ["SYNC_PULL"; "after_revision=" +:+ to_string after; "limit=" +:+ to_string lim]%string.
Proof.
  intros Ha Hl.
  assert (Hn : forall n, 0 <= n -> no_space (to_string n) = true).
  { intros n Hn. by apply is_word_no_space_line, to_string_word. }
  etrans; [|apply (tokens_fields "SYNC_PULL" ["after_revision=" +:+ to_string after; "limit=" +:+ to_string lim] "")].
  - f_equal. unfold encode_sync_pull_command, fields_text. cbn [foldr]. by autorewrite with str.
  - done.
  - repeat constructor; apply word_after_prefix; auto.
  - done.
Qed.

Lemma parse_sync_pull_command this init now after lim : u64 after -> u64 lim ->
  parse_command this init now (encode_sync_pull_command after lim) =
  mkControlCommand SyncPull (default_AgentRecord init) "" "" after lim.
Proof.
  intros Ha Hl. unfold parse_command, control_split_tokens. rewrite sync_pull_tokens by lia.
  cbn [parse_fields]. unfold parse_action; repeat (rewrite bool_decide_false by done). rewrite bool_decide_true by done.
  unfold parse_field. resolve_prefix. cbn match beta zeta. rewrite !get_value_field by done.
  unfold parse_revision. rewrite !parse_unsigned_to_string by (unfold uint64_max; lia). done.
Qed.

(** The two ends of the gossip connection agree: the peer's parser reads a MERGE command as
    exactly the record that was encoded (with an expiry of its own) and a SYNC_PULL command as
    the watermark and limit that were encoded, without error. *)
Theorem sync_commands_round_trip this init now r after lim (storable : line_ok r) (after64 : u64 after) (lim64 : u64 lim) :
  parse_command this init now (encode_merge_command r) =
    mkControlCommand Merge (set_expires_at (now + milliseconds (heartbeat_ttl (lifecycle_ this))) r)
      (agent_id r) "" 0 256 /\
  parse_command this init now (encode_sync_pull_command after lim) =
    mkControlCommand SyncPull (default_AgentRecord init) "" "" after lim.
Proof. split; [by apply parse_merge_command|by apply parse_sync_pull_command]. Qed.

Definition sync_example : AgentRecord :=
  mkAgentRecord "agent-7" "node-7" "10.0.0.7:9000" (<["role" := "worker"]> (<["zone" := "eu=1"]> ∅)) 5 0 "" "".

Lemma sync_commands_round_trip_witness :
  encode_merge_command sync_example =
    "MERGE agent_id=agent-7 node_id=node-7 endpoint=10.0.0.7:9000 revision=5 metadata.role=worker metadata.zone=eu=1"%string /\
  parse_command open_protocol 3 4 (encode_merge_command sync_example) =
    mkControlCommand Merge (set_expires_at (4 + milliseconds 30000) sync_example) "agent-7" "" 0 256 /\
  parse_command open_protocol 3 4 (encode_sync_pull_command 5 256) =
    mkControlCommand SyncPull (default_AgentRecord 3) "" "" 5 256.
Proof.
  split; [by vm_compute|].
  apply (sync_commands_round_trip open_protocol 3 4 sync_example 5 256); [|lia|lia].
  split_and!; [reflexivity..|simpl; lia|simpl; lia|].
  intros k v. simpl. intros [[<- <-]|[_ [[<- <-]|[_ [=]]]%lookup_insert_Some]]%lookup_insert_Some; done.
Defined.
