(* ===== verification/Protobuf.v ===== *)
(** * Protocol buffers: the messages of the [.proto] files and the interface to their codec

    The messages are the records of [registry.proto] and [gossip.proto]; the classes that
    [protoc] generates for them are not in the repository, so serialising and parsing are an
    interface ([ProtoMessage]) with the documented contract of the C++ runtime as laws
    ([ProtoLaws]): a message whose [string] fields are UTF-8 and whose numbers fit their type
    parses back from its serialisation, what the parser accepts is such a message, and a
    serialisation is shorter than 2 GiB.
    [ProtoWire] proves the laws of the wire format of these messages.
    [countable_ProtoMessage] is a simple codec that satisfies the laws; it plays no role in
    the theorems and lets the witnesses run. *)

From S2P Require Import Prelude CxxString CxxContainers.

(** ** The messages *)

Module V1.

Record AgentRegistration := mkAgentRegistration {
  reg_agent_id : string;
  reg_node_id : string;
  reg_endpoint : string;
  reg_metadata : gmap string string;
  reg_revision : Z;
  reg_expires_at_unix_ms : Z;
  reg_public_key : bytes;
  reg_signature : bytes;
}.

Record Heartbeat := mkHeartbeat {
  hb_agent_id : string;
  hb_node_id : string;
  hb_revision : Z;
  hb_observed_at_unix_ms : Z;
  hb_signature : bytes;
}.

Record ListAgentsRequest := mkListAgentsRequest {
  metadata_key : string;
  metadata_value : string;
}.

Record SyncPullRequest := mkSyncPullRequest {
  pull_after_revision : Z;
  pull_limit : Z;
}.

(** [oneof body]; [body_not_set] when no member is present. *)
Inductive ControlRequest :=
| register_agent (r : AgentRegistration)
| heartbeat (h : Heartbeat)
| list_agents_request (l : ListAgentsRequest)
| sync_pull (p : SyncPullRequest)
| sync_merge (r : AgentRegistration)
| stats_request
| body_not_set.

(** [snapshot] is [None] until [mutable_snapshot] is called. *)
Record ControlResponse := mkControlResponse {
  resp_ok : bool;
  resp_message : string;
  resp_snapshot : option (list AgentRegistration);
}.

Record RegistryEntry := mkRegistryEntry {
  ent_agent_id : string;
  ent_capability : string;
  ent_endpoint : string;
  ent_timestamp : Z;
  ent_public_key : bytes;
  ent_signature : bytes;
}.

End V1.

(** ** UTF-8 *)

Definition continuation (b : Z) : bool := (128 <=? b) && (b <=? 191).

(** Well-formed byte sequences, table 3-7 of the Unicode standard. *)
Fixpoint utf8_bytes (bs : list Z) : bool :=
  match bs with
  | [] => true
  | b0 :: r =>
      if b0 <? 128 then utf8_bytes r
      else if (194 <=? b0) && (b0 <=? 223) then
        match r with b1 :: r' => continuation b1 && utf8_bytes r' | _ => false end
      else if (224 <=? b0) && (b0 <=? 239) then
        match r with
        | b1 :: b2 :: r' =>
            continuation b1 && continuation b2 && negb ((b0 =? 224) && (b1 <? 160)) &&
            negb ((b0 =? 237) && (159 <? b1)) && utf8_bytes r'
        | _ => false
        end
      else if (240 <=? b0) && (b0 <=? 244) then
        match r with
        | b1 :: b2 :: b3 :: r' =>
            continuation b1 && continuation b2 && continuation b3 && negb ((b0 =? 240) && (b1 <? 144)) &&
            negb ((b0 =? 244) && (143 <? b1)) && utf8_bytes r'
        | _ => false
        end
      else false
  end.
Definition utf8_valid (s : string) : bool := utf8_bytes (Z_of_byte <$> bytes_of_string s).

(** ** The codec interface *)

(** Messages the runtime accepts on both sides. *)
Class ProtoValid (A : Type) := proto_valid : A -> Prop.

Class ProtoMessage (A : Type) := {
  SerializeToString : A -> option bytes;
  ParseFromString : bytes -> option A;
}.

Class ProtoLaws (A : Type) {V : ProtoValid A} {M : ProtoMessage A} := {
  parse_serialized : forall m bs, proto_valid m -> SerializeToString m = Some bs -> ParseFromString bs = Some m;
  parsed_valid : forall m bs, ParseFromString bs = Some m -> proto_valid m;
  serialized_size : forall (m : A) bs, SerializeToString m = Some bs -> size_of bs < 2 ^ 31;
}.
Arguments ProtoLaws A {V M}.

Definition registration_valid (r : V1.AgentRegistration) : Prop :=
  utf8_valid (V1.reg_agent_id r) = true /\ utf8_valid (V1.reg_node_id r) = true /\
  utf8_valid (V1.reg_endpoint r) = true /\
  map_Forall (fun k v => utf8_valid k = true /\ utf8_valid v = true) (V1.reg_metadata r) /\
  u64 (V1.reg_revision r) /\ u64 (V1.reg_expires_at_unix_ms r).

#[global] Instance RegistryEntry_valid : ProtoValid V1.RegistryEntry := fun e =>
  utf8_valid (V1.ent_agent_id e) = true /\ utf8_valid (V1.ent_capability e) = true /\
  utf8_valid (V1.ent_endpoint e) = true /\ u64 (V1.ent_timestamp e).

#[global] Instance ControlRequest_valid : ProtoValid V1.ControlRequest := fun r =>
  match r with
  | V1.register_agent a | V1.sync_merge a => registration_valid a
  | V1.heartbeat h => utf8_valid (V1.hb_agent_id h) = true /\ utf8_valid (V1.hb_node_id h) = true /\
      u64 (V1.hb_revision h) /\ u64 (V1.hb_observed_at_unix_ms h)
  | V1.list_agents_request l => utf8_valid (V1.metadata_key l) = true /\ utf8_valid (V1.metadata_value l) = true
  | V1.sync_pull p => u64 (V1.pull_after_revision p) /\ u32 (V1.pull_limit p)
  | V1.stats_request | V1.body_not_set => True
  end.

#[global] Instance ControlResponse_valid : ProtoValid V1.ControlResponse := fun r =>
  utf8_valid (V1.resp_message r) = true /\ Forall registration_valid (default [] (V1.resp_snapshot r)).

(** ** A concrete codec: any countable type *)

Fixpoint bytes_of_positive (p : positive) : bytes :=
  match p with
  | xH => []
  | xO q => Byte.x00 :: bytes_of_positive q
  | xI q => Byte.x01 :: bytes_of_positive q
  end.
Fixpoint positive_of_bytes (bs : bytes) : positive :=
  match bs with
  | [] => xH
  | b :: r => if bool_decide (b = Byte.x00) then xO (positive_of_bytes r) else xI (positive_of_bytes r)
  end.

Lemma positive_of_bytes_of_positive p : positive_of_bytes (bytes_of_positive p) = p.
Proof. induction p as [p IH|p IH|]; simpl; [by rewrite IH..|done]. Qed.

#[global] Instance byte_countable : Countable byte.
Proof. apply (inj_countable' Z_of_byte byte_of_Z), byte_of_Z_of_byte. Defined.

#[global] Instance AgentRegistration_eq_dec : EqDecision V1.AgentRegistration.
Proof. solve_decision. Defined.
#[global] Instance AgentRegistration_countable : Countable V1.AgentRegistration.
Proof.
  apply (inj_countable'
    (fun '(V1.mkAgentRegistration a b c d e f g h) => (a, b, c, d, e, f, g, h))
    (fun '(a, b, c, d, e, f, g, h) => V1.mkAgentRegistration a b c d e f g h)).
  by intros [].
Defined.
#[global] Instance RegistryEntry_eq_dec : EqDecision V1.RegistryEntry.
Proof. solve_decision. Defined.
#[global] Instance RegistryEntry_countable : Countable V1.RegistryEntry.
Proof.
  apply (inj_countable'
    (fun '(V1.mkRegistryEntry a b c d e f) => (a, b, c, d, e, f))
    (fun '(a, b, c, d, e, f) => V1.mkRegistryEntry a b c d e f)).
  by intros [].
Defined.
#[global] Instance ControlResponse_eq_dec : EqDecision V1.ControlResponse.
Proof. solve_decision. Defined.
#[global] Instance ControlResponse_countable : Countable V1.ControlResponse.
Proof.
  apply (inj_countable'
    (fun '(V1.mkControlResponse a b c) => (a, b, c)) (fun '(a, b, c) => V1.mkControlResponse a b c)).
  by intros [].
Defined.
#[global] Instance Heartbeat_eq_dec : EqDecision V1.Heartbeat.
Proof. solve_decision. Defined.
#[global] Instance ListAgentsRequest_eq_dec : EqDecision V1.ListAgentsRequest.
Proof. solve_decision. Defined.
#[global] Instance SyncPullRequest_eq_dec : EqDecision V1.SyncPullRequest.
Proof. solve_decision. Defined.
#[global] Instance ControlRequest_eq_dec : EqDecision V1.ControlRequest.
Proof. solve_decision. Defined.
#[global] Instance ControlRequest_countable : Countable V1.ControlRequest.
Proof.
  apply (inj_countable'
    (fun r => match r with
     | V1.register_agent a => inl (inl a)
     | V1.sync_merge a => inl (inr a)
     | V1.heartbeat (V1.mkHeartbeat a b c d e) => inr (inl (inl (a, b, c, d, e)))
     | V1.list_agents_request (V1.mkListAgentsRequest k v) => inr (inl (inr (k, v)))
     | V1.sync_pull (V1.mkSyncPullRequest a l) => inr (inr (Some (a, l), false))
     | V1.stats_request => inr (inr (None, false))
     | V1.body_not_set => inr (inr (None, true))
     end)
    (fun x => match x with
     | inl (inl a) => V1.register_agent a
     | inl (inr a) => V1.sync_merge a
     | inr (inl (inl (a, b, c, d, e))) => V1.heartbeat (V1.mkHeartbeat a b c d e)
     | inr (inl (inr (k, v))) => V1.list_agents_request (V1.mkListAgentsRequest k v)
     | inr (inr (Some (a, l), _)) => V1.sync_pull (V1.mkSyncPullRequest a l)
     | inr (inr (None, false)) => V1.stats_request
     | inr (inr (None, true)) => V1.body_not_set
     end)).
  by intros [a|[]|[]|[]|a| |].
Defined.

#[global] Instance RegistryEntry_valid_dec (e : V1.RegistryEntry) : Decision (proto_valid e).
Proof. unfold proto_valid, RegistryEntry_valid. apply _. Defined.
#[global] Instance registration_valid_dec r : Decision (registration_valid r).
Proof. unfold registration_valid. apply _. Defined.
#[global] Instance ControlRequest_valid_dec (r : V1.ControlRequest) : Decision (proto_valid r).
Proof. unfold proto_valid, ControlRequest_valid. destruct r; apply _. Defined.
#[global] Instance ControlResponse_valid_dec (r : V1.ControlResponse) : Decision (proto_valid r).
Proof. unfold proto_valid, ControlResponse_valid. apply _. Defined.

Definition countable_ProtoMessage (A : Type) `{Countable A} `{V : ProtoValid A} `{!forall m : A, Decision (proto_valid m)}
    : ProtoMessage A := {|
  SerializeToString m :=
    let bs := bytes_of_positive (encode m) in if size_of bs <? 2 ^ 31 then Some bs else None;
  ParseFromString bs :=
    match decode (positive_of_bytes bs) with
    | Some m => if decide (proto_valid m) then Some m else None
    | None => None
    end;
|}.

Lemma countable_ProtoLaws (A : Type) `{Countable A} `{V : ProtoValid A} `{!forall m : A, Decision (proto_valid m)} :
  @ProtoLaws A V (countable_ProtoMessage A).
Proof.
  split; simpl.
  - intros m bs Hm. case_match; [|done]. intros [= <-].
    rewrite positive_of_bytes_of_positive, decode_encode. by rewrite decide_True.
  - intros m bs. case_match; [|done]. case_decide; [|done]. by intros [= <-].
  - intros m bs. case_match; [|done]. intros [= <-]. bool_to_prop. done.
Qed.

Example utf8_ex :
  utf8_valid "agent-1" = true /\ utf8_valid (string_of_bytes [Byte.xc3; Byte.xa9]) = true /\
  utf8_valid (string_of_bytes [Byte.xff]) = false /\ utf8_valid (string_of_bytes [Byte.xc0; Byte.x80]) = false.
Proof. by vm_compute. Qed.
