(* ===== verification/ProtoWire.v ===== *)
(** * The wire format of the messages: [src/proto/beaconnode/v1/registry.proto], [gossip.proto]

    The classes that [protoc] generates are the interface [ProtoMessage] of [Protobuf].  This
    file shows that the interface, and the laws every theorem about them assumes, are those of
    the proto3 encoding of the messages the [.proto] files declare: the fields of a message with
    their numbers and types are written out here, over a codec of tags, varints and
    length-delimited values as the encoding guide of protocol buffers describes it (a scalar
    that has its default value is not written; of a scalar that occurs twice the last value
    counts, an embedded message is merged, a repeated one appended; a field with another number
    or wire type is skipped; a string has to be UTF-8; groups, which no message has, are
    refused).  The instances let the examples run on the bytes a node really exchanges. *)

From S2P Require Import Prelude CxxString CxxContainers Protobuf.

(** ** Varints and fields *)

Fixpoint write_varint (fuel : nat) (v : Z) : bytes :=
  match fuel with
  | O => []
  | S n => if v <? 128 then [byte_of_Z v] else byte_of_Z (v mod 128 + 128) :: write_varint n (v / 128)
  end.

(** At most [fuel] bytes; [None] when the text ends or goes on. *)
Fixpoint read_varint (fuel : nat) (bs : bytes) : option (Z * bytes) :=
  match fuel, bs with
  | S n, b :: r =>
      let v := Z_of_byte b in
      if v <? 128 then Some (v, r)
      else match read_varint n r with
           | Some (hi, r') => Some (v - 128 + 128 * hi, r')
           | None => None
           end
  | _, _ => None
  end.

(** A field on the wire, with its number. *)
Inductive field :=
| Varint (num v : Z)
| Fixed64 (num : Z) (bs : bytes)
| Len (num : Z) (bs : bytes)
| Fixed32 (num : Z) (bs : bytes).

Definition tag (num wire_type : Z) : bytes := write_varint 5 (num * 8 + wire_type).
Definition write_field (f : field) : bytes :=
  match f with
  | Varint num v => tag num 0 ++ write_varint 10 v
  | Fixed64 num bs => tag num 1 ++ bs
  | Len num bs => tag num 2 ++ write_varint 10 (size_of bs) ++ bs
  | Fixed32 num bs => tag num 5 ++ bs
  end.
Definition write_fields (fs : list field) : bytes := mjoin (write_field <$> fs).

(** The next [n] bytes. *)
Definition read_bytes (n : Z) (bs : bytes) : option (bytes * bytes) :=
  if n <=? size_of bs then Some (take (Z.to_nat n) bs, drop (Z.to_nat n) bs) else None.

Definition read_field (bs : bytes) : option (field * bytes) :=
  '(t, r) ← read_varint 5 bs;
  let num := t / 8 in
  if (num =? 0) || (2 ^ 32 <=? t) then None
  else match t mod 8 with
       | 0 => '(v, r) ← read_varint 10 r; Some (Varint num (wrap 64 v), r)
       | 1 => '(v, r) ← read_bytes 8 r; Some (Fixed64 num v, r)
       | 2 => '(n, r) ← read_varint 10 r; '(v, r) ← read_bytes n r; Some (Len num v, r)
       | 5 => '(v, r) ← read_bytes 4 r; Some (Fixed32 num v, r)
       | _ => None
       end.

(** Every field takes a byte, so the length of the text is enough fuel. *)
Fixpoint read_fields (fuel : nat) (bs : bytes) : option (list field) :=
  match bs with
  | [] => Some []
  | _ =>
      match fuel with
      | O => None
      | S n => '(f, r) ← read_field bs; fs ← read_fields n r; Some (f :: fs)
      end
  end.

(** ** Messages *)

(** What a [.proto] file says about a message: what an absent one is, the fields a value is
    written as, and what reading a field does to a value ([None]: the parser fails). *)
Class WireMessage (A : Type) := {
  wire_default : A;
  wire_fields : A -> list field;
  read_into : field -> A -> option A;
}.

Definition apply_fields {A} {M : WireMessage A} (fs : list field) (m : A) : option A :=
  foldl (fun acc f => acc ≫= read_into f) (Some m) fs.
Definition parse_into {A} {M : WireMessage A} (m : A) (bs : bytes) : option A :=
  fs ← read_fields (length bs) bs; apply_fields fs m.
Definition write_message {A} {M : WireMessage A} (m : A) : bytes := write_fields (wire_fields m).

(** Scalar fields: written unless they have their default. *)
Definition string_field (num : Z) (s : string) : list field :=
  if str_empty s then [] else [Len num (bytes_of_string s)].
Definition bytes_field (num : Z) (bs : bytes) : list field :=
  match bs with [] => [] | _ => [Len num bs] end.
Definition uint_field (num v : Z) : list field := if v =? 0 then [] else [Varint num v].
Definition bool_field (num : Z) (b : bool) : list field := if b then [Varint num 1] else [].
Definition message_field {A} {M : WireMessage A} (num : Z) (m : A) : field := Len num (write_message m).

Definition read_string (bs : bytes) : option string :=
  let s := string_of_bytes bs in if utf8_valid s then Some s else None.

Section messages.
Import V1.

(** [map<string, string>]: an entry is a message with the key and the value. *)
#[export] Instance MetadataEntry_wire : WireMessage (string * string) := {|
  wire_default := ("", "");
  wire_fields e := [Len 1 (bytes_of_string e.1); Len 2 (bytes_of_string e.2)];
  read_into f e :=
    match f with
    | Len 1 bs => s ← read_string bs; Some (s, e.2)
    | Len 2 bs => s ← read_string bs; Some (e.1, s)
    | _ => Some e
    end;
|}.

#[export] Instance AgentRegistration_wire : WireMessage AgentRegistration := {|
  wire_default := mkAgentRegistration "" "" "" ∅ 0 0 [] [];
  wire_fields r :=
    string_field 1 (reg_agent_id r) ++ string_field 2 (reg_node_id r) ++ string_field 3 (reg_endpoint r) ++
    (message_field 4 <$> map_items (reg_metadata r)) ++ uint_field 5 (reg_revision r) ++
    uint_field 6 (reg_expires_at_unix_ms r) ++ bytes_field 7 (reg_public_key r) ++ bytes_field 8 (reg_signature r);
  read_into f '(mkAgentRegistration id nid ep md rev ex pk sg) :=
    match f with
    | Len 1 bs => s ← read_string bs; Some (mkAgentRegistration s nid ep md rev ex pk sg)
    | Len 2 bs => s ← read_string bs; Some (mkAgentRegistration id s ep md rev ex pk sg)
    | Len 3 bs => s ← read_string bs; Some (mkAgentRegistration id nid s md rev ex pk sg)
    | Len 4 bs => e ← parse_into wire_default bs; Some (mkAgentRegistration id nid ep (<[e.1 := e.2]> md) rev ex pk sg)
    | Varint 5 v => Some (mkAgentRegistration id nid ep md v ex pk sg)
    | Varint 6 v => Some (mkAgentRegistration id nid ep md rev v pk sg)
    | Len 7 bs => Some (mkAgentRegistration id nid ep md rev ex bs sg)
    | Len 8 bs => Some (mkAgentRegistration id nid ep md rev ex pk bs)
    | _ => Some (mkAgentRegistration id nid ep md rev ex pk sg)
    end;
|}.

#[export] Instance Heartbeat_wire : WireMessage Heartbeat := {|
  wire_default := mkHeartbeat "" "" 0 0 [];
  wire_fields h :=
    string_field 1 (hb_agent_id h) ++ string_field 2 (hb_node_id h) ++ uint_field 3 (hb_revision h) ++
    uint_field 4 (hb_observed_at_unix_ms h) ++ bytes_field 5 (hb_signature h);
  read_into f '(mkHeartbeat id nid rev at_ sg) :=
    match f with
    | Len 1 bs => s ← read_string bs; Some (mkHeartbeat s nid rev at_ sg)
    | Len 2 bs => s ← read_string bs; Some (mkHeartbeat id s rev at_ sg)
    | Varint 3 v => Some (mkHeartbeat id nid v at_ sg)
    | Varint 4 v => Some (mkHeartbeat id nid rev v sg)
    | Len 5 bs => Some (mkHeartbeat id nid rev at_ bs)
    | _ => Some (mkHeartbeat id nid rev at_ sg)
    end;
|}.

#[export] Instance ListAgentsRequest_wire : WireMessage ListAgentsRequest := {|
  wire_default := mkListAgentsRequest "" "";
  wire_fields l := string_field 1 (metadata_key l) ++ string_field 2 (metadata_value l);
  read_into f '(mkListAgentsRequest k v) :=
    match f with
    | Len 1 bs => s ← read_string bs; Some (mkListAgentsRequest s v)
    | Len 2 bs => s ← read_string bs; Some (mkListAgentsRequest k s)
    | _ => Some (mkListAgentsRequest k v)
    end;
|}.

(** [limit] is a [uint32]: a longer varint is cut. *)
#[export] Instance SyncPullRequest_wire : WireMessage SyncPullRequest := {|
  wire_default := mkSyncPullRequest 0 0;
  wire_fields p := uint_field 1 (pull_after_revision p) ++ uint_field 2 (pull_limit p);
  read_into f '(mkSyncPullRequest a l) :=
    match f with
    | Varint 1 v => Some (mkSyncPullRequest v l)
    | Varint 2 v => Some (mkSyncPullRequest a (wrap 32 v))
    | _ => Some (mkSyncPullRequest a l)
    end;
|}.

(** [StatsRequest], without fields. *)
#[export] Instance StatsRequest_wire : WireMessage unit := {|
  wire_default := ();
  wire_fields _ := [];
  read_into _ _ := Some ();
|}.

(** A member of a [oneof] is written even if it is empty; reading one drops another one, and
    merges into the same. *)
#[export] Instance ControlRequest_wire : WireMessage ControlRequest := {|
  wire_default := body_not_set;
  wire_fields r :=
    match r with
    | register_agent a => [message_field 1 a]
    | heartbeat h => [message_field 2 h]
    | list_agents_request l => [message_field 3 l]
    | sync_pull p => [message_field 4 p]
    | sync_merge a => [message_field 5 a]
    | stats_request => [message_field 6 ()]
    | body_not_set => []
    end;
  read_into f r :=
    match f with
    | Len 1 bs => register_agent <$> parse_into (match r with register_agent a => a | _ => wire_default end) bs
    | Len 2 bs => heartbeat <$> parse_into (match r with heartbeat h => h | _ => wire_default end) bs
    | Len 3 bs => list_agents_request <$> parse_into (match r with list_agents_request l => l | _ => wire_default end) bs
    | Len 4 bs => sync_pull <$> parse_into (match r with sync_pull p => p | _ => wire_default end) bs
    | Len 5 bs => sync_merge <$> parse_into (match r with sync_merge a => a | _ => wire_default end) bs
    | Len 6 bs => (fun _ => stats_request) <$> parse_into () bs
    | _ => Some r
    end;
|}.

#[export] Instance RegistrySnapshot_wire : WireMessage (list AgentRegistration) := {|
  wire_default := [];
  wire_fields agents := message_field 1 <$> agents;
  read_into f agents :=
    match f with
    | Len 1 bs => a ← parse_into wire_default bs; Some (agents ++ [a])
    | _ => Some agents
    end;
|}.

#[export] Instance ControlResponse_wire : WireMessage ControlResponse := {|
  wire_default := mkControlResponse false "" None;
  wire_fields r :=
    bool_field 1 (resp_ok r) ++ string_field 2 (resp_message r) ++
    option_list (message_field 3 <$> resp_snapshot r);
  read_into f '(mkControlResponse ok msg snap) :=
    match f with
    | Varint 1 v => Some (mkControlResponse (negb (v =? 0)) msg snap)
    | Len 2 bs => s ← read_string bs; Some (mkControlResponse ok s snap)
    | Len 3 bs => agents ← parse_into (default [] snap) bs; Some (mkControlResponse ok msg (Some agents))
    | _ => Some (mkControlResponse ok msg snap)
    end;
|}.

#[export] Instance RegistryEntry_wire : WireMessage RegistryEntry := {|
  wire_default := mkRegistryEntry "" "" "" 0 [] [];
  wire_fields e :=
    string_field 1 (ent_agent_id e) ++ string_field 2 (ent_capability e) ++ string_field 3 (ent_endpoint e) ++
    uint_field 4 (ent_timestamp e) ++ bytes_field 5 (ent_public_key e) ++ bytes_field 6 (ent_signature e);
  read_into f '(mkRegistryEntry id cap ep ts pk sg) :=
    match f with
    | Len 1 bs => s ← read_string bs; Some (mkRegistryEntry s cap ep ts pk sg)
    | Len 2 bs => s ← read_string bs; Some (mkRegistryEntry id s ep ts pk sg)
    | Len 3 bs => s ← read_string bs; Some (mkRegistryEntry id cap s ts pk sg)
    | Varint 4 v => Some (mkRegistryEntry id cap ep v pk sg)
    | Len 5 bs => Some (mkRegistryEntry id cap ep ts bs sg)
    | Len 6 bs => Some (mkRegistryEntry id cap ep ts pk bs)
    | _ => Some (mkRegistryEntry id cap ep ts pk sg)
    end;
|}.
End messages.

(** The codec of a message; [SerializeToString] refuses what does not fit 2 GiB. *)
Definition wire_codec (A : Type) {M : WireMessage A} : ProtoMessage A := {|
  SerializeToString m := let bs := write_message m in if size_of bs <? 2 ^ 31 then Some bs else None;
  ParseFromString bs := parse_into wire_default bs;
|}.

(** ** Lemmas: the codec of fields *)

Lemma read_write_varint fuel v rest : fuel <> O -> 0 <= v < 128 ^ Z.of_nat fuel ->
  read_varint fuel (write_varint fuel v ++ rest) = Some (v, rest).
Proof.
  revert v. induction fuel as [|n IH]; intros v Hf Hv; [done|].
  cbn [write_varint]. destruct (v <? 128) eqn:Hlt; bool_to_prop.
  - cbn [read_varint app]. rewrite Z_of_byte_of_Z, wrap_small by lia.
    by rewrite (proj2 (Z.ltb_lt _ _) Hlt).
  - rewrite Nat2Z.inj_succ, Z.pow_succ_r in Hv by lia.
    pose proof (Z.mod_pos_bound v 128 ltac:(lia)) as Hm.
    cbn [read_varint app]. rewrite Z_of_byte_of_Z, wrap_small by lia.
    rewrite (proj2 (Z.ltb_ge _ _)) by lia. rewrite IH.
    + pose proof (Z.div_mod v 128 ltac:(lia)). do 2 f_equal. lia.
    + intros ->. simpl in Hv. lia.
    + split; [apply Z.div_pos; lia|apply Z.div_lt_upper_bound; lia].
Qed.

Lemma write_varint_nonempty fuel v : fuel <> O -> write_varint fuel v <> [].
Proof. destruct fuel; [done|]. simpl. by destruct (v <? 128). Qed.

(** What the parser can read back. *)
Definition field_ok (f : field) : Prop :=
  match f with
  | Varint num v => 0 < num < 2 ^ 29 /\ u64 v
  | Fixed64 num bs => 0 < num < 2 ^ 29 /\ size_of bs = 8
  | Len num bs => 0 < num < 2 ^ 29
  | Fixed32 num bs => 0 < num < 2 ^ 29 /\ size_of bs = 4
  end.

Lemma read_bytes_app n a rest : size_of a = n -> read_bytes n (a ++ rest) = Some (a, rest).
Proof.
  unfold read_bytes, size_of. intros <-. rewrite length_app, (proj2 (Z.leb_le _ _)) by lia.
  by rewrite Nat2Z.id, take_app_length, drop_app_length.
Qed.

Lemma read_tag num wt rest : 0 < num < 2 ^ 29 -> 0 <= wt < 8 ->
  read_varint 5 (tag num wt ++ rest) = Some (num * 8 + wt, rest).
Proof. intros Hn Hw. unfold tag. apply read_write_varint; [done|]. change (128 ^ Z.of_nat 5) with (2 ^ 35). lia. Qed.

Lemma tag_parts num wt : 0 < num < 2 ^ 29 -> 0 <= wt < 8 ->
  (num * 8 + wt) / 8 = num /\ (num * 8 + wt) mod 8 = wt /\
  ((num =? 0) || (2 ^ 32 <=? num * 8 + wt)) = false.
Proof.
  intros Hn Hw. split_and!; [Z.to_euclidean_division_equations; lia..|].
  rewrite orb_false_iff, Z.eqb_neq, Z.leb_gt. change (2 ^ 32) with (2 ^ 29 * 8). lia.
Qed.

Lemma read_write_field f rest : field_ok f -> size_of (write_field f) < 2 ^ 31 ->
  read_field (write_field f ++ rest) = Some (f, rest).
Proof.
  intros Hf Hsize.
  assert (Htag : forall num wt body, 0 < num < 2 ^ 29 -> 0 <= wt < 8 ->
    read_field (tag num wt ++ body) =
    match wt with
    | 0 => '(v, r) ← read_varint 10 body; Some (Varint num (wrap 64 v), r)
    | 1 => '(v, r) ← read_bytes 8 body; Some (Fixed64 num v, r)
    | 2 => '(n, r) ← read_varint 10 body; '(v, r) ← read_bytes n r; Some (Len num v, r)
    | 5 => '(v, r) ← read_bytes 4 body; Some (Fixed32 num v, r)
    | _ => None
    end).
  { intros num wt body Hn Hw. unfold read_field. rewrite read_tag by done. cbn [mbind option_bind].
    destruct (tag_parts num wt Hn Hw) as (-> & -> & ->). done. }
  destruct f as [num v|num bs|num bs|num bs]; cbn [write_field field_ok] in *; rewrite <- ?app_assoc.
  - destruct Hf as [Hn Hv]. rewrite Htag by lia. rewrite read_write_varint by (done || change (128 ^ Z.of_nat 10) with (2 ^ 70); lia). cbn. by rewrite wrap_small by lia.
  - destruct Hf as [Hn Hs]. rewrite Htag by lia. by rewrite read_bytes_app.
  - rewrite Htag by lia. rewrite read_write_varint; [|done|].
    + cbn. by rewrite read_bytes_app.
    + split; [apply size_of_nonneg|]. unfold size_of in *. rewrite !length_app in Hsize. change (128 ^ Z.of_nat 10) with (2 ^ 70). lia.
  - destruct Hf as [Hn Hs]. rewrite Htag by lia. by rewrite read_bytes_app.
Qed.

Lemma write_field_nonempty f : write_field f <> [].
Proof.
  assert (Htag : forall num wt body, tag num wt ++ body <> []).
  { intros num wt body [Ht _]%app_nil. by apply (write_varint_nonempty 5 (num * 8 + wt)) in Ht. }
  by destruct f; apply Htag.
Qed.

Lemma read_write_fields fs fuel : Forall field_ok fs -> size_of (write_fields fs) < 2 ^ 31 ->
  (length (write_fields fs) <= fuel)%nat -> read_fields fuel (write_fields fs) = Some fs.
Proof.
  intros Hfs. revert fuel. induction Hfs as [|f fs Hf _ IH]; intros fuel Hsize Hfuel; [by destruct fuel|].
  change (write_fields (f :: fs)) with (write_field f ++ write_fields fs) in *.
  pose proof (write_field_nonempty f) as Hne.
  unfold size_of in Hsize. rewrite length_app in Hsize, Hfuel.
  destruct (write_field f ++ write_fields fs) as [|b r] eqn:Hbs; [by apply app_nil in Hbs as [? _]|].
  destruct (write_field f) as [|b' w] eqn:Hw; [done|]. cbn [length] in *.
  destruct fuel as [|fuel]; [lia|]. cbn [read_fields]. rewrite <- Hbs, <- Hw.
  rewrite read_write_field; [|done|rewrite Hw; unfold size_of; simpl; lia].
  cbn. rewrite IH; [done|unfold size_of; lia|lia].
Qed.

(** ** Lemmas: messages *)

Lemma apply_fields_app {A} {M : WireMessage A} fs1 fs2 (m : A) :
  apply_fields (fs1 ++ fs2) m = apply_fields fs1 m ≫= apply_fields fs2.
Proof.
  unfold apply_fields. rewrite foldl_app. destruct (foldl _ (Some m) fs1) as [m'|]; [done|].
  cbn. induction fs2 as [|f fs2 IH]; [done|apply IH].
Qed.

Lemma apply_fields_inv {A} {M : WireMessage A} (P : A -> Prop) fs m m' :
  (forall f x y, f ∈ fs -> P x -> read_into f x = Some y -> P y) -> P m -> apply_fields fs m = Some m' -> P m'.
Proof.
  unfold apply_fields. revert m. induction fs as [|f fs IH]; intros m Hstep Hm; simpl; [by intros [= <-]|].
  destruct (read_into f m) as [m1|] eqn:Hr.
  - apply IH; [set_solver|]. eapply Hstep; [|done|done]. set_solver.
  - clear. intros H. exfalso. induction fs as [|g fs IH]; [done|by apply IH].
Qed.

(** A value that is written and read back. *)
Definition reads_back {A} {M : WireMessage A} (m : A) : Prop :=
  Forall field_ok (wire_fields m) /\ (size_of (write_message m) < 2 ^ 31 -> apply_fields (wire_fields m) wire_default = Some m).

Lemma parse_written {A} {M : WireMessage A} (m d : A) : d = wire_default -> reads_back m ->
  size_of (write_message m) < 2 ^ 31 -> parse_into d (write_message m) = Some m.
Proof.
  intros -> [Hok Hap] Hsize. unfold parse_into, write_message. rewrite read_write_fields by done. by apply Hap.
Qed.

Lemma size_of_payload num bs fs : Len num bs ∈ fs -> size_of bs <= size_of (write_fields fs).
Proof.
  induction fs as [|f fs IH]; [by intros ?%elem_of_nil|].
  change (write_fields (f :: fs)) with (write_field f ++ write_fields fs).
  unfold size_of in *. rewrite length_app. intros [<-|Hin]%elem_of_cons.
  - cbn [write_field]. rewrite !length_app. lia.
  - specialize (IH Hin). lia.
Qed.

Lemma read_string_utf8 s : utf8_valid s = true -> read_string (bytes_of_string s) = Some s.
Proof. intros Hs. unfold read_string. by rewrite string_of_bytes_of_string, Hs. Qed.

(** One field after the other: a part of a message that is absent because it has its default
    reads as if it was there. *)
Section parts.
Context {A : Type} {M : WireMessage A}.
Implicit Types (m : A) (num : Z) (rest : list field).

Lemma apply_string num s rest m m' : (s = "" -> m' = m) -> read_into (Len num (bytes_of_string s)) m = Some m' ->
  apply_fields (string_field num s ++ rest) m = apply_fields rest m'.
Proof.
  intros He Hr. unfold string_field. destruct (str_empty s) eqn:Hs.
  - apply str_empty_true in Hs. by rewrite He.
  - unfold apply_fields. cbn. by rewrite Hr.
Qed.

Lemma apply_bytes num bs rest m m' : (bs = [] -> m' = m) -> read_into (Len num bs) m = Some m' ->
  apply_fields (bytes_field num bs ++ rest) m = apply_fields rest m'.
Proof. intros He Hr. unfold bytes_field, apply_fields. destruct bs; [by rewrite He|]. cbn. by rewrite Hr. Qed.

Lemma apply_uint num v rest m m' : (v = 0 -> m' = m) -> read_into (Varint num v) m = Some m' ->
  apply_fields (uint_field num v ++ rest) m = apply_fields rest m'.
Proof.
  intros He Hr. unfold uint_field, apply_fields. destruct (v =? 0) eqn:Hv; [bool_to_prop; by rewrite He|]. cbn. by rewrite Hr.
Qed.

Lemma apply_bool num b rest m m' : read_into (Varint num 1) m = Some m' ->
  apply_fields (bool_field num b ++ rest) m = if b then apply_fields rest m' else apply_fields rest m.
Proof. intros Hr. destruct b; unfold apply_fields; cbn; [by rewrite Hr|done]. Qed.

Lemma apply_embedded {B} {MB : WireMessage B} num (b : B) rest m m' :
  read_into (message_field num b) m = Some m' -> apply_fields (message_field num b :: rest) m = apply_fields rest m'.
Proof. intros Hr. unfold apply_fields. cbn [foldl mbind option_bind]. by rewrite Hr. Qed.

Lemma string_field_ok num s : 0 < num < 2 ^ 29 -> Forall field_ok (string_field num s).
Proof. intros. unfold string_field. destruct (str_empty s); [by constructor|by apply Forall_singleton]. Qed.
Lemma bytes_field_ok num bs : 0 < num < 2 ^ 29 -> Forall field_ok (bytes_field num bs).
Proof. intros. destruct bs; [by constructor|by apply Forall_singleton]. Qed.
Lemma uint_field_ok num v : 0 < num < 2 ^ 29 -> u64 v -> Forall field_ok (uint_field num v).
Proof. intros. unfold uint_field. destruct (v =? 0); [by constructor|by apply Forall_singleton]. Qed.
Lemma bool_field_ok num b : 0 < num < 2 ^ 29 -> Forall field_ok (bool_field num b).
Proof. intros. destruct b; [by apply Forall_singleton; split; [|lia]|by constructor]. Qed.
End parts.
#[export] Hint Resolve string_field_ok bytes_field_ok uint_field_ok bool_field_ok : beacon.

#[global] Arguments string_field : simpl never.
#[global] Arguments bytes_field : simpl never.
#[global] Arguments uint_field : simpl never.
#[global] Arguments bool_field : simpl never.
#[global] Arguments message_field : simpl never.
#[global] Arguments apply_fields : simpl never.
#[global] Arguments parse_into : simpl never.
#[global] Arguments write_message : simpl never.

(** Every part of a message is well-formed. *)
Ltac fields_ok :=
  simpl; rewrite ?Forall_app; split_and?;
  try (first [apply string_field_ok | apply bytes_field_ok | apply uint_field_ok | apply bool_field_ok]; lia).

(** Read the next scalar part. *)
Ltac read_part :=
  first
  [ erewrite apply_string; [| |simpl; rewrite read_string_utf8 by done; reflexivity]; [|by intros ->]
  | erewrite apply_bytes; [| |reflexivity]; [|by intros ->]
  | erewrite apply_uint; [| |reflexivity]; [|by intros ->] ].

Import V1.

Lemma reads_back_entry (e : RegistryEntry) : proto_valid e -> reads_back e.
Proof.
  destruct e as [id cap ep ts pk sg]. intros (H1 & H2 & H3 & H4); simpl in *. split; [fields_ok|]. intros _. simpl.
  rewrite <- (app_nil_r (bytes_field 6 sg)). do 6 read_part. done.
Qed.

Lemma reads_back_heartbeat (h : Heartbeat) : proto_valid (heartbeat h) -> reads_back h.
Proof.
  destruct h as [id nid rev at_ sg]. intros (H1 & H2 & H3 & H4); simpl in *. split; [fields_ok|]. intros _. simpl.
  rewrite <- (app_nil_r (bytes_field 5 sg)). do 5 read_part. done.
Qed.

Lemma reads_back_list_agents (l : ListAgentsRequest) : proto_valid (list_agents_request l) -> reads_back l.
Proof.
  destruct l as [k v]. intros (H1 & H2); simpl in *. split; [fields_ok|]. intros _. simpl.
  rewrite <- (app_nil_r (string_field 2 v)). do 2 read_part. done.
Qed.

Lemma reads_back_sync_pull (p : SyncPullRequest) : proto_valid (sync_pull p) -> reads_back p.
Proof.
  destruct p as [a l]. intros (H1 & H2); simpl in *. split; [fields_ok|]. intros _. simpl.
  rewrite <- (app_nil_r (uint_field 2 l)). do 2 read_part. by simpl; rewrite wrap_small by lia.
Qed.

Lemma reads_back_stats : reads_back ().
Proof. split; [by constructor|done]. Qed.

Lemma reads_back_metadata (e : string * string) : utf8_valid e.1 = true -> utf8_valid e.2 = true -> reads_back e.
Proof.
  destruct e as [k v]; simpl. intros H1 H2. split.
  - repeat apply Forall_cons_2; [simpl; lia..|by constructor].
  - intros _. unfold apply_fields. simpl. rewrite read_string_utf8 by done. simpl. by rewrite read_string_utf8.
Qed.

(** The entries of a map, one after the other. *)
Lemma apply_metadata id nid ep md rev ex pk sg (es : list (string * string)) rest :
  Forall (fun e => utf8_valid e.1 = true /\ utf8_valid e.2 = true) es ->
  Forall (fun e => size_of (write_message e) < 2 ^ 31) es ->
  apply_fields ((message_field 4 <$> es) ++ rest) (mkAgentRegistration id nid ep md rev ex pk sg) =
  apply_fields rest (mkAgentRegistration id nid ep (map_store md es) rev ex pk sg).
Proof.
  revert md. induction es as [|e es IH]; intros md; [done|].
  intros [[H1 H2] Hes]%Forall_cons [Hs Hss]%Forall_cons. csimpl.
  erewrite (apply_embedded 4 e); [|unfold message_field; simpl; rewrite parse_written by (try apply reads_back_metadata; done); reflexivity].
  by rewrite IH.
Qed.

Lemma embedded_size {A B} {MA : WireMessage A} {MB : WireMessage B} num (b : B) (m : A) :
  message_field num b ∈ wire_fields m -> size_of (write_message m) < 2 ^ 31 -> size_of (write_message b) < 2 ^ 31.
Proof. intros Hin Hm. eapply Z.le_lt_trans; [|exact Hm]. by eapply size_of_payload. Qed.

Lemma message_fields_ok {B} {MB : WireMessage B} num (l : list B) : 0 < num < 2 ^ 29 ->
  Forall field_ok (message_field num <$> l).
Proof. intros Hn. apply Forall_fmap, Forall_forall. by intros. Qed.

Lemma reads_back_registration (r : AgentRegistration) : registration_valid r -> reads_back r.
Proof.
  destruct r as [id nid ep md rev ex pk sg]. intros (H1 & H2 & H3 & Hmd & H5 & H6); simpl in *.
  split; [fields_ok; by apply message_fields_ok|]. intros Hsize. simpl.
  rewrite <- (app_nil_r (bytes_field 8 sg)). do 3 read_part. rewrite apply_metadata.
  - rewrite map_store_items. do 4 read_part. done.
  - apply Forall_forall. intros [k v] Hin%elem_of_map_items. by apply Hmd in Hin.
  - apply Forall_forall. intros e He. apply (embedded_size 4 e (mkAgentRegistration id nid ep md rev ex pk sg)); [|done]. simpl. set_solver.
Qed.

Lemma apply_agents (agents agents0 : list AgentRegistration) :
  Forall registration_valid agents -> Forall (fun a => size_of (write_message a) < 2 ^ 31) agents ->
  apply_fields (message_field 1 <$> agents) agents0 = Some (agents0 ++ agents).
Proof.
  revert agents0. induction agents as [|a agents IH]; intros agents0; [by rewrite app_nil_r|].
  intros [Ha Has]%Forall_cons [Hs Hss]%Forall_cons. csimpl.
  erewrite (apply_embedded 1 a); [|unfold message_field; simpl; rewrite parse_written by (try apply reads_back_registration; done); reflexivity].
  by rewrite IH, <- app_assoc.
Qed.

Lemma reads_back_snapshot (agents : list AgentRegistration) : Forall registration_valid agents -> reads_back agents.
Proof.
  intros Ha. split; [by apply message_fields_ok|]. intros Hsize. apply (apply_agents agents []); [done|].
  apply Forall_forall. intros a Hin. apply (embedded_size 1 a agents); [|done]. simpl. by apply list_elem_of_fmap_2.
Qed.

Lemma reads_back_response (r : ControlResponse) : proto_valid r -> reads_back r.
Proof.
  destruct r as [ok msg snap]. intros [H1 H2]; simpl in *. split.
  - fields_ok. destruct snap; [by apply Forall_singleton|by constructor].
  - intros Hsize. simpl. erewrite apply_bool by reflexivity. destruct ok; simpl.
    all: read_part; destruct snap as [agents|]; [|done]; simpl.
    all: erewrite apply_embedded; [done|unfold message_field; simpl].
    all: rewrite parse_written; [done|done|by apply reads_back_snapshot|].
    all: refine (embedded_size (MA := ControlResponse_wire) 3 agents _ _ Hsize); simpl; set_solver.
Qed.

Lemma reads_back_request (r : ControlRequest) : proto_valid r -> reads_back r.
Proof.
  assert (Hone : forall B (MB : WireMessage B) (num : Z) (b : B) (q : ControlRequest), 0 < num < 2 ^ 29 ->
    wire_fields q = [message_field num b] -> reads_back b ->
    (parse_into wire_default (write_message b) = Some b -> read_into (message_field num b) body_not_set = Some q) -> reads_back q).
  { intros B MB num b q Hn Hq Hb Hr. unfold reads_back. rewrite Hq. split; [by apply Forall_singleton|]. intros Hsize.
    assert (Hs : size_of (write_message b) < 2 ^ 31) by (apply (embedded_size num b q); [rewrite Hq; set_solver|done]).
    erewrite apply_embedded; [done|]. apply Hr. by apply parse_written. }
  destruct r as [a|h|l|p|a| |]; intros Hv.
  - eapply (Hone _ _ 1 a); [lia|done|by apply reads_back_registration|unfold message_field; simpl]. by intros ->.
  - eapply (Hone _ _ 2 h); [lia|done|by apply reads_back_heartbeat|unfold message_field; simpl]. by intros ->.
  - eapply (Hone _ _ 3 l); [lia|done|by apply reads_back_list_agents|unfold message_field; simpl]. by intros ->.
  - eapply (Hone _ _ 4 p); [lia|done|by apply reads_back_sync_pull|unfold message_field; simpl]. by intros ->.
  - eapply (Hone _ _ 5 a); [lia|done|by apply reads_back_registration|unfold message_field; simpl]. by intros ->.
  - eapply (Hone _ _ 6 ()); [lia|done|by apply reads_back_stats|done].
  - split; [by constructor|done].
Qed.

(** ** Lemmas: what the parser accepts is valid *)

Lemma read_varint_nonneg fuel bs v r : read_varint fuel bs = Some (v, r) -> 0 <= v.
Proof.
  revert bs v r. induction fuel as [|n IH]; intros [|b bs] v r; simpl; try done.
  pose proof (Z_of_byte_range b). destruct (Z_of_byte b <? 128) eqn:Hb; [intros [= <- <-]; lia|]. bool_to_prop.
  destruct (read_varint n bs) as [[hi r']|] eqn:Hr; [|done]. apply IH in Hr. intros [= <- <-]. lia.
Qed.

Definition varint_ok (f : field) : Prop := match f with Varint _ v => u64 v | _ => True end.

Lemma read_fields_ok fuel bs fs : read_fields fuel bs = Some fs -> Forall varint_ok fs.
Proof.
  assert (Hone : forall bs f r, read_field bs = Some (f, r) -> varint_ok f).
  { clear. intros bs f r. unfold read_field. destruct (read_varint 5 bs) as [[t r0]|]; simpl; [|done].
    case_match; [done|]. intros Hf.
    assert (Hcase : (exists num v, f = Varint num (wrap 64 v)) \/ varint_ok f).
    { destruct (t mod 8) as [|[[[]|[]|]|[[]|[]|]|]|]; try discriminate Hf;
        repeat (apply bind_Some in Hf as ([? ?] & _ & Hf)); injection Hf as <- _; [left; by eauto|by right..]. }
    destruct Hcase as [(num & v & ->)|]; [|done]. by apply wrap_range. }
  revert bs fs. induction fuel as [|n IH]; intros [|b bs] fs; simpl; try done; try (intros [= <-]; by constructor).
  destruct (read_field (b :: bs)) as [[f r]|] eqn:Hf; simpl; [|done].
  destruct (read_fields n r) as [fs'|] eqn:Hr; simpl; [|done]. intros [= <-].
  constructor; [by eapply Hone|by eapply IH].
Qed.

(** A property every field keeps, in a message parsed from one that has it. *)
Lemma parse_into_inv {A} {M : WireMessage A} (P : A -> Prop) m bs m' :
  (forall f x y, varint_ok f -> P x -> read_into f x = Some y -> P y) -> P m -> parse_into m bs = Some m' -> P m'.
Proof.
  intros Hstep Hm. unfold parse_into. destruct (read_fields _ bs) as [fs|] eqn:Hf; simpl; [|done].
  apply read_fields_ok in Hf. apply apply_fields_inv; [|done]. intros f x y Hin. apply Hstep.
  by eapply Forall_forall in Hf.
Qed.

Lemma read_string_valid bs s : read_string bs = Some s -> utf8_valid s = true.
Proof. unfold read_string. case_match; [|done]. by intros [= <-]. Qed.

(** The cases of [read_into]: which field it is, and what was read from it. *)
Ltac read_cases H :=
  simpl in H;
  repeat match type of H with
  | context [match ?p with xI _ => _ | xO _ => _ | xH => _ end] => is_var p; destruct p
  | context [match ?n with Z0 => _ | Zpos _ => _ | Zneg _ => _ end] => is_var n; destruct n
  end;
  repeat match type of H with
  | _ ≫= _ = Some _ => let x := fresh "x" in let Hx := fresh "Hx" in apply bind_Some in H as (x & Hx & H)
  | _ <$> _ = Some _ => let x := fresh "x" in let Hx := fresh "Hx" in apply fmap_Some in H as (x & Hx & H)
  end;
  try match goal with Hs : read_string _ = Some _ |- _ => apply read_string_valid in Hs end;
  simplify_eq.

Lemma parse_entry_valid (e e' : RegistryEntry) bs : proto_valid e -> parse_into e bs = Some e' -> proto_valid e'.
Proof.
  apply (parse_into_inv proto_valid). clear. intros f [id cap ep ts pk sg] y Hf (H1 & H2 & H3 & H4) Hr; simpl in *.
  destruct f as [num v|num b|num b|num b]; read_cases Hr; hnf in Hf; hnf; simpl; tauto.
Qed.

Lemma parse_heartbeat_valid (h h' : Heartbeat) bs : proto_valid (heartbeat h) -> parse_into h bs = Some h' ->
  proto_valid (heartbeat h').
Proof.
  apply (parse_into_inv (fun h => proto_valid (heartbeat h))). clear. intros f [id nid rev at_ sg] y Hf (H1 & H2 & H3 & H4) Hr; simpl in *.
  destruct f as [num v|num b|num b|num b]; read_cases Hr; hnf in Hf; hnf; simpl; tauto.
Qed.

Lemma parse_list_agents_valid (l l' : ListAgentsRequest) bs : proto_valid (list_agents_request l) ->
  parse_into l bs = Some l' -> proto_valid (list_agents_request l').
Proof.
  apply (parse_into_inv (fun l => proto_valid (list_agents_request l))). clear. intros f [k v] y Hf (H1 & H2) Hr; simpl in *.
  destruct f as [num w|num b|num b|num b]; read_cases Hr; hnf in Hf; hnf; simpl; tauto.
Qed.

Lemma parse_sync_pull_valid (p p' : SyncPullRequest) bs : proto_valid (sync_pull p) ->
  parse_into p bs = Some p' -> proto_valid (sync_pull p').
Proof.
  apply (parse_into_inv (fun p => proto_valid (sync_pull p))). clear. intros f [a l] y Hf (H1 & H2) Hr; simpl in *.
  destruct f as [num w|num b|num b|num b]; read_cases Hr; hnf in Hf; hnf; simpl; try tauto; (split; [done|by apply wrap_range]).
Qed.

Lemma parse_metadata_valid (e e' : string * string) bs : utf8_valid e.1 = true /\ utf8_valid e.2 = true ->
  parse_into e bs = Some e' -> utf8_valid e'.1 = true /\ utf8_valid e'.2 = true.
Proof.
  apply (parse_into_inv (fun e : string * string => utf8_valid e.1 = true /\ utf8_valid e.2 = true)). clear.
  intros f [k v] y Hf (H1 & H2) Hr; simpl in *. destruct f as [num w|num b|num b|num b]; read_cases Hr; hnf in Hf; hnf; simpl; tauto.
Qed.

Lemma parse_registration_valid (r r' : AgentRegistration) bs : registration_valid r -> parse_into r bs = Some r' ->
  registration_valid r'.
Proof.
  apply (parse_into_inv registration_valid). clear.
  intros f [id nid ep md rev ex pk sg] y Hf (H1 & H2 & H3 & H4 & H5 & H6) Hr; simpl in *.
  destruct f as [num v|num b|num b|num b]; read_cases Hr; hnf in Hf; hnf; simpl; try tauto. split_and!; try tauto; simpl.
  match goal with He : parse_into _ _ = Some _ |- _ => apply parse_metadata_valid in He; [|done] end.
  by apply map_Forall_insert_2.
Qed.

Lemma registration_default_valid : registration_valid wire_default.
Proof. by split_and!. Qed.
#[local] Hint Resolve registration_default_valid : core.

Lemma parse_snapshot_valid (agents agents' : list AgentRegistration) bs : Forall registration_valid agents ->
  parse_into agents bs = Some agents' -> Forall registration_valid agents'.
Proof.
  apply (parse_into_inv (Forall registration_valid)). clear. intros f agents y Hf Ha Hr.
  destruct f as [num v|num b|num b|num b]; read_cases Hr; try done.
  apply Forall_app. split; [done|]. apply Forall_singleton. by eapply parse_registration_valid.
Qed.

Lemma parse_response_valid (r r' : ControlResponse) bs : proto_valid r -> parse_into r bs = Some r' -> proto_valid r'.
Proof.
  apply (parse_into_inv proto_valid). clear. intros f [ok msg snap] y Hf (H1 & H2) Hr; simpl in *.
  destruct f as [num v|num b|num b|num b]; read_cases Hr; hnf in Hf; hnf; simpl; try tauto; (split; [done|by eapply parse_snapshot_valid]).
Qed.

Lemma parse_request_valid (r r' : ControlRequest) bs : proto_valid r -> parse_into r bs = Some r' -> proto_valid r'.
Proof.
  apply (parse_into_inv proto_valid). clear. intros f r y Hf Hv Hr.
  destruct f as [num v|num b|num b|num b]; read_cases Hr; try done;
    (refine (parse_registration_valid _ _ _ _ Hx) || refine (parse_heartbeat_valid _ _ _ _ Hx) ||
     refine (parse_list_agents_valid _ _ _ _ Hx) || refine (parse_sync_pull_valid _ _ _ _ Hx));
    destruct r; first [exact Hv|exact registration_default_valid|by split_and!].
Qed.

(** The laws, from the two halves. *)
Lemma wire_laws A {V : ProtoValid A} {M : WireMessage A} :
  (forall m : A, proto_valid m -> reads_back m) -> proto_valid (wire_default : A) ->
  (forall (m m' : A) bs, proto_valid m -> parse_into m bs = Some m' -> proto_valid m') -> @ProtoLaws A V (wire_codec A).
Proof.
  intros Hrb Hd Hp. split; simpl.
  - intros m bs Hm. case_match; [|done]. intros [= <-]. bool_to_prop. by apply parse_written; [|apply Hrb|].
  - intros m bs. by apply Hp.
  - intros m bs. case_match; [|done]. intros [= <-]. by bool_to_prop.
Qed.

(** ** Lemmas: growth of the format, and sizes *)

Definition field_number (f : field) : Z :=
  match f with Varint num _ | Fixed64 num _ | Len num _ | Fixed32 num _ => num end.

Lemma entry_skips f (e : RegistryEntry) : 6 < field_number f -> read_into f e = Some e.
Proof.
  intros Hn. destruct (read_into f e) as [y|] eqn:Hr; destruct e as [id cap ep ts pk sg], f as [num v|num b|num b|num b]; simpl in *;
    repeat match type of Hr with
    | context [match ?p with xI _ => _ | xO _ => _ | xH => _ end] => is_var p; destruct p
    | context [match ?n with Z0 => _ | Zpos _ => _ | Zneg _ => _ end] => is_var n; destruct n
    end; first [lia|congruence].
Qed.

Lemma write_varint_length fuel v : (length (write_varint fuel v) <= fuel)%nat.
Proof. revert v. induction fuel as [|n IH]; intros v; simpl; [lia|]. case_match; simpl; [lia|]. specialize (IH (v / 128)). lia. Qed.

(** The text of a field, beyond its payload. *)
Definition payload_size (f : field) : Z :=
  match f with Varint _ _ => 0 | Fixed64 _ bs | Len _ bs | Fixed32 _ bs => size_of bs end.

Lemma write_fields_size fs : size_of (write_fields fs) <= 15 * size_of fs + foldr (fun f n => payload_size f + n) 0 fs.
Proof.
  induction fs as [|f fs IH]; [done|]. change (write_fields (f :: fs)) with (write_field f ++ write_fields fs).
  unfold size_of in *. rewrite length_app. simpl. enough (Z.of_nat (length (write_field f)) <= 15 + payload_size f) by lia.
  assert (Ht : forall num wt, (length (tag num wt) <= 5)%nat) by (intros; apply write_varint_length).
  destruct f as [num v|num bs|num bs|num bs]; cbn [write_field payload_size]; unfold size_of; rewrite !length_app.
  - specialize (Ht num 0). pose proof (write_varint_length 10 v). lia.
  - specialize (Ht num 1). lia.
  - specialize (Ht num 2). pose proof (write_varint_length 10 (Z.of_nat (length bs))). lia.
  - specialize (Ht num 5). lia.
Qed.

Lemma string_field_size num s : size_of (string_field num s) <= 1 /\
  foldr (fun f n => payload_size f + n) 0 (string_field num s) <= size_of (bytes_of_string s).
Proof. unfold string_field. destruct (str_empty s); simpl; (split; [done|]); pose proof (size_of_nonneg (bytes_of_string s)); lia. Qed.
Lemma bytes_field_size num bs : size_of (bytes_field num bs) <= 1 /\
  foldr (fun f n => payload_size f + n) 0 (bytes_field num bs) <= size_of bs.
Proof. destruct bs as [|b bs]; unfold bytes_field; simpl; [done|]. split; [done|]. lia. Qed.
Lemma uint_field_size num v : size_of (uint_field num v) <= 1 /\
  foldr (fun f n => payload_size f + n) 0 (uint_field num v) <= 0.
Proof. unfold uint_field, size_of. destruct (v =? 0); simpl; lia. Qed.

Lemma payload_size_app fs1 fs2 : foldr (fun f n => payload_size f + n) 0 (fs1 ++ fs2) =
  foldr (fun f n => payload_size f + n) 0 fs1 + foldr (fun f n => payload_size f + n) 0 fs2.
Proof. induction fs1 as [|f fs1 IH]; simpl; [lia|]. rewrite IH. lia. Qed.

(** An entry is hardly longer than what it holds. *)
Lemma entry_size (e : RegistryEntry) :
  size_of (write_message e) <= 90 + size_of (bytes_of_string (ent_agent_id e)) + size_of (bytes_of_string (ent_capability e)) +
    size_of (bytes_of_string (ent_endpoint e)) + size_of (ent_public_key e) + size_of (ent_signature e).
Proof.
  destruct e as [id cap ep ts pk sg]. unfold write_message.
  etrans; [apply write_fields_size|]. simpl. rewrite !payload_size_app. unfold size_of. rewrite !length_app.
  pose proof (string_field_size 1 id). pose proof (string_field_size 2 cap). pose proof (string_field_size 3 ep).
  pose proof (uint_field_size 4 ts). pose proof (bytes_field_size 5 pk). pose proof (bytes_field_size 6 sg).
  unfold size_of in *. lia.
Qed.

(** ** Properties *)

(** (C33) The interface to the generated classes is that of the messages of the [.proto] files: with
    the field numbers and types declared there, the proto3 encoding of log entries, requests
    and responses satisfies every law the development assumes (a valid message is read back
    from its text, whatever is read is valid, and a text is shorter than 2 GiB); and a log
    entry that a later version wrote with further fields is read as the entry it contains. *)
Theorem wire_codecs_lawful :
  (@ProtoLaws RegistryEntry _ (wire_codec RegistryEntry) /\ @ProtoLaws ControlRequest _ (wire_codec ControlRequest) /\
   @ProtoLaws ControlResponse _ (wire_codec ControlResponse)) /\
  (forall (e : RegistryEntry) fs, proto_valid e -> Forall field_ok fs -> Forall (fun f => 6 < field_number f) fs ->
     size_of (write_fields (wire_fields e ++ fs)) < 2 ^ 31 ->
     @ParseFromString _ (wire_codec RegistryEntry) (write_fields (wire_fields e ++ fs)) = Some e).
Proof.
  split; [split_and!; apply wire_laws|].
  - apply reads_back_entry.
  - done.
  - apply parse_entry_valid.
  - apply reads_back_request.
  - done.
  - apply parse_request_valid.
  - apply reads_back_response.
  - split; [done|by constructor].
  - apply parse_response_valid.
  - intros e fs [Hok Hap]%reads_back_entry Hfs Hnum Hsize. cbn [ParseFromString wire_codec]. unfold parse_into.
    rewrite read_write_fields; [|by apply Forall_app|done|done]. cbn [mbind option_bind]. rewrite apply_fields_app.
    rewrite Hap; cbn [mbind option_bind].
    + clear -Hnum. induction Hnum as [|f fs Hf _ IH]; [done|]. unfold apply_fields in *. cbn [foldl mbind option_bind]. by rewrite entry_skips.
    + unfold write_message. unfold write_fields, size_of in *. rewrite fmap_app, join_app, length_app in Hsize. lia.
Qed.

(** The bytes of an entry, as the protocol buffer compiler's classes write it. *)
Example entry_bytes :
  let e := mkRegistryEntry "agent-1" "n" "e:1" 300 [Byte.xaa] [] in
  string_of_bytes (take 9 (write_message e)) = String (Ascii.ascii_of_nat 10) (String (Ascii.ascii_of_nat 7) "agent-1") /\
  drop 9 (write_message e) = [Byte.x12; Byte.x01; Byte.x6e; Byte.x1a; Byte.x03; Byte.x65; Byte.x3a; Byte.x31;
    Byte.x20; Byte.xac; Byte.x02; Byte.x2a; Byte.x01; Byte.xaa].
Proof. split; by vm_compute. Qed.
