(* ===== verification/ProtoPeers.v ===== *)
(** * The messages for peers: [src/proto/beaconnode/v1/registry.proto], [gossip.proto]

    The [.proto] files declare four further messages, which the engine does not send: the
    identity of a node, the envelope and the message of a gossip round, and a frame with a
    version.  They are declared here over the codec of [ProtoWire], with the proof that each
    is read back from its text, so that the whole schema has a lawful codec. *)

From S2P Require Import Prelude CxxString CxxContainers Protobuf ProtoWire.
Import V1.

(** ** Definitions *)

(** [NodeIdentity] of [registry.proto]. *)
Record PeerIdentity := mkPeerIdentity {
  pid_node_id : string;
  pid_public_key : bytes;
}.

Record GossipEnvelope := mkGossipEnvelope {
  gev_sender_node_id : string;
  gev_sent_at_unix_ms : Z;
  gev_push_entries : list AgentRegistration;
  gev_pull_after_revision : Z;
}.

Record FramedMessage := mkFramedMessage {
  frm_protocol : string;
  frm_version : Z;
  frm_payload : bytes;
}.

Record GossipMessage := mkGossipMessage {
  gms_sender_id : string;
  gms_entries : list RegistryEntry;
  gms_nonce : Z;
}.

#[export] Instance PeerIdentity_wire : WireMessage PeerIdentity := {|
  wire_default := mkPeerIdentity "" [];
  wire_fields i := string_field 1 (pid_node_id i) ++ bytes_field 2 (pid_public_key i);
  read_into f '(mkPeerIdentity nid pk) :=
    match f with
    | Len 1 bs => s ← read_string bs; Some (mkPeerIdentity s pk)
    | Len 2 bs => Some (mkPeerIdentity nid bs)
    | _ => Some (mkPeerIdentity nid pk)
    end;
|}.

#[export] Instance GossipEnvelope_wire : WireMessage GossipEnvelope := {|
  wire_default := mkGossipEnvelope "" 0 [] 0;
  wire_fields e :=
    string_field 1 (gev_sender_node_id e) ++ uint_field 2 (gev_sent_at_unix_ms e) ++
    (message_field 3 <$> gev_push_entries e) ++ uint_field 4 (gev_pull_after_revision e);
  read_into f '(mkGossipEnvelope nid at_ push pull) :=
    match f with
    | Len 1 bs => s ← read_string bs; Some (mkGossipEnvelope s at_ push pull)
    | Varint 2 v => Some (mkGossipEnvelope nid v push pull)
    | Len 3 bs => a ← parse_into wire_default bs; Some (mkGossipEnvelope nid at_ (push ++ [a]) pull)
    | Varint 4 v => Some (mkGossipEnvelope nid at_ push v)
    | _ => Some (mkGossipEnvelope nid at_ push pull)
    end;
|}.

#[export] Instance FramedMessage_wire : WireMessage FramedMessage := {|
  wire_default := mkFramedMessage "" 0 [];
  wire_fields m := string_field 1 (frm_protocol m) ++ uint_field 2 (frm_version m) ++ bytes_field 3 (frm_payload m);
  read_into f '(mkFramedMessage pr ver pl) :=
    match f with
    | Len 1 bs => s ← read_string bs; Some (mkFramedMessage s ver pl)
    | Varint 2 v => Some (mkFramedMessage pr (wrap 32 v) pl)
    | Len 3 bs => Some (mkFramedMessage pr ver bs)
    | _ => Some (mkFramedMessage pr ver pl)
    end;
|}.

#[export] Instance GossipMessage_wire : WireMessage GossipMessage := {|
  wire_default := mkGossipMessage "" [] 0;
  wire_fields m :=
    string_field 1 (gms_sender_id m) ++ (message_field 2 <$> gms_entries m) ++ uint_field 3 (gms_nonce m);
  read_into f '(mkGossipMessage id es nonce) :=
    match f with
    | Len 1 bs => s ← read_string bs; Some (mkGossipMessage s es nonce)
    | Len 2 bs => e ← parse_into wire_default bs; Some (mkGossipMessage id (es ++ [e]) nonce)
    | Varint 3 v => Some (mkGossipMessage id es v)
    | _ => Some (mkGossipMessage id es nonce)
    end;
|}.

(** ** Every one is read back *)

(** A repeated message, read into the list of a record. *)
Lemma apply_repeated {A B} {MA : WireMessage A} {MB : WireMessage B} num (k : list B -> A) (valid : B -> Prop) l l0 rest :
  (forall b l0, read_into (message_field num b) (k l0) = (b' ← parse_into wire_default (write_message b); Some (k (l0 ++ [b'])))) ->
  (forall b, valid b -> reads_back b) -> Forall valid l -> Forall (fun b => size_of (write_message b) < 2 ^ 31) l ->
  apply_fields ((message_field num <$> l) ++ rest) (k l0) = apply_fields rest (k (l0 ++ l)).
Proof.
  intros Hread Hrb Hv. revert l0. induction Hv as [|b l Hb _ IH]; intros l0 Hs; [by rewrite app_nil_r|].
  apply Forall_cons in Hs as [Hs Hss]. csimpl.
  erewrite (apply_embedded num b); [|rewrite Hread, parse_written by (try apply Hrb; done); reflexivity].
  rewrite IH by done. by rewrite <- app_assoc.
Qed.

Lemma repeated_sizes {A B} {MA : WireMessage A} {MB : WireMessage B} num (l : list B) (m : A) :
  (message_field num <$> l) ⊆ wire_fields m -> size_of (write_message m) < 2 ^ 31 ->
  Forall (fun b => size_of (write_message b) < 2 ^ 31) l.
Proof.
  intros Hsub Hm. apply Forall_forall. intros b Hb. apply (embedded_size num b m); [|done]. by apply Hsub, list_elem_of_fmap_2.
Qed.

Lemma reads_back_peer_identity i : utf8_valid (pid_node_id i) = true -> reads_back i.
Proof.
  destruct i as [nid pk]. intros H1; simpl in *. split; [fields_ok|]. intros _. simpl.
  rewrite <- (app_nil_r (bytes_field 2 pk)). do 2 read_part. done.
Qed.

Lemma reads_back_framed m : utf8_valid (frm_protocol m) = true -> u32 (frm_version m) -> reads_back m.
Proof.
  destruct m as [pr ver pl]. intros H1 H2; simpl in *. split; [fields_ok|]. intros _. simpl.
  rewrite <- (app_nil_r (bytes_field 3 pl)). do 3 read_part. simpl. by rewrite ?wrap_small by lia.
Qed.

Lemma reads_back_envelope e : utf8_valid (gev_sender_node_id e) = true -> u64 (gev_sent_at_unix_ms e) ->
  u64 (gev_pull_after_revision e) -> Forall registration_valid (gev_push_entries e) -> reads_back e.
Proof.
  destruct e as [nid at_ push pull]. intros H1 H2 H3 H4; simpl in *.
  split; [fields_ok; by apply message_fields_ok|]. intros Hsize. simpl.
  rewrite <- (app_nil_r (uint_field 4 pull)). do 2 read_part.
  rewrite (apply_repeated 3 (fun l => mkGossipEnvelope nid at_ l 0) registration_valid).
  - read_part. done.
  - done.
  - apply reads_back_registration.
  - done.
  - apply (repeated_sizes 3 push (mkGossipEnvelope nid at_ push pull)); [simpl; set_solver|done].
Qed.

Lemma reads_back_gossip m : utf8_valid (gms_sender_id m) = true -> u64 (gms_nonce m) ->
  Forall (fun e => proto_valid e) (gms_entries m) -> reads_back m.
Proof.
  destruct m as [id es nonce]. intros H1 H2 H3; simpl in *.
  split; [fields_ok; by apply message_fields_ok|]. intros Hsize. simpl.
  rewrite <- (app_nil_r (uint_field 3 nonce)). read_part.
  rewrite (apply_repeated 2 (fun l => mkGossipMessage id l 0) proto_valid).
  - read_part. done.
  - done.
  - apply reads_back_entry.
  - done.
  - apply (repeated_sizes 2 es (mkGossipMessage id es nonce)); [simpl; set_solver|done].
Qed.
