(* ===== verification/ControlProtobuf.v ===== *)
(** * The binary control protocol: [src/src/beacon/control_protobuf.hpp], [control_protobuf.cpp]

    The same operations as the line protocol, on protobuf messages in frames.  The codec of
    the messages is the interface of [Protobuf].  [registry.upsert(std::move(record))] leaves
    [record] in a state the C++ standard does not fix; it is the parameter [moved_from], and
    the code reads that object afterwards.  Payloads are shorter than 2 GiB, the range of the
    [int] the parser takes. *)

From S2P Require Import Prelude CxxString CxxContainers Types Sodium SecureBuffer Crypto IdentityService AgentRegistry RegistrySpec RegistryProps Framing ControlProtocol ControlProps Protobuf.

(** ** Definitions *)

(** The state of a record after it was moved from. *)
Class MovedFrom := moved_from : AgentRecord -> AgentRecord.

(** One of the states the standard allows: the strings are left empty. *)
Definition libstdcxx_moved_from : MovedFrom := fun r =>
  mkAgentRecord "" "" "" ∅ (revision r) (expires_at r) "" "".

Definition from_proto (proto : V1.AgentRegistration) (lifecycle : LifecycleConfig) (now : TimePoint) : AgentRecord :=
  mkAgentRecord (V1.reg_agent_id proto) (V1.reg_node_id proto) (V1.reg_endpoint proto)
    (map_store ∅ (map_to_list (V1.reg_metadata proto)))
    (V1.reg_revision proto) (now + milliseconds (heartbeat_ttl lifecycle))
    (encode_hex (V1.reg_public_key proto)) (encode_hex (V1.reg_signature proto)).

Definition to_proto (record : AgentRecord) : V1.AgentRegistration :=
  V1.mkAgentRegistration (agent_id record) (node_id record) (endpoint record)
    (map_store ∅ (map_items (metadata record))) (revision record) 0
    (decode_hex (public_key_hex record)) (decode_hex (signature_hex record)).

Definition empty_response : V1.ControlResponse := V1.mkControlResponse false "" None.

Definition set_status (ok : bool) (message : string) (response : V1.ControlResponse) : V1.ControlResponse :=
  V1.mkControlResponse ok message (V1.resp_snapshot response).

(** [to_proto(record, *response.mutable_snapshot()->add_agents())]. *)
Definition add_agent (record : AgentRecord) (response : V1.ControlResponse) : V1.ControlResponse :=
  V1.mkControlResponse (V1.resp_ok response) (V1.resp_message response)
    (Some (default [] (V1.resp_snapshot response) ++ [to_proto record])).

Definition signature_allowed {S : Sodium} (record : AgentRecord) (trust : TrustConfig) (response : V1.ControlResponse)
    : V1.ControlResponse * bool :=
  let signature_status := verify_agent_signature record in
  if require_signatures trust && bool_decide (signature_status <> Valid) then
    (set_status false (signature_status_message signature_status) response, false)
  else if negb (require_signatures trust) && bool_decide (signature_status = Invalid) then
    (set_status false "invalid_signature" response, false)
  else (response, true).

Section handler.
Context {W : Type} {S : Sodium} {Sort : StdSort} {Moved : MovedFrom}
  {Req : ProtoMessage V1.ControlRequest} {Resp : ProtoMessage V1.ControlResponse}.

(** The branches [has_register_agent] and [has_sync_merge], up to the text of success. *)
Definition store_agent (protocol : ControlProtocol) (now : TimePoint) (proto : V1.AgentRegistration)
    (success : string) (st : NodeState W) (response : V1.ControlResponse) : NodeState W * V1.ControlResponse :=
  let record := from_proto proto (lifecycle_ protocol) now in
  if str_empty (agent_id record) || str_empty (node_id record) || str_empty (endpoint record) then
    (st, set_status false "agent_id_node_id_and_endpoint_required" response)
  else
    let '(response, allowed) := signature_allowed record (trust_ protocol) response in
    if negb allowed then (st, response)
    else
      let '(reg, w, accepted) := upsert record (st_registry st) (st_world st) in
      let record := moved_from record in
      let identity :=
        match st_identity st with
        | Some svc => if (accepted : bool) then Some (verify_and_register record svc).1 else Some svc
        | None => None
        end in
      (mkNodeState reg w identity, set_status accepted (if (accepted : bool) then success else "stale_revision") response).

Definition handle_request (protocol : ControlProtocol) (now : TimePoint) (request : V1.ControlRequest) (st : NodeState W)
    : NodeState W * V1.ControlResponse :=
  let response := empty_response in
  match request with
  | V1.register_agent r => store_agent protocol now r "registered" st response
  | V1.sync_merge r => store_agent protocol now r "merged" st response
  | V1.heartbeat h =>
      let '(reg, accepted) :=
        refresh_heartbeat (V1.hb_agent_id h) (now + milliseconds (heartbeat_ttl (lifecycle_ protocol)))
          (V1.hb_revision h) (st_registry st) in
      (mkNodeState reg (st_world st) (st_identity st),
       set_status accepted (if (accepted : bool) then "heartbeat" else "unknown_or_stale_agent") response)
  | V1.list_agents_request _ =>
      (st, foldl (fun resp r => add_agent r resp) (set_status true "list" response) (list_agents (st_registry st)))
  | V1.sync_pull p =>
      (st, foldl (fun resp r => add_agent r resp) (set_status true "sync_pull" response)
             (entries_after_revision (V1.pull_after_revision p) (V1.pull_limit p) (st_registry st)))
  | V1.stats_request =>
      let s := stats (st_registry st) in
      (st, set_status true ("active_agents=" +:+ to_string (active_agents s) +:+
                            " highest_revision=" +:+ to_string (highest_revision s)) response)
  | V1.body_not_set => (st, set_status false "empty_control_request" response)
  end.

Definition handle_control_request_payload (protocol : ControlProtocol) (now : TimePoint) (payload : bytes)
    (st : NodeState W) : NodeState W * bytes :=
  let '(st', response) :=
    match ParseFromString payload with
    | None => (st, set_status false "invalid_protobuf_control_request" empty_response)
    | Some request => handle_request protocol now request st
    end in
  (st', default [] (SerializeToString response)).

Definition handle_control_frame (protocol : ControlProtocol) (now : TimePoint) (frame_bytes : bytes) (st : NodeState W)
    : NodeState W * bytes :=
  match decode_frame frame_bytes with
  | Some frame =>
      if bool_decide (kind frame = ControlRequest) then
        let '(st', resp) := handle_control_request_payload protocol now (payload frame) st in
        (st', encode_frame (mkFrame ControlResponse resp))
      else (st, match SerializeToString (set_status false "invalid_control_frame" empty_response) with
                | None => []
                | Some serialized => encode_frame (mkFrame ControlResponse serialized)
                end)
  | None => (st, match SerializeToString (set_status false "invalid_control_frame" empty_response) with
                 | None => []
                 | Some serialized => encode_frame (mkFrame ControlResponse serialized)
                 end)
  end.
End handler.

(** Records whose key and signature are the hexadecimal text [encode_hex] writes. *)
Definition hex_fields (r : AgentRecord) : Prop :=
  encode_hex (decode_hex (public_key_hex r)) = public_key_hex r /\
  encode_hex (decode_hex (signature_hex r)) = signature_hex r.

(** ** Lemmas *)

Lemma map_store_to_list {V} (m : gmap string V) : map_store ∅ (map_to_list m) = m.
Proof.
  rewrite map_store_list_to_map by apply NoDup_fst_map_to_list.
  by rewrite (right_id_L ∅ (∪)), list_to_map_to_list.
Qed.

(** A record goes through its message unchanged, but for the expiry. *)
Lemma from_to_proto r lc now : hex_fields r ->
  from_proto (to_proto r) lc now = set_expires_at (now + milliseconds (heartbeat_ttl lc)) r.
Proof.
  intros [Hk Hs]. unfold from_proto, to_proto; simpl.
  by rewrite map_store_items, map_store_to_list, Hk, Hs.
Qed.

Lemma add_agents_snapshot rs resp :
  let resp' := foldl (fun resp r => add_agent r resp) resp rs in
  V1.resp_ok resp' = V1.resp_ok resp /\ V1.resp_message resp' = V1.resp_message resp /\
  default [] (V1.resp_snapshot resp') = default [] (V1.resp_snapshot resp) ++ (to_proto <$> rs).
Proof.
  simpl. revert resp. induction rs as [|r rs IH]; intros resp; simpl; [by rewrite app_nil_r|].
  destruct (IH (add_agent r resp)) as (-> & -> & ->). simpl. by rewrite <- app_assoc.
Qed.

(** ** Properties *)

Section properties.
Context {W : Type} {S : Sodium} {Sort : StdSort} {Moved : MovedFrom}
  {Req : ProtoMessage V1.ControlRequest} {Resp : ProtoMessage V1.ControlResponse}.
Implicit Types (st : NodeState W).

(** The two protocols agree on storing a record. *)
Lemma store_agent_line protocol now proto ok1 ok2 st :
  let r := from_proto proto (lifecycle_ protocol) now in
  agent_id r <> "" -> node_id r <> "" -> endpoint r <> "" -> starts_with ok2 "OK" = true ->
  let '(st1, resp1) := store_agent protocol now proto ok1 st empty_response in
  let '(st2, resp2) := handle_store protocol r ok2 st in
  st_registry st1 = st_registry st2 /\ st_world st1 = st_world st2 /\
  V1.resp_ok resp1 = starts_with resp2 "OK".
Proof.
  intros r Ha%str_empty_false Hn%str_empty_false He%str_empty_false Hok. unfold store_agent, handle_store. fold r.
  rewrite Ha, Hn, He. cbn [orb]. unfold signature_allowed.
  destruct (require_signatures (trust_ protocol) && _); [done|].
  destruct (negb (require_signatures (trust_ protocol)) && _); [done|]. cbn [negb].
  destruct (upsert r (st_registry st) (st_world st)) as [[reg w] [|]]; simpl; [|done].
  by rewrite starts_with_app_l.
Qed.

Lemma handle_line_record protocol init now word act ok r st : line_ok r -> is_word word = true ->
  (word = "REGISTER" /\ act = Register /\ ok = "OK message=registered" \/
   word = "MERGE" /\ act = Merge /\ ok = "OK message=merged")%string ->
  expires_at r = now + milliseconds (heartbeat_ttl (lifecycle_ protocol)) ->
  handle_line protocol init now (word +:+ fields_text (record_fields r)) st = handle_store protocol r ok st.
Proof.
  intros Hr Hw Hact Hexp. unfold handle_line.
  rewrite <- (str_app_nil_r (word +:+ _)), str_app_assoc.
  rewrite (parse_command_record protocol init now word act r "") by naive_solver.
  rewrite <- Hexp. replace (set_expires_at (expires_at r) r) with r by by destruct r.
  by destruct Hact as [(-> & -> & ->)|(-> & -> & ->)].
Qed.

(** (C21) The two control protocols are equivalent on registrations: a protobuf [register_agent]
    or [sync_merge] leaves the same registry and log as the text command with the same fields,
    and answers [ok] exactly when the text answer begins with "OK". *)
Theorem protobuf_matches_line protocol init now proto st :
  let r := from_proto proto (lifecycle_ protocol) now in
  line_ok r ->
  Forall (fun '(request, word) =>
    let '(st1, resp1) := handle_request protocol now (request proto) st in
    let '(st2, resp2) := handle_line protocol init now (word +:+ fields_text (record_fields r)) st in
    st_registry st1 = st_registry st2 /\ st_world st1 = st_world st2 /\
    V1.resp_ok resp1 = starts_with resp2 "OK")
    [(V1.register_agent, "REGISTER"); (V1.sync_merge, "MERGE")]%string.
Proof.
  intros r Hr. pose proof Hr as (Ha & Hn & He & _).
  apply is_word_spec in Ha as [Ha _], Hn as [Hn _], He as [He _].
  repeat apply Forall_cons_2; [| |constructor]; cbn [handle_request].
  - rewrite (handle_line_record protocol init now "REGISTER" Register "OK message=registered" r st) by (auto || done).
    by apply store_agent_line.
  - rewrite (handle_line_record protocol init now "MERGE" Merge "OK message=merged" r st) by (auto || done).
    by apply store_agent_line.
Qed.

(** What a registration the node accepts leaves in the trust store, and what it answers. *)
Lemma store_agent_accepted protocol now proto ok st svc :
  let r := from_proto proto (lifecycle_ protocol) now in
  line_ok r -> verify_agent_signature r = Valid -> st_identity st = Some svc ->
  (upsert r (st_registry st) (st_world st)).2 = true ->
  store_agent protocol now proto ok st empty_response =
    (mkNodeState (upsert r (st_registry st) (st_world st)).1.1 (upsert r (st_registry st) (st_world st)).1.2
       (Some (verify_and_register (moved_from r) svc).1), set_status true ok empty_response).
Proof.
  intros r (Ha & Hn & He & _) Hv Hid Hup.
  apply is_word_spec in Ha as [Ha%str_empty_false _], Hn as [Hn%str_empty_false _], He as [He%str_empty_false _].
  unfold store_agent. fold r. rewrite Ha, Hn, He. cbn [orb]. unfold signature_allowed. rewrite Hv.
  rewrite bool_decide_eq_false_2, andb_false_r by (intros Hx; by apply Hx). rewrite bool_decide_eq_false_2, andb_false_r by done.
  cbn [negb]. destruct (upsert r _ _) as [[reg w] acc]. simpl in *. by rewrite Hup, Hid.
Qed.

Lemma handle_store_accepted protocol r ok st svc :
  verify_agent_signature r = Valid -> st_identity st = Some svc -> (upsert r (st_registry st) (st_world st)).2 = true ->
  st_identity (handle_store protocol r ok st).1 = Some (verify_and_register r svc).1.
Proof.
  intros Hv Hid Hup. unfold handle_store. rewrite Hv.
  rewrite bool_decide_eq_false_2, andb_false_r by (intros Hx; by apply Hx). rewrite bool_decide_eq_false_2, andb_false_r by done.
  destruct (upsert r _ _) as [[reg w] acc]. simpl in *. rewrite Hup, Hid. unfold register_identity.
  by rewrite (proj2 (str_empty_false _) (verify_valid_has_key r Hv)).
Qed.
End properties.

Section pinning.
Context {W : Type} {S : Sodium} {L : SodiumLaws S} {Sort : StdSort}
  {Req : ProtoMessage V1.ControlRequest} {Resp : ProtoMessage V1.ControlResponse}.
Implicit Types (st : NodeState W).

(** (C40) Whether the binary protocol pins keys is left to the implementation of the C++ strings:
    the handler passes the identity service the record it has just moved from.  For an
    accepted, validly signed registration of an agent without pinned key, of a record the line
    format carries and on a node with an identity service, all implementations agree on the
    registry, the log and the answer; where the moved-from key is empty, the trust store stays as it was and the agent unprotected; where the move left the record as it was,
    its key is pinned, which is what the text command with the same fields does everywhere. *)
Theorem protobuf_pinning_unspecified protocol init now proto st svc
    (identity : st_identity st = Some svc) (services : identity_ok svc) :
  let r := from_proto proto (lifecycle_ protocol) now in
  line_ok r -> verify_agent_signature r = Valid -> pinned_key svc (agent_id r) = None ->
  (upsert r (st_registry st) (st_world st)).2 = true ->
  let run (M : MovedFrom) := handle_request (Moved := M) protocol now (V1.register_agent proto) st in
  let text := handle_line protocol init now ("REGISTER" +:+ fields_text (record_fields r)) st in
  let pins (st' : NodeState W) := (svc' ← st_identity st'; pinned_key svc' (agent_id r)) in
  (forall M1 M2, st_registry (run M1).1 = st_registry (run M2).1 /\ st_world (run M1).1 = st_world (run M2).1 /\ (run M1).2 = (run M2).2) /\
  (forall M : MovedFrom, public_key_hex (moved_from r) = "" -> st_identity (run M).1 = Some svc /\ pins (run M).1 = None) /\
  (forall M : MovedFrom, moved_from r = r -> pins (run M).1 = Some (decode_hex (public_key_hex r))) /\
  pins text.1 = Some (decode_hex (public_key_hex r)).
Proof.
  intros r Hl Hv Hno Hup run text pins.
  assert (Hrun : forall M : MovedFrom, run M =
    (mkNodeState (upsert r (st_registry st) (st_world st)).1.1 (upsert r (st_registry st) (st_world st)).1.2
       (Some (verify_and_register (moved_from r) svc).1), set_status true "registered" empty_response)).
  { intros M. exact (store_agent_accepted protocol now proto "registered" st svc Hl Hv identity Hup). }
  assert (Hpin : pinned_key (verify_and_register r svc).1 (agent_id r) = Some (decode_hex (public_key_hex r))).
  { rewrite verify_and_register_spec by done. rewrite Hv, Hno. unfold pinned_key. cbn [fst trust_store_]. rewrite lookup_insert_eq.
    cbn [fmap option_fmap option_map]. by rewrite (proj2 (buffer_of_bytes_ok _)). }
  split_and!.
  - intros M1 M2. by rewrite !Hrun.
  - intros M Hm. unfold pins. rewrite Hrun. cbn [st_identity fst]. unfold verify_and_register.
    rewrite (proj2 (verify_agent_signature_missing (moved_from r))) by by left. by split.
  - intros M Hm. unfold pins. rewrite Hrun, Hm. exact Hpin.
  - unfold pins, text.
    rewrite (handle_line_record protocol init now "REGISTER" Register "OK message=registered" r st) by (auto || done).
    rewrite (handle_store_accepted protocol r _ st svc Hv identity Hup). exact Hpin.
Qed.
End pinning.

Section frames.
Context {W : Type} {S : Sodium} {Sort : StdSort} {Moved : MovedFrom}
  {Req : ProtoMessage V1.ControlRequest} {Resp : ProtoMessage V1.ControlResponse}.
Implicit Types (st : NodeState W).

Lemma store_agent_ok protocol now proto ok st resp : u64 (V1.reg_revision proto) ->
  registry_ok (st_registry st) -> registry_ok (st_registry (store_agent protocol now proto ok st resp).1).
Proof.
  intros Hr Hok. unfold store_agent. case_match; [done|]. destruct (signature_allowed _ _ _) as [resp' [|]]; [|done].
  cbn [negb]. set (r := from_proto _ _ _).
  pose proof (upsert_ok r (st_registry st) (st_world st) Hok Hr) as Hup.
  by destruct (upsert r (st_registry st) (st_world st)) as [[reg w] acc].
Qed.

Lemma handle_frame_ok {L : ProtoLaws V1.ControlRequest} protocol now bs st :
  registry_ok (st_registry st) -> registry_ok (st_registry (handle_control_frame protocol now bs st).1).
Proof.
  intros Hok. unfold handle_control_frame. destruct (decode_frame bs) as [f|]; [|done]. case_bool_decide; [|done].
  unfold handle_control_request_payload.
  destruct (ParseFromString (payload f)) as [request|] eqn:Hp; [|done]. apply parsed_valid in Hp.
  destruct request as [a|h|l|p|a| |]; simpl in *; try done.
  - pose proof (store_agent_ok protocol now a "registered" st empty_response ltac:(apply Hp) Hok) as Hs.
    by destruct (store_agent _ _ _ _ _ _).
  - pose proof (heartbeat_ok (V1.hb_agent_id h) (now + milliseconds (heartbeat_ttl (lifecycle_ protocol)))
      (V1.hb_revision h) (st_registry st) Hok ltac:(apply Hp)) as Hs.
    by destruct (refresh_heartbeat _ _ _ _).
  - pose proof (store_agent_ok protocol now a "merged" st empty_response ltac:(apply Hp) Hok) as Hs.
    by destruct (store_agent _ _ _ _ _ _).
Qed.

Lemma payload_response protocol now pl st :
  (handle_control_request_payload protocol now pl st).2 = [] \/
  exists resp, SerializeToString resp = Some (handle_control_request_payload protocol now pl st).2.
Proof.
  unfold handle_control_request_payload. destruct (match ParseFromString pl with None => _ | Some _ => _ end) as [st' resp].
  simpl. destruct (SerializeToString resp) eqn:Hs; simpl; eauto.
Qed.

(** Every answer of the binary port is one frame of kind [ControlResponse] that a client
    decodes, holding a serialised response (or nothing, where serialising failed); bytes that
    are not a control request frame leave the state alone. *)
Theorem control_frame_answers {L : ProtoLaws V1.ControlResponse} protocol now bs st :
  let '(st', out) := handle_control_frame protocol now bs st in
  (out = [] /\ st' = st \/
   exists pl, decode_frame out = Some (mkFrame ControlResponse pl) /\
     (pl = [] \/ exists resp, SerializeToString resp = Some pl)) /\
  ((forall f, decode_frame bs = Some f -> kind f <> ControlRequest) -> st' = st).
Proof.
  assert (Hframe : forall pl, (pl = [] \/ exists resp, SerializeToString resp = Some pl) ->
    decode_frame (encode_frame (mkFrame ControlResponse pl)) = Some (mkFrame ControlResponse pl)).
  { intros pl Hpl. rewrite decode_encode_frame by (simpl; unfold ControlResponse; lia).
    assert (Hs : size_of pl < 2 ^ 31).
    { destruct Hpl as [-> |[resp Hresp]]; [unfold size_of; simpl; lia|by eapply serialized_size]. }
    simpl. by rewrite (proj2 (Z.ltb_lt _ _)) by lia. }
  unfold handle_control_frame.
  assert (Hbad : forall resp : V1.ControlResponse,
    let out := match SerializeToString resp with None => [] | Some s => encode_frame (mkFrame ControlResponse s) end in
    out = [] /\ st = st \/ exists pl, decode_frame out = Some (mkFrame ControlResponse pl) /\
     (pl = [] \/ exists resp, SerializeToString resp = Some pl)).
  { intros resp. simpl. destruct (SerializeToString resp) as [s|] eqn:Hs; [right|by left].
    exists s. split; [apply Hframe|]; eauto. }
  destruct (decode_frame bs) as [f|] eqn:Hf; [case_bool_decide as Hk|]; [|by split..].
  pose proof (payload_response protocol now (payload f) st) as Hp.
  destruct (handle_control_request_payload protocol now (payload f) st) as [st' pl]; simpl in Hp.
  split; [right; eauto|]. intros Hno. by destruct (Hno f eq_refl).
Qed.

(** A client that asks for the list gets the registry: for stored records that have
    hexadecimal keys and fit the message format, the answer parses to a response whose
    snapshot converts back to the stored registrations, in order. *)
Theorem protobuf_list_round_trip {L : ProtoLaws V1.ControlResponse} protocol now req_bytes l st bs
    (request : ParseFromString req_bytes = Some (V1.list_agents_request l))
    (hex : Forall hex_fields (records_ (st_registry st)))
    (valid : Forall (fun r => registration_valid (to_proto r)) (records_ (st_registry st)))
    (fits : SerializeToString (handle_request protocol now (V1.list_agents_request l) st).2 = Some bs) :
  handle_control_request_payload protocol now req_bytes st = (st, bs) /\
  exists resp, ParseFromString bs = Some resp /\ V1.resp_ok resp = true /\
    forall lc now', (fun p => from_proto p lc now') <$> default [] (V1.resp_snapshot resp) =
      set_expires_at (now' + milliseconds (heartbeat_ttl lc)) <$> records_ (st_registry st).
Proof.
  unfold handle_control_request_payload. rewrite request. simpl in *. rewrite fits. split; [done|].
  unfold list_agents in *.
  destruct (add_agents_snapshot (records_ (st_registry st)) (set_status true "list" empty_response)) as (Hok & Hmsg & Hsnap).
  set (resp := foldl _ _ _) in *. exists resp. split; [|split; [done|]].
  - apply parse_serialized; [|done]. split; [by rewrite Hmsg|]. rewrite Hsnap. simpl. by apply Forall_fmap.
  - intros lc now'. rewrite Hsnap. simpl. rewrite <- list_fmap_compose. apply list_fmap_ext.
    intros i r Hr. simpl. apply from_to_proto. by eapply Forall_lookup_1 in hex.
Qed.
End frames.

(** ** Witnesses *)

Definition toy_request : ProtoMessage V1.ControlRequest := countable_ProtoMessage V1.ControlRequest.
Definition toy_response : ProtoMessage V1.ControlResponse := countable_ProtoMessage V1.ControlResponse.
Definition toy_response_laws : @ProtoLaws V1.ControlResponse _ toy_response := countable_ProtoLaws _.

Definition example_registration : V1.AgentRegistration :=
  to_proto (signed_record 1 (mkAgentRecord "agent-1" "node-1" "h:1" (<["role" := "w"]> ∅) 3 0 "" "")).

Lemma example_registration_line_ok : line_ok (from_proto example_registration (lifecycle_ open_protocol) 7).
Proof.
  split; [by vm_compute|]. split; [by vm_compute|]. split; [by vm_compute|]. split; [by vm_compute|].
  split; [by vm_compute|]. split; [by vm_compute|].
  change (metadata _) with (<["role" := "w"]> ∅ : gmap string string).
  intros k v [[<- <-]|[_ [=]]]%lookup_insert_Some; done.
Qed.

Lemma protobuf_matches_line_witness :
  let r := from_proto example_registration (lifecycle_ open_protocol) 7 in
  Forall (fun '(request, word) =>
    let '(st1, resp1) := @handle_request unit toy_sodium _ libstdcxx_moved_from open_protocol 7 (request example_registration) empty_node in
    let '(st2, resp2) := handle_line open_protocol 0 7 (word +:+ fields_text (record_fields r)) empty_node in
    st_registry st1 = st_registry st2 /\ st_world st1 = st_world st2 /\
    V1.resp_ok resp1 = starts_with resp2 "OK")
    [(V1.register_agent, "REGISTER"); (V1.sync_merge, "MERGE")]%string.
Proof.
  intros r. apply (protobuf_matches_line open_protocol 0 7 example_registration empty_node).
  exact example_registration_line_ok.
Defined.

(** The same registration, on an empty node. *)
Lemma protobuf_pinning_unspecified_witness :
  let run M := (@handle_request unit toy_sodium _ M open_protocol 7 (V1.register_agent example_registration) empty_node).1 in
  find "agent-1" (st_registry (run libstdcxx_moved_from)) <> None /\
  st_identity (run libstdcxx_moved_from) = Some new_identity_service /\
  (svc ← st_identity (run (fun r => r)); pinned_key svc "agent-1") = Some (V1.reg_public_key example_registration).
Proof.
  intros run.
  destruct (@protobuf_pinning_unspecified unit toy_sodium toy_sodium_laws _ open_protocol 0 7 example_registration empty_node
    new_identity_service eq_refl ltac:(apply map_Forall_empty)) as (_ & Hempty & Hcopy & _).
  - exact example_registration_line_ok.
  - by vm_compute.
  - by vm_compute.
  - by vm_compute.
  - split; [by vm_compute|]. split; [exact (proj1 (Hempty libstdcxx_moved_from eq_refl))|].
    specialize (Hcopy (fun r => r) eq_refl). cbn [pinned_key] in Hcopy. etrans; [exact Hcopy|]. by vm_compute.
Defined.

Lemma control_frame_answers_witness :
  let '(st', out) := @handle_control_frame unit toy_sodium _ libstdcxx_moved_from toy_request toy_response open_protocol 7
    (bytes_of_string "BNjunk") empty_node in
  (out = [] /\ st' = empty_node \/
   exists pl, decode_frame out = Some (mkFrame ControlResponse pl) /\
     (pl = [] \/ exists resp, @SerializeToString _ toy_response resp = Some pl)) /\ st' = empty_node.
Proof.
  pose proof (@control_frame_answers unit toy_sodium _ libstdcxx_moved_from toy_request toy_response toy_response_laws
    open_protocol 7 (bytes_of_string "BNjunk") empty_node) as H.
  destruct (handle_control_frame _ _ _ _) as [st' out]. destruct H as [H1 H2]. split; [exact H1|].
  apply H2. by vm_compute.
Defined.

Lemma protobuf_list_round_trip_witness :
  let req := V1.list_agents_request (V1.mkListAgentsRequest "" "") in
  let reqb := default [] (@SerializeToString _ toy_request req) in
  let r := mkAgentRecord "a" "n" "e" ∅ 3 0 "0f" "" in
  let st : NodeState unit := mkNodeState (mkAgentRegistry [r] None) tt None in
  let out := (@handle_control_request_payload unit toy_sodium _ libstdcxx_moved_from toy_request toy_response open_protocol 7 reqb st).2 in
  exists resp, @ParseFromString _ toy_response out = Some resp /\ V1.resp_ok resp = true /\
    forall lc now', (fun p => from_proto p lc now') <$> default [] (V1.resp_snapshot resp) =
      set_expires_at (now' + milliseconds (heartbeat_ttl lc)) <$> [r].
Proof.
  intros req reqb r st out.
  destruct (@protobuf_list_round_trip unit toy_sodium _ libstdcxx_moved_from toy_request toy_response toy_response_laws
    open_protocol 7 reqb (V1.mkListAgentsRequest "" "") st out) as [_ H]; [..|exact H].
  - by vm_compute.
  - apply Forall_cons_2; [|apply Forall_nil_2]. split; by vm_compute.
  - apply Forall_cons_2; [|apply Forall_nil_2]. split; [by vm_compute|]. split; [by vm_compute|].
    split; [by vm_compute|]. split; [apply map_Forall_empty|]. by vm_compute.
  - by vm_compute.
Defined.
