(* ===== verification/Reputation.v ===== *)
(** * Peer reputation: [src/src/beacon/reputation.hpp], [reputation.cpp]

    A 32-bit counter of malformed messages per peer; a peer is accepted while its counter is
    below the configured threshold. *)

From S2P Require Import Prelude CxxContainers Types.

(** ** Definitions *)

Record ReputationEngine := mkReputationEngine {
  rep_config : TrustConfig;
  malformed_counts_ : gmap string Z;
}.

Definition new_reputation (config : TrustConfig) : ReputationEngine := mkReputationEngine config ∅.

(** [malformed_counts_[peer_id] += 1]: the element is created with 0 if it is missing. *)
Definition record_malformed (peer_id : string) (this : ReputationEngine) : ReputationEngine :=
  mkReputationEngine (rep_config this)
    (<[peer_id := wrap 32 (default 0 (malformed_counts_ this !! peer_id) + 1)]> (malformed_counts_ this)).

Definition accepts_peer (this : ReputationEngine) (peer_id : string) : bool :=
  match malformed_counts_ this !! peer_id with
  | None => true
  | Some count => count <? malformed_threshold (rep_config this)
  end.

(** Reports about peers, in order. *)
Definition record_all (reports : list string) (this : ReputationEngine) : ReputationEngine :=
  foldl (fun st p => record_malformed p st) this reports.

(** How often a peer was reported. *)
Definition reports_of (peer : string) (reports : list string) : Z := size_of (filter (peer =.) reports).

(** ** Lemmas *)

Lemma record_all_snoc reports p this : record_all (reports ++ [p]) this = record_malformed p (record_all reports this).
Proof. unfold record_all. by rewrite foldl_app. Qed.

Lemma reports_of_snoc peer reports p :
  reports_of peer (reports ++ [p]) = reports_of peer reports + (if decide (peer = p) then 1 else 0).
Proof.
  unfold reports_of. rewrite filter_app, size_of_app, filter_cons, filter_nil.
  case_decide; unfold size_of; simpl; lia.
Qed.

Lemma record_all_config reports this : rep_config (record_all reports this) = rep_config this.
Proof. induction reports as [|p l IH] using rev_ind; [done|]. by rewrite record_all_snoc. Qed.

(** The counter is the number of reports, reduced to 32 bits; it exists once there is one. *)
Lemma record_all_count config reports peer :
  malformed_counts_ (record_all reports (new_reputation config)) !! peer =
  if reports_of peer reports =? 0 then None else Some (wrap 32 (reports_of peer reports)).
Proof.
  induction reports as [|p l IH] using rev_ind; [done|].
  rewrite record_all_snoc, reports_of_snoc. unfold record_malformed; simpl. rewrite lookup_insert.
  assert (Hn : 0 <= reports_of peer l) by apply size_of_nonneg.
  case_decide as Hp; [subst p; rewrite decide_True by done|rewrite decide_False by congruence; by rewrite Z.add_0_r].
  rewrite IH, (proj2 (Z.eqb_neq (_ + 1) 0)) by lia. f_equal.
  destruct (reports_of peer l =? 0) eqn:Hz; bool_to_prop; simpl; [by rewrite Hz|].
  unfold wrap. by rewrite Zplus_mod_idemp_l.
Qed.

(** Quarantine: whatever was reported about whom and in which order, a peer is accepted
    exactly while it has fewer reports than the threshold, and reports about other peers do
    not count (below 2^32 reports, and with a threshold of at least 1). *)
Theorem accepts_below_threshold config reports peer
    (threshold : 1 <= malformed_threshold config) (few : reports_of peer reports < 2 ^ 32) :
  accepts_peer (record_all reports (new_reputation config)) peer =
  (reports_of peer reports <? malformed_threshold config).
Proof.
  unfold accepts_peer. rewrite record_all_count, record_all_config.
  assert (Hn : 0 <= reports_of peer reports) by apply size_of_nonneg.
  destruct (reports_of peer reports =? 0) eqn:Hz; bool_to_prop.
  - symmetry. apply Z.ltb_lt. lia.
  - by rewrite wrap_small by lia.
Qed.

Lemma accepts_below_threshold_witness :
  let after n := accepts_peer (record_all (replicate n "mallory" ++ ["bob"]%string) (new_reputation (trust default_config))) in
  after 4%nat "mallory" = true /\ after 5%nat "mallory" = false /\ after 5%nat "bob" = true.
Proof.
  intros after. unfold after.
  rewrite (accepts_below_threshold (trust default_config) (replicate 4 "mallory" ++ ["bob"]%string) "mallory") by (vm_compute; congruence).
  rewrite (accepts_below_threshold (trust default_config) (replicate 5 "mallory" ++ ["bob"]%string) "mallory") by (vm_compute; congruence).
  rewrite (accepts_below_threshold (trust default_config) (replicate 5 "mallory" ++ ["bob"]%string) "bob") by (vm_compute; congruence).
  by vm_compute.
Defined.
