(* ===== verification/GossipScheduler.v ===== *)
(** * Choosing what to push: [src/src/beacon/gossip_scheduler.hpp], [gossip_scheduler.cpp] *)

From S2P Require Import Prelude CxxContainers Types.

(** ** Definitions *)

Record GossipScheduler := mkGossipScheduler { sched_config : GossipConfig }.

Definition select_push_entries {Sort : StdSort} (this : GossipScheduler) (registry : list AgentRecord)
    : list AgentRecord :=
  let selected := std_sort (fun left right => revision right <? revision left) registry in
  if max_registry_items_per_round (sched_config this) <? size_of selected
  then shrink_to (max_registry_items_per_round (sched_config this)) selected
  else selected.

(** ** Properties *)

Lemma sort_descending {Sort : StdSort} l :
  StronglySorted (fun x y => revision y <= revision x)
    (std_sort (fun left right => revision right <? revision left) l).
Proof.
  eapply StronglySorted_weaken; [|apply std_sort_sorted].
  - simpl. intros x y H. bool_to_prop. lia.
  - intros x y H. bool_to_prop. apply Z.ltb_ge. lia.
  - intros x y z H1 H2. bool_to_prop. apply Z.ltb_ge. lia.
Qed.

(** [select_push_entries] returns the newest entries: a list of known records in
    descending order of revision, as long as the limit allows, and nothing left out is newer
    than anything selected. *)
Theorem select_push_entries_newest {Sort : StdSort} this registry
    (limit_ok : 0 <= max_registry_items_per_round (sched_config this)) :
  let selected := select_push_entries this registry in
  exists rest, selected ++ rest ≡ₚ registry /\
    StronglySorted (fun x y => revision y <= revision x) selected /\
    (forall x y, x ∈ selected -> y ∈ rest -> revision y <= revision x) /\
    size_of selected = Z.min (max_registry_items_per_round (sched_config this)) (size_of registry).
Proof.
  unfold select_push_entries. simpl. set (n := max_registry_items_per_round _) in *. set (srt := std_sort _ registry).
  assert (Hp : srt ≡ₚ registry) by apply std_sort_perm.
  assert (Hlen : size_of srt = size_of registry) by (unfold size_of; by rewrite Hp).
  pose proof (sort_descending registry) as Hs. fold srt in Hs.
  destruct (n <? size_of srt) eqn:Hlim; bool_to_prop.
  - exists (drop (Z.to_nat n) srt). unfold shrink_to. rewrite take_drop.
    rewrite <- (take_drop (Z.to_nat n) srt) in Hs. apply StronglySorted_app in Hs as (Hx & H1 & _).
    split_and!; [done|done|done|]. unfold size_of in *. rewrite length_take. lia.
  - exists []. rewrite app_nil_r. split_and!; [done|done|set_solver|lia].
Qed.

Lemma select_push_entries_newest_witness :
  let rec_n n := mkAgentRecord "a" "n" "h" ∅ n 0 "" "" in
  let this := mkGossipScheduler (mkGossipConfig 2000 3 2) in
  select_push_entries this [rec_n 1; rec_n 5; rec_n 3] = [rec_n 5; rec_n 3] /\
  exists rest, [rec_n 5; rec_n 3] ++ rest ≡ₚ [rec_n 1; rec_n 5; rec_n 3].
Proof.
  intros rec_n this. split; [by vm_compute|].
  destruct (select_push_entries_newest this [rec_n 1; rec_n 5; rec_n 3]) as (rest & H & _); [simpl; lia|].
  exists rest. exact H.
Defined.
