(* ===== verification/ControlServer.v ===== *)
(** * The control server: [src/src/beacon_net/control_server.hpp], [control_server.cpp]

    A session is one connection: the bytes the client sends before it closes, and how many of
    them the first [receive] (which only peeks) returned.  [serve_session] reads one request,
    executes it and writes one answer; [None] stands for an exception, which the handler
    swallows after logging.  Memory is not limited.

    The accept loop runs on a thread that [start] launches and [stop] joins; it is an instance
    of the [WorkerLoop] of [Lifecycle]. *)

From S2P Require Import Prelude CxxString CxxContainers Types Sodium SecureBuffer Crypto IdentityService AgentRegistry RegistrySpec RegistryProps Framing ControlProtocol ControlProps Protobuf ControlProtobuf Lifecycle.

(** ** Sessions *)

Record Session := mkSession {
  sess_input : bytes;
  sess_peeked : nat;
}.

(** What a socket can do: the peek returns at least one byte of what was sent, and at most
    what the header array holds. *)
Definition session_ok (s : Session) : Prop :=
  (sess_peeked s <= 9)%nat /\ (sess_peeked s <= length (sess_input s))%nat /\
  (sess_input s <> [] -> 0 < sess_peeked s)%nat.

(** [std::array<unsigned char, 9> header{}] after the peek. *)
Definition peek_header (s : Session) : bytes :=
  take (sess_peeked s) (sess_input s) ++ replicate (9 - sess_peeked s) Byte.x00.

Definition is_binary_frame_header (header : bytes) : bool :=
  bool_decide (header !!! 0%nat = Byte.x42) && bool_decide (header !!! 1%nat = Byte.x4e).

Definition header_length (header : bytes) : Z :=
  Z.lor (Z.lor (Z.lor (Z.shiftl (Z_of_byte (header !!! 5%nat)) 24)
                      (Z.shiftl (Z_of_byte (header !!! 6%nat)) 16))
               (Z.shiftl (Z_of_byte (header !!! 7%nat)) 8))
        (Z_of_byte (header !!! 8%nat)).

(** [read_until(socket, buffer, '\n')] and [getline]: the text up to the first newline. *)
Definition read_line (input : bytes) : option string :=
  let s := string_of_bytes input in
  match find_char newline s with
  | None => None
  | Some n => Some (substr s 0 n)
  end.

Section server.
Context {W : Type} {S : Sodium} {Sort : StdSort} {Moved : MovedFrom}
  {Req : ProtoMessage V1.ControlRequest} {Resp : ProtoMessage V1.ControlResponse}.

Definition serve_session (protobuf_enabled : bool) (protocol : ControlProtocol) (init now : TimePoint)
    (session : Session) (st : NodeState W) : NodeState W * option bytes :=
  if bool_decide (sess_input session = []) then (st, None)
  else
    let header := peek_header session in
    if (9 <=? sess_peeked session)%nat && is_binary_frame_header header then
      if protobuf_enabled then
        let total := 9 + header_length header in
        if size_of (sess_input session) <? total then (st, None)
        else let '(st', response) := handle_control_frame protocol now (take (Z.to_nat total) (sess_input session)) st in
             (st', Some response)
      else (st, Some (bytes_of_string ("ERR message=protobuf_control_disabled" +:+ nl)))
    else
      match read_line (sess_input session) with
      | None => (st, None)
      | Some line => let '(st', response) := handle_line protocol init now line st in
                     (st', Some (bytes_of_string response))
      end.

(** Serving clients one after the other, as the accept loop does. *)
Definition serve_all (protobuf_enabled : bool) (protocol : ControlProtocol)
    (sessions : list (Session * TimePoint * TimePoint)) (st : NodeState W) : NodeState W :=
  foldl (fun st '(s, init, now) => (serve_session protobuf_enabled protocol init now s st).1) st sessions.

(** ** Lemmas *)

Lemma string_of_bytes_app a b : string_of_bytes (a ++ b) = string_of_bytes a +:+ string_of_bytes b.
Proof.
  induction a as [|x a IH]; [done|]. change (String (Ascii.ascii_of_byte x) (string_of_bytes (a ++ b)) =
    String (Ascii.ascii_of_byte x) (string_of_bytes a +:+ string_of_bytes b)). by rewrite IH.
Qed.

Lemma bytes_of_string_app s t : bytes_of_string (s +:+ t) = bytes_of_string s ++ bytes_of_string t.
Proof.
  rewrite <- (bytes_of_string_of_bytes (bytes_of_string s ++ _)), string_of_bytes_app.
  by rewrite !string_of_bytes_of_string.
Qed.

Lemma read_line_line line rest : no_char newline line = true ->
  read_line (bytes_of_string (line +:+ nl) ++ rest) = Some line.
Proof.
  intros Hl. unfold read_line. rewrite string_of_bytes_app, string_of_bytes_of_string, str_app_assoc.
  change (nl +:+ string_of_bytes rest) with (String newline (string_of_bytes rest)).
  rewrite find_char_app by done. f_equal. apply substring_all.
Qed.

Lemma peek_header_first s i : (i < sess_peeked s)%nat -> session_ok s ->
  peek_header s !!! i = sess_input s !!! i.
Proof.
  intros Hi (_ & Hlen & _). unfold peek_header. rewrite !list_lookup_total_alt.
  rewrite lookup_app_l by (rewrite length_take; lia). by rewrite lookup_take_lt by lia.
Qed.

Lemma serve_text pb protocol init now line s st :
  session_ok s -> no_char newline line = true -> starts_with line "BN" = false ->
  (exists rest, sess_input s = bytes_of_string (line +:+ nl) ++ rest) ->
  serve_session pb protocol init now s st =
  let '(st', response) := handle_line protocol init now line st in (st', Some (bytes_of_string response)).
Proof.
  intros Hok Hl Hbn [rest Hin]. unfold serve_session. rewrite bool_decide_eq_false_2.
  2: { rewrite Hin. by destruct line. }
  assert (Hbin : (9 <=? sess_peeked s)%nat && is_binary_frame_header (peek_header s) = false).
  { apply andb_false_iff. destruct (9 <=? sess_peeked s)%nat eqn:Hp; [right|by left]. apply Nat.leb_le in Hp.
    unfold is_binary_frame_header. rewrite !peek_header_first by (lia || done). rewrite Hin.
    destruct (bool_decide (_ = Byte.x42)) eqn:H0; [|done]. destruct (bool_decide (_ = Byte.x4e)) eqn:H1; [|done].
    exfalso. apply bool_decide_eq_true in H0, H1. revert H0 H1 Hbn. unfold starts_with.
    destruct line as [|c [|d line]]; simpl; [done|by destruct c as [[] [] [] [] [] [] [] []]|].
    intros Hc%(f_equal Ascii.ascii_of_byte) Hd%(f_equal Ascii.ascii_of_byte).
    rewrite Ascii.ascii_of_byte_of_ascii in Hc, Hd. subst. by destruct line. }
  rewrite Hbin, Hin, read_line_line by done. done.
Qed.

Lemma serve_session_ok {L : ProtoLaws V1.ControlRequest} pb protocol init now s st :
  registry_ok (st_registry st) -> registry_ok (st_registry (serve_session pb protocol init now s st).1).
Proof.
  intros Hok. unfold serve_session. case_bool_decide; [done|]. case_match.
  - destruct pb; [|done]. case_match; [done|].
    pose proof (handle_frame_ok protocol now (take (Z.to_nat (9 + header_length (peek_header s))) (sess_input s)) st Hok).
    by destruct (handle_control_frame _ _ _ _).
  - destruct (read_line (sess_input s)) as [line|]; [|done].
    pose proof (handle_line_ok protocol init now line st Hok). by destruct (handle_line _ _ _ _ _).
Qed.

Lemma serve_session_silent pb protocol init now s st st' :
  serve_session pb protocol init now s st = (st', None) -> st' = st.
Proof.
  unfold serve_session. repeat case_match; try done; by intros [= <-].
Qed.

(** ** Properties *)

(** The server is robust: whatever bytes any number of clients send, in whatever pieces
    they arrive, the registry keeps its invariant. *)
Theorem server_keeps_invariant {L : ProtoLaws V1.ControlRequest} pb protocol sessions (st : NodeState W) :
  registry_ok (st_registry st) -> registry_ok (st_registry (serve_all pb protocol sessions st)).
Proof.
  revert st. induction sessions as [|[[s init] now] l IH]; intros st Hok; [done|]. simpl.
  by apply IH, serve_session_ok.
Qed.

(** Text clients are served whatever the build: a line that does not begin with "BN" is
    answered with the response of [handle_line], even if the peek saw only a part of it and
    more bytes follow; and a session that ends without an answer has changed nothing. *)
Theorem server_answers_lines pb protocol init now line s (st : NodeState W) :
  session_ok s -> no_char newline line = true -> starts_with line "BN" = false ->
  (exists rest, sess_input s = bytes_of_string (line +:+ nl) ++ rest) ->
  (serve_session pb protocol init now s st =
     let '(st', response) := handle_line protocol init now line st in (st', Some (bytes_of_string response))) /\
  forall s' st', serve_session pb protocol init now s' st = (st', None) -> st' = st.
Proof. intros. split; [by apply serve_text|intros s' st'; apply serve_session_silent]. Qed.
End server.

Lemma server_keeps_invariant_witness :
  registry_ok (st_registry (@serve_all unit toy_sodium _ libstdcxx_moved_from toy_request toy_response true open_protocol
    [(mkSession (bytes_of_string "BN") 2, 0, 0);
     (mkSession (bytes_of_string ("REGISTER agent_id=a node_id=n endpoint=e revision=4" +:+ nl)) 9, 0, 0)] empty_node)).
Proof.
  apply (@server_keeps_invariant unit toy_sodium _ libstdcxx_moved_from toy_request toy_response (countable_ProtoLaws _)).
  split; constructor.
Defined.

Lemma server_answers_lines_witness :
  let s := mkSession (bytes_of_string ("STATS" +:+ nl)) 3 in
  (@serve_session unit toy_sodium _ libstdcxx_moved_from toy_request toy_response false open_protocol 0 0 s empty_node).2 =
    Some (bytes_of_string ("OK active_agents=0 highest_revision=0" +:+ nl)).
Proof.
  intros s.
  destruct (@server_answers_lines unit toy_sodium _ libstdcxx_moved_from toy_request toy_response false open_protocol 0 0
    "STATS" s empty_node) as [H _].
  - split_and!; simpl; lia || done.
  - reflexivity.
  - reflexivity.
  - exists []. by vm_compute.
  - rewrite H. by vm_compute.
Defined.

(** ** The accept loop on its thread *)

(** A connection: a client that sends its bytes and reads what it gets, with the clock readings
    of its session; one that connects and neither completes a request nor closes; one that
    sends its bytes and never reads, so that a write to it may block. *)
Inductive Connection :=
| Client (s : Session) (init now : TimePoint)
| SilentClient
| DeafClient (s : Session) (init now : TimePoint).

(** Where the worker thread is in [run]. *)
Inductive phase :=
| Binding
| Checking
| Waiting
| Accepted (c : Connection)
| Serving (c : Connection)
| Writing
| Exited.

(** What the accept loop shares: the connections that wait at the acceptor, the node's state
    and the sessions that have ended, with their answers. *)
Record ServerWorld (W : Type) := mkServerWorld {
  backlog : list Connection;
  sw_node : NodeState W;
  served : list (Session * option bytes);
}.
Arguments mkServerWorld {W}.
Arguments backlog {W}.
Arguments sw_node {W}.
Arguments served {W}.

Definition set_backlog {W} (cs : list Connection) (q : ServerWorld W) : ServerWorld W :=
  mkServerWorld cs (sw_node q) (served q).

(** The acceptor exists. *)
Definition listening (p : phase) : bool :=
  match p with Binding | Exited => false | _ => true end.

Section accept_loop.
Context {W : Type} {S : Sodium} {Sort : StdSort} {Moved : MovedFrom}
  {Req : ProtoMessage V1.ControlRequest} {Resp : ProtoMessage V1.ControlResponse}
  (protobuf_enabled : bool) (protocol : ControlProtocol).

Definition serve_client (s : Session) (init now : TimePoint) (q : ServerWorld W) : ServerWorld W :=
  let '(st, response) := serve_session protobuf_enabled protocol init now s (sw_node q) in
  mkServerWorld (backlog q) st (served q ++ [(s, response)]).

(** The same session, up to the write that does not return: the request has been executed. *)
Definition execute_request (s : Session) (init now : TimePoint) (q : ServerWorld W) : ServerWorld W :=
  mkServerWorld (backlog q) (serve_session protobuf_enabled protocol init now s (sw_node q)).1 (served q).

(** The steps of [run].  Binding and accepting may throw, which ends it. *)
Inductive accept_step : bool -> phase -> ServerWorld W -> phase -> ServerWorld W -> Prop :=
| WBound stop q : accept_step stop Binding q Checking (set_backlog [] q)
| WBindFailed stop q : accept_step stop Binding q Exited q
| WCheck q : accept_step false Checking q Waiting q
| WLeave q : accept_step true Checking q Exited q
| WAccept stop c cs q : backlog q = c :: cs -> accept_step stop Waiting q (Accepted c) (set_backlog cs q)
| WAcceptFailed stop q : accept_step stop Waiting q Exited q
| WServe c q : accept_step false (Accepted c) q (Serving c) q
| WSkip c q : accept_step true (Accepted c) q Checking q
| WDone stop s init now q :
    accept_step stop (Serving (Client s init now)) q Checking (serve_client s init now q)
| WDoneUnread stop s init now q :
    accept_step stop (Serving (DeafClient s init now)) q Checking (serve_client s init now q)
| WStalls stop s init now q :
    accept_step stop (Serving (DeafClient s init now)) q Writing (execute_request s init now q).

(** [stop] connects to the server and closes the connection at once.  Every failure is
    swallowed: besides a server that does not listen yet, the backlog may be full, or the
    process may be out of sockets or ports. *)
Definition wake_connection (t : TimePoint) : Connection := Client (mkSession [] 0) t t.
Inductive connect_wake : phase -> ServerWorld W -> ServerWorld W -> Prop :=
| WakeQueued p t q : listening p = true -> connect_wake p q (set_backlog (backlog q ++ [wake_connection t]) q)
| WakeFailed p q : connect_wake p q q.

(** Clients connect; other threads change the node's state. *)
Inductive server_outside : option phase -> ServerWorld W -> ServerWorld W -> Prop :=
| Connects p c q : listening p = true -> server_outside (Some p) q (set_backlog (backlog q ++ [c]) q)
| NodeChanges w st q : server_outside w q (mkServerWorld (backlog q) st (served q)).

#[export] Instance accept_loop : WorkerLoop phase (ServerWorld W) := {|
  run_entry := Binding;
  run_returned := Exited;
  wstep := accept_step;
  wake := connect_wake;
  outside := server_outside;
|}.

(** The constructor, and [start]. *)
Definition new_control_server (st : NodeState W) : Service phase (ServerWorld W) := new_service (mkServerWorld [] st []).
Definition control_server_start : Service phase (ServerWorld W) -> Service phase (ServerWorld W) := start.

Definition accept_drain (p : phase) : nat :=
  match p with
  | Waiting => 3 | Accepted _ => 2 | Binding => 2 | Serving _ => 2 | Checking => 1 | Writing => 1 | Exited => 0
  end.

Definition in_session (p : phase) : nat := match p with Serving _ => 1 | _ => 0 end.

(** The loop is not kept by anybody: it does not wait for a connection that is not there, and is
    not in a session whose client does not send or does not read. *)
Definition accept_ready (p : phase) (q : ServerWorld W) : Prop :=
  match p with
  | Waiting => backlog q <> []
  | Serving (Client _ _ _) => True
  | Serving _ | Writing => False
  | _ => True
  end.

Lemma served_serve_client s init now q : length (served (serve_client s init now q)) = (length (served q) + 1)%nat.
Proof. unfold serve_client. destruct (serve_session _ _ _ _ _ _). simpl. by rewrite length_app. Qed.

Lemma accept_ready_progress p q : accept_ready p q -> p = Exited \/ exists p' q', accept_step true p q p' q'.
Proof.
  destruct p as [| | |c|[s init now| |s init now]| |]; simpl; intros Hr; try done; [right..|by left].
  - eexists _, _. apply WBound.
  - eexists _, _. apply WLeave.
  - destruct (backlog q) as [|c cs] eqn:Hb; [done|]. eexists _, _. by eapply WAccept.
  - eexists _, _. apply WSkip.
  - eexists _, _. apply WDone.
Qed.

#[export] Program Instance accept_loop_laws : WorkerLaws := {|
  drain := accept_drain;
  blocked p := p = Serving SilentClient \/ p = Writing;
  ready := accept_ready;
  busy := in_session;
  completed q := length (served q);
  ready_progress := accept_ready_progress;
|}.
Next Obligation. intros p q p' q' H. inversion H; subst; simpl; lia. Qed.
Next Obligation. intros p q p' q' Hr H. inversion H; subst; simpl in *; done. Qed.
Next Obligation.
  intros p q q' Hr H. inversion H as [p0 c q0 Hl|w st q0]; subst; [|done]. destruct p as [| | | |[]| |]; simpl in *; try done.
  by destruct (backlog q).
Qed.
Next Obligation. intros p q. eexists. apply WakeFailed. Qed.
Next Obligation. intros b p q p' q' [-> | ->] H; inversion H. Qed.
Next Obligation. intros p q p' q' H. inversion H; subst; simpl; rewrite ?served_serve_client; lia. Qed.
Next Obligation. intros w q q' H. by inversion H. Qed.


Lemma waiting_stays s s' : owner s = StopJoining -> worker_ s = Some Waiting -> backlog (shared s) = [] ->
  rtc service_step s s' ->
  (owner s' = StopJoining /\ worker_ s' = Some Waiting /\ backlog (shared s') = [] /\ served (shared s') = served (shared s)) \/
  (exists s1 s2, rtc service_step s s1 /\ service_step s1 s2 /\ worker_ s1 = Some Waiting /\ backlog (shared s1) = [] /\
     (worker_ s2 = Some Exited \/ backlog (shared s2) <> [])).
Proof.
  intros Ho Hp Hb Hr. pattern s'. revert s' Hr. apply rtc_ind_r; [by left|].
  intros s1 s2 Hr1 Hstep [(Ho1 & Hp1 & Hb1 & Hs1)|IH]; [|by right].
  destruct Hstep as [s1 Hi|s1 Hi|b q1|b p1 q1 q' Hw|b q1|b p1 q1 p' q' o Hw|b w q1 q' o Hout]; simpl in *; simplify_eq; try congruence.
  - inversion Hw as [| | | |? ? ? ? Hback| | | | | |]; subst; [congruence|]. right.
    eexists (mkService b (Some Waiting) q' StopJoining), (mkService b (Some Exited) q' StopJoining).
    split; [exact Hr1|]. split; [by apply WorkerMoves, WAcceptFailed|]. simpl. auto.
  - inversion Hout as [p c q0 Hl|w st q0]; subst; [|by left]. right.
    eexists (mkService b (Some Waiting) q1 StopJoining), (mkService b (Some Waiting) (set_backlog (backlog q1 ++ [c]) q1) StopJoining).
    split; [exact Hr1|]. split; [by apply OutsideMoves, Connects|]. simpl. rewrite Hb1. auto.
Qed.

(** A wake-up that fails hangs [stop]: a server that was started and idles can reach a state, with
    [stop] waiting in [join] and nobody connected, in which the loop waits for a connection; and
    from there it stays so until some client connects or [accept] fails by itself. *)
Theorem failed_wake_hangs_stop (q : ServerWorld W) :
  exists s, rtc service_step (new_service q) s /\ owner s = StopJoining /\ worker_ s = Some Waiting /\ backlog (shared s) = [] /\
  forall s', rtc service_step s s' -> owner s' = StopJoining \/
    exists s1 s2, rtc service_step s s1 /\ service_step s1 s2 /\ worker_ s1 = Some Waiting /\ backlog (shared s1) = [] /\
      (worker_ s2 = Some Exited \/ backlog (shared s2) <> []).
Proof.
  set (q2 := set_backlog [] q). exists (mkService true (Some Waiting) q2 StopJoining). split_and!; [|done..|].
  - apply (rtc_l _ _ (mkService false (Some Binding) q OwnerIdle)); [exact (CallStart (new_service q) eq_refl)|].
    apply (rtc_l _ _ (mkService false (Some Checking) q2 OwnerIdle)); [apply WorkerMoves, WBound|].
    apply (rtc_l _ _ (mkService false (Some Waiting) q2 OwnerIdle)); [apply WorkerMoves, WCheck|].
    apply (rtc_l _ _ (mkService true (Some Waiting) q2 StopCalled)); [exact (CallStop (mkService false (Some Waiting) q2 OwnerIdle) eq_refl)|].
    apply rtc_once, StopWake, WakeFailed.
  - intros s' Hr. destruct (waiting_stays (mkService true (Some Waiting) q2 StopJoining) s' eq_refl eq_refl eq_refl Hr) as [(? & _)|?]; auto.
Qed.

(** One client that connects and sends nothing takes the whole control port out of service: a
    server that was started can reach a state, with [stop] waiting in [join], after which it
    serves no session and [stop] does not return, whatever other clients do. *)
Theorem silent_client_blocks_server (q : ServerWorld W) :
  exists s, rtc service_step (new_service q) s /\ owner s = StopJoining /\
  forall s', rtc service_step s s' -> owner s' = StopJoining /\ length (served (shared s')) = length (served (shared s)).
Proof.
  set (q1 := set_backlog [SilentClient] q). set (q2 := set_backlog [] q).
  set (q3 := set_backlog [wake_connection 0] q).
  exists (mkService true (Some (Serving SilentClient)) q3 StopJoining). split_and!; [|done|].
  - apply (rtc_l _ _ (mkService false (Some Binding) q OwnerIdle)); [exact (CallStart (new_service q) eq_refl)|].
    apply (rtc_l _ _ (mkService false (Some Checking) q2 OwnerIdle)); [apply WorkerMoves, WBound|].
    apply (rtc_l _ _ (mkService false (Some Checking) q1 OwnerIdle)).
    { apply OutsideMoves. by apply (Connects Checking SilentClient q2). }
    apply (rtc_l _ _ (mkService false (Some Waiting) q1 OwnerIdle)); [apply WorkerMoves, WCheck|].
    apply (rtc_l _ _ (mkService false (Some (Accepted SilentClient)) q2 OwnerIdle)).
    { apply WorkerMoves. by apply (WAccept _ _ [] q1). }
    apply (rtc_l _ _ (mkService false (Some (Serving SilentClient)) q2 OwnerIdle)); [apply WorkerMoves, WServe|].
    apply (rtc_l _ _ (mkService true (Some (Serving SilentClient)) q2 StopCalled)).
    { exact (CallStop (mkService false (Some (Serving SilentClient)) q2 OwnerIdle) eq_refl). }
    apply rtc_once, StopWake. by apply (WakeQueued (Serving SilentClient) 0 q2).
  - set (s := mkService _ _ _ _). intros s' Hr. destruct (blocked_stays (Laws := accept_loop_laws) s s' (Serving SilentClient) eq_refl eq_refl (or_introl eq_refl) ltac:(done) Hr) as (? & _ & ?).
    split; done.
Qed.
End accept_loop.

Definition ex_server_world : ServerWorld unit := mkServerWorld [] empty_node [].

