(* ===== verification/SyncClient.v ===== *)
(** * The synchronisation client: [src/src/beacon_net/sync_client.hpp], [sync_client.cpp]

    A round with a peer: ask for its highest revision, pull what is newer than the local
    highest revision, merge it, push what is newer than the peer's.  The TCP exchange is an
    interface ([Transport]); [beacon_peer] is the instance in which the other end is a node
    that runs the control server, so that a round between two nodes can be proved end to end.
    The clock is read once per AGENT line of a response ([clock i] for line [i]). *)

From S2P Require Import Prelude CxxString CxxContainers Types Sodium SecureBuffer Crypto IdentityService AgentRegistry RegistrySpec RegistryProps ControlProtocol ControlProps Protobuf ControlProtobuf ControlServer RegistrySync.

(** ** Definitions *)

Record SyncPeer := mkSyncPeer {
  peer_host : string;
  peer_control_port : Z;
}.

Record SyncResult := mkSyncResult {
  pulled : Z;
  pushed : Z;
}.

Record SyncClient := mkSyncClient { max_entries_per_round_ : Z }.

(** The local helpers. *)
Definition field_value (token : string) : string := after_equals token.
Definition client_parse_revision (value : string) (rev : Z) : Z * bool := parse_unsigned uint64_max value rev.

(** One token of an AGENT line; the outcome of [parse_revision] is ignored. *)
Definition parse_agent_token (token : string) (record : AgentRecord) : AgentRecord :=
  if starts_with token "agent_id=" then set_agent_id (field_value token) record
  else if starts_with token "node_id=" then set_node_id (field_value token) record
  else if starts_with token "endpoint=" then set_endpoint (field_value token) record
  else if starts_with token "revision=" then
    set_revision (client_parse_revision (field_value token) (revision record)).1 record
  else if starts_with token "public_key=" then set_public_key_hex (field_value token) record
  else if starts_with token "signature=" then set_signature_hex (field_value token) record
  else if starts_with token "metadata." then
    match find_char "="%char token with
    | Some equals =>
        set_metadata (<[substr token 9 (equals - 9) := substr_from token (S equals)]> (metadata record)) record
    | None => record
    end
  else record.

Definition parse_agent_line (now : TimePoint) (line : string) : option AgentRecord :=
  match tokens line with
  | word :: rest =>
      if bool_decide (word = "AGENT") then
        let record := foldl (fun r t => parse_agent_token t r) (default_AgentRecord (now + minutes 1)) rest in
        if str_empty (agent_id record) then None else Some record
      else None
  | [] => None
  end.

Fixpoint parse_lines (clock : nat -> TimePoint) (lines : list string) : list AgentRecord :=
  match lines with
  | [] => []
  | line :: rest => option_list (parse_agent_line (clock O) line) ++ parse_lines (fun i => clock (S i)) rest
  end.

Definition parse_agent_lines (clock : nat -> TimePoint) (response : string) : list AgentRecord :=
  parse_lines clock (getlines response).

Fixpoint highest_revision_token (ts : list string) : Z :=
  match ts with
  | [] => 0
  | t :: ts' => if starts_with t "highest_revision=" then (client_parse_revision (field_value t) 0).1
                else highest_revision_token ts'
  end.
Definition parse_highest_revision (response : string) : Z := highest_revision_token (tokens response).

(** How [read] to the end of the stream ended, and what a connection can come to. *)
Inductive read_ec := read_success | read_eof | read_failed.
Inductive exchange := ConnectFailed | WriteFailed | Received (response : string) (ec : read_ec).

Class Transport (N : Type) := tcp_exchange : SyncPeer -> string -> N -> N * exchange.

(** [None] is the exception. *)
Definition send_command {N} {T : Transport N} (peer : SyncPeer) (command : string) (net : N) : N * option string :=
  match tcp_exchange peer (command +:+ nl) net with
  | (net', ConnectFailed) | (net', WriteFailed) | (net', Received _ read_failed) => (net', None)
  | (net', Received response _) => (net', Some response)
  end.

Section client.
Context {W : Type} {S : Sodium} {Sort : StdSort} {N : Type} {T : Transport N}.

Definition merge_response (clock : nat -> TimePoint) (response : string) (st : NodeState W) : NodeState W * Z :=
  let '(reg, w, identity, n) := merge (parse_agent_lines clock response) (st_identity st) (st_registry st) (st_world st) in
  (mkNodeState reg w identity, n).

Fixpoint push_entries (peer : SyncPeer) (entries : list AgentRecord) (net : N) : N * option Z :=
  match entries with
  | [] => (net, Some 0)
  | entry :: rest =>
      match send_command peer (encode_merge_command entry) net with
      | (net', None) => (net', None)
      | (net', Some response) =>
          match push_entries peer rest net' with
          | (net'', None) => (net'', None)
          | (net'', Some n) => (net'', Some (if starts_with response "OK" then n + 1 else n))
          end
      end
  end.

(** The local state is kept when a later step throws. *)
Definition sync_with_peer (this : SyncClient) (peer : SyncPeer) (clock : nat -> TimePoint) (st : NodeState W) (net : N)
    : NodeState W * N * option SyncResult :=
  let local_rev := highest_revision (stats (st_registry st)) in
  match send_command peer "STATS" net with
  | (net, None) => (st, net, None)
  | (net, Some remote_stats) =>
      let remote_rev := parse_highest_revision remote_stats in
      match send_command peer (encode_sync_pull_command local_rev (max_entries_per_round_ this)) net with
      | (net, None) => (st, net, None)
      | (net, Some response) =>
          let '(st, n_pulled) := merge_response clock response st in
          let local_plan := plan_push_pull (mkRegistrySync (max_entries_per_round_ this)) (st_registry st) remote_rev in
          match push_entries peer (push_entries_of local_plan) net with
          | (net, None) => (st, net, None)
          | (net, Some n_pushed) => (st, net, Some (mkSyncResult n_pulled n_pushed))
          end
      end
  end.
End client.

(** ** Reading a response *)

Lemma parse_agent_token_metadata k v r : no_char "="%char k = true ->
  parse_agent_token ("metadata." +:+ k +:+ "=" +:+ v) r = set_metadata (<[k := v]> (metadata r)) r.
Proof.
  intros Hk. unfold parse_agent_token. resolve_prefix. cbn match.
  change ("=" +:+ v) with (String "=" v).
  replace ("metadata." +:+ k +:+ String "=" v) with (("metadata." +:+ k) +:+ String "=" v)
    by by rewrite str_app_assoc.
  rewrite find_char_app by (unfold no_char in *; by rewrite str_forall_app, Hk).
  rewrite substr_from_after. rewrite str_length_app, str_app_assoc.
  replace (String.length "metadata." + String.length k - 9)%nat with (String.length k) by (simpl; lia).
  pose proof (substr_mid "metadata." k (String "=" v)) as Hsub.
  change (String.length "metadata.") with 9%nat in Hsub. by rewrite Hsub.
Qed.

Lemma parse_tokens_metadata l r : Forall (fun kv => no_char "="%char kv.1 = true) l ->
  foldl (fun r t => parse_agent_token t r) r ((fun kv => "metadata." +:+ kv.1 +:+ "=" +:+ kv.2) <$> l) =
  set_metadata (map_store (metadata r) l) r.
Proof.
  intros Hl. revert r. induction Hl as [|[k v] l Hk _ IH]; intros r; csimpl.
  - by destruct r.
  - rewrite parse_agent_token_metadata by done. by rewrite IH.
Qed.

Lemma parse_tokens_optional name v r (upd : string -> AgentRecord -> AgentRecord) :
  parse_agent_token (name +:+ v) r = upd v r -> upd "" r = r ->
  foldl (fun r t => parse_agent_token t r) r (optional_field name v) = upd v r.
Proof.
  intros H1 H0. unfold optional_field. destruct (str_empty v) eqn:Hv; [|done].
  apply str_empty_true in Hv as ->. by rewrite H0.
Qed.

Lemma field_value_literal lit v : key_literal lit -> field_value (lit +:+ v) = v.
Proof. apply after_equals_literal. Qed.

Lemma parse_tokens_required r b : u64 (revision r) ->
  foldl (fun r t => parse_agent_token t r) b
    ["agent_id=" +:+ agent_id r; "node_id=" +:+ node_id r; "endpoint=" +:+ endpoint r;
     "revision=" +:+ to_string (revision r)]%string =
  mkAgentRecord (agent_id r) (node_id r) (endpoint r) (metadata b) (revision r) (expires_at b) (public_key_hex b) (signature_hex b).
Proof.
  intros Hr. cbn [foldl]. unfold parse_agent_token. resolve_prefix. cbn match.
  rewrite !field_value_literal by done.
  unfold client_parse_revision. by rewrite parse_unsigned_to_string by (unfold uint64_max; lia).
Qed.

(** The fields of a record, read back on top of one without metadata, key and signature. *)
Lemma parse_tokens_record r b : line_ok r -> metadata b = ∅ -> public_key_hex b = "" -> signature_hex b = "" ->
  foldl (fun r t => parse_agent_token t r) b (record_fields r) = set_expires_at (expires_at b) r.
Proof.
  intros (_ & _ & _ & _ & _ & Hr & Hm) Hmd Hpk Hsg. unfold record_fields.
  rewrite !foldl_app, parse_tokens_required by done. rewrite Hmd, Hpk, Hsg.
  rewrite (parse_tokens_optional "public_key=" _ _ set_public_key_hex); [|
    unfold parse_agent_token; resolve_prefix; cbn match; by rewrite field_value_literal|done].
  rewrite (parse_tokens_optional "signature=" _ _ set_signature_hex); [|
    unfold parse_agent_token; resolve_prefix; cbn match; by rewrite field_value_literal|done].
  unfold metadata_fields. rewrite parse_tokens_metadata.
  - simpl. by rewrite map_store_items.
  - apply Forall_forall. intros [k v] Hkv%elem_of_map_items. by apply (Hm k v).
Qed.

Lemma parse_agent_line_record now r : line_ok r ->
  parse_agent_line now ("AGENT" +:+ fields_text (record_fields r)) = Some (set_expires_at (now + minutes 1) r).
Proof.
  intros Hr. unfold parse_agent_line. rewrite <- (str_app_nil_r (_ +:+ _)), str_app_assoc.
  rewrite tokens_fields by auto using record_fields_words. rewrite app_nil_r.
  rewrite bool_decide_true, parse_tokens_record by done. simpl.
  destruct Hr as ([Ha%str_empty_false _]%is_word_spec & _). by rewrite Ha.
Qed.

Lemma no_space_no_newline s : no_space s = true -> no_char newline s = true.
Proof.
  intros Hs. eapply str_forall_impl; [|exact Hs]. intros c Hc.
  apply negb_true_iff, bool_decide_eq_false. intros ->. by vm_compute in Hc.
Qed.

Lemma fields_text_no_newline fs : Forall (fun f => is_word f = true) fs -> no_char newline (fields_text fs) = true.
Proof.
  induction 1 as [|f fs [_ Hf%no_space_no_newline]%is_word_spec _ IH]; [done|].
  cbn [fields_text foldr]. fold (fields_text fs). unfold no_char in *. rewrite !str_forall_app, Hf, IH. done.
Qed.

Lemma agent_line_no_newline r : line_ok r -> no_char newline ("AGENT" +:+ fields_text (record_fields r)) = true.
Proof.
  intros Hr%record_fields_words%fields_text_no_newline. unfold no_char in *. by rewrite str_forall_app, Hr.
Qed.

(** The text of a LIST or SYNC_PULL answer. *)
Definition agents_response (head : string) (rs : list AgentRecord) : string :=
  head +:+ nl +:+ encode_agent_lines rs +:+ "END" +:+ nl.

Lemma unlines_cons l ls : unlines (l :: ls) = l +:+ nl +:+ unlines ls.
Proof. done. Qed.

Lemma encode_agent_lines_unlines rs :
  encode_agent_lines rs = unlines ((fun r => "AGENT" +:+ fields_text (record_fields r)) <$> rs).
Proof.
  unfold encode_agent_lines. induction rs as [|r rs IH]; [done|].
  rewrite fmap_cons, unlines_cons, <- IH. cbn [foldr]. rewrite encode_agent_line_fields. by autorewrite with str.
Qed.

Lemma parse_lines_app clock ls ks :
  parse_lines clock (ls ++ ks) = parse_lines clock ls ++ parse_lines (fun i => clock (length ls + i)%nat) ks.
Proof.
  revert clock. induction ls as [|l ls IH]; intros clock; [done|]. simpl. by rewrite IH, <- app_assoc.
Qed.

Lemma parse_lines_agents clock rs : Forall line_ok rs ->
  parse_lines clock ((fun r => "AGENT" +:+ fields_text (record_fields r)) <$> rs) =
  imap (fun i r => set_expires_at (clock i + minutes 1) r) rs.
Proof.
  intros Hrs. revert clock. induction Hrs as [|r rs Hr _ IH]; intros clock; [done|].
  rewrite fmap_cons, imap_cons. cbn [parse_lines]. rewrite parse_agent_line_record, IH by done. done.
Qed.

(** A client reads the records of an answer back, each with an expiry of its own. *)
Lemma parse_agents_response clock head rs :
  no_char newline head = true -> (forall now, parse_agent_line now head = None) -> Forall line_ok rs ->
  parse_agent_lines clock (agents_response head rs) =
  imap (fun i r => set_expires_at (clock (S i) + minutes 1) r) rs.
Proof.
  intros Hh Hok Hrs. unfold parse_agent_lines, agents_response.
  replace (head +:+ nl +:+ encode_agent_lines rs +:+ "END" +:+ nl)
    with (unlines (head :: ((fun r => "AGENT" +:+ fields_text (record_fields r)) <$> rs) ++ ["END"]%string)).
  2: { rewrite encode_agent_lines_unlines, unlines_cons, unlines_app. by autorewrite with str. }
  rewrite getlines_unlines.
  2: { constructor; [done|]. apply Forall_app_2; [|by repeat constructor].
       apply Forall_fmap. eapply Forall_impl; [exact Hrs|]. apply agent_line_no_newline. }
  cbn [parse_lines]. rewrite parse_lines_app, parse_lines_agents by done.
  rewrite Hok. simpl. by rewrite app_nil_r.
Qed.

(** ** A peer that runs the control server *)

Lemma merge_elem {W} {S : Sodium} rs identity (reg : AgentRegistry W) w x :
  x ∈ records_ (merge rs identity reg w).1.1.1 -> x ∈ records_ reg \/ x ∈ rs.
Proof.
  induction rs as [|r rs IH] using rev_ind; [by left|]. rewrite merge_snoc.
  destruct (merge rs identity reg w) as [[[reg1 w1] id1] n]; simpl in *. unfold merge_one.
  destruct (match id1 with None => _ | Some _ => _ end) as [id2 skip]. destruct skip; simpl.
  - intros [?|?]%IH; [by left|set_solver].
  - pose proof (upsert_elem r reg1 w1 x) as Hup. destruct (upsert r reg1 w1) as [[reg2 w2] ok]; simpl in *.
    intros [-> |Hx]%Hup; [set_solver|]. destruct (IH Hx); [by left|set_solver].
Qed.


Section pages.
Context {W : Type} {S : Sodium} {Sort : StdSort}.

Lemma entries_after_elem rev lim (reg : AgentRegistry W) x :
  x ∈ entries_after_revision rev lim reg -> x ∈ records_ reg /\ rev < revision x.
Proof.
  intros Hx. assert (Hs : x ∈ std_sort (fun l r => revision l <? revision r) (newer rev reg)).
  { unfold entries_after_revision in Hx. case_match; [|done]. unfold shrink_to in Hx.
    by eapply elem_of_take in Hx as (? & ? & _); eapply list_elem_of_lookup_2. }
  rewrite std_sort_perm in Hs. by apply list_elem_of_filter in Hs as [? ?].
Qed.

Lemma stats_u64 (reg : AgentRegistry W) : registry_ok reg -> u64 (highest_revision (stats reg)).
Proof.
  intros [_ Hu]. unfold stats. cbn [highest_revision].
  destruct (foldl_max_spec (records_ reg) 0) as (Hge & _ & Hex). simpl in *.
  destruct Hex as [-> |(r & Hr & <-)]; [lia|]. by eapply Forall_forall in Hu.
Qed.

(** What the pull merges locally. *)
Definition stamped (clock : nat -> TimePoint) (page : list AgentRecord) : list AgentRecord :=
  imap (fun i r => set_expires_at (clock (Datatypes.S i) + minutes 1) r) page.

Lemma stamped_elem clock page x : x ∈ stamped clock page -> exists ex r, r ∈ page /\ x = set_expires_at ex r.
Proof.
  intros (i & r & -> & Hr)%elem_of_lookup_imap_1. eexists _, r. split; [by eapply list_elem_of_lookup_2|done].
Qed.

Lemma entries_after_none rev lim (reg : AgentRegistry W) :
  (forall r, r ∈ records_ reg -> revision r <= rev) -> entries_after_revision rev lim reg = [].
Proof.
  intros Hle. destruct (entries_after_revision rev lim reg) as [|x l] eqn:He; [done|].
  assert (Hx : x ∈ entries_after_revision rev lim reg) by (rewrite He; set_solver).
  apply entries_after_elem in Hx as [Hx Hlt]. specialize (Hle x Hx). lia.
Qed.

Lemma stats_bound (reg : AgentRegistry W) r : r ∈ records_ reg -> revision r <= highest_revision (stats reg).
Proof. intros Hr. unfold stats; simpl. by apply foldl_max_spec. Qed.

Lemma entries_after_all rev (reg : AgentRegistry W) : entries_after_revision rev 0 reg ≡ₚ newer rev reg.
Proof. unfold entries_after_revision. simpl. apply std_sort_perm. Qed.

Lemma key_conflict_refl k : key_conflict k k = false.
Proof. unfold key_conflict. rewrite bool_decide_eq_false_2 by naive_solver. by rewrite andb_false_r. Qed.

Lemma key_conflict_sym k1 k2 : key_conflict k1 k2 = key_conflict k2 k1.
Proof.
  unfold key_conflict. rewrite (bool_decide_ext (k1 <> k2) (k2 <> k1)) by naive_solver.
  by rewrite (andb_comm (negb (str_empty k1))).
Qed.

Lemma NoDup_agent_inj rs (r1 r2 : AgentRecord) :
  NoDup (agent_id <$> rs) -> r1 ∈ rs -> r2 ∈ rs -> agent_id r1 = agent_id r2 -> r1 = r2.
Proof.
  intros Hnd H1 H2 Heq. apply (elem_by_id rs r1 Hnd) in H1. apply (elem_by_id rs r2 Hnd) in H2. congruence.
Qed.

Lemma stamped_elem_of clock page r : r ∈ page -> exists ex, set_expires_at ex r ∈ stamped clock page.
Proof.
  intros [i Hi]%list_elem_of_lookup_1. eexists. unfold stamped. eapply list_elem_of_lookup_2.
  rewrite list_lookup_imap, Hi. done.
Qed.

(** If a page has one registration of an agent, newer than the stored one and not in conflict
    with its key, merging the page stores it. *)
Lemma page_says_newest clock page (reg : AgentRegistry W) r :
  r ∈ page -> (forall r', r' ∈ page -> agent_id r' = agent_id r -> r' = r) ->
  (forall e, by_id (records_ reg) !! agent_id r = Some e -> key_conflict (public_key_hex e) (public_key_hex r) = false) ->
  (forall e, by_id (records_ reg) !! agent_id r = Some e -> revision e < revision r) ->
  exists ex, spec_merge (stamped clock page) (by_id (records_ reg)) !! agent_id r = Some (set_expires_at ex r).
Proof.
  intros Hr Huniq Hkey Hnew. set (m := by_id (records_ reg)) in *.
  assert (Hsays : forall x, says m (stamped clock page) (agent_id r) x ->
    m !! agent_id r = Some x \/ exists ex, x = set_expires_at ex r).
  { intros x [Hx|[(ex & r' & Hr' & ->)%stamped_elem Hid]]; [by left|right]. exists ex. f_equal. by apply Huniq. }
  pose proof (spec_merge_newest (stamped clock page) m (agent_id r) (by_id_keyed _)) as Hmax.
  destruct (stamped_elem_of clock page r Hr) as [ex Hex].
  assert (Hsr : says m (stamped clock page) (agent_id r) (set_expires_at ex r)) by by right.
  destruct (spec_merge _ m !! agent_id r) as [e|].
  - destruct Hmax as [He Hle].
    { intros x y [Hx|[ex1 ->]]%Hsays [Hy|[ex2 ->]]%Hsays; simpl; auto using key_conflict_refl.
      - assert (x = y) as -> by congruence. apply key_conflict_refl.
      - rewrite key_conflict_sym. auto. }
    specialize (Hle _ Hsr). simpl in Hle. apply Hsays in He as [He|[ex' ->]]; [|eauto].
    apply Hnew in He. lia.
  - exfalso. eapply Hmax; [|exact Hsr].
    intros x y [Hx|[ex1 ->]]%Hsays [Hy|[ex2 ->]]%Hsays; simpl; auto using key_conflict_refl.
    + assert (x = y) as -> by congruence. apply key_conflict_refl.
    + rewrite key_conflict_sym. auto.
Qed.
End pages.

Section two_nodes.
Context {W : Type} {S : Sodium} {Sort : StdSort} {Moved : MovedFrom}
  {Req : ProtoMessage V1.ControlRequest} {Resp : ProtoMessage V1.ControlResponse}.

(** The peer's settings; its clock at its [n]-th connection, and how much of the [n]-th
    request its first [receive] returns. *)
Context (pb : bool) (protocol : ControlProtocol) (peer_clock : nat -> TimePoint) (peek : nat -> bytes -> nat).
Context (peek_ok : forall n bs, session_ok (mkSession bs (peek n bs))).

Record PeerNode := mkPeerNode {
  peer_state : NodeState W;
  peer_connections : nat;
}.

(** One connection: the peer's server answers and closes it. *)
Definition beacon_peer : Transport PeerNode := fun _ request node =>
  let n := peer_connections node in
  let session := mkSession (bytes_of_string request) (peek n (bytes_of_string request)) in
  let '(st, out) := serve_session pb protocol (peer_clock n) (peer_clock n) session (peer_state node) in
  (mkPeerNode st (Datatypes.S n), Received (string_of_bytes (default [] out)) read_eof).

(** The MERGE commands a peer gets from its [n]-th connection on, and how many it accepts. *)
Fixpoint receive_merges (n : nat) (entries : list AgentRecord) (st : NodeState W) : NodeState W * Z :=
  match entries with
  | [] => (st, 0)
  | r :: rest =>
      let expiring := set_expires_at (peer_clock n + milliseconds (heartbeat_ttl (lifecycle_ protocol))) r in
      let '(st1, resp) := handle_store protocol expiring "OK message=merged" st in
      let '(st2, k) := receive_merges (Datatypes.S n) rest st1 in
      (st2, if starts_with resp "OK" then k + 1 else k)
  end.

Lemma send_line peer line node :
  no_char newline line = true -> starts_with line "BN" = false ->
  @send_command _ beacon_peer peer line node =
  let '(st, resp) := handle_line protocol (peer_clock (peer_connections node)) (peer_clock (peer_connections node)) line (peer_state node) in
  (mkPeerNode st (Datatypes.S (peer_connections node)), Some resp).
Proof.
  intros Hl Hbn. unfold send_command, tcp_exchange, beacon_peer.
  rewrite (serve_text pb protocol _ _ line) by (try done; exists []; by rewrite app_nil_r).
  destruct (handle_line _ _ _ _ _) as [st resp]; simpl. by rewrite string_of_bytes_of_string.
Qed.

Lemma merge_command_line r : line_ok r ->
  no_char newline (encode_merge_command r) = true /\ starts_with (encode_merge_command r) "BN" = false.
Proof.
  intros Hr. rewrite encode_merge_command_fields. split; [|done].
  apply record_fields_words, fields_text_no_newline in Hr. unfold no_char in *. by rewrite str_forall_app, Hr.
Qed.

Lemma sync_pull_line after lim : 0 <= after -> 0 <= lim ->
  no_char newline (encode_sync_pull_command after lim) = true /\
  starts_with (encode_sync_pull_command after lim) "BN" = false.
Proof.
  intros Ha Hl. split; [|done]. unfold encode_sync_pull_command.
  pose proof (to_string_no_char newline after Ha eq_refl) as H1.
  pose proof (to_string_no_char newline lim Hl eq_refl) as H2.
  unfold no_char in *. rewrite !str_forall_app, H1, H2. done.
Qed.

Lemma push_entries_peer peer entries node : Forall line_ok entries ->
  @push_entries _ beacon_peer peer entries node =
  let '(st, k) := receive_merges (peer_connections node) entries (peer_state node) in
  (mkPeerNode st (peer_connections node + length entries), Some k).
Proof.
  intros Hes. revert node. induction Hes as [|r rs Hr _ IH]; intros [st n]; simpl; [by rewrite Nat.add_0_r|].
  destruct (merge_command_line r Hr) as [Hnl Hbn]. rewrite send_line by done. simpl.
  unfold handle_line. rewrite parse_merge_command by done. cbn [error negb str_empty action registration].
  destruct (handle_store _ _ _ st) as [st1 resp]. rewrite IH. simpl.
  destruct (receive_merges (Datatypes.S n) rs st1) as [st2 k]. do 2 f_equal. lia.
Qed.

Lemma parse_stats_response a h : 0 <= a -> u64 h ->
  parse_highest_revision ("OK active_agents=" +:+ to_string a +:+ " highest_revision=" +:+ to_string h +:+ nl) = h.
Proof.
  intros Ha Hh. unfold parse_highest_revision.
  assert (Hn : forall n, 0 <= n -> no_space (to_string n) = true).
  { intros n Hn. by apply is_word_no_space_line, to_string_word. }
  replace (tokens _) with ["OK"; "active_agents=" +:+ to_string a; "highest_revision=" +:+ to_string h]%string.
  - cbn [highest_revision_token]. resolve_prefix. cbn match. rewrite field_value_literal by done.
    unfold client_parse_revision. by rewrite parse_unsigned_to_string by (unfold uint64_max; lia).
  - symmetry. etrans; [|apply (tokens_fields "OK" ["active_agents=" +:+ to_string a; "highest_revision=" +:+ to_string h] nl)].
    + f_equal. unfold fields_text. cbn [foldr]. by autorewrite with str.
    + done.
    + repeat constructor; apply word_after_prefix; try done; apply Hn; lia.
    + done.
Qed.

Lemma set_expires_line_ok ex r : line_ok r -> line_ok (set_expires_at ex r).
Proof. done. Qed.

(** The round of two nodes, step by step. *)
Lemma sync_round_spec this peer clock (st : NodeState W) node :
  registry_ok (st_registry (peer_state node)) -> registry_ok (st_registry st) ->
  Forall line_ok (records_ (st_registry st)) -> Forall line_ok (records_ (st_registry (peer_state node))) ->
  u64 (max_entries_per_round_ this) ->
  let remote := peer_state node in
  let page := entries_after_revision (highest_revision (stats (st_registry st))) (max_entries_per_round_ this) (st_registry remote) in
  let '(reg, w, identity, n_pulled) := merge (stamped clock page) (st_identity st) (st_registry st) (st_world st) in
  let push := entries_after_revision (highest_revision (stats (st_registry remote))) (max_entries_per_round_ this) reg in
  let '(remote', n_pushed) := receive_merges (peer_connections node + 2) push remote in
  @sync_with_peer W S Sort PeerNode beacon_peer this peer clock st node =
    (mkNodeState reg w identity, mkPeerNode remote' (peer_connections node + 2 + length push),
     Some (mkSyncResult n_pulled n_pushed)).
Proof.
  intros Hrok Hok Hl Hr Hmax remote page. destruct node as [rst n]; simpl in remote, Hrok, Hr; subst remote.
  pose proof (stats_u64 _ Hok) as Hlrev. pose proof (stats_u64 _ Hrok) as Hrrev.
  pose proof (merge_elem (stamped clock page) (st_identity st) (st_registry st) (st_world st)) as Hin.
  assert (Hpage : Forall line_ok page).
  { apply Forall_forall. intros x [Hx _]%entries_after_elem. by eapply Forall_forall in Hr. }
  destruct (merge (stamped clock page) _ _ _) as [[[reg w] identity] n_pulled] eqn:Hmerge. simpl in Hin.
  cbn [peer_connections peer_state].
  unfold sync_with_peer. rewrite (send_line peer "STATS") by done. cbn [peer_connections peer_state].
  change (handle_line protocol _ _ "STATS" rst) with
    (rst, "OK active_agents=" +:+ to_string (active_agents (stats (st_registry rst))) +:+
          " highest_revision=" +:+ to_string (highest_revision (stats (st_registry rst))) +:+ nl).
  cbn beta iota. rewrite parse_stats_response by (apply size_of_nonneg || done).
  destruct (sync_pull_line (highest_revision (stats (st_registry st))) (max_entries_per_round_ this)) as [Hnl Hbn]; [lia..|].
  rewrite send_line by done. cbn [peer_connections peer_state].
  unfold handle_line. rewrite parse_sync_pull_command by done.
  cbn [error negb str_empty action after_revision limit]. fold page.
  change ("OK message=sync_pull" +:+ nl +:+ encode_agent_lines page +:+ "END" +:+ nl)
    with (agents_response "OK message=sync_pull" page).
  unfold merge_response. rewrite parse_agents_response by done. fold (stamped clock page). rewrite Hmerge.
  cbn [push_entries_of plan_push_pull st_registry sync_max_entries].
  rewrite push_entries_peer.
  - cbn [peer_connections peer_state]. replace (n + 2)%nat with (Datatypes.S (Datatypes.S n)) by lia.
    by destruct (receive_merges _ _ rst) as [remote' n_pushed].
  - apply Forall_forall. intros x [[Hx|Hx]%Hin _]%entries_after_elem; [by eapply Forall_forall in Hl|].
    apply stamped_elem in Hx as (ex & r & Hx & ->). apply set_expires_line_ok. by eapply Forall_forall in Hpage.
Qed.

(** ** Properties *)

(** (C7) A round between two nodes does what it says, end to end through both codecs, where the
    connections work and all records of both nodes are ones the line format carries ([line_ok]:
    no white space in a field and no '=' in a metadata key, as in everything clients send over
    lines).  It succeeds; the local node merges exactly the peer's page of entries above the local highest
    revision, and the peer then executes a MERGE for exactly the local page of entries above
    the peer's highest revision; both counts are reported. *)
Theorem sync_round this peer clock (st : NodeState W) node
    (remote_ok : registry_ok (st_registry (peer_state node))) (local_ok : registry_ok (st_registry st))
    (local_lines : Forall line_ok (records_ (st_registry st)))
    (remote_lines : Forall line_ok (records_ (st_registry (peer_state node))))
    (limit_ok : u64 (max_entries_per_round_ this)) :
  let remote := peer_state node in
  let page := entries_after_revision (highest_revision (stats (st_registry st))) (max_entries_per_round_ this) (st_registry remote) in
  let '(reg, w, identity, n_pulled) := merge (stamped clock page) (st_identity st) (st_registry st) (st_world st) in
  let push := entries_after_revision (highest_revision (stats (st_registry remote))) (max_entries_per_round_ this) reg in
  let '(remote', n_pushed) := receive_merges (peer_connections node + 2) push remote in
  @sync_with_peer W S Sort PeerNode beacon_peer this peer clock st node =
    (mkNodeState reg w identity, mkPeerNode remote' (peer_connections node + 2 + length push),
     Some (mkSyncResult n_pulled n_pushed)).
Proof. by apply sync_round_spec. Qed.

(** A pull delivers: after a round whose page is not cut by the limit, every registration of
    the peer that is newer than everything the local node had is stored locally, if the nodes do
    not disagree about its key and the local identity service refuses no record of the peer. *)
Theorem sync_delivers_newer {L : SodiumLaws S} this peer clock (st : NodeState W) node r
    (remote_ok : registry_ok (st_registry (peer_state node))) (local_ok : registry_ok (st_registry st))
    (local_lines : Forall line_ok (records_ (st_registry st)))
    (remote_lines : Forall line_ok (records_ (st_registry (peer_state node))))
    (unlimited : max_entries_per_round_ this = 0)
    (accepted : unrefused (st_identity st) (records_ (st_registry (peer_state node))))
    (stored : r ∈ records_ (st_registry (peer_state node)))
    (is_newer : highest_revision (stats (st_registry st)) < revision r)
    (same_key : forall e, find (agent_id r) (st_registry st) = Some e ->
       key_conflict (public_key_hex e) (public_key_hex r) = false) :
  exists ex, find (agent_id r) (st_registry (@sync_with_peer W S Sort PeerNode beacon_peer this peer clock st node).1.1) =
    Some (set_expires_at ex r).
Proof.
  pose proof (sync_round_spec this peer clock st node remote_ok local_ok local_lines remote_lines ltac:(lia)) as Hround.
  simpl in Hround. set (page := entries_after_revision _ _ _) in *.
  pose proof (merge_unrefused (stamped clock page) (st_identity st) (st_registry st) (st_world st)) as Hmerge.
  destruct (merge _ _ _ _) as [[[reg w] identity] n_pulled]. simpl in Hmerge.
  destruct (receive_merges _ _ _) as [remote' n_pushed]. rewrite Hround. cbn [fst st_registry].
  rewrite find_refines, Hmerge.
  2: { eapply unrefused_restamped; [|exact accepted]. intros x (ex & r' & [Hr' _]%entries_after_elem & ->)%stamped_elem. eauto. }
  assert (Hr : r ∈ page) by (unfold page; rewrite unlimited, entries_after_all; by apply list_elem_of_filter).
  destruct (page_says_newest clock page (st_registry st) r) as (ex & Hex); eauto.
  - intros r' [Hr' _]%entries_after_elem Hid. by eapply NoDup_agent_inj; [apply remote_ok| | |].
  - intros e He. rewrite <- find_refines in He. auto.
  - intros e [He _]%by_id_elem. apply stats_bound in He. lia.
Qed.

(** The watermark loses registrations: two nodes with the same highest revision exchange
    nothing, whatever agents one of them knows and the other does not; the round leaves both
    registries as they were and reports success. *)
Theorem sync_equal_watermarks_is_noop this peer clock (st : NodeState W) node
    (remote_ok : registry_ok (st_registry (peer_state node))) (local_ok : registry_ok (st_registry st))
    (local_lines : Forall line_ok (records_ (st_registry st)))
    (remote_lines : Forall line_ok (records_ (st_registry (peer_state node))))
    (limit_ok : u64 (max_entries_per_round_ this))
    (equal : highest_revision (stats (st_registry st)) = highest_revision (stats (st_registry (peer_state node)))) :
  @sync_with_peer W S Sort PeerNode beacon_peer this peer clock st node =
    (st, mkPeerNode (peer_state node) (peer_connections node + 2), Some (mkSyncResult 0 0)).
Proof.
  pose proof (sync_round_spec this peer clock st node remote_ok local_ok local_lines remote_lines limit_ok) as Hround.
  cbv zeta in Hround.
  rewrite (entries_after_none _ _ (st_registry (peer_state node))) in Hround
    by (rewrite equal; apply stats_bound).
  cbn [stamped imap merge foldl] in Hround.
  rewrite (entries_after_none _ _ (st_registry st)) in Hround by (rewrite <- equal; apply stats_bound).
  cbn [receive_merges length] in Hround. rewrite Nat.add_0_r in Hround. rewrite Hround. by destruct st.
Qed.
End two_nodes.

(** ** Witnesses *)

Definition whole_peek (_ : nat) (bs : bytes) : nat := Nat.min 9 (length bs).
Lemma whole_peek_ok n bs : session_ok (mkSession bs (whole_peek n bs)).
Proof. unfold session_ok, whole_peek. cbn [sess_input sess_peeked]. split_and!; [lia|lia|]. destruct bs; [done|]. intros _. cbn [length]. lia. Qed.

Definition example_agent (id : string) (rev : Z) : AgentRecord := mkAgentRecord id "n" "h:1" ∅ rev 0 "" "".
Definition example_node (rs : list AgentRecord) : NodeState unit :=
  mkNodeState (mkAgentRegistry rs None) tt (Some new_identity_service).

Lemma example_registry_ok rs :
  bool_decide (NoDup (agent_id <$> rs)) && bool_decide (Forall (fun r => u64 (revision r)) rs) = true ->
  registry_ok (st_registry (example_node rs)).
Proof. intros [H1%bool_decide_eq_true H2%bool_decide_eq_true]%andb_true_iff. done. Qed.

Lemma example_line_ok id rev : is_word id = true -> u64 rev -> line_ok (example_agent id rev).
Proof.
  intros Hid Hr. split_and!; (done || simpl; lia).
Qed.

Lemma example_unrefused ps : unrefused (S := toy_sodium) (Some new_identity_service) ((fun '(id, rev) => example_agent id rev) <$> ps).
Proof.
  intros svc [= <-]. split; [apply map_Forall_empty|]. intros r ([id rev] & -> & _)%list_elem_of_fmap. by left.
Qed.

(** The same round, run: the peer's newer agent arrives, and the local one is pushed. *)
Definition run_sync (max : Z) (local remote : list AgentRecord) :=
  @sync_with_peer unit toy_sodium _ PeerNode
    (@beacon_peer unit toy_sodium _ libstdcxx_moved_from toy_request toy_response true open_protocol (fun _ => 5) whole_peek)
    (mkSyncClient max) (mkSyncPeer "127.0.0.1" 43171) (fun _ => 9) (example_node local)
    (mkPeerNode (example_node remote) 0).

Lemma example_lines_ok ids :
  forallb (fun '(id, rev) => is_word id && bool_decide (u64 rev)) ids = true ->
  Forall line_ok ((fun '(id, rev) => example_agent id rev) <$> ids).
Proof.
  rewrite forallb_forall. intros H. apply Forall_fmap, Forall_forall. intros [id rev] Hin%list_elem_of_In%H.
  apply andb_true_iff in Hin as [? ?%bool_decide_eq_true]. by apply example_line_ok.
Qed.

Lemma sync_round_witness :
  (run_sync 256 [example_agent "a" 4] [example_agent "b" 2; example_agent "c" 6]).2 = Some (mkSyncResult 1 0).
Proof.
  pose proof (@sync_round unit toy_sodium _ libstdcxx_moved_from toy_request toy_response true open_protocol
    (fun _ => 5) whole_peek whole_peek_ok (mkSyncClient 256) (mkSyncPeer "127.0.0.1" 43171) (fun _ => 9)
    (example_node [example_agent "a" 4]) (mkPeerNode (example_node [example_agent "b" 2; example_agent "c" 6]) 0)
    (example_registry_ok [example_agent "b" 2; example_agent "c" 6] eq_refl)
    (example_registry_ok [example_agent "a" 4] eq_refl)
    (example_lines_ok [("a", 4)]%string eq_refl) (example_lines_ok [("b", 2); ("c", 6)]%string eq_refl)
    ltac:(simpl; lia)) as H.
  vm_compute in H. vm_compute. exact (f_equal snd H).
Defined.

Lemma sync_delivers_newer_witness :
  exists ex, find "c" (st_registry (run_sync 0 [example_agent "a" 4] [example_agent "b" 2; example_agent "c" 6]).1.1) =
    Some (set_expires_at ex (example_agent "c" 6)).
Proof.
  apply (@sync_delivers_newer unit toy_sodium _ libstdcxx_moved_from toy_request toy_response true open_protocol
    (fun _ => 5) whole_peek whole_peek_ok toy_sodium_laws (mkSyncClient 0) (mkSyncPeer "127.0.0.1" 43171) (fun _ => 9)
    (example_node [example_agent "a" 4]) (mkPeerNode (example_node [example_agent "b" 2; example_agent "c" 6]) 0)
    (example_agent "c" 6)).
  - exact (example_registry_ok [example_agent "b" 2; example_agent "c" 6] eq_refl).
  - exact (example_registry_ok [example_agent "a" 4] eq_refl).
  - exact (example_lines_ok [("a", 4)]%string eq_refl).
  - exact (example_lines_ok [("b", 2); ("c", 6)]%string eq_refl).
  - reflexivity.
  - apply (example_unrefused [("b", 2); ("c", 6)]%string).
  - right. left.
  - reflexivity.
  - intros e [=].
Defined.

(** The peer knows agent "b", the local node does not, and never learns of it. *)
Lemma sync_equal_watermarks_is_noop_witness :
  run_sync 256 [example_agent "a" 4] [example_agent "b" 2; example_agent "c" 4] =
    (example_node [example_agent "a" 4],
     mkPeerNode (example_node [example_agent "b" 2; example_agent "c" 4]) 2, Some (mkSyncResult 0 0)).
Proof.
  apply (@sync_equal_watermarks_is_noop unit toy_sodium _ libstdcxx_moved_from toy_request toy_response true open_protocol
    (fun _ => 5) whole_peek whole_peek_ok (mkSyncClient 256) (mkSyncPeer "127.0.0.1" 43171) (fun _ => 9)
    (example_node [example_agent "a" 4]) (mkPeerNode (example_node [example_agent "b" 2; example_agent "c" 4]) 0)).
  - exact (example_registry_ok [example_agent "b" 2; example_agent "c" 4] eq_refl).
  - exact (example_registry_ok [example_agent "a" 4] eq_refl).
  - exact (example_lines_ok [("a", 4)]%string eq_refl).
  - exact (example_lines_ok [("b", 2); ("c", 4)]%string eq_refl).
  - simpl. lia.
  - reflexivity.
Defined.
