(* ===== verification/Injection.v ===== *)
(** * Field injection through gossip

    The line format separates fields by spaces and has no quoting; the line protocol cannot
    store a field with a space, but the protobuf protocol can ([control_protobuf.cpp],
    [from_proto]), and gossip writes whatever is stored into its lines ([encode_agent_line] in
    [control_protocol.cpp], [encode_merge_command] in [registry_sync.cpp]).  This file shows
    what that comes to: a client that may register one agent on one node has the others handed
    any registration it likes, which those that do not require signatures and do not hold the
    agent store.  The format also has no length, and a client does not look
    for the line [END]: an answer that is cut short is read as far as it goes. *)

From S2P Require Import Prelude CxxString CxxContainers Types Sodium SecureBuffer Crypto IdentityService AgentRegistry RegistrySpec RegistryProps ControlProtocol ControlProps Protobuf ControlProtobuf ControlServer RegistrySync SyncClient.

(** ** Definitions *)

(** The request of a client that wants [victim] to be stored elsewhere. *)
Definition carrier_request (id : string) (victim : AgentRecord) : V1.AgentRegistration :=
  V1.mkAgentRegistration id "x" ("x" +:+ fields_text (record_fields victim)) ∅ (revision victim) 0 [] [].

(** ** Lemmas *)

(** The words of a line about the record that the request makes. *)
Definition carrier_words (id : string) (victim : AgentRecord) : list string :=
  ["agent_id=" +:+ id; "node_id=x"; "endpoint=x"]%string ++ record_fields victim ++
  ["revision=" +:+ to_string (revision victim)]%string.

Lemma carrier_line id victim lc now :
  fields_text (record_fields (from_proto (carrier_request id victim) lc now)) = fields_text (carrier_words id victim).
Proof.
  unfold carrier_words. rewrite !fields_text_app. unfold record_fields at 1. simpl.
  unfold fields_text. cbn [foldr app]. by autorewrite with str.
Qed.

Lemma carrier_words_ok id victim : no_space id = true -> line_ok victim ->
  Forall (fun f => is_word f = true) (carrier_words id victim).
Proof.
  intros Hid Hv. apply Forall_app_2; [|apply Forall_app_2; [by apply record_fields_words|]].
  - repeat constructor; [by apply word_after_prefix|done..].
  - repeat constructor. destruct Hv as (_ & _ & _ & _ & _ & Hr & _).
    apply word_after_prefix; [done|]. apply is_word_no_space_line, to_string_word. lia.
Qed.

Lemma carrier_no_newline word id victim lc now : no_char newline word = true -> no_space id = true -> line_ok victim ->
  no_char newline (word +:+ fields_text (record_fields (from_proto (carrier_request id victim) lc now))) = true.
Proof.
  intros Hw Hid Hv. rewrite carrier_line. pose proof (fields_text_no_newline _ (carrier_words_ok id victim Hid Hv)) as Hn.
  unfold no_char in *. by rewrite str_forall_app, Hw, Hn.
Qed.

Lemma parse_field_revision v c : u64 v -> revision (registration c) = v ->
  parse_field ("revision=" +:+ to_string v) c = inl c.
Proof.
  intros Hv Hc. unfold parse_field. resolve_prefix. cbn match beta zeta. rewrite get_value_field by done.
  unfold parse_revision. rewrite parse_unsigned_to_string by (unfold uint64_max; lia).
  destruct c as [? [] ? ? ? ?]; simpl in *. by subst.
Qed.

(** The peer reads the line as a command about the victim. *)
Lemma parse_carrier_command this init now id victim lc t : no_space id = true -> line_ok victim ->
  parse_command this init now (encode_merge_command (from_proto (carrier_request id victim) lc t)) =
  mkControlCommand Merge (set_expires_at (now + milliseconds (heartbeat_ttl (lifecycle_ this))) victim)
    (agent_id victim) "" 0 256.
Proof.
  intros Hid Hv. rewrite encode_merge_command_fields, carrier_line.
  rewrite <- (str_app_nil_r (_ +:+ fields_text _)), str_app_assoc.
  unfold parse_command, control_split_tokens.
  rewrite tokens_fields by (try done; by apply carrier_words_ok). rewrite app_nil_r.
  set (c0 := mkControlCommand Merge (default_AgentRecord (now + milliseconds (heartbeat_ttl (lifecycle_ this)))) "" "" 0 256).
  change (parse_action this now "MERGE" (default_ControlCommand init)) with (@inl ControlCommand ControlCommand c0). cbn match.
  unfold carrier_words. rewrite parse_fields_app. cbn [parse_fields app]. unfold parse_field at 1 2 3. resolve_prefix. cbn match beta zeta.
  rewrite !get_value_field by done. rewrite parse_fields_app, parse_fields_record by done. cbn [parse_fields].
  rewrite parse_field_revision; [|by destruct Hv as (_ & _ & _ & _ & _ & Hr & _)|done].
  unfold check_command. destruct Hv as ([Ha _]%is_word_spec & [Hn _]%is_word_spec & [He _]%is_word_spec & _).
  apply str_empty_false in Ha, Hn, He. simpl. rewrite Ha, Hn, He. by destruct victim.
Qed.

Lemma parse_token_revision v (r : AgentRecord) : u64 v -> revision r = v ->
  parse_agent_token ("revision=" +:+ to_string v) r = r.
Proof.
  intros Hv Hr. unfold parse_agent_token. resolve_prefix. cbn match. rewrite field_value_literal by done.
  unfold client_parse_revision. rewrite parse_unsigned_to_string by (unfold uint64_max; lia).
  destruct r; simpl in *. by subst.
Qed.

(** So does a node that pulls it. *)
Lemma parse_carrier_agent now id victim lc t : no_space id = true -> line_ok victim ->
  parse_agent_line now ("AGENT" +:+ fields_text (record_fields (from_proto (carrier_request id victim) lc t))) =
  Some (set_expires_at (now + minutes 1) victim).
Proof.
  intros Hid Hv. unfold parse_agent_line. rewrite carrier_line.
  rewrite <- (str_app_nil_r (_ +:+ fields_text _)), str_app_assoc.
  rewrite tokens_fields by (try done; by apply carrier_words_ok). rewrite app_nil_r, bool_decide_true by done.
  unfold carrier_words. rewrite !foldl_app.
  assert (Hid' : forall b, parse_agent_token ("agent_id=" +:+ id) b = set_agent_id id b).
  { intros b. unfold parse_agent_token. resolve_prefix. cbn match. by rewrite field_value_literal. }
  cbn [foldl]. rewrite Hid'.
  rewrite parse_tokens_record by done. cbn [foldl expires_at].
  rewrite parse_token_revision; [|by destruct Hv as (_ & _ & _ & _ & _ & Hr & _)|done].
  destruct Hv as ([Ha%str_empty_false _]%is_word_spec & _). by simpl; rewrite Ha.
Qed.

(** ** Property *)

Section injection.
Context {W : Type} {S : Sodium} {Sort : StdSort} {Moved : MovedFrom}
  {Req : ProtoMessage V1.ControlRequest} {Resp : ProtoMessage V1.ControlResponse}
  (pb : bool) (protocol : ControlProtocol) (peer_clock : nat -> TimePoint) (peek : nat -> bytes -> nat)
  (peek_ok : forall n bs, session_ok (mkSession bs (peek n bs))).

(** A node that does not require signatures and holds no registration of the agent stores a
    registration that is pushed to it. *)
Lemma receive_unknown k victim (remote : NodeState W) :
  require_signatures (trust_ protocol) = false -> verify_agent_signature victim <> Invalid ->
  find (agent_id victim) (st_registry remote) = None ->
  let '(remote', n) := receive_merges protocol peer_clock k [victim] remote in
  n = 1 /\ exists ex, find (agent_id victim) (st_registry remote') = Some (set_expires_at ex victim).
Proof.
  intros Hlenient Hsig Hunknown. cbn [receive_merges]. set (x := set_expires_at _ victim).
  unfold handle_store. rewrite Hlenient. change (verify_agent_signature x) with (verify_agent_signature victim).
  cbn [negb andb]. rewrite (bool_decide_eq_false_2 (verify_agent_signature victim = Invalid)) by done.
  destruct (upsert x (st_registry remote) (st_world remote)) as [[reg w] ok] eqn:Hu.
  apply upsert_refines in Hu. unfold spec_upsert in Hu. rewrite <- find_refines in Hu.
  change (agent_id x) with (agent_id victim) in Hu. rewrite Hunknown in Hu. injection Hu as Hreg <-.
  split; [done|]. eexists. cbn [st_registry]. rewrite find_refines, <- Hreg. apply lookup_insert_eq.
Qed.

(** (C37) A client that may register one agent on one node that does not require signatures can
    have other nodes handed any registration it likes.  Over the protobuf protocol it registers,
    under an id of its own that the node does not hold, an endpoint that continues with the
    fields of the [victim]; the node accepts this, and knows nothing new about the victim's
    agent.  But when it gossips the registration over a working connection, a peer it pushes to
    does exactly what it would do if it was pushed the victim's registration: a peer that does
    not require signatures and holds no registration of the victim's agent stores it.  A peer
    that pulls reads the victim's registration. *)
Theorem gossip_field_injection home now id victim (st : NodeState W)
    (lenient : require_signatures (trust_ home) = false) (id_word : is_word id = true) (storable : line_ok victim)
    (unknown : find id (st_registry st) = None) (other : agent_id victim <> id) :
  let '(st', response) := handle_request home now (V1.register_agent (carrier_request id victim)) st in
  let r := from_proto (carrier_request id victim) (lifecycle_ home) now in
  V1.resp_ok response = true /\ find id (st_registry st') = Some r /\
  find (agent_id victim) (st_registry st') = find (agent_id victim) (st_registry st) /\
  (forall peer node, @push_entries _ (beacon_peer (W := W) pb protocol peer_clock peek) peer [r] node =
     let '(remote, k) := receive_merges protocol peer_clock (peer_connections node) [victim] (peer_state node) in
     (mkPeerNode remote (peer_connections node + 1), Some k)) /\
  (forall peer node, require_signatures (trust_ protocol) = false -> verify_agent_signature victim <> Invalid ->
     find (agent_id victim) (st_registry (peer_state node)) = None ->
     let '(node', pushed) := @push_entries _ (beacon_peer (W := W) pb protocol peer_clock peek) peer [r] node in
     pushed = Some 1 /\ exists ex, find (agent_id victim) (st_registry (peer_state node')) = Some (set_expires_at ex victim)) /\
  (forall clock, parse_agent_lines clock (agents_response "OK message=sync_pull" [r]) =
     [set_expires_at (clock 1%nat + minutes 1) victim]).
Proof.
  unfold handle_request, store_agent. set (r := from_proto _ _ _).
  pose proof (proj1 (is_word_spec id) id_word) as [Hid Hsp]. apply str_empty_false in Hid.
  assert (Hempty : str_empty (agent_id r) || str_empty (node_id r) || str_empty (endpoint r) = false) by (simpl; by rewrite Hid).
  rewrite Hempty. unfold signature_allowed. change (verify_agent_signature r) with Missing. rewrite lenient. simpl negb. cbn [andb].
  rewrite bool_decide_false by done. simpl negb. cbn match.
  destruct (upsert r (st_registry st) (st_world st)) as [[reg w] ok] eqn:Hu.
  apply upsert_refines in Hu. unfold spec_upsert in Hu. rewrite <- find_refines in Hu.
  change (agent_id r) with id in Hu. rewrite unknown in Hu. injection Hu as Hreg <-.
  cbn [fst snd st_registry].
  assert (Hpush : forall peer node, @push_entries _ (beacon_peer (W := W) pb protocol peer_clock peek) peer [r] node =
     let '(remote, k) := receive_merges protocol peer_clock (peer_connections node) [victim] (peer_state node) in
     (mkPeerNode remote (peer_connections node + 1), Some k)).
  { intros peer [remote n]. cbn [push_entries peer_connections peer_state receive_merges].
    assert (Hline : no_char newline (encode_merge_command r) = true /\ starts_with (encode_merge_command r) "BN" = false).
    { unfold r. rewrite encode_merge_command_fields. split; [by apply carrier_no_newline|done]. }
    destruct Hline as [Hnl Hbn]. rewrite (send_line pb protocol peer_clock peek peek_ok peer _ (mkPeerNode remote n) Hnl Hbn).
    cbn [peer_connections peer_state]. unfold handle_line. unfold r. rewrite parse_carrier_command by done.
    cbn [error negb str_empty action registration]. destruct (handle_store _ _ _ remote) as [st1 resp].
    replace (n + 1)%nat with (Datatypes.S n) by lia. by destruct (starts_with resp "OK"). }
  split_and!; [done|..].
  - rewrite find_refines, <- Hreg. apply lookup_insert_eq.
  - rewrite !find_refines, <- Hreg. by rewrite lookup_insert_ne.
  - exact Hpush.
  - intros peer node H1 H2 H3. rewrite Hpush. pose proof (receive_unknown (peer_connections node) victim (peer_state node) H1 H2 H3) as Hs.
    destruct (receive_merges _ _ _ [victim] _) as [remote k]. destruct Hs as [-> Hs]. by split.
  - intros clock. unfold parse_agent_lines, agents_response.
    replace ("OK message=sync_pull" +:+ nl +:+ encode_agent_lines [r] +:+ "END" +:+ nl)
      with (unlines ["OK message=sync_pull"; "AGENT" +:+ fields_text (record_fields r); "END"]%string).
    2: { rewrite encode_agent_lines_unlines. rewrite !unlines_cons. cbn [fmap list_fmap]. rewrite unlines_cons. by autorewrite with str. }
    rewrite getlines_unlines.
    2: { apply Forall_cons_2; [done|apply Forall_cons_2; [by apply carrier_no_newline|by apply Forall_singleton]]. }
    cbn [parse_lines]. unfold r. by rewrite parse_carrier_agent.
Qed.
End injection.

(** ** Answers that are cut short *)

(** An answer with the records [rs], cut in the line of [r], behind the revision. *)
Definition cut_response (head : string) (rs : list AgentRecord) (r : AgentRecord) : string :=
  head +:+ nl +:+ encode_agent_lines rs +:+ "AGENT" +:+ fields_text (take 4 (record_fields r)).

(** What is left of a record without its optional fields. *)
Definition bare (ex : TimePoint) (r : AgentRecord) : AgentRecord :=
  mkAgentRecord (agent_id r) (node_id r) (endpoint r) ∅ (revision r) ex "" "".

Lemma parse_bare_line now r : line_ok r ->
  parse_agent_line now ("AGENT" +:+ fields_text (take 4 (record_fields r))) = Some (bare (now + minutes 1) r).
Proof.
  intros Hr. pose proof (Forall_take _ 4 _ (record_fields_words r Hr)) as Hw.
  unfold parse_agent_line. rewrite <- (str_app_nil_r (_ +:+ _)), str_app_assoc.
  rewrite tokens_fields by done. rewrite app_nil_r, bool_decide_true by done.
  change (take 4 (record_fields r)) with ["agent_id=" +:+ agent_id r; "node_id=" +:+ node_id r; "endpoint=" +:+ endpoint r;
    "revision=" +:+ to_string (revision r)]%string.
  destruct Hr as ([Ha%str_empty_false _]%is_word_spec & _ & _ & _ & _ & Hrev & _).
  rewrite parse_tokens_required by done. simpl. by rewrite Ha.
Qed.

(** An answer that is cut short is accepted: the first part of an answer to [SYNC_PULL], up to
    the revision of any of its records, is read as the records before it and that record
    without its key, its signature and its metadata, at its full revision; and the next
    pull, which asks for higher revisions, does not bring the rest. *)
Theorem cut_response_accepted {W} {Sort : StdSort} clock head rs r
    (head_line : no_char newline head = true) (no_agent : forall now, parse_agent_line now head = None)
    (before : Forall line_ok rs) (storable : line_ok r) :
  starts_with (agents_response head (rs ++ [r])) (cut_response head rs r) = true /\
  parse_agent_lines clock (cut_response head rs r) =
    imap (fun i x => set_expires_at (clock (Datatypes.S i) + minutes 1) x) rs ++
    [bare (clock (Datatypes.S (length rs)) + minutes 1) r] /\
  forall lim (peer : AgentRegistry W) rev, revision r <= rev -> r ∉ entries_after_revision rev lim peer.
Proof.
  split_and!.
  - unfold agents_response, cut_response. rewrite !encode_agent_lines_unlines, fmap_app, unlines_app. cbn [fmap list_fmap]. rewrite unlines_cons.
    assert (Hf : fields_text (record_fields r) = fields_text (take 4 (record_fields r)) +:+ fields_text (drop 4 (record_fields r)))
      by by rewrite <- fields_text_app, take_drop.
    rewrite Hf. clear Hf. set (a := fields_text (take 4 _)). set (b := fields_text (drop 4 _)). set (u := unlines (_ <$> rs)). autorewrite with str.
    replace (head +:+ nl +:+ u +:+ "AGENT" +:+ a +:+ b +:+ nl +:+ "END" +:+ nl)
      with ((head +:+ nl +:+ u +:+ "AGENT" +:+ a) +:+ (b +:+ nl +:+ "END" +:+ nl)) by by autorewrite with str.
    apply starts_with_app.
  - unfold parse_agent_lines, cut_response. rewrite encode_agent_lines_unlines.
    set (lines := (fun r => "AGENT" +:+ fields_text (record_fields r)) <$> rs).
    set (l := "AGENT" +:+ fields_text (take 4 (record_fields r))).
    replace (head +:+ nl +:+ unlines lines +:+ l) with (unlines (head :: lines) +:+ l) by (rewrite unlines_cons; by autorewrite with str).
    rewrite getlines_last.
    + cbn [app parse_lines]. rewrite no_agent, parse_lines_app. unfold lines. rewrite parse_lines_agents by done. cbn [parse_lines].
      unfold l. rewrite parse_bare_line, length_fmap, Nat.add_0_r by done. done.
    + apply Forall_cons_2; [done|]. apply Forall_fmap. eapply Forall_impl; [exact before|]. apply agent_line_no_newline.
    + pose proof (fields_text_no_newline _ (Forall_take _ 4 _ (record_fields_words r storable))) as Hn.
      unfold l, no_char in *. by rewrite str_forall_app, Hn.
    + done.
  - intros lim peer rev Hrev [_ Hlt]%entries_after_elem. lia.
Qed.

Lemma cut_response_accepted_witness :
  let r := mkAgentRecord "b" "n" "e:1" {["k" := "v"]}%string 7 0 "ab" "cd" in
  parse_agent_lines (fun _ => 0) (cut_response "OK message=sync_pull" [example_agent "a" 5] r) =
    [set_expires_at (0 + minutes 1) (example_agent "a" 5); bare (0 + minutes 1) r].
Proof.
  intros r.
  apply (@cut_response_accepted unit _ (fun _ => 0) "OK message=sync_pull" [example_agent "a" 5] r).
  - reflexivity.
  - reflexivity.
  - exact (example_lines_ok [("a", 5)]%string eq_refl).
  - split_and!; try done. apply map_Forall_singleton. by split_and!.
Defined.

(** Agent "mallory" makes a peer believe in an agent "bank". *)
Lemma gossip_field_injection_witness :
  let victim := example_agent "bank" 7 in
  let '(st', response) := @handle_request unit toy_sodium _ libstdcxx_moved_from open_protocol 5
    (V1.register_agent (carrier_request "mallory" victim)) (example_node []) in
  V1.resp_ok response = true /\ find "bank" (st_registry st') = None /\
  (exists r, find "mallory" (st_registry st') = Some r /\
   let '(node', pushed) := @push_entries _ (@beacon_peer unit toy_sodium _ libstdcxx_moved_from toy_request toy_response true open_protocol (fun _ => 5) whole_peek) (mkSyncPeer "h" 1) [r]
     (mkPeerNode (example_node []) 0) in
   pushed = Some 1 /\ exists ex, find "bank" (st_registry (peer_state node')) = Some (set_expires_at ex victim)).
Proof.
  intros victim.
  pose proof (@gossip_field_injection unit toy_sodium _ libstdcxx_moved_from toy_request toy_response true open_protocol
    (fun _ => 5) whole_peek whole_peek_ok open_protocol 5 "mallory" victim (example_node []) eq_refl eq_refl
    (proj1 (Forall_singleton _ _) (example_lines_ok [("bank", 7)]%string eq_refl)) eq_refl ltac:(discriminate)) as H.
  destruct (handle_request _ _ _ _) as [st' response]. destruct H as (H1 & H2 & H3 & _ & H4 & _).
  split; [exact H1|]. split; [exact H3|]. eexists. split; [exact H2|].
  exact (H4 (mkSyncPeer "h" 1) (mkPeerNode (example_node []) 0) eq_refl ltac:(discriminate) eq_refl).
Defined.
