(* ===== verification/SyncLiveness.v ===== *)
(** * Catching up: repeated synchronisation rounds with a limit

    One round transfers at most [max_entries_per_round] entries, those of lowest revision above
    the local watermark.  This file iterates the round of [SyncClient] against a peer that does
    not change, and shows how many rounds transfer everything, how a registration travels along
    a chain of nodes, and what the watermark can lose. *)

From S2P Require Import Prelude CxxString CxxContainers Types Sodium SecureBuffer Crypto IdentityService AgentRegistry RegistrySpec RegistryProps Framing ControlProtocol ControlProps RegistrySync Protobuf ControlProtobuf ControlServer SyncClient.

(** ** Definitions *)

Section rounds.
Context {W : Type} {S : Sodium} {Sort : StdSort} {N : Type} {T : Transport N}.

(** [n] rounds with the same peer, as the gossip service does them; [clock k] is the clock of
    the round after which [k] rounds remain. *)
Fixpoint sync_rounds (n : nat) (this : SyncClient) (peer : SyncPeer) (clock : nat -> nat -> TimePoint)
    (st : NodeState W) (net : N) : NodeState W * N :=
  match n with
  | O => (st, net)
  | Datatypes.S n' =>
      let '(st', net', _) := sync_with_peer this peer (clock n') st net in sync_rounds n' this peer clock st' net'
  end.
End rounds.

Definition watermark {W} (st : NodeState W) : Z := highest_revision (stats (st_registry st)).

(** Two nodes of which the second is ahead, whose records the line format carries, and whose
    records the first does not refuse: they are unsigned or signed validly under the key the
    first has pinned for the agent, if any, and do not contradict a key it has stored. *)
Record behind {W} {S : Sodium} (st remote : NodeState W) : Prop := mkBehind {
  bh_local_ok : registry_ok (st_registry st);
  bh_remote_ok : registry_ok (st_registry remote);
  bh_local_lines : Forall line_ok (records_ (st_registry st));
  bh_remote_lines : Forall line_ok (records_ (st_registry remote));
  bh_watermark : watermark st <= watermark remote;
  bh_unrefused : unrefused (st_identity st) (records_ (st_registry remote));
  bh_keys : forall e r, e ∈ records_ (st_registry st) -> r ∈ records_ (st_registry remote) -> agent_id e = agent_id r ->
    key_conflict (public_key_hex e) (public_key_hex r) = false;
}.

(** The local node holds the peer's registration (its expiry is its own). *)
Definition delivered {W} (r : AgentRecord) (st : NodeState W) : Prop :=
  exists ex, find (agent_id r) (st_registry st) = Some (set_expires_at ex r).

(** ** Lemmas *)

Lemma spec_merge_other rs m aid : Forall (fun r => agent_id r <> aid) rs -> spec_merge rs m !! aid = m !! aid.
Proof.
  induction rs as [|r rs IH] using rev_ind; [done|]. intros [Hrs Hr]%Forall_app. apply Forall_cons in Hr as [Hr _].
  rewrite spec_merge_snoc, spec_upsert_other by done. by apply IH.
Qed.

(** Where a merged record comes from, and that no agent loses revisions. *)
Lemma spec_merge_says rs m x : spec_merge rs m !! agent_id x = Some x -> m !! agent_id x = Some x \/ x ∈ rs.
Proof.
  induction rs as [|r rs IH] using rev_ind; [by left|]. rewrite spec_merge_snoc. unfold spec_upsert.
  repeat case_match; simpl; rewrite ?lookup_insert_Some; set_solver.
Qed.

Lemma spec_merge_grows rs m aid x : m !! aid = Some x ->
  exists y, spec_merge rs m !! aid = Some y /\ revision x <= revision y.
Proof.
  intros Hx. induction rs as [|r rs (z & Hz & Hle)] using rev_ind; [by exists x|]. rewrite spec_merge_snoc. unfold spec_upsert.
  destruct (decide (agent_id r = aid)) as [<-|Hne].
  - rewrite Hz. destruct (replaces r z) eqn:Hrep; simpl; [|by exists z]. rewrite lookup_insert_eq. exists r. split; [done|].
    unfold replaces in Hrep. bool_to_prop. lia.
  - exists z. split; [|done]. repeat case_match; simpl; by rewrite ?lookup_insert_ne by done.
Qed.

Lemma watermark_lt {W} (st : NodeState W) v : 0 < v -> (forall x, x ∈ records_ (st_registry st) -> revision x < v) -> watermark st < v.
Proof.
  intros Hv Hall. unfold watermark, stats. simpl. destruct (foldl_max_spec (records_ (st_registry st)) 0) as (_ & _ & [-> |(r & Hr & <-)]);
    [done|by apply Hall].
Qed.

Lemma watermark_le {W} (st : NodeState W) v : 0 <= v -> (forall x, x ∈ records_ (st_registry st) -> revision x <= v) -> watermark st <= v.
Proof. intros Hv Hall. apply Z.lt_succ_r, watermark_lt; [lia|]. intros x Hx%Hall. lia. Qed.

Lemma watermark_nonneg {W} (st : NodeState W) : 0 <= watermark st.
Proof. apply (foldl_max_spec (records_ (st_registry st)) 0). Qed.

Section catch_up.
Context {W : Type} {S : Sodium} {L : SodiumLaws S} {Sort : StdSort} {Moved : MovedFrom}
  {Req : ProtoMessage V1.ControlRequest} {Resp : ProtoMessage V1.ControlResponse}
  (pb : bool) (protocol : ControlProtocol) (peer_clock : nat -> TimePoint) (peek : nat -> bytes -> nat)
  (peek_ok : forall n bs, session_ok (mkSession bs (peek n bs))).
Context (this : SyncClient) (peer : SyncPeer) (limit_ok : u64 (max_entries_per_round_ this)).
Implicit Types (st remote : NodeState W).

#[local] Abbreviation transport := (@beacon_peer W S Sort Moved Req Resp pb protocol peer_clock peek).
#[local] Abbreviation page st remote :=
  (entries_after_revision (watermark st) (max_entries_per_round_ this) (st_registry remote)).

(** One round against a peer that is ahead: the peer is unchanged, the page is merged. *)
Lemma round_behind clock st node : behind st (peer_state node) ->
  exists st' k res, @sync_with_peer W S Sort PeerNode transport this peer clock st node =
      (st', mkPeerNode (peer_state node) k, Some res) /\ behind st' (peer_state node) /\
    by_id (records_ (st_registry st')) = spec_merge (stamped clock (page st (peer_state node))) (by_id (records_ (st_registry st))).
Proof.
  intros Hb. pose proof Hb as [Hok Hrok Hll Hrl Hw Hu Hk]. set (remote := peer_state node) in *.
  pose proof (sync_round_spec pb protocol peer_clock peek peek_ok this peer clock st node Hrok Hok Hll Hrl limit_ok) as Hround.
  cbv zeta in Hround. fold remote in Hround. fold (watermark st) in Hround. set (pg := page st remote) in *.
  assert (Hpg : forall x, x ∈ stamped clock pg -> exists ex r, r ∈ records_ (st_registry remote) /\ x = set_expires_at ex r).
  { intros x (ex & r & [Hr _]%entries_after_elem & ->)%stamped_elem. eauto. }
  pose proof (unrefused_restamped _ _ _ Hpg Hu) as Hun.
  pose proof (merge_unrefused (stamped clock pg) (st_identity st) (st_registry st) (st_world st) Hun) as Hmerge.
  pose proof (merge_elem (stamped clock pg) (st_identity st) (st_registry st) (st_world st)) as Hin.
  assert (Hmok : registry_ok (merge (stamped clock pg) (st_identity st) (st_registry st) (st_world st)).1.1.1).
  { apply merge_ok; [done|]. apply Forall_forall. intros x (ex & r & Hr & ->)%Hpg. destruct Hrok as [_ Hr64].
    rewrite Forall_forall in Hr64. exact (Hr64 r Hr). }
  pose proof (unrefused_merged _ _ _ (st_registry st) (st_world st) Hpg Hu) as Hid.
  destruct (merge (stamped clock pg) _ _ _) as [[[reg w] identity] n_pulled]. simpl in Hmerge, Hin, Hmok, Hid.
  assert (Hle : forall x, x ∈ records_ reg -> revision x <= watermark remote).
  { intros x [Hx|(ex & r & Hr & ->)%Hpg]%Hin; [etrans; [apply (stats_bound _ _ Hx)|exact Hw]|apply (stats_bound _ _ Hr)]. }
  fold (watermark remote) in Hround. rewrite (entries_after_none (watermark remote)) in Hround by done.
  cbn [receive_merges length] in Hround. eexists _, _, _. split; [exact Hround|]. split; [|exact Hmerge].
  split; cbn [st_registry st_identity]; [done|done| |done| |done|].
  - apply Forall_forall. intros x [Hx|(ex & r & Hr & ->)%Hpg]%Hin; [by eapply Forall_forall in Hll|].
    apply set_expires_line_ok. by eapply Forall_forall in Hrl.
  - apply watermark_le; [apply watermark_nonneg|done].
  - intros e r [He|(ex & r' & Hr' & ->)%Hpg]%Hin Hr Heq; [by apply Hk|].
    assert (r' = r) as -> by (eapply NoDup_agent_inj; [apply Hrok|done..]). apply key_conflict_refl.
Qed.

(** What the local node holds of the peer, it keeps; and the page is delivered. *)
Lemma round_delivers clock st st' remote r : behind st remote ->
  by_id (records_ (st_registry st')) = spec_merge (stamped clock (page st remote)) (by_id (records_ (st_registry st))) ->
  r ∈ records_ (st_registry remote) -> r ∈ page st remote \/ revision r <= watermark st /\ delivered r st ->
  delivered r st'.
Proof.
  intros [_ Hrok _ _ _ _ Hk] Hm Hr Hor. unfold delivered in *. rewrite find_refines, Hm. destruct Hor as [Hp|[Hle (ex & Hd)]].
  - destruct (page_says_newest clock (page st remote) (st_registry st) r Hp) as (ex & Hex); [| | |by exists ex].
    + intros r' [Hr' _]%entries_after_elem Hid. by eapply NoDup_agent_inj; [apply Hrok|..].
    + intros e [He Hid]%by_id_elem. by apply Hk.
    + intros e [He _]%by_id_elem. apply stats_bound in He. apply entries_after_elem in Hp as [_ Hp]. fold (watermark st) in He. lia.
  - exists ex. rewrite find_refines in Hd. rewrite spec_merge_other; [done|]. apply Forall_forall.
    intros x (ex' & r' & [Hr' Hlt]%entries_after_elem & ->)%stamped_elem. simpl. intros Heq.
    assert (r' = r) as -> by (eapply NoDup_agent_inj; [apply Hrok|done..]). lia.
Qed.

(** Peer's entries above the watermark that have pairwise different revisions. *)
Definition distinct_above (v : Z) (remote : NodeState W) : Prop :=
  forall r1 r2, r1 ∈ newer v (st_registry remote) -> r2 ∈ newer v (st_registry remote) -> revision r1 = revision r2 -> r1 = r2.

(** After a round, exactly the entries behind the page are still above the watermark. *)
Lemma round_advances clock st st' remote : behind st remote ->
  by_id (records_ (st_registry st')) = spec_merge (stamped clock (page st remote)) (by_id (records_ (st_registry st))) ->
  registry_ok (st_registry st') -> distinct_above (watermark st) remote ->
  watermark st <= watermark st' /\
  newer (watermark st) (st_registry remote) ≡ₚ page st remote ++ newer (watermark st') (st_registry remote).
Proof.
  intros Hb Hm Hok' Hd. pose proof Hb as [Hok Hrok _ _ _ _ _]. destruct (entries_after_page (watermark st)
    (max_entries_per_round_ this) (st_registry remote)) as (rest & Hperm & _ & Hord & _). set (pg := page st remote) in *.
  assert (Hin : forall x, x ∈ records_ (st_registry st') -> x ∈ records_ (st_registry st) \/ exists ex r, r ∈ pg /\ x = set_expires_at ex r).
  { intros x Hx. apply elem_by_id in Hx; [|apply Hok']. rewrite Hm in Hx.
    apply spec_merge_says in Hx as [[Hx _]%by_id_elem|(ex & r & Hr & ->)%stamped_elem]; [by left|right; eauto]. }
  assert (Hpage : forall x, x ∈ pg -> revision x <= watermark st').
  { intros x Hx. destruct (round_delivers clock st st' remote x Hb Hm) as (ex & Hf).
    - by apply entries_after_elem in Hx as [? _].
    - by left.
    - rewrite find_refines in Hf. apply by_id_elem in Hf as [Hf _]. by apply stats_bound in Hf. }
  assert (Hw : watermark st <= watermark st').
  { apply watermark_le; [apply watermark_nonneg|]. intros x Hx.
    pose proof (elem_by_id _ x (proj1 Hok) Hx) as Hs.
    destruct (spec_merge_grows (stamped clock pg) _ _ _ Hs) as (y & Hy & Hle). rewrite <- Hm in Hy.
    etrans; [exact Hle|]. apply by_id_elem in Hy as [Hy _]. by apply stats_bound in Hy. }
  assert (Hrest : forall y, y ∈ rest -> watermark st' < revision y).
  { intros y Hy. assert (Hyn : y ∈ newer (watermark st) (st_registry remote)) by (rewrite <- Hperm; set_solver).
    pose proof Hyn as [Hlt _]%list_elem_of_filter. pose proof (watermark_nonneg st).
    apply watermark_lt; [lia|]. intros x [Hx|(ex & r & Hr & ->)]%Hin.
    - apply stats_bound in Hx. fold (watermark st) in Hx. lia.
    - simpl. specialize (Hord r y Hr Hy). destruct (decide (revision r = revision y)) as [Heq|]; [|lia].
      assert (Hrn : r ∈ newer (watermark st) (st_registry remote)) by (rewrite <- Hperm; set_solver).
      pose proof (Hd r y Hrn Hyn Heq) as ->. exfalso.
      assert (Hnd : NoDup (pg ++ rest)) by (rewrite Hperm; apply NoDup_filter, (NoDup_fmap_1 agent_id), Hrok).
      apply NoDup_app in Hnd as (_ & Hdis & _). by apply (Hdis y). }
  split; [done|].
  assert (Heq : newer (watermark st') (st_registry remote) = filter (fun r => watermark st' < revision r) (newer (watermark st) (st_registry remote))).
  { unfold newer. rewrite list_filter_filter. apply list_filter_iff. intros x. lia. }
  rewrite Heq. rewrite <- Hperm at 2. rewrite filter_app. rewrite <- Hperm at 1. f_equiv.
  assert (H1 : filter (fun r => watermark st' < revision r) pg = []).
  { apply filter_none. intros x Hx. specialize (Hpage x Hx). lia. }
  assert (H2 : filter (fun r => watermark st' < revision r) rest = rest).
  { by apply filter_all. }
  by rewrite H1, H2.
Qed.

#[local] Abbreviation run n clock st node := (@sync_rounds W S Sort PeerNode transport n this peer clock st node).

Lemma rounds_deliver (positive : 0 < max_entries_per_round_ this) n clock st node :
  behind st (peer_state node) -> distinct_above (watermark st) (peer_state node) ->
  size_of (newer (watermark st) (st_registry (peer_state node))) <= Z.of_nat n * max_entries_per_round_ this ->
  let '(st', node') := run n clock st node in
  peer_state node' = peer_state node /\ watermark st' = watermark (peer_state node) /\
  forall r, r ∈ records_ (st_registry (peer_state node)) ->
    watermark st < revision r \/ delivered r st -> delivered r st'.
Proof.
  revert st node. induction n as [|n IH]; intros st node Hb Hd Hsize; cbn [sync_rounds].
  - assert (Hnil : newer (watermark st) (st_registry (peer_state node)) = []).
    { destruct (newer _ _); [done|]. unfold size_of in Hsize. simpl in Hsize. lia. }
    assert (Hle : forall r, r ∈ records_ (st_registry (peer_state node)) -> revision r <= watermark st).
    { intros r Hr. apply Z.nlt_ge. intros Hlt.
      assert (Hin : r ∈ newer (watermark st) (st_registry (peer_state node))) by by apply list_elem_of_filter.
      rewrite Hnil in Hin. set_solver. }
    split_and!; [done| |].
    + apply Z.le_antisymm; [apply Hb|]. apply watermark_le; [apply watermark_nonneg|done].
    + intros r Hr%Hle [Hlt|?]; [lia|done].
  - destruct (round_behind (clock n) st node Hb) as (st1 & k & res & Hround & Hb1 & Hm). rewrite Hround.
    destruct (round_advances (clock n) st st1 (peer_state node) Hb Hm (bh_local_ok _ _ Hb1) Hd) as [Hw Hperm].
    destruct (entries_after_page (watermark st) (max_entries_per_round_ this) (st_registry (peer_state node)))
      as (rest & _ & _ & _ & Hlen). rewrite (proj2 (Z.ltb_lt 0 _)) in Hlen by done.
    specialize (IH st1 (mkPeerNode (peer_state node) k)). cbn [peer_state] in IH.
    assert (Hsize1 : size_of (newer (watermark st) (st_registry (peer_state node))) =
      size_of (page st (peer_state node)) + size_of (newer (watermark st1) (st_registry (peer_state node)))).
    { unfold size_of. rewrite Hperm, length_app. lia. }
    destruct (run n clock st1 _) as [st' node']. destruct IH as (H1 & H2 & H3); [done| |lia|].
    { intros r1 r2 [? ?]%list_elem_of_filter [? ?]%list_elem_of_filter. apply Hd; apply list_elem_of_filter; split; (done || lia). }
    split_and!; [done|done|]. intros r Hr Hor. apply H3; [done|].
    destruct (decide (watermark st1 < revision r)) as [?|Hle]; [by left|right].
    apply (round_delivers (clock n) st st1 (peer_state node)); [done..|].
    destruct (decide (watermark st < revision r)) as [Hlt|]; [left|right; split; [lia|by destruct Hor]].
    assert (Hin : r ∈ page st (peer_state node) ++ newer (watermark st1) (st_registry (peer_state node))).
    { rewrite <- Hperm. by apply list_elem_of_filter. }
    apply elem_of_app in Hin as [?|[? _]%list_elem_of_filter]; [done|lia].
Qed.

(** An agent of the peer at or below the watermark, and unknown locally, is never pulled. *)
Lemma rounds_never_pull n clock st node y : behind st (peer_state node) -> y ∈ records_ (st_registry (peer_state node)) ->
  revision y <= watermark st -> find (agent_id y) (st_registry st) = None ->
  find (agent_id y) (st_registry (run n clock st node).1) = None.
Proof.
  revert st node. induction n as [|n IH]; intros st node Hb Hy Hle Hf; cbn [sync_rounds]; [done|].
  destruct (round_behind (clock n) st node Hb) as (st1 & k & res & Hround & Hb1 & Hm). rewrite Hround.
  assert (Hother : Forall (fun r => agent_id r <> agent_id y) (stamped (clock n) (page st (peer_state node)))).
  { apply Forall_forall. intros x (ex & r & [Hr Hlt]%entries_after_elem & ->)%stamped_elem Heq. simpl in Heq.
    assert (r = y) as -> by (eapply NoDup_agent_inj; [apply (bh_remote_ok _ _ Hb)|done..]). lia. }
  apply IH; [done|done| |by rewrite find_refines, Hm, spec_merge_other, <- find_refines].
  etrans; [exact Hle|]. apply watermark_le; [apply watermark_nonneg|]. intros x Hx.
  destruct (spec_merge_grows (stamped (clock n) (page st (peer_state node))) _ _ _ (elem_by_id _ x (proj1 (bh_local_ok _ _ Hb)) Hx))
    as (z & Hz & Hxz). rewrite <- Hm in Hz. apply by_id_elem in Hz as [Hz _]. apply stats_bound in Hz. unfold watermark. lia.
Qed.

(** Rounds against a peer add nothing but what the peer holds. *)
Lemma rounds_origin n clock st node : behind st (peer_state node) ->
  let st' := (run n clock st node).1 in
  behind st' (peer_state node) /\
  forall x, x ∈ records_ (st_registry st') ->
    x ∈ records_ (st_registry st) \/ exists ex r, r ∈ records_ (st_registry (peer_state node)) /\ x = set_expires_at ex r.
Proof.
  revert st node. induction n as [|n IH]; intros st node Hb; cbn [sync_rounds]; [split; [done|by left]|].
  destruct (round_behind (clock n) st node Hb) as (st1 & k & res & Hround & Hb1 & Hm). rewrite Hround.
  destruct (IH st1 (mkPeerNode (peer_state node) k) Hb1) as [H1 H2]. split; [done|]. intros x [Hx|Hx]%H2; [|by right].
  apply elem_by_id in Hx; [|apply (bh_local_ok _ _ Hb1)]. rewrite Hm in Hx.
  apply spec_merge_says in Hx as [[Hx _]%by_id_elem|(ex & r & [Hr _]%entries_after_elem & ->)%stamped_elem]; [by left|right; eauto].
Qed.

(** ** Chains of nodes *)

(** Every node of the list synchronises, for [n] rounds, with the one before it. *)
Fixpoint relay (n : nat) (clock : nat -> nat -> TimePoint) (source : NodeState W) (followers : list (NodeState W))
    : list (NodeState W) :=
  match followers with
  | [] => []
  | st :: rest => let st' := (run n clock st (mkPeerNode source 0)).1 in st' :: relay n clock st' rest
  end.

(** What a source has to be so that everything it holds can be passed on. *)
Record relayable (source : NodeState W) : Prop := mkRelayable {
  rl_ok : registry_ok (st_registry source);
  rl_lines : Forall line_ok (records_ (st_registry source));
  rl_positive : Forall (fun x => 0 < revision x) (records_ (st_registry source));
  rl_distinct : forall r1 r2, r1 ∈ records_ (st_registry source) -> r2 ∈ records_ (st_registry source) ->
    revision r1 = revision r2 -> r1 = r2;
}.

(** A node that holds nothing yet, and whose identity service, if it has one, refuses nothing of
    the source. *)
Definition fresh_for (source st : NodeState W) : Prop :=
  records_ (st_registry st) = [] /\ unrefused (st_identity st) (records_ (st_registry source)).

(** [st] holds what [source] holds, and nothing else, up to the expiry. *)
Definition copy_of (source st : NodeState W) : Prop :=
  registry_ok (st_registry st) /\ (forall r, r ∈ records_ (st_registry source) -> delivered r st) /\
  forall x, x ∈ records_ (st_registry st) -> exists ex r, r ∈ records_ (st_registry source) /\ x = set_expires_at ex r.

Lemma copy_length source st : copy_of source st ->
  (length (records_ (st_registry st)) <= length (records_ (st_registry source)))%nat.
Proof.
  intros ([Hnd _] & _ & Hx). rewrite <- (length_fmap agent_id (records_ (st_registry st))), <- (length_fmap agent_id (records_ (st_registry source))).
  apply submseteq_length, NoDup_submseteq; [done|]. intros aid (x & -> & (ex & r & Hr & ->)%Hx)%list_elem_of_fmap.
  simpl. apply list_elem_of_fmap. eauto.
Qed.

Lemma copy_relayable source st : relayable source -> copy_of source st -> relayable st.
Proof.
  intros [Hok Hl Hp Hd] (Hok' & Hdel & Hx). rewrite Forall_forall in Hl, Hp. split; [done|..].
  - apply Forall_forall. intros x (ex & r & Hr & ->)%Hx. apply set_expires_line_ok, Hl, Hr.
  - apply Forall_forall. intros x (ex & r & Hr & ->)%Hx. apply (Hp r Hr).
  - intros x1 x2 H1 H2 Hrev. destruct (Hx x1 H1) as (e1 & r1 & Hr1 & E1), (Hx x2 H2) as (e2 & r2 & Hr2 & E2).
    assert (r1 = r2) as -> by (apply Hd; [done..|]; by rewrite E1, E2 in Hrev).
    eapply NoDup_agent_inj; [apply Hok'|done|done|]. by rewrite E1, E2.
Qed.

Lemma copy_trans a b c : copy_of a b -> copy_of b c -> copy_of a c.
Proof.
  intros (Hokb & Hdb & Hxb) (Hokc & Hdc & Hxc). split_and!; [done|..].
  - intros r Hr. destruct (Hdb r Hr) as (ex & Hf). rewrite find_refines in Hf. apply by_id_elem in Hf as [Hf _].
    destruct (Hdc _ Hf) as (ex' & Hf'). exists ex'. by destruct r.
  - intros x (ex & y & (ex' & r & Hr & ->)%Hxb & ->)%Hxc. exists ex, r. split; [done|by destruct r].
Qed.

(** One link of the chain. *)
Lemma relay_one n clock source st : 0 < max_entries_per_round_ this -> relayable source -> fresh_for source st ->
  size_of (records_ (st_registry source)) <= Z.of_nat n * max_entries_per_round_ this ->
  copy_of source (run n clock st (mkPeerNode source 0)).1.
Proof.
  intros Hpos [Hok Hl Hp Hd] [Hempty Hu] Hn. rewrite Forall_forall in Hp.
  assert (Hw : watermark st = 0) by (unfold watermark, stats; simpl; by rewrite Hempty).
  assert (Hb : behind st source).
  { split; [|done| |done| |done|].
    - unfold registry_ok. rewrite Hempty. split; constructor.
    - rewrite Hempty. constructor.
    - rewrite Hw. apply watermark_nonneg.
    - rewrite Hempty. by intros e r ?%elem_of_nil. }
  assert (Hnewer : size_of (newer (watermark st) (st_registry source)) <= Z.of_nat n * max_entries_per_round_ this).
  { etrans; [|exact Hn]. unfold size_of, newer. apply Nat2Z.inj_le, length_filter. }
  pose proof (rounds_deliver Hpos n clock st (mkPeerNode source 0) Hb) as Hdel. pose proof (rounds_origin n clock st (mkPeerNode source 0) Hb) as [Hb' Ho].
  destruct (run n clock st (mkPeerNode source 0)) as [st' node']. cbn [fst peer_state] in *.
  destruct Hdel as (_ & _ & Hdel); [|done|].
  { intros r1 r2 [_ H1]%list_elem_of_filter [_ H2]%list_elem_of_filter. by apply Hd. }
  split_and!; [apply Hb'|..].
  - intros r Hr. apply Hdel; [done|]. left. rewrite Hw. by apply Hp.
  - intros x [Hx|Hx]%Ho; [|done]. rewrite Hempty in Hx. by apply elem_of_nil in Hx.
Qed.

(** ** Properties *)

(** (C9) Dissemination: along a chain of fresh nodes of any length, in which every node
    synchronises with the one before it for as many rounds as the number of registrations
    needs in pages of the limit, every node ends up with exactly the registrations of the
    first one, up to the expiry and whatever the limit and the clocks, provided that these have
    positive, pairwise different revisions, that the line format carries them (no white space
    in a field, as in everything clients send over lines), that no identity service on the way
    refuses them (each is unsigned, or signed validly and its agent pinned to no other key),
    and that the connections work. *)
Theorem chain_dissemination n clock source followers
    (positive : 0 < max_entries_per_round_ this) (can_relay : relayable source)
    (fresh : Forall (fresh_for source) followers)
    (enough : size_of (records_ (st_registry source)) <= Z.of_nat n * max_entries_per_round_ this) :
  length (relay n clock source followers) = length followers /\
  Forall (copy_of source) (relay n clock source followers).
Proof.
  revert source can_relay enough fresh. induction followers as [|st rest IH]; intros source Hr Hn Hfresh; [done|]. cbn [relay length].
  apply Forall_cons in Hfresh as [Hst Hrest].
  pose proof (relay_one n clock source st positive Hr Hst Hn) as Hc. set (st' := (run n clock st _).1) in *.
  destruct (IH st') as [IH1 IH2]; [by eapply copy_relayable| | |].
  { etrans; [|exact Hn]. unfold size_of. apply Nat2Z.inj_le. by apply copy_length. }
  { eapply Forall_impl; [exact Hrest|]. intros z [Hz Hzu]. split; [done|]. eapply unrefused_restamped; [|exact Hzu]. apply Hc. }
  split; [by rewrite IH1|]. constructor; [done|]. eapply Forall_impl; [exact IH2|]. intros z Hz. by eapply copy_trans.
Qed.


(** A page that ends inside a group of equal revisions loses the rest of the group for good:
    an entry that is left out although the page holds another one of the same revision, and
    whose agent the local node does not know, is in no later page either, however many rounds
    follow. *)
Theorem page_boundary_loses_ties n clock st node x y
    (is_behind : behind st (peer_state node)) (taken : x ∈ page st (peer_state node))
    (left_out : y ∈ records_ (st_registry (peer_state node))) (not_taken : y ∉ page st (peer_state node))
    (tie : revision x = revision y) (unknown : find (agent_id y) (st_registry st) = None) :
  find (agent_id y) (st_registry (run (1 + n) clock st node).1) = None.
Proof.
  cbn [sync_rounds Nat.add]. destruct (round_behind (clock n) st node is_behind) as (st1 & k & res & Hround & Hb1 & Hm). rewrite Hround.
  pose proof taken as [Hx Hlt]%entries_after_elem.
  assert (Hd : delivered x st1) by (apply (round_delivers (clock n) st st1 (peer_state node)); auto).
  apply rounds_never_pull; [done|done| |].
  - destruct Hd as (ex & Hf). rewrite find_refines in Hf. apply by_id_elem in Hf as [Hf _]. apply stats_bound in Hf.
    change (revision x <= watermark st1) in Hf. lia.
  - rewrite find_refines, Hm, spec_merge_other, <- find_refines; [done|]. apply Forall_forall.
    intros z (ex & r & Hr & ->)%stamped_elem Heq. simpl in Heq.
    assert (r = y) as -> by (eapply NoDup_agent_inj; [apply (bh_remote_ok _ _ is_behind)|by apply entries_after_elem in Hr as [? _]|done..]). done.
Qed.
End catch_up.

(** ** Witnesses *)

Definition run_rounds (n : nat) (max : Z) (local remote : list AgentRecord) :=
  @sync_rounds unit toy_sodium _ PeerNode
    (@beacon_peer unit toy_sodium _ libstdcxx_moved_from toy_request toy_response true open_protocol (fun _ => 5) whole_peek)
    n (mkSyncClient max) (mkSyncPeer "127.0.0.1" 43171) (fun _ _ => 9) (example_node local)
    (mkPeerNode (example_node remote) 0).

Lemma example_behind local remote (l := (fun '(id, rev) => example_agent id rev) <$> local)
    (r := (fun '(id, rev) => example_agent id rev) <$> remote) :
  forallb (fun '(id, rev) => is_word id && bool_decide (u64 rev)) (local ++ remote) &&
  bool_decide (NoDup (agent_id <$> l)) && bool_decide (Forall (fun r => u64 (revision r)) l) &&
  bool_decide (NoDup (agent_id <$> r)) && bool_decide (Forall (fun r => u64 (revision r)) r) &&
  (watermark (example_node l) <=? watermark (example_node r)) = true ->
  behind (example_node l) (example_node r).
Proof.
  intros H. repeat (apply andb_true_iff in H as [H ?]). rewrite forallb_app in H. apply andb_true_iff in H as [Hl Hr].
  split.
  - apply example_registry_ok. by apply andb_true_iff.
  - apply example_registry_ok. by apply andb_true_iff.
  - by apply example_lines_ok.
  - by apply example_lines_ok.
  - bool_to_prop. done.
  - apply example_unrefused.
  - intros e x ([ide reve] & -> & _)%list_elem_of_fmap _ _. done.
Qed.


(** Two agents at revision 3, pages of one: the second never arrives. *)
Lemma page_boundary_loses_ties_witness :
  let remote := [example_agent "b" 3; example_agent "c" 3] in
  find "c" (st_registry (run_rounds 5 1 [example_agent "a" 2] remote).1) = None.
Proof.
  intros remote.
  apply (@page_boundary_loses_ties unit toy_sodium toy_sodium_laws _ libstdcxx_moved_from toy_request toy_response true open_protocol
    (fun _ => 5) whole_peek whole_peek_ok (mkSyncClient 1) (mkSyncPeer "127.0.0.1" 43171) ltac:(simpl; lia) 4 (fun _ _ => 9)
    (example_node [example_agent "a" 2]) (mkPeerNode (example_node remote) 0) (example_agent "b" 3) (example_agent "c" 3)).
  - apply (example_behind [("a", 2)] [("b", 3); ("c", 3)])%string. by vm_compute.
  - apply (bool_decide_unpack (_ ∈ _)). by vm_compute.
  - simpl. set_solver.
  - apply (bool_decide_unpack (_ ∉ _)). by vm_compute.
  - reflexivity.
  - reflexivity.
Defined.

(** Two agents, pages of one, a chain of two fresh nodes. *)
Lemma chain_dissemination_witness :
  let source := example_node [example_agent "b" 3; example_agent "c" 6] in
  let nodes := @relay unit toy_sodium _ libstdcxx_moved_from toy_request toy_response true open_protocol (fun _ => 5) whole_peek
    (mkSyncClient 1) (mkSyncPeer "127.0.0.1" 43171) 2 (fun _ _ => 9) source [example_node []; example_node []] in
  Forall (copy_of source) nodes /\ ((fun st => agent_id <$> records_ (st_registry st)) <$> nodes) = [["b"; "c"]; ["b"; "c"]]%string.
Proof.
  intros source nodes.
  destruct (@chain_dissemination unit toy_sodium toy_sodium_laws _ libstdcxx_moved_from toy_request toy_response true open_protocol (fun _ => 5)
    whole_peek whole_peek_ok (mkSyncClient 1) (mkSyncPeer "127.0.0.1" 43171) ltac:(simpl; lia) 2 (fun _ _ => 9) source
    [example_node []; example_node []]) as [_ H].
  - reflexivity.
  - split.
    + exact (example_registry_ok [example_agent "b" 3; example_agent "c" 6] eq_refl).
    + exact (example_lines_ok [("b", 3); ("c", 6)]%string eq_refl).
    + apply Forall_cons_2; [reflexivity|]. apply Forall_cons_2; [reflexivity|]. apply Forall_nil_2.
    + intros r1 r2 H1 H2. change (r1 ∈ [example_agent "b" 3; example_agent "c" 6]) in H1. change (r2 ∈ [example_agent "b" 3; example_agent "c" 6]) in H2.
      rewrite !elem_of_cons, elem_of_nil in H1, H2. destruct H1 as [-> |[-> |[]]], H2 as [-> |[-> |[]]]; done.
  - repeat apply Forall_cons_2; [split; [reflexivity|exact (example_unrefused [("b", 3); ("c", 6)]%string)]..|apply Forall_nil_2].
  - simpl. unfold size_of. simpl. lia.
  - split; [exact H|by vm_compute].
Defined.
