(* ===== verification/Crc32.v ===== *)
(** * The checksum of the log: [PersistenceService::compute_crc32]

    The bitwise CRC-32 of [persistence_service.cpp], on 32-bit words, and the fact that makes
    it useful there: the register is updated by a linear bijection, so two texts of the same
    length that differ only within 32 consecutive bits never have the same checksum. *)

From S2P Require Import Prelude CxxString CxxContainers.

(** ** Definitions *)

Definition crc_poly : Z := 0xEDB88320.

(** One turn of the inner loop. *)
Definition crc_bit (crc : Z) : Z :=
  if negb (Z.land crc 1 =? 0) then Z.lxor (Z.shiftr crc 1) crc_poly else Z.shiftr crc 1.

(** One turn of the outer loop: eight of them after the byte is mixed in. *)
Definition crc_byte (crc : Z) (c : byte) : Z := Nat.iter 8 crc_bit (Z.lxor crc (Z_of_byte c)).

(** [~crc] of a 32-bit word is [wrap 32 (Z.lnot crc)]. *)
Definition compute_crc32 (data : bytes) : Z := wrap 32 (Z.lnot (foldl crc_byte 0xFFFFFFFF data)).

Example crc32_check_value : compute_crc32 (bytes_of_string "123456789") = 0xCBF43926.
Proof. by vm_compute. Qed.

(** ** The register stays in 32 bits *)

Lemma u32_bits z : 0 <= z -> (forall i, 32 <= i -> Z.testbit z i = false) -> u32 z.
Proof.
  intros Hz Hb. split; [done|]. destruct (decide (z = 0)) as [->|]; [lia|].
  apply Z.log2_lt_pow2; [lia|]. destruct (Z.lt_ge_cases (Z.log2 z) 32) as [|Hge]; [done|].
  specialize (Hb _ Hge). rewrite Z.bit_log2 in Hb by lia. done.
Qed.

Lemma u32_testbit z i : u32 z -> 32 <= i -> Z.testbit z i = false.
Proof. intros Hz Hi. rewrite <- (Z.mod_small z (2 ^ 32)) by done. apply Z.mod_pow2_bits_high. lia. Qed.

Lemma lxor_u32 a b : u32 a -> u32 b -> u32 (Z.lxor a b).
Proof.
  intros Ha Hb. apply u32_bits; [apply Z.lxor_nonneg; lia|].
  intros i Hi. by rewrite Z.lxor_spec, !u32_testbit.
Qed.

Lemma shiftr_u31 a : u32 a -> 0 <= Z.shiftr a 1 < 2 ^ 31.
Proof. intros Ha. rewrite Z.shiftr_div_pow2 by done. change (2 ^ 1) with 2. Z.to_euclidean_division_equations. lia. Qed.

Lemma crc_bit_u32 c : u32 c -> u32 (crc_bit c).
Proof.
  intros Hc. pose proof (shiftr_u31 c Hc). unfold crc_bit. case_match; [apply lxor_u32; unfold crc_poly|]; lia.
Qed.

(** ** The update is injective *)

Lemma lxor_cancel_r a b c : Z.lxor a c = Z.lxor b c -> a = b.
Proof.
  intros Heq. apply (f_equal (fun x => Z.lxor x c)) in Heq.
  by rewrite !Z.lxor_assoc, Z.lxor_nilpotent, !Z.lxor_0_r in Heq.
Qed.

Lemma crc_bit_odd c : crc_bit c = if Z.odd c then Z.lxor (Z.shiftr c 1) crc_poly else Z.shiftr c 1.
Proof.
  unfold crc_bit. replace (Z.land c 1) with (c mod 2) by (symmetry; apply (Z.land_ones c 1); lia).
  rewrite Zmod_odd. by destruct (Z.odd c).
Qed.

(** Bit 31 of the result is the bit that was shifted out. *)
Lemma crc_bit_top c : u32 c -> Z.testbit (crc_bit c) 31 = Z.odd c.
Proof.
  intros Hc. pose proof (shiftr_u31 c Hc) as Hs.
  assert (Ht : Z.testbit (Z.shiftr c 1) 31 = false).
  { rewrite <- (Z.mod_small (Z.shiftr c 1) (2 ^ 31)) by done. apply Z.mod_pow2_bits_high. lia. }
  rewrite crc_bit_odd. destruct (Z.odd c); [|done]. by rewrite Z.lxor_spec, Ht.
Qed.

Lemma crc_bit_inj c1 c2 : u32 c1 -> u32 c2 -> crc_bit c1 = crc_bit c2 -> c1 = c2.
Proof.
  intros H1 H2 Heq. assert (Hodd : Z.odd c1 = Z.odd c2) by (rewrite <- !crc_bit_top by done; by rewrite Heq).
  rewrite !crc_bit_odd, Hodd in Heq.
  assert (Hs : Z.shiftr c1 1 = Z.shiftr c2 1).
  { destruct (Z.odd c2); [by eapply lxor_cancel_r|done]. }
  rewrite !Z.shiftr_div_pow2 in Hs by done. change (2 ^ 1) with 2 in Hs.
  pose proof (Zmod_odd c1) as M1. pose proof (Zmod_odd c2) as M2. rewrite Hodd in M1.
  pose proof (Z.div_mod c1 2 ltac:(lia)). pose proof (Z.div_mod c2 2 ltac:(lia)). lia.
Qed.

Lemma crc_iter_u32 n c : u32 c -> u32 (Nat.iter n crc_bit c).
Proof. intros Hc. induction n as [|n IH]; [done|]. by apply crc_bit_u32. Qed.

Lemma crc_iter_inj n c1 c2 : u32 c1 -> u32 c2 -> Nat.iter n crc_bit c1 = Nat.iter n crc_bit c2 -> c1 = c2.
Proof.
  intros H1 H2. induction n as [|n IH]; [done|]. intros Heq%crc_bit_inj; [by apply IH|by apply crc_iter_u32..].
Qed.

Lemma byte_u32 b : u32 (Z_of_byte b).
Proof. pose proof (Z_of_byte_range b). lia. Qed.

Lemma crc_byte_u32 c b : u32 c -> u32 (crc_byte c b).
Proof. intros Hc. apply crc_iter_u32, lxor_u32; [done|apply byte_u32]. Qed.

Lemma crc_fold_u32 data c : u32 c -> u32 (foldl crc_byte c data).
Proof. revert c. induction data as [|b data IH]; intros c Hc; [done|]. simpl. by apply IH, crc_byte_u32. Qed.

Lemma wrap_lnot_inj a b : u32 a -> u32 b -> wrap 32 (Z.lnot a) = wrap 32 (Z.lnot b) -> a = b.
Proof. unfold wrap, Z.lnot. intros Ha Hb. Z.to_euclidean_division_equations. lia. Qed.

Lemma compute_crc32_u32 data : u32 (compute_crc32 data).
Proof. apply wrap_range. lia. Qed.

(** ** The checksum as a remainder

    The register is linear over exclusive or, and mixing a byte in later is mixing it in
    shifted: processing a text byte by byte is pushing the whole text, read as one number of
    eight bits per byte, least significant byte first, through the bit step. *)

(** The text as a number. *)
Fixpoint text_value (data : bytes) : Z :=
  match data with
  | [] => 0
  | b :: data' => Z.lxor (Z_of_byte b) (Z.shiftl (text_value data') 8)
  end.

Lemma crc_bit_lxor a b : crc_bit (Z.lxor a b) = Z.lxor (crc_bit a) (crc_bit b).
Proof.
  rewrite !crc_bit_odd, Z.shiftr_lxor. rewrite <- !Z.bit0_odd, Z.lxor_spec.
  destruct (Z.testbit a 0), (Z.testbit b 0); simpl; apply Z.bits_inj'; intros i Hi; rewrite ?Z.lxor_spec;
    destruct (Z.testbit (Z.shiftr a 1) i), (Z.testbit (Z.shiftr b 1) i), (Z.testbit crc_poly i); done.
Qed.

Lemma crc_iter_lxor n a b : Nat.iter n crc_bit (Z.lxor a b) = Z.lxor (Nat.iter n crc_bit a) (Nat.iter n crc_bit b).
Proof. induction n as [|n IH]; [done|]. simpl. by rewrite IH, crc_bit_lxor. Qed.

Lemma crc_bit_double e : crc_bit (Z.shiftl e 1) = e.
Proof.
  rewrite crc_bit_odd, <- Z.bit0_odd, Z.shiftl_spec_low by lia. rewrite Z.shiftr_shiftl_l by lia. by rewrite Z.shiftl_0_r.
Qed.

Lemma crc_iter_shiftl k e : Nat.iter k crc_bit (Z.shiftl e (Z.of_nat k)) = e.
Proof.
  revert e. induction k as [|k IH]; intros e; [apply Z.shiftl_0_r|]. rewrite Nat.iter_succ_r.
  replace (Z.shiftl e (Z.of_nat (S k))) with (Z.shiftl (Z.shiftl e (Z.of_nat k)) 1)
    by (rewrite Z.shiftl_shiftl by lia; f_equal; lia). by rewrite crc_bit_double.
Qed.

(** The byte loop is the bit loop over the whole text. *)
Lemma crc_fold_text data c :
  foldl crc_byte c data = Nat.iter (8 * length data) crc_bit (Z.lxor c (text_value data)).
Proof.
  revert c. induction data as [|b data IH]; intros c; [by rewrite Z.lxor_0_r|].
  cbn [foldl length text_value]. rewrite IH. unfold crc_byte.
  replace (8 * S (length data))%nat with (8 * length data + 8)%nat by lia. rewrite Nat.iter_add. f_equal.
  rewrite <- Z.lxor_assoc, (crc_iter_lxor 8 (Z.lxor c _)). f_equal. symmetry. apply (crc_iter_shiftl 8).
Qed.

Lemma text_value_nonneg data : 0 <= text_value data.
Proof.
  induction data as [|b data IH]; [done|]. cbn [text_value]. pose proof (Z_of_byte_range b).
  apply Z.lxor_nonneg. rewrite Z.shiftl_nonneg. lia.
Qed.

Lemma text_value_high data i : 8 * size_of data <= i -> Z.testbit (text_value data) i = false.
Proof.
  revert i. induction data as [|b data IH]; intros i Hi; [apply Z.bits_0|]. rewrite size_of_cons in Hi. cbn [text_value].
  pose proof (size_of_nonneg data). rewrite Z.lxor_spec, Z.shiftl_spec, IH, xorb_false_r by lia.
  rewrite <- (Z.mod_small (Z_of_byte b) (2 ^ 8)) by apply Z_of_byte_range. apply Z.mod_pow2_bits_high. lia.
Qed.

(** Two texts of the same length that differ, as bit strings, only within 32 consecutive
    bits. *)
Definition burst (data data' : bytes) : Prop :=
  length data = length data' /\
  exists e k, 0 < e < 2 ^ 32 /\ 0 <= k /\ Z.lxor (text_value data) (text_value data') = Z.shiftl e k.

Lemma burst_position data data' e k : length data = length data' -> 0 < e -> 0 <= k ->
  Z.lxor (text_value data) (text_value data') = Z.shiftl e k -> k < 8 * size_of data.
Proof.
  intros Hlen He Hk Heq. destruct (Z.lt_ge_cases k (8 * size_of data)) as [|Hge]; [done|exfalso].
  pose proof (Z.log2_nonneg e).
  assert (Hbit : Z.testbit (Z.shiftl e k) (k + Z.log2 e) = true).
  { rewrite Z.shiftl_spec by lia. replace (k + Z.log2 e - k) with (Z.log2 e) by lia. by apply Z.bit_log2. }
  rewrite <- Heq, Z.lxor_spec, !text_value_high in Hbit by (unfold size_of in *; lia). done.
Qed.

(** CRC-32 detects every burst error of up to 32 bits. *)
Lemma crc32_detects_burst data data' : burst data data' -> compute_crc32 data <> compute_crc32 data'.
Proof.
  intros (Hlen & e & k & He & Hk & Heq) Hcrc. pose proof (burst_position _ _ _ _ Hlen (proj1 He) Hk Heq) as Hpos.
  apply wrap_lnot_inj in Hcrc; [|by apply crc_fold_u32; lia..].
  rewrite !crc_fold_text, <- Hlen in Hcrc. set (n := (8 * length data)%nat) in *. set (c := 0xFFFFFFFF) in *.
  apply (f_equal (Z.lxor (Nat.iter n crc_bit (Z.lxor c (text_value data))))) in Hcrc.
  rewrite Z.lxor_nilpotent, <- crc_iter_lxor in Hcrc.
  replace (Z.lxor (Z.lxor c (text_value data)) (Z.lxor c (text_value data'))) with (Z.shiftl e k) in Hcrc.
  2: { rewrite <- Heq. apply Z.bits_inj'. intros i Hi. rewrite !Z.lxor_spec. by destruct (Z.testbit c i), (Z.testbit _ i), (Z.testbit _ i). }
  assert (Hn : n = ((n - Z.to_nat k) + Z.to_nat k)%nat) by (subst n; unfold size_of in Hpos; lia).
  rewrite Hn, Nat.iter_add in Hcrc. replace k with (Z.of_nat (Z.to_nat k)) in Hcrc at 3 by lia. rewrite crc_iter_shiftl in Hcrc.
  assert (H0 : Nat.iter (n - Z.to_nat k) crc_bit 0 = 0) by (clear; induction (n - Z.to_nat k)%nat as [|m IH]; [done|]; simpl; by rewrite IH).
  rewrite <- H0 in Hcrc. apply crc_iter_inj in Hcrc; lia.
Qed.

(** In bytes: any change within four consecutive bytes is such a burst. *)
Lemma text_value_app a b : text_value (a ++ b) = Z.lxor (text_value a) (Z.shiftl (text_value b) (8 * size_of a)).
Proof.
  induction a as [|x a IH]; [by rewrite Z.shiftl_0_r|]. pose proof (size_of_nonneg a). simpl app. cbn [text_value].
  rewrite IH, Z.shiftl_lxor, Z.shiftl_shiftl, Z.lxor_assoc, size_of_cons by lia. do 3 f_equal. lia.
Qed.

Lemma text_value_range data : 0 <= text_value data < 2 ^ (8 * size_of data).
Proof.
  pose proof (size_of_nonneg data). split; [apply text_value_nonneg|].
  destruct (decide (text_value data = 0)) as [->|Hne]; [apply Z.pow_pos_nonneg; lia|].
  pose proof (text_value_nonneg data). apply Z.log2_lt_pow2; [lia|].
  destruct (Z.lt_ge_cases (Z.log2 (text_value data)) (8 * size_of data)) as [|Hge]; [done|].
  apply (text_value_high data) in Hge. rewrite Z.bit_log2 in Hge by lia. done.
Qed.

Lemma text_value_inj a b : length a = length b -> text_value a = text_value b -> a = b.
Proof.
  revert b. induction a as [|x a IH]; intros [|y b] Hlen; try done. injection Hlen as Hlen. cbn [text_value]. intros Heq.
  assert (Hmod : forall z v, Z.lxor (Z_of_byte z) (Z.shiftl v 8) = Z_of_byte z + v * 2 ^ 8).
  { intros z v. rewrite <- Z.shiftl_mul_pow2 by lia. rewrite Z.add_nocarry_lxor; [done|].
    apply Z.bits_inj'. intros i Hi. rewrite Z.land_spec, Z.bits_0. destruct (Z.lt_ge_cases i 8).
    - by rewrite Z.shiftl_spec_low, andb_false_r.
    - rewrite <- (Z.mod_small (Z_of_byte z) (2 ^ 8)) by apply Z_of_byte_range. by rewrite Z.mod_pow2_bits_high by lia. }
  rewrite !Hmod in Heq. pose proof (Z_of_byte_range x). pose proof (Z_of_byte_range y).
  assert (Z_of_byte x = Z_of_byte y /\ text_value a = text_value b) as [Hx Ha] by lia.
  apply (inj Z_of_byte) in Hx as ->. f_equal. by apply IH.
Qed.

Lemma burst_window pre m m' post : length m = length m' -> (length m <= 4)%nat -> m <> m' ->
  burst (pre ++ m ++ post) (pre ++ m' ++ post).
Proof.
  intros Hlen H4 Hne. split; [by rewrite !length_app, Hlen|].
  exists (Z.lxor (text_value m) (text_value m')), (8 * size_of pre). pose proof (size_of_nonneg pre).
  assert (Hs : size_of m = size_of m') by (unfold size_of; lia). split_and!; [| |lia|].
  - pose proof (text_value_nonneg m). pose proof (text_value_nonneg m').
    assert (0 <= Z.lxor (text_value m) (text_value m')) by (apply Z.lxor_nonneg; lia).
    assert (Z.lxor (text_value m) (text_value m') <> 0); [|lia]. rewrite Z.lxor_eq_0_iff. by intros ?%text_value_inj.
  - assert (Hu : forall d, size_of d <= 4 -> u32 (text_value d)).
    { intros d Hd. pose proof (text_value_range d). pose proof (Z.pow_le_mono_r 2 (8 * size_of d) 32). lia. }
    apply lxor_u32; apply Hu; unfold size_of in *; lia.
  - rewrite !text_value_app, <- Hs, !Z.shiftl_lxor. apply Z.bits_inj'. intros i Hi. rewrite !Z.lxor_spec.
    by repeat destruct (Z.testbit _ i).
Qed.
