(* ===== verification/SecurePath.v ===== *)
(** * Resolving a path below a base directory: [resolve_secure_path]

    The same function stands in [persistence_service.cpp] and [identity_store.cpp].  What
    [std::filesystem::absolute] and [weakly_canonical] return depends on the machine (working
    directory, symbolic links), so they are an interface; appending a path is computed. *)

From S2P Require Import Prelude CxxString.

(** ** Definitions *)

Class PathEnv := {
  absolute : string -> string;
  (** [None]: the error code was set *)
  weakly_canonical : string -> option string;
}.

(** [base / user] of [std::filesystem::path], POSIX. *)
Definition is_absolute (p : string) : bool := starts_with p "/".
Definition ends_in_slash (p : string) : bool :=
  bool_decide (String.get (String.length p - 1) p = Some "/"%char).
Definition path_append (base user : string) : string :=
  if is_absolute user then user
  else if str_empty base || ends_in_slash base then base +:+ user
  else base +:+ "/" +:+ user.

Inductive path_error := CannotResolveBase | CannotResolvePath | PathTraversal (resolved : string).

(** The test after both paths are resolved: refuse? *)
Definition escapes (base_str res_str : string) : bool :=
  (String.length res_str <? String.length base_str)%nat ||
  negb (bool_decide (substr res_str 0 (String.length base_str) = base_str)) ||
  ((String.length base_str <? String.length res_str)%nat &&
   negb (bool_decide (String.get (String.length base_str) res_str = Some "/"%char)) &&
   negb (bool_decide (String.get (String.length base_str) res_str = Some "\"%char))).

Definition resolve_secure_path {E : PathEnv} (base user_path : string) : string + path_error :=
  match weakly_canonical (absolute base) with
  | None => inr CannotResolveBase
  | Some base_abs =>
      match weakly_canonical (path_append base_abs user_path) with
      | None => inr CannotResolvePath
      | Some resolved => if escapes base_abs resolved then inr (PathTraversal resolved) else inl resolved
      end
  end.

(** The base itself, or the base followed by a separator. *)
Definition below (base p : string) : Prop :=
  p = base \/ exists rest, p = base +:+ "/" +:+ rest \/ p = base +:+ "\" +:+ rest.

(** ** Lemmas *)

Lemma substring_prefix s n : (n <= String.length s)%nat ->
  exists r, s = String.substring 0 n s +:+ r /\ String.length r = (String.length s - n)%nat.
Proof.
  revert s. induction n as [|n IH]; intros [|c s] Hn; simpl in *; try lia.
  - by exists EmptyString.
  - exists (String c s). simpl. split; [by rewrite str_app_nil_l|done].
  - destruct (IH s ltac:(lia)) as (r & Hr & Hlen). exists r. rewrite str_app_cons. by rewrite <- Hr.
Qed.

Lemma get_app_r a c r : String.get (String.length a) (a +:+ String c r) = Some c.
Proof. induction a as [|d a IH]; [done|]. by rewrite str_app_cons. Qed.

Lemma escapes_below base p : escapes base p = false <-> below base p.
Proof.
  unfold escapes, below. split.
  - intros [[Hlen Hpre]%orb_false_iff Hsep]%orb_false_iff.
    apply Nat.ltb_ge in Hlen. apply negb_false_iff, bool_decide_eq_true in Hpre.
    destruct (substring_prefix p (String.length base) Hlen) as (r & Hp & _). unfold substr in Hpre. rewrite Hpre in Hp.
    destruct r as [|c r]; [left; by rewrite str_app_nil_r in Hp|right; exists r]. subst p.
    rewrite str_length_app, get_app_r in Hsep. simpl in Hsep.
    rewrite (proj2 (Nat.ltb_lt _ _)) in Hsep by lia. simpl in Hsep.
    apply andb_false_iff in Hsep as [H%negb_false_iff%bool_decide_eq_true|H%negb_false_iff%bool_decide_eq_true];
      injection H as ->; [by left|by right].
  - assert (Hpre : forall r, substr (base +:+ r) 0 (String.length base) = base) by apply substring_all.
    intros [-> |(rest & [-> | ->])].
    + pose proof (Hpre "") as H. rewrite str_app_nil_r in H. rewrite H, Nat.ltb_irrefl, bool_decide_eq_true_2 by done. done.
    + change ("/" +:+ rest) with (String "/" rest). rewrite Hpre, get_app_r, str_length_app.
      rewrite (proj2 (Nat.ltb_ge _ _)) by lia. rewrite !bool_decide_eq_true_2 by done. by rewrite andb_false_r.
    + change ("\" +:+ rest) with (String "\" rest). rewrite Hpre, get_app_r, str_length_app.
      rewrite (proj2 (Nat.ltb_ge _ _)) by lia. rewrite !(bool_decide_eq_true_2 (_ = _)) by done. by rewrite !andb_false_r.
Qed.

(** ** A concrete environment: lexical normalisation below [/work] *)

Fixpoint split_slash (s : string) : list string :=
  match s with
  | EmptyString => [EmptyString]
  | String c s' =>
      if bool_decide (c = "/"%char) then EmptyString :: split_slash s'
      else match split_slash s' with l :: ls => String c l :: ls | [] => [String c EmptyString] end
  end.
Definition normal_step (acc : list string) (part : string) : list string :=
  if str_empty part || bool_decide (part = ".") then acc
  else if bool_decide (part = "..") then tail acc else part :: acc.
Definition lexically_normal (p : string) : string :=
  match foldl normal_step [] (split_slash p) with
  | [] => "/"
  | parts => foldr (fun part rest => rest +:+ "/" +:+ part) "" parts
  end.
Definition lexical_env : PathEnv := {|
  absolute p := path_append "/work" p;
  weakly_canonical p := Some (lexically_normal p);
|}.

(** ** Property *)

(** [resolve_secure_path] returns a path exactly when both steps of the resolution succeed
    and the result is the canonical base or continues it behind a separator, '/' or '\'; in
    particular nothing but the root itself or a path with two leading separators is accepted
    below the root directory. *)
Theorem resolve_secure_path_exact {E : PathEnv} base user p :
  (resolve_secure_path base user = inl p <->
   exists base_abs, weakly_canonical (absolute base) = Some base_abs /\
     weakly_canonical (path_append base_abs user) = Some p /\ below base_abs p) /\
  (forall c rest, weakly_canonical (absolute base) = Some "/"%string ->
     weakly_canonical (path_append "/" user) = Some (String "/" (String c rest)) ->
     c <> "/"%char -> c <> "\"%char ->
     resolve_secure_path base user = inr (PathTraversal (String "/" (String c rest)))).
Proof.
  unfold resolve_secure_path. split.
  - split.
    + intros H. destruct (weakly_canonical (absolute base)) as [base_abs|]; [|done].
      exists base_abs. split; [done|]. destruct (weakly_canonical (path_append base_abs user)) as [q|]; [|done].
      destruct (escapes base_abs q) eqn:He; [done|]. injection H as ->. by apply escapes_below in He.
    + intros (base_abs & -> & -> & He%escapes_below). by rewrite He.
  - intros c rest -> -> Hc1 Hc2. replace (escapes "/" _) with true; [done|]. symmetry.
    apply not_false_iff_true. rewrite escapes_below.
    intros [[=]|(r & [H|H])]; injection H; congruence.
Qed.

(** Run on the lexical environment: a file below, an escape, a sibling whose name continues
    the base with a backslash, and the root as base. *)
Example resolve_ex :
  let resolve := @resolve_secure_path lexical_env in
  resolve "data" "registry.wal" = inl "/work/data/registry.wal"%string /\
  resolve "data" "../secret" = inr (PathTraversal "/work/secret") /\
  resolve "data" "../data-old/x" = inr (PathTraversal "/work/data-old/x") /\
  resolve "data" "../data\x" = inl "/work/data\x"%string /\
  resolve "/" "registry.wal" = inr (PathTraversal "/registry.wal").
Proof. by vm_compute. Qed.
