(* ===== verification/Persistence.v ===== *)
(** * The write-ahead log and the snapshot: [src/src/beacon_net/persistence_service.hpp],
      [persistence_service.cpp]

    The disk is a finite map from path to contents.  Whether a file can be opened for writing
    and whether a rename succeeds is decided by the machine ([Machine]); a write that is
    started is completed, and a crash in the middle of one leaves a prefix of what it writes.
    Words are stored little endian, as on the machines the program is built for.  An
    [std::ifstream] is the text still to be read.  The codec of the entries is the interface
    of [Protobuf]; exceptions are values of [recover_error]. *)

From S2P Require Import Prelude CxxString CxxContainers Protobuf Crc32 SecurePath.
Export V1.

(** ** Definitions *)

Record PersistenceConfig := mkPersistenceConfig {
  base_dir : string;
  wal_path : string;
  snapshot_path : string;
}.
Definition default_PersistenceConfig : PersistenceConfig := mkPersistenceConfig "." "registry.wal" "registry.bin".

Abbreviation disk := (gmap string bytes).

(** [fopen] in a writing mode, and [std::filesystem::rename]. *)
Class Machine := {
  can_write : string -> bool;
  can_rename : string -> string -> bool;
}.

(** [wal_file_]: the path of the open file, [None] for the null pointer. *)
Record PersistenceService := mkPersistenceService {
  pconfig : PersistenceConfig;
  wal_file_ : option string;
}.

Definition set_wal (f : option string) (this : PersistenceService) : PersistenceService :=
  mkPersistenceService (pconfig this) f.

(** [fopen(path, "ab")] creates a missing file and keeps the contents of an existing one;
    [fopen(path, "wb")] empties it. *)
Definition open_append {M : Machine} (path : string) (d : disk) : option disk :=
  if can_write path then Some (<[path := default [] (d !! path)]> d) else None.
Definition open_truncate {M : Machine} (path : string) (d : disk) : option disk :=
  if can_write path then Some (<[path := []]> d) else None.

(** Four bytes, least significant first. *)
Definition le32 (v : Z) : bytes :=
  [byte_of_Z v; byte_of_Z (Z.shiftr v 8); byte_of_Z (Z.shiftr v 16); byte_of_Z (Z.shiftr v 24)].

(** The word whose low bytes were overwritten with [bs]. *)
Definition le_value (bs : bytes) : Z := foldr (fun b acc => Z_of_byte b + 256 * acc) 0 bs.

Inductive recover_error :=
| BadPath (e : path_error)
| TooManyRecords (n : Z)
| EntryTooLarge (n : Z)
| TrailingBytes.

Definition MAX_ENTRY_SIZE : Z := 10 * 1024 * 1024.
Definition MAX_SNAPSHOT_RECORDS : Z := 1000000.

Section service.
Context {E : PathEnv} {M : Machine} {P : ProtoMessage RegistryEntry}.

(** [None]: [resolve_secure_path] threw. *)
Definition open_wal (this : PersistenceService) (d : disk) : option (PersistenceService * disk) :=
  match resolve_secure_path (base_dir (pconfig this)) (wal_path (pconfig this)) with
  | inr _ => None
  | inl path =>
      match open_append path d with
      | Some d' => Some (set_wal (Some path) this, d')
      | None => Some (set_wal None this, d)
      end
  end.

Definition new_persistence (config : PersistenceConfig) (d : disk) : option (PersistenceService * disk) :=
  open_wal (mkPersistenceService config None) d.

(** Size, checksum and text of an entry, as [append_entry] and [create_snapshot] write them. *)
Definition log_frame (serialized : bytes) : bytes :=
  let size := wrap 32 (size_of serialized) in
  le32 size ++ le32 (compute_crc32 serialized) ++ take (Z.to_nat size) serialized.

Definition append_entry (entry : RegistryEntry) (this : PersistenceService) (d : disk) : disk :=
  match wal_file_ this with
  | None => d
  | Some path =>
      match SerializeToString entry with
      | None => d
      | Some serialized => <[path := default [] (d !! path) ++ log_frame serialized]> d
      end
  end.

(** The text of a snapshot; entries that do not serialise are left out. *)
Definition snapshot_text (entries : list RegistryEntry) : bytes :=
  le32 (wrap 32 (size_of entries)) ++
  concat ((fun e => from_option log_frame [] (SerializeToString e)) <$> entries).

(** [None] of the second component: an exception left the function. *)
Definition create_snapshot (entries : list RegistryEntry) (this : PersistenceService) (d : disk)
    : (PersistenceService * disk) * bool :=
  let this := set_wal None this in
  let reopen d := match open_wal this d with Some sd => (sd, true) | None => ((this, d), false) end in
  match resolve_secure_path (base_dir (pconfig this)) (snapshot_path (pconfig this)) with
  | inr _ => ((this, d), false)
  | inl snapshot =>
      let tmp := snapshot +:+ ".tmp" in
      match open_truncate tmp d with
      | None => reopen d
      | Some d =>
          let d := <[tmp := snapshot_text entries]> d in
          let d := if can_rename tmp snapshot then <[snapshot := snapshot_text entries]> (delete tmp d) else d in
          match resolve_secure_path (base_dir (pconfig this)) (wal_path (pconfig this)) with
          | inr _ => ((this, d), false)
          | inl wal => reopen (default d (open_truncate wal d))
          end
      end
  end.

(** [stream.read(p, n)]: the bytes and the rest, or [None] when fewer are left. *)
Definition read_exact (n : nat) (s : bytes) : option (bytes * bytes) :=
  if (n <=? length s)%nat then Some (take n s, drop n s) else None.

(** The loop over the records of a snapshot.  After a short read the stream is at its end. *)
Fixpoint snapshot_loop (n : nat) (s : bytes) (max_ts : Z) (acc : list RegistryEntry)
    : (list RegistryEntry * Z * bytes) + recover_error :=
  match n with
  | O => inl (acc, max_ts, s)
  | S n' =>
      match read_exact 4 s with
      | None => inl (acc, max_ts, [])
      | Some (size_bytes, s) =>
          let size := le_value size_bytes in
          if MAX_ENTRY_SIZE <? size then inr (EntryTooLarge size)
          else match read_exact 4 s with
          | None => inl (acc, max_ts, [])
          | Some (crc_bytes, s) =>
              match read_exact (Z.to_nat size) s with
              | None => inl (acc, max_ts, [])
              | Some (buffer, s) =>
                  if negb (compute_crc32 buffer =? le_value crc_bytes) then snapshot_loop n' s max_ts acc
                  else match ParseFromString buffer with
                  | None => snapshot_loop n' s max_ts acc
                  | Some entry => snapshot_loop n' s (Z.max max_ts (ent_timestamp entry)) (acc ++ [entry])
                  end
              end
          end
      end
  end.

(** The first read is not checked: a short file fills the low bytes of [total_records]. *)
Definition read_snapshot (s : bytes) : (list RegistryEntry * Z) + recover_error :=
  let total_records := le_value (take 4 s) in
  if MAX_SNAPSHOT_RECORDS <? total_records then inr (TooManyRecords total_records)
  else match snapshot_loop (Z.to_nat total_records) (drop 4 s) 0 [] with
  | inr e => inr e
  | inl (acc, max_ts, rest) => if bool_decide (rest = []) then inl (acc, max_ts) else inr TrailingBytes
  end.

(** The replay of the log: every turn reads at least eight bytes, so the length of the text
    is fuel enough ([replay_fuel]).  The two counters are only printed. *)
Fixpoint replay_loop (fuel : nat) (s : bytes) (max_ts : Z) (acc : list RegistryEntry) : list RegistryEntry :=
  match fuel with
  | O => acc
  | S fuel' =>
      match read_exact 4 s with
      | None => acc
      | Some (size_bytes, s) =>
          match read_exact 4 s with
          | None => acc
          | Some (crc_bytes, s) =>
              let size := le_value size_bytes in
              if MAX_ENTRY_SIZE <? size then replay_loop fuel' s max_ts acc
              else match read_exact (Z.to_nat size) s with
              | None => acc
              | Some (buffer, s) =>
                  if negb (compute_crc32 buffer =? le_value crc_bytes) then replay_loop fuel' s max_ts acc
                  else match ParseFromString buffer with
                  | None => replay_loop fuel' s max_ts acc
                  | Some entry =>
                      if ent_timestamp entry <=? max_ts then replay_loop fuel' s max_ts acc
                      else replay_loop fuel' s max_ts (acc ++ [entry])
                  end
              end
          end
      end
  end.

Definition replay (s : bytes) (max_ts : Z) (acc : list RegistryEntry) : list RegistryEntry :=
  replay_loop (length s) s max_ts acc.

Definition recover (this : PersistenceService) (d : disk) : list RegistryEntry + recover_error :=
  match resolve_secure_path (base_dir (pconfig this)) (snapshot_path (pconfig this)) with
  | inr e => inr (BadPath e)
  | inl snapshot =>
      let from_snapshot := match d !! snapshot with None => inl ([], 0) | Some s => read_snapshot s end in
      match from_snapshot with
      | inr e => inr e
      | inl (acc, max_ts) =>
          match resolve_secure_path (base_dir (pconfig this)) (wal_path (pconfig this)) with
          | inr e => inr (BadPath e)
          | inl wal => match d !! wal with None => inl acc | Some s => inl (replay s max_ts acc) end
          end
      end
  end.
End service.
