(* ===== verification/TestSuite.v ===== *)
(** * The test programs of the repository, run on the model: [src/tests/cpp]

    [agent_registry_tests.cpp] and [persistence_tests.cpp] are translated statement by
    statement, every [assert] into an element of a list, and evaluated.  They say nothing about
    the program beyond the theorems, but they compare the definitions of this library with
    what the authors of the program observed.  The persistence tests run on the wire format of
    [ProtoWire]. *)

From S2P Require Import Prelude CxxString CxxContainers Types Sodium Crypto AgentRegistry Framing PeerHandshake ControlProtocol RegistrySync Protobuf ProtoWire Reputation GossipScheduler Crc32 SecurePath Persistence.

(** [s.find(t) != npos] *)
Fixpoint contains (s t : string) : bool :=
  starts_with s t || match s with EmptyString => false | String _ s' => contains s' t end.

Definition holds_ {A} (P : A -> bool) (o : option A) : bool := match o with Some x => P x | None => false end.

(** ** [agent_registry_tests.cpp] *)

Definition agent_registry_tests (now : TimePoint) : list bool :=
  let first := mkAgentRecord "agent-1" "node-1" "127.0.0.1:9000" ∅ 1 (now + milliseconds (5 * 1000)) "" "" in
  let '(registry, _, ok1) := upsert first new_registry tt in
  let stale := set_revision 0 (set_endpoint "127.0.0.1:9999" first) in
  let '(registry2, _, ok2) := upsert stale registry tt in
  let '(registry3, ok3) := refresh_heartbeat "agent-1" (now + milliseconds (10 * 1000)) 2 registry2 in
  let '(registry4, purged) := purge_expired (now + milliseconds (11 * 1000)) registry3 in
  let reputation := new_reputation (trust default_config) in
  let control := mkControlProtocol (lifecycle default_config) (trust default_config) in
  let run line st := handle_line control now now line st in
  let '(st1, r1) := run "REGISTER agent_id=agent-2 node_id=node-2 endpoint=127.0.0.1:9001 revision=1 metadata.role=worker"
    (mkNodeState registry4 tt None) in
  let '(st2, r2) := run "HEARTBEAT agent_id=agent-2 revision=2" st1 in
  let '(st3, r3) := run "STATS" st2 in
  let '(st4, r4) := run "LIST" st3 in
  let '(st5, r5) := run "SYNC_PULL after_revision=1 limit=10" st4 in
  let sync_plan := plan_push_pull (mkRegistrySync 10) (st_registry st5) 0 in
  let pushed := push_entries_of sync_plan !! 0%nat in
  let decoded_hello := decode_peer_hello (encode_peer_hello (mkPeerHello "node-3" 43170)) in
  let decoded_welcome := decode_peer_welcome (encode_peer_welcome (mkPeerWelcome "node-4" 7)) in
  let payload := bytes_of_string "ok" in
  let decoded_frame := decode_frame (encode_frame (mkFrame Framing.GossipEnvelope payload)) in
  [ ok1; bool_decide (is_Some (find "agent-1" registry)); active_agents (stats registry) =? 1; highest_revision (stats registry) =? 1;
    negb ok2; holds_ (fun r => bool_decide (endpoint r = "127.0.0.1:9000")) (find "agent-1" registry2);
    ok3; highest_revision (stats registry3) =? 2; purged =? 1; active_agents (stats registry4) =? 0;
    bool_decide (select_push_entries (mkGossipScheduler (gossip default_config)) (list_agents registry4) = []);
    accepts_peer reputation "peer-1"; accepts_peer (record_malformed "peer-1" reputation) "peer-1";
    bool_decide (r1 = "OK message=registered" +:+ nl); bool_decide (r2 = "OK message=heartbeat" +:+ nl);
    contains r3 "active_agents=1"; contains r4 "AGENT agent_id=agent-2"; contains r5 "AGENT agent_id=agent-2";
    local_revision sync_plan =? 2; size_of (push_entries_of sync_plan) =? 1;
    holds_ (fun r => starts_with (encode_merge_command r) "MERGE agent_id=agent-2") pushed;
    holds_ (fun h => bool_decide (hello_node_id h = "node-3")) decoded_hello; holds_ (fun h => hello_listen_port h =? 43170) decoded_hello;
    holds_ (fun w => welcome_registry_revision w =? 7) decoded_welcome;
    holds_ (fun f => bool_decide (kind f = Framing.GossipEnvelope)) decoded_frame;
    holds_ (fun f => bool_decide (Framing.payload f = payload)) decoded_frame;
    holds_ (fun r => contains (canonical_agent_payload r) "agent_id=agent-2") pushed;
    holds_ (fun r => bool_decide (verify_agent_signature r = Missing)) pushed ].

(** ** [persistence_tests.cpp] *)

Section persistence_tests.
#[local] Instance test_machine : Machine := {| can_write _ := true; can_rename _ _ := true |}.
#[local] Existing Instance lexical_env.
#[local] Instance test_codec : ProtoMessage RegistryEntry := wire_codec RegistryEntry.

Definition make_entry (agent_id : string) (timestamp : Z) : RegistryEntry := mkRegistryEntry agent_id "n" "e:1" timestamp [] [].
Definition cfg : PersistenceConfig := mkPersistenceConfig "." "test_persist.wal" "test_persist.bin".
Definition bin_path : string := "/work/test_persist.bin".
Definition test_service (d : disk) : PersistenceService * disk :=
  default (mkPersistenceService cfg None, d) (new_persistence cfg d).
Definition recover_again (d : disk) : list RegistryEntry + recover_error :=
  let '(p, d) := test_service d in recover p d.
Definition with_snapshot (entries : list RegistryEntry) : disk :=
  let '(p, d) := test_service ∅ in (create_snapshot entries p d).1.2.
Definition ids (r : list RegistryEntry + recover_error) : option (list string) :=
  match r with inl es => Some (ent_agent_id <$> es) | inr _ => None end.

Definition test_append_and_recover : list bool :=
  let '(p, d) := test_service ∅ in
  let d := append_entry (make_entry "agent-2" 200) p (append_entry (make_entry "agent-1" 100) p d) in
  [bool_decide (ids (recover_again d) = Some ["agent-1"; "agent-2"]%string)].

Definition test_snapshot_atomic_write : list bool :=
  let '(p, d) := test_service ∅ in
  let d := append_entry (make_entry "agent-1" 100) p d in
  let d := (create_snapshot [make_entry "agent-1" 100] p d).1.2 in
  [bool_decide (is_Some (d !! bin_path)); bool_decide (d !! (bin_path +:+ ".tmp") = None);
   bool_decide (ids (recover_again d) = Some ["agent-1"]%string)].

Definition test_snapshot_crc_detects_corruption : list bool :=
  let d := with_snapshot [make_entry "agent-1" 100] in
  let d := alter (fun bs => <[17%nat := Byte.xff]> bs) bin_path d in
  [bool_decide (ids (recover_again d) = Some [])].

Definition test_rejects_oversized_entry : list bool :=
  let d := {[bin_path := le32 1 ++ le32 (11 * 1024 * 1024) ++ le32 0]} in
  [bool_decide (ids (recover_again d) = None)].

Definition test_rejects_excessive_records : list bool :=
  let d := {[bin_path := le32 2000000]} in
  [bool_decide (ids (recover_again d) = None)].

Definition test_rejects_trailing_bytes : list bool :=
  let d := with_snapshot [make_entry "agent-1" 100] in
  let d := alter (fun bs => bs ++ bytes_of_string "EXTRA_BYTES") bin_path d in
  [bool_decide (ids (recover_again d) = None)].

Definition persistence_tests : list bool :=
  test_append_and_recover ++ test_snapshot_atomic_write ++ test_snapshot_crc_detects_corruption ++
  test_rejects_oversized_entry ++ test_rejects_excessive_records ++ test_rejects_trailing_bytes.
End persistence_tests.

(** The model passes both test programs. *)
Example test_programs_pass : forallb id (agent_registry_tests 1000) = true /\ forallb id persistence_tests = true.
Proof. split; by vm_compute. Qed.
