(* ===== verification/PersistenceProps.v ===== *)
(** * Properties of the log and the snapshot: round trips, crashes, corruption

    The abstract state of the disk is [holds]: a readable snapshot (its entries and the
    highest timestamp in it) and the entries of the log behind it.  The operations are shown
    to move between such states, and [recover] to be a function of them; the statements about
    crashes and corruption are about logs that are not quite of this form. *)

From S2P Require Import Prelude CxxString CxxContainers Protobuf Crc32 SecurePath Persistence.

(** ** Words and reads *)

Lemma le32_length v : length (le32 v) = 4%nat.
Proof. done. Qed.

Lemma le_value_le32 v : u32 v -> le_value (le32 v) = v.
Proof.
  intros Hv. unfold le_value, le32. cbn [foldr]. rewrite !Z_of_byte_of_Z. unfold wrap.
  rewrite !Z.shiftr_div_pow2 by done. change (2 ^ 8) with 256. change (2 ^ 16) with 65536. change (2 ^ 24) with 16777216.
  change (2 ^ 32) with 4294967296 in Hv. Z.to_euclidean_division_equations. lia.
Qed.

Lemma read_exact_app n a b : length a = n -> read_exact n (a ++ b) = Some (a, b).
Proof.
  intros <-. unfold read_exact. rewrite (proj2 (Nat.leb_le _ _)) by (rewrite length_app; lia).
  by rewrite take_app_length, drop_app_length.
Qed.

Lemma read_exact_short n s : (length s < n)%nat -> read_exact n s = None.
Proof. intros Hs. unfold read_exact. by rewrite (proj2 (Nat.leb_gt _ _)). Qed.

Lemma read_exact_length n s a b : read_exact n s = Some (a, b) -> (length s = n + length b)%nat.
Proof.
  unfold read_exact. destruct (n <=? length s)%nat eqn:Hn; [|done]. apply Nat.leb_le in Hn.
  intros [= <- <-]. rewrite length_drop. lia.
Qed.

Section props.
Context {E : PathEnv} {M : Machine} {P : ProtoMessage RegistryEntry} {L : ProtoLaws RegistryEntry}.

(** ** Fuel *)

Lemma replay_fuel s ts acc f1 f2 : (length s <= f1)%nat -> (length s <= f2)%nat ->
  replay_loop f1 s ts acc = replay_loop f2 s ts acc.
Proof.
  revert s ts acc f2. induction f1 as [|f1 IH]; intros s ts acc f2 H1 H2.
  - destruct s; [|simpl in *; lia]. by destruct f2.
  - destruct f2 as [|f2]; [destruct s; [done|simpl in *; lia]|]. cbn [replay_loop].
    destruct (read_exact 4 s) as [[a s1]|] eqn:E1; [|done]. apply read_exact_length in E1.
    destruct (read_exact 4 s1) as [[b s2]|] eqn:E2; [|done]. apply read_exact_length in E2.
    case_match; [apply IH; lia|].
    destruct (read_exact _ s2) as [[c s3]|] eqn:E3; [|done]. apply read_exact_length in E3.
    repeat case_match; apply IH; lia.
Qed.

(** ** One entry of the log *)

Lemma log_frame_small bs : size_of bs < 2 ^ 32 ->
  log_frame bs = le32 (size_of bs) ++ le32 (compute_crc32 bs) ++ bs.
Proof.
  intros Hs. pose proof (size_of_nonneg bs). unfold log_frame. rewrite wrap_small by lia.
  by rewrite (take_ge bs) by (unfold size_of; lia).
Qed.

(** What the replay does with a header, a payload of the announced size and the rest. *)
Lemma replay_step crc buffer rest ts acc : u32 crc -> size_of buffer <= MAX_ENTRY_SIZE ->
  replay (le32 (size_of buffer) ++ le32 crc ++ buffer ++ rest) ts acc =
  match (if compute_crc32 buffer =? crc then ParseFromString buffer else None) with
  | Some entry => if ts <? ent_timestamp entry then replay rest ts (acc ++ [entry]) else replay rest ts acc
  | None => replay rest ts acc
  end.
Proof.
  intros Hc Hs. pose proof (size_of_nonneg buffer) as Hn. unfold MAX_ENTRY_SIZE in *. unfold replay at 1.
  set (text := _ ++ _). rewrite (replay_fuel text ts acc _ (S (length text))) by lia.
  assert (Hfuel : forall t, replay_loop (length text) rest ts t = replay rest ts t).
  { intros t. apply replay_fuel; unfold text; rewrite ?length_app; lia. }
  revert Hfuel. generalize (length text) as f. intros f Hfuel. subst text. cbn [replay_loop].
  rewrite read_exact_app by done. rewrite read_exact_app by done.
  rewrite !le_value_le32 by lia. rewrite (proj2 (Z.ltb_ge MAX_ENTRY_SIZE _)) by (unfold MAX_ENTRY_SIZE; lia).
  rewrite read_exact_app by (unfold size_of; lia).
  destruct (compute_crc32 buffer =? crc); cbn [negb]; [|apply Hfuel].
  destruct (ParseFromString buffer) as [entry|]; [|apply Hfuel].
  rewrite Z.leb_antisym. destruct (ts <? ent_timestamp entry); cbn [negb]; apply Hfuel.
Qed.

(** A last entry that is cut short is ignored. *)
Lemma replay_short t ts acc :
  (length t < 8)%nat \/ le_value (take 4 t) <= MAX_ENTRY_SIZE /\ Z.of_nat (length t) < 8 + le_value (take 4 t) ->
  replay t ts acc = acc.
Proof.
  intros Ht. unfold replay. destruct (length t) as [|f] eqn:Hlen; [done|]. cbn [replay_loop].
  destruct (read_exact 4 t) as [[a s1]|] eqn:E1; [|done].
  assert (a = take 4 t) as -> by (unfold read_exact in E1; case_match; congruence).
  apply read_exact_length in E1.
  destruct (read_exact 4 s1) as [[b s2]|] eqn:E2; [|done]. apply read_exact_length in E2.
  destruct Ht as [Ht|[Ht Hlt]]; [lia|]. rewrite (proj2 (Z.ltb_ge _ _)) by done.
  by rewrite read_exact_short by lia.
Qed.

(** ** Entries that can be logged *)

Definition loggable (e : RegistryEntry) : Prop :=
  proto_valid e /\ exists bs, SerializeToString e = Some bs /\ size_of bs <= MAX_ENTRY_SIZE.

Definition frame_of (e : RegistryEntry) : bytes := from_option log_frame [] (SerializeToString e).
Definition frames (es : list RegistryEntry) : bytes := concat (frame_of <$> es).

Lemma frames_snoc es e : frames (es ++ [e]) = frames es ++ frame_of e.
Proof. unfold frames. rewrite fmap_app, concat_app. simpl. by rewrite app_nil_r. Qed.

Lemma frame_of_loggable e : loggable e -> exists bs, SerializeToString e = Some bs /\ size_of bs <= MAX_ENTRY_SIZE /\
  frame_of e = le32 (size_of bs) ++ le32 (compute_crc32 bs) ++ bs /\ ParseFromString bs = Some e.
Proof.
  intros (Hv & bs & Hbs & Hs). exists bs. split_and!; [done|done| |by eapply parse_serialized].
  unfold frame_of. rewrite Hbs. simpl. apply log_frame_small. unfold MAX_ENTRY_SIZE in *. lia.
Qed.

Lemma replay_frames es rest ts acc : Forall loggable es ->
  replay (frames es ++ rest) ts acc = replay rest ts (acc ++ filter (fun e => ts < ent_timestamp e) es).
Proof.
  intros Hes. revert acc. induction Hes as [|e es He _ IH]; intros acc; [by rewrite app_nil_r|].
  destruct (frame_of_loggable e He) as (bs & _ & Hs & Hf & Hp).
  unfold frames in *. rewrite fmap_cons. cbn [concat]. rewrite Hf, <- !app_assoc.
  rewrite replay_step by (done || apply compute_crc32_u32). rewrite Z.eqb_refl, Hp, filter_cons.
  destruct (ts <? ent_timestamp e) eqn:Ht; bool_to_prop.
  - rewrite decide_True by done. rewrite IH. by rewrite <- app_assoc.
  - rewrite decide_False by lia. apply IH.
Qed.

Lemma frame_length e bs : frame_of e = le32 (size_of bs) ++ le32 (compute_crc32 bs) ++ bs ->
  Z.of_nat (length (frame_of e)) = 8 + size_of bs.
Proof. intros ->. rewrite !length_app, !le32_length. unfold size_of. lia. Qed.

(** The start of a frame, with too little behind it to complete it. *)
Lemma replay_torn e k junk ts acc : loggable e ->
  (k < 8)%nat /\ junk = [] \/ (8 <= k)%nat /\ (k + length junk < length (frame_of e))%nat ->
  replay (take k (frame_of e) ++ junk) ts acc = acc.
Proof.
  intros He Hk. destruct (frame_of_loggable e He) as (bs & _ & Hs & Hf & _).
  pose proof (frame_length e bs Hf) as Hlen. pose proof (size_of_nonneg bs). apply replay_short.
  destruct Hk as [[Hk ->]|[Hk Hlt]]; [left; rewrite app_nil_r, length_take; lia|right].
  assert (Hsz : le_value (take 4 (take k (frame_of e) ++ junk)) = size_of bs).
  { rewrite take_app_le by (rewrite length_take; lia). rewrite take_take, Nat.min_l by lia.
    rewrite Hf. rewrite (take_app_length' _ _ 4) by done. apply le_value_le32. unfold MAX_ENTRY_SIZE in *. lia. }
  rewrite Hsz. split; [done|]. rewrite length_app, length_take. lia.
Qed.

(** ** The disk as a snapshot and a log *)

Definition located (this : PersistenceService) (wal snap : string) : Prop :=
  resolve_secure_path (base_dir (pconfig this)) (wal_path (pconfig this)) = inl wal /\
  resolve_secure_path (base_dir (pconfig this)) (snapshot_path (pconfig this)) = inl snap /\
  wal <> snap /\ wal <> snap +:+ ".tmp".

Definition snapshot_holds (snap : string) (d : disk) (acc : list RegistryEntry) (ts : Z) : Prop :=
  match d !! snap with None => acc = [] /\ ts = 0 | Some s => read_snapshot s = inl (acc, ts) end.

Definition holds (wal snap : string) (d : disk) (acc : list RegistryEntry) (ts : Z) (es : list RegistryEntry) : Prop :=
  snapshot_holds snap d acc ts /\ d !! wal = Some (frames es).

(** The entries of the log that [recover] keeps. *)
Definition survivors (ts : Z) (es : list RegistryEntry) : list RegistryEntry :=
  filter (fun e => ts < ent_timestamp e) es.

Definition append_all (es : list RegistryEntry) (this : PersistenceService) (d : disk) : disk :=
  foldl (fun d e => append_entry e this d) d es.

(** A crash while [append_entry] writes: only the first [k] bytes of the frame are on disk. *)
Definition torn_append (k : nat) (entry : RegistryEntry) (this : PersistenceService) (d : disk) : disk :=
  match wal_file_ this with
  | None => d
  | Some path => <[path := default [] (d !! path) ++ take k (frame_of entry)]> d
  end.

Lemma recover_log this wal snap d acc ts t : located this wal snap -> snapshot_holds snap d acc ts ->
  d !! wal = Some t -> recover this d = inl (replay t ts acc).
Proof.
  intros (Hw & Hs & _) Hsnap Ht. unfold recover. rewrite Hs, Hw, Ht. unfold snapshot_holds in Hsnap.
  destruct (d !! snap) as [s|]; [by rewrite Hsnap|]. by destruct Hsnap as [-> ->].
Qed.

Lemma snapshot_holds_insert wal snap d acc ts t : wal <> snap ->
  snapshot_holds snap d acc ts -> snapshot_holds snap (<[wal := t]> d) acc ts.
Proof. intros Hne. unfold snapshot_holds. by rewrite lookup_insert_ne. Qed.

Lemma append_holds this wal snap d acc ts es e : wal <> snap -> wal_file_ this = Some wal -> loggable e ->
  holds wal snap d acc ts es -> holds wal snap (append_entry e this d) acc ts (es ++ [e]).
Proof.
  intros Hne Hf (Hv & bs & Hbs & Hsz) [Hsnap Hd]. unfold append_entry. rewrite Hf, Hbs, Hd. split.
  - by apply snapshot_holds_insert.
  - rewrite lookup_insert_eq, frames_snoc. unfold frame_of. by rewrite Hbs.
Qed.

Lemma append_all_holds this wal snap d acc ts es new : wal <> snap -> wal_file_ this = Some wal -> Forall loggable new ->
  holds wal snap d acc ts es -> holds wal snap (append_all new this d) acc ts (es ++ new).
Proof.
  intros Hne Hf Hnew. revert d es. induction Hnew as [|e new He _ IH]; intros d es Hd; [by rewrite app_nil_r|].
  simpl. replace (es ++ e :: new) with ((es ++ [e]) ++ new) by by rewrite <- app_assoc.
  by apply IH, append_holds.
Qed.

(** ** Snapshots *)

Definition max_timestamp (ts : Z) (es : list RegistryEntry) : Z := foldl (fun m e => Z.max m (ent_timestamp e)) ts es.

Lemma snapshot_loop_frames es rest ts acc : Forall loggable es ->
  snapshot_loop (length es) (frames es ++ rest) ts acc = inl (acc ++ es, max_timestamp ts es, rest).
Proof.
  intros Hes. revert ts acc. induction Hes as [|e es He _ IH]; intros ts acc; [by rewrite app_nil_r|].
  destruct (frame_of_loggable e He) as (bs & _ & Hs & Hf & Hp). pose proof (size_of_nonneg bs).
  unfold frames in *. rewrite fmap_cons. cbn [concat length snapshot_loop]. rewrite Hf, <- !app_assoc.
  rewrite read_exact_app by done. rewrite le_value_le32 by (unfold MAX_ENTRY_SIZE in *; lia).
  rewrite (proj2 (Z.ltb_ge MAX_ENTRY_SIZE _)) by done. rewrite read_exact_app by done.
  rewrite read_exact_app by (unfold size_of; lia). rewrite le_value_le32 by apply compute_crc32_u32.
  rewrite Z.eqb_refl, Hp. cbn [negb]. rewrite IH. by rewrite <- app_assoc.
Qed.

Lemma read_snapshot_text es : Forall loggable es -> size_of es <= MAX_SNAPSHOT_RECORDS ->
  read_snapshot (snapshot_text es) = inl (es, max_timestamp 0 es).
Proof.
  intros Hes Hlen. pose proof (size_of_nonneg es). unfold MAX_SNAPSHOT_RECORDS in *.
  unfold read_snapshot, snapshot_text. rewrite wrap_small by lia.
  rewrite (take_app_length' _ _ 4), (drop_app_length' _ _ 4) by done. rewrite le_value_le32 by lia.
  rewrite (proj2 (Z.ltb_ge _ _)) by (unfold MAX_SNAPSHOT_RECORDS; lia).
  change (concat _) with (frames es). unfold size_of. rewrite Nat2Z.id.
  pose proof (snapshot_loop_frames es [] 0 [] Hes) as Hl. rewrite app_nil_r in Hl. rewrite Hl.
  by rewrite bool_decide_eq_true_2.
Qed.

Lemma create_snapshot_ok this wal snap d es :
  located this wal snap -> can_write wal = true -> can_write (snap +:+ ".tmp") = true ->
  can_rename (snap +:+ ".tmp") snap = true -> Forall loggable es -> size_of es <= MAX_SNAPSHOT_RECORDS ->
  exists d', create_snapshot es this d = ((set_wal (Some wal) this, d'), true) /\
    holds wal snap d' es (max_timestamp 0 es) [].
Proof.
  intros (Hw & Hs & Hne & Htmp) Hcw Hct Hren Hes Hlen. unfold create_snapshot. cbn [set_wal pconfig].
  rewrite Hs. unfold open_truncate at 1. rewrite Hct, Hren, Hw. unfold open_truncate. rewrite Hcw. cbn [from_option id].
  unfold open_wal. cbn [set_wal pconfig]. rewrite Hw. unfold open_append. rewrite Hcw, lookup_insert_eq.
  eexists. split; [done|]. split.
  - unfold snapshot_holds. rewrite !lookup_insert_ne by done. rewrite lookup_insert_eq. by apply read_snapshot_text.
  - by rewrite lookup_insert_eq.
Qed.

(** When the rename fails the old snapshot stays, and the log is emptied all the same. *)
Lemma create_snapshot_rename_fails this wal snap d es acc ts log :
  located this wal snap -> can_write wal = true -> can_write (snap +:+ ".tmp") = true ->
  can_rename (snap +:+ ".tmp") snap = false -> holds wal snap d acc ts log ->
  exists d', create_snapshot es this d = ((set_wal (Some wal) this, d'), true) /\ holds wal snap d' acc ts [].
Proof.
  intros (Hw & Hs & Hne & Htmp) Hcw Hct Hren [Hsnap _]. unfold create_snapshot. cbn [set_wal pconfig].
  rewrite Hs. unfold open_truncate at 1. rewrite Hct, Hren, Hw. unfold open_truncate. rewrite Hcw. cbn [from_option id].
  unfold open_wal. cbn [set_wal pconfig]. rewrite Hw. unfold open_append. rewrite Hcw, lookup_insert_eq.
  eexists. split; [done|]. split; [|by rewrite lookup_insert_eq].
  do 2 (apply snapshot_holds_insert; [done|]).
  assert (Hself : snap <> snap +:+ ".tmp").
  { intros Heq%(f_equal String.length). rewrite str_length_app in Heq. simpl in Heq. lia. }
  by do 2 (apply snapshot_holds_insert; [done|]).
Qed.

(** ** Properties *)

(** (C12) Crash safety of the log: whatever was on disk as a snapshot and a log, after any number
    of appends and a crash at any point of a further one (no byte, some bytes, all but one
    byte of it written), [recover] returns the snapshot followed by every completely logged
    entry whose timestamp is above the snapshot's highest, in order, and nothing else. *)
Theorem wal_crash_recovery this wal snap d acc ts old new e k
    (paths : located this wal snap) (open : wal_file_ this = Some wal) (before : holds wal snap d acc ts old)
    (old_ok : Forall loggable old) (new_ok : Forall loggable new) (e_ok : loggable e)
    (crash : (k < length (frame_of e))%nat) :
  recover this (torn_append k e this (append_all new this d)) = inl (acc ++ survivors ts (old ++ new)).
Proof.
  pose proof paths as (_ & _ & Hne & _).
  destruct (append_all_holds this wal snap d acc ts old new Hne open new_ok before) as [Hsnap Hd].
  unfold torn_append. rewrite open, Hd. cbn [from_option id].
  erewrite recover_log; [|done|by apply snapshot_holds_insert|by rewrite lookup_insert_eq].
  rewrite replay_frames by by apply Forall_app_2. unfold survivors.
  rewrite <- (app_nil_r (take k _)), replay_torn; [done|done|].
  destruct (decide (k < 8)%nat); [by left|right]. simpl. lia.
Qed.

(** (C20) The snapshot cycle: whatever was on disk, after a snapshot and any further appends,
    [recover] returns the snapshot's entries in order, followed by the appended entries above
    the highest timestamp of the snapshot; the others are dropped, also those of agents the
    snapshot does not contain. *)
Theorem snapshot_cycle this wal snap d es new
    (paths : located this wal snap) (w1 : can_write wal = true) (w2 : can_write (snap +:+ ".tmp") = true)
    (renames : can_rename (snap +:+ ".tmp") snap = true) (es_ok : Forall loggable es)
    (few : size_of es <= MAX_SNAPSHOT_RECORDS) (new_ok : Forall loggable new) :
  exists this' d', create_snapshot es this d = ((this', d'), true) /\
    recover this' (append_all new this' d') = inl (es ++ survivors (max_timestamp 0 es) new).
Proof.
  destruct (create_snapshot_ok this wal snap d es) as (d' & Hc & Hd); [done..|].
  eexists _, d'. split; [done|]. pose proof paths as (_ & _ & Hne & _).
  destruct (append_all_holds (set_wal (Some wal) this) wal snap d' es (max_timestamp 0 es) [] new) as [Hsnap Hlog]; [done..|].
  rewrite (recover_log _ wal snap _ es (max_timestamp 0 es) (frames new)) by done.
  rewrite <- (app_nil_r (frames new)), replay_frames by done. done.
Qed.

(** (C26) A corrupted entry costs only itself: if the text of one logged entry is changed on disk
    within 32 consecutive bits, anywhere in it (so also any four consecutive bytes of it),
    its checksum no longer matches, and [recover] returns every entry before and after it. *)
Theorem corruption_isolated this wal snap d acc ts es1 es2 text text'
    (paths : located this wal snap) (snapshot : snapshot_holds snap d acc ts)
    (ok1 : Forall loggable es1) (ok2 : Forall loggable es2) (changed : burst text text')
    (fits : size_of text <= MAX_ENTRY_SIZE)
    (log : d !! wal = Some (frames es1 ++ (le32 (size_of text) ++ le32 (compute_crc32 text) ++ text') ++ frames es2)) :
  recover this d = inl (acc ++ survivors ts es1 ++ survivors ts es2).
Proof.
  erewrite recover_log by done. rewrite replay_frames by done. rewrite <- !app_assoc. fold (survivors ts es1).
  assert (Hsize : size_of text = size_of text') by (destruct changed as [Hlen _]; unfold size_of; lia).
  pose proof (replay_step (compute_crc32 text) text' (frames es2) ts
    (acc ++ survivors ts es1) (compute_crc32_u32 _) ltac:(lia)) as Hstep.
  rewrite Hsize. etrans; [apply f_equal; exact Hstep|].
  rewrite (proj2 (Z.eqb_neq _ _)) by (by apply not_eq_sym, crc32_detects_burst).
  rewrite <- (app_nil_r (frames es2)), replay_frames by done. by rewrite <- app_assoc.
Qed.

(** After a crash in the middle of an append, the next entry can be lost although it was
    written completely: the log is reopened for appending behind the torn entry, and the
    replay takes the bytes of the new entry for the missing bytes of the old one. *)
Theorem append_after_torn_tail_is_lost this wal snap d acc ts old e f k
    (paths : located this wal snap) (w : can_write wal = true) (open : wal_file_ this = Some wal)
    (before : holds wal snap d acc ts old) (old_ok : Forall loggable old) (e_ok : loggable e)
    (header : (8 <= k)%nat) (short : (k + length (frame_of f) < length (frame_of e))%nat) :
  exists this' d', open_wal this (torn_append k e this d) = Some (this', d') /\
    recover this' (append_entry f this' d') = inl (acc ++ survivors ts old).
Proof.
  pose proof paths as (Hw & _ & Hne & _). destruct before as [Hsnap Hd].
  unfold torn_append, open_wal. rewrite open, Hd, Hw. unfold open_append. rewrite w. cbn [from_option id].
  eexists _, _. split; [done|]. rewrite lookup_insert_eq, insert_insert_eq. cbn [from_option id].
  assert (Hf : exists t, append_entry f (set_wal (Some wal) this) (<[wal := frames old ++ take k (frame_of e)]> d) =
    <[wal := frames old ++ take k (frame_of e) ++ t]> d /\ (length t <= length (frame_of f))%nat).
  { unfold append_entry, frame_of. cbn [wal_file_ set_wal]. rewrite lookup_insert_eq. cbn [from_option id].
    destruct (SerializeToString f) as [bs|]; simpl.
    - exists (log_frame bs). rewrite insert_insert_eq, <- app_assoc. done.
    - exists []. by rewrite app_nil_r. }
  destruct Hf as (t & -> & Ht).
  erewrite recover_log; [|done|by apply snapshot_holds_insert|by rewrite lookup_insert_eq].
  rewrite replay_frames, replay_torn by (done || right; lia). done.
Qed.

(** A snapshot whose final rename fails destroys the log: the old snapshot stays in place,
    but the log is truncated, so every entry that was only in the log is gone, and the
    function reports nothing to its caller. *)
Theorem snapshot_rename_failure_drops_log this wal snap d es acc ts log
    (paths : located this wal snap) (w1 : can_write wal = true) (w2 : can_write (snap +:+ ".tmp") = true)
    (fails : can_rename (snap +:+ ".tmp") snap = false) (before : holds wal snap d acc ts log)
    (log_ok : Forall loggable log) :
  recover this d = inl (acc ++ survivors ts log) /\
  exists this' d', create_snapshot es this d = ((this', d'), true) /\ recover this' d' = inl acc.
Proof.
  split.
  - destruct before as [Hsnap Hd]. rewrite (recover_log _ wal snap _ acc ts _ paths Hsnap Hd).
    by rewrite <- (app_nil_r (frames log)), replay_frames.
  - destruct (create_snapshot_rename_fails this wal snap d es acc ts log) as (d' & Hc & Hsnap & Hd); [done..|].
    eexists _, d'. split; [done|]. by rewrite (recover_log (set_wal (Some wal) this) wal snap _ acc ts (frames []) paths Hsnap Hd).
Qed.

(** A snapshot of more than a million entries is written, and cannot be read. *)
Lemma oversized_snapshot es : MAX_SNAPSHOT_RECORDS < size_of es < 2 ^ 32 ->
  read_snapshot (snapshot_text es) = inr (TooManyRecords (size_of es)).
Proof.
  intros Hs. unfold MAX_SNAPSHOT_RECORDS in Hs. unfold read_snapshot, snapshot_text.
  rewrite wrap_small by lia. rewrite (take_app_length' _ _ 4) by done. rewrite le_value_le32 by lia.
  by rewrite (proj2 (Z.ltb_lt _ _)) by (unfold MAX_SNAPSHOT_RECORDS; lia).
Qed.
End props.

(** ** Witnesses *)

Definition writable (renames : bool) : Machine := {| can_write _ := true; can_rename _ _ := renames |}.
Definition toy_entry : ProtoMessage RegistryEntry := countable_ProtoMessage RegistryEntry.
#[local] Existing Instance toy_entry.
Definition toy_entry_laws : @ProtoLaws RegistryEntry _ toy_entry := countable_ProtoLaws _.
Definition ex_service : PersistenceService := mkPersistenceService default_PersistenceConfig (Some "/work/registry.wal"%string).
Definition ex_entry (id : string) (ts : Z) : RegistryEntry := mkRegistryEntry id "" "" ts [] [].
Definition empty_log : disk := {["/work/registry.wal"%string := []]}.

Lemma ex_located : @located lexical_env ex_service "/work/registry.wal" "/work/registry.bin".
Proof. split_and!; [by vm_compute..|done|done]. Qed.
Lemma loggable_check (e : RegistryEntry) :
  bool_decide (proto_valid e) &&
  match @SerializeToString _ toy_entry e with Some bs => size_of bs <=? MAX_ENTRY_SIZE | None => false end = true ->
  @loggable toy_entry e.
Proof.
  intros [H1%bool_decide_eq_true H3]%andb_true_iff. split; [done|].
  destruct (SerializeToString _) as [bs|] eqn:Hbs; [|done]. exists bs. bool_to_prop. done.
Qed.
Lemma ex_holds : @holds toy_entry "/work/registry.wal" "/work/registry.bin" empty_log [] 0 [].
Proof. by split. Qed.

Lemma wal_crash_recovery_witness :
  @recover lexical_env toy_entry ex_service
    (torn_append 9 (ex_entry "c" 1) ex_service (append_all [ex_entry "a" 3; ex_entry "b" 0] ex_service empty_log)) =
  inl [ex_entry "a" 3].
Proof.
  apply (@wal_crash_recovery lexical_env toy_entry toy_entry_laws ex_service "/work/registry.wal" "/work/registry.bin"
    empty_log [] 0 [] [ex_entry "a" 3; ex_entry "b" 0] (ex_entry "c" 1) 9).
  - exact ex_located.
  - reflexivity.
  - exact ex_holds.
  - apply Forall_nil_2.
  - apply Forall_cons_2; [apply loggable_check; by vm_compute|]. apply Forall_cons_2; [apply loggable_check; by vm_compute|]. apply Forall_nil_2.
  - apply loggable_check; by vm_compute.
  - by apply (bool_decide_unpack (_ < _)%nat).
Defined.

(** Agent "b" is not in the snapshot, and its entry is dropped. *)
Lemma snapshot_cycle_witness :
  exists this' d', @create_snapshot lexical_env (writable true) toy_entry [ex_entry "a" 3] ex_service ∅ = ((this', d'), true) /\
    @recover lexical_env toy_entry this' (append_all [ex_entry "b" 2; ex_entry "a" 4] this' d') =
      inl [ex_entry "a" 3; ex_entry "a" 4].
Proof.
  apply (@snapshot_cycle lexical_env (writable true) toy_entry toy_entry_laws ex_service "/work/registry.wal" "/work/registry.bin"
    ∅ [ex_entry "a" 3] [ex_entry "b" 2; ex_entry "a" 4]).
  - exact ex_located.
  - reflexivity.
  - reflexivity.
  - reflexivity.
  - apply Forall_cons_2; [apply loggable_check; by vm_compute|]. apply Forall_nil_2.
  - by vm_compute.
  - apply Forall_cons_2; [apply loggable_check; by vm_compute|]. apply Forall_cons_2; [apply loggable_check; by vm_compute|]. apply Forall_nil_2.
Defined.

Lemma corruption_isolated_witness :
  let text := [Byte.x05; Byte.x06; Byte.x07; Byte.x08] in
  let text' := [Byte.x05; Byte.xff; Byte.x00; Byte.xff] in
  let d : disk := {["/work/registry.wal"%string :=
    @frames toy_entry [ex_entry "a" 3] ++ (le32 (size_of text) ++ le32 (compute_crc32 text) ++ text') ++
    @frames toy_entry [ex_entry "b" 4]]} in
  @recover lexical_env toy_entry ex_service d = inl [ex_entry "a" 3; ex_entry "b" 4].
Proof.
  intros text text' d.
  apply (@corruption_isolated lexical_env toy_entry toy_entry_laws ex_service "/work/registry.wal" "/work/registry.bin"
    d [] 0 [ex_entry "a" 3] [ex_entry "b" 4] text text').
  - exact ex_located.
  - by split.
  - apply Forall_cons_2; [apply loggable_check; by vm_compute|]. apply Forall_nil_2.
  - apply Forall_cons_2; [apply loggable_check; by vm_compute|]. apply Forall_nil_2.
  - apply (burst_window [Byte.x05] [Byte.x06; Byte.x07; Byte.x08] [Byte.xff; Byte.x00; Byte.xff] []); [done|simpl; lia|done].
  - by vm_compute.
  - apply lookup_singleton_eq.
Defined.

Lemma append_after_torn_tail_is_lost_witness :
  exists this' d', @open_wal lexical_env (writable true) ex_service
      (@torn_append toy_entry 8 (ex_entry "agent-with-a-long-name" 5) ex_service empty_log) = Some (this', d') /\
    @recover lexical_env toy_entry this' (append_entry (ex_entry "b" 7) this' d') = inl [].
Proof.
  apply (@append_after_torn_tail_is_lost lexical_env (writable true) toy_entry toy_entry_laws ex_service
    "/work/registry.wal" "/work/registry.bin" empty_log [] 0 [] (ex_entry "agent-with-a-long-name" 5) (ex_entry "b" 7) 8).
  - exact ex_located.
  - reflexivity.
  - reflexivity.
  - exact ex_holds.
  - apply Forall_nil_2.
  - apply loggable_check; by vm_compute.
  - by apply (bool_decide_unpack (_ <= _)%nat).
  - by apply (bool_decide_unpack (_ < _)%nat).
Defined.

Lemma snapshot_rename_failure_drops_log_witness :
  let d := @append_all toy_entry [ex_entry "a" 3] ex_service empty_log in
  @recover lexical_env toy_entry ex_service d = inl [ex_entry "a" 3] /\
  exists this' d', @create_snapshot lexical_env (writable false) toy_entry [ex_entry "a" 3] ex_service d = ((this', d'), true) /\
    @recover lexical_env toy_entry this' d' = inl [].
Proof.
  intros d.
  apply (@snapshot_rename_failure_drops_log lexical_env (writable false) toy_entry toy_entry_laws ex_service
    "/work/registry.wal" "/work/registry.bin" d [ex_entry "a" 3] [] 0 [ex_entry "a" 3]).
  - exact ex_located.
  - reflexivity.
  - reflexivity.
  - reflexivity.
  - split; [by split|]. by vm_compute.
  - apply Forall_cons_2; [apply loggable_check; by vm_compute|]. apply Forall_nil_2.
Defined.
