(* ===== verification/PowerLoss.v ===== *)
(** * Power loss: what [fsync] protects in [src/src/beacon_net/persistence_service.cpp]

    [Persistence] gives the operations of the service on the disk as the running program sees
    it.  Here the same operations are the system calls they make, and the storage keeps apart
    what is on the device ([base]) and what the operating system has accepted and not yet
    written ([pending]).  [fsync] writes out the pending changes of one file; nothing the
    service does writes out a rename, which is a change of the directory.  When the power
    fails every pending change may be kept or lost, and a write may be cut short
    ([survives]); a file system that orders its changes keeps a beginning of them
    ([survives_in_order]).  A file is known by its path, and a buffered stream is written by
    one call when it is flushed. *)

From S2P Require Import Prelude CxxString CxxContainers Protobuf Crc32 SecurePath Persistence PersistenceProps.

(** ** The storage *)

Inductive change := Append (bs : bytes) | Truncate | Touch.
Inductive fs_op := OnFile (path : string) (c : change) | Rename (source target : string).
Inductive syscall := Do (op : fs_op) | Fsync (path : string).

Record Storage := mkStorage { base : disk; pending : list fs_op }.

Definition changed (c : change) (old : option bytes) : bytes :=
  match c with Append bs => default [] old ++ bs | Truncate => [] | Touch => default [] old end.

Definition apply_op (d : disk) (op : fs_op) : disk :=
  match op with
  | OnFile path c => <[path := changed c (d !! path)]> d
  | Rename source target => match d !! source with Some text => <[target := text]> (delete source d) | None => d end
  end.
Definition apply_ops (d : disk) (ops : list fs_op) : disk := foldl apply_op d ops.

(** What the running program reads back. *)
Definition view (s : Storage) : disk := apply_ops (base s) (pending s).

Definition on_file (path : string) (op : fs_op) : Prop := match op with OnFile p _ => p = path | Rename _ _ => False end.
#[export] Instance on_file_dec path op : Decision (on_file path op).
Proof. destruct op; simpl; apply _. Defined.

Definition fsync (path : string) (s : Storage) : Storage :=
  mkStorage (apply_ops (base s) (filter (on_file path) (pending s))) (filter (fun op => ~ on_file path op) (pending s)).

Definition call (s : Storage) (c : syscall) : Storage :=
  match c with Do op => mkStorage (base s) (pending s ++ [op]) | Fsync path => fsync path s end.
Definition run (calls : list syscall) (s : Storage) : Storage := foldl call s calls.

(** What is left of the pending changes after the power failed. *)
Inductive survives : list fs_op -> list fs_op -> Prop :=
| survives_nil : survives [] []
| survives_keep op l l' : survives l l' -> survives (op :: l) (op :: l')
| survives_lose op l l' : survives l l' -> survives (op :: l) l'
| survives_tear path bs k l l' : survives l l' ->
    survives (OnFile path (Append bs) :: l) (OnFile path (Append (take k bs)) :: l').

Inductive survives_in_order : list fs_op -> list fs_op -> Prop :=
| in_order_stop l : survives_in_order l []
| in_order_keep op l l' : survives_in_order l l' -> survives_in_order (op :: l) (op :: l')
| in_order_tear path bs k l : survives_in_order (OnFile path (Append bs) :: l) [OnFile path (Append (take k bs))].

Definition after_power_loss (s : Storage) (d : disk) : Prop :=
  exists ops, survives (pending s) ops /\ d = apply_ops (base s) ops.
Definition after_ordered_loss (s : Storage) (d : disk) : Prop :=
  exists ops, survives_in_order (pending s) ops /\ d = apply_ops (base s) ops.

(** ** The system calls of the service *)

Definition flush_handle (fp : option string) : list syscall :=
  match fp with None => [] | Some path => [Fsync path] end.

Section calls.
Context {E : PathEnv} {M : Machine} {P : ProtoMessage RegistryEntry}.

Definition open_wal_calls (this : PersistenceService) : list syscall :=
  match resolve_secure_path (base_dir (pconfig this)) (wal_path (pconfig this)) with
  | inr _ => []
  | inl path => if can_write path then [Do (OnFile path Touch)] else []
  end.

Definition append_entry_calls (entry : RegistryEntry) (this : PersistenceService) : list syscall :=
  match wal_file_ this with
  | None => []
  | Some path =>
      match SerializeToString entry with
      | None => []
      | Some serialized => Do (OnFile path (Append (log_frame serialized))) :: flush_handle (wal_file_ this)
      end
  end.

Definition create_snapshot_calls (entries : list RegistryEntry) (this : PersistenceService) : list syscall :=
  match resolve_secure_path (base_dir (pconfig this)) (snapshot_path (pconfig this)) with
  | inr _ => []
  | inl snapshot =>
      let tmp := snapshot +:+ ".tmp" in
      if can_write tmp then
        [Do (OnFile tmp Truncate); Do (OnFile tmp (Append (snapshot_text entries)))] ++ flush_handle (Some tmp) ++
        (if can_rename tmp snapshot then [Do (Rename tmp snapshot)] else []) ++
        match resolve_secure_path (base_dir (pconfig this)) (wal_path (pconfig this)) with
        | inr _ => []
        | inl wal => (if can_write wal then [Do (OnFile wal Truncate)] else []) ++ open_wal_calls this
        end
      else open_wal_calls this
  end.

Definition append_all_calls (es : list RegistryEntry) (this : PersistenceService) : list syscall :=
  concat ((fun e => append_entry_calls e this) <$> es).
End calls.

(** ** Changes of different files commute *)

Definition touches (path : string) (op : fs_op) : Prop :=
  match op with OnFile p _ => p = path | Rename source target => source = path \/ target = path end.
Definition quiet (path : string) (ops : list fs_op) : Prop := Forall (fun op => ~ touches path op) ops.
Definition unrenamed (path : string) (ops : list fs_op) : Prop := Forall (fun op => touches path op -> on_file path op) ops.

Lemma apply_ops_app d l l' : apply_ops d (l ++ l') = apply_ops (apply_ops d l) l'.
Proof. apply foldl_app. Qed.
Lemma run_app calls calls' s : run (calls ++ calls') s = run calls' (run calls s).
Proof. apply foldl_app. Qed.

Lemma apply_op_untouched d op path : ~ touches path op -> apply_op d op !! path = d !! path.
Proof.
  destruct op as [p c|a b]; simpl; intros Ht; [by rewrite lookup_insert_ne|].
  destruct (d !! a); [|done]. rewrite lookup_insert_ne, lookup_delete_ne by naive_solver. done.
Qed.
Lemma apply_ops_quiet d ops path : quiet path ops -> apply_ops d ops !! path = d !! path.
Proof.
  intros Hq. revert d. induction Hq as [|op ops Ht _ IH]; intros d; [done|]. simpl. rewrite IH. by apply apply_op_untouched.
Qed.

Lemma apply_op_comm d op op' path : on_file path op -> ~ touches path op' ->
  apply_op (apply_op d op) op' = apply_op (apply_op d op') op.
Proof.
  destruct op as [p c|]; [|done]. simpl. intros -> Ht. rewrite (apply_op_untouched _ op' path) by done.
  destruct op' as [p' c'|a b]; simpl in *.
  - rewrite lookup_insert_ne by done. by rewrite insert_insert_ne.
  - rewrite lookup_insert_ne by naive_solver. destruct (d !! a) as [t|]; [|done].
    rewrite delete_insert_ne by naive_solver. apply insert_insert_ne. naive_solver.
Qed.

Lemma apply_ops_comm d ops op path : Forall (on_file path) ops -> ~ touches path op ->
  apply_op (apply_ops d ops) op = apply_ops (apply_op d op) ops.
Proof.
  intros Hops Ht. revert d. induction Hops as [|o ops Ho _ IH]; intros d; [done|]. simpl. rewrite IH.
  by rewrite (apply_op_comm _ o op path).
Qed.

(** [fsync] changes nothing the program can see. *)
Lemma fsync_view path s : unrenamed path (pending s) -> view (fsync path s) = view s.
Proof.
  destruct s as [d l]. unfold view, fsync. cbn [base pending]. intros Hu. revert d.
  induction Hu as [|op l Hop _ IH]; intros d; [done|]. rewrite !filter_cons.
  destruct (decide (on_file path op)) as [Hon|Hoff].
  - rewrite decide_False by naive_solver. cbn [apply_ops foldl]. apply IH.
  - rewrite decide_True by done. simpl. rewrite <- IH. f_equal.
    apply (apply_ops_comm _ _ _ path); [|naive_solver]. apply Forall_forall. by intros o [? _]%list_elem_of_filter.
Qed.

Lemma call_view s op : view (call s (Do op)) = apply_op (view s) op.
Proof. unfold view. cbn. by rewrite apply_ops_app. Qed.

(** ** What survives *)

Lemma survives_app l1 l2 ops : survives (l1 ++ l2) ops ->
  exists ops1 ops2, ops = ops1 ++ ops2 /\ survives l1 ops1 /\ survives l2 ops2.
Proof.
  revert ops. induction l1 as [|op l1 IH]; intros ops Hs; [by exists [], ops; eauto using survives|].
  inversion Hs as [|? ? ? Hr|? ? ? Hr|? ? k ? ? Hr]; subst; destruct (IH _ Hr) as (o1 & o2 & -> & ? & ?).
  - exists (op :: o1), o2. eauto using survives.
  - exists o1, o2. eauto using survives.
  - exists (OnFile path (Append (take k bs)) :: o1), o2. eauto using survives.
Qed.

Lemma survives_none l : survives l [].
Proof. induction l; eauto using survives. Qed.

Lemma survives_quiet path l ops : survives l ops -> quiet path l -> quiet path ops.
Proof.
  unfold quiet. intros Hs Hq. induction Hs as [|op l l' _ IH|op l l' _ IH|p bs k l l' _ IH]; [constructor|..];
    apply Forall_cons in Hq as [? ?]; [|by apply IH|]; (apply Forall_cons_2; [done|by apply IH]).
Qed.

Lemma in_order_app l1 l2 ops : survives_in_order (l1 ++ l2) ops ->
  exists ops1 ops2, ops = ops1 ++ ops2 /\ survives l1 ops1 /\ survives_in_order l2 ops2.
Proof.
  revert ops. induction l1 as [|op l1 IH]; intros ops Hs.
  { exists [], ops. split_and!; [done|constructor|done]. }
  inversion Hs as [|? ? ? Hr|? ? k ?]; subst.
  - exists [], []. split_and!; [done|apply survives_none|constructor].
  - destruct (IH _ Hr) as (o1 & o2 & -> & ? & ?). exists (op :: o1), o2. eauto using survives.
  - exists [OnFile path (Append (take k bs))], []. split_and!; [done| |constructor].
    apply survives_tear, survives_none.
Qed.

Lemma quiet_filter path l : quiet path l ->
  filter (on_file path) l = [] /\ filter (fun op => ~ on_file path op) l = l.
Proof.
  induction 1 as [|op l Hop _ [IH1 IH2]]; [done|]. rewrite !filter_cons.
  assert (~ on_file path op) by (destruct op; naive_solver).
  rewrite decide_False, decide_True by done. by rewrite IH1, IH2.
Qed.

Lemma quiet_unrenamed path l : quiet path l -> unrenamed path l.
Proof. intros Hq. apply (Forall_impl _ _ _ Hq). naive_solver. Qed.

Section props.
Context {E : PathEnv} {M : Machine} {P : ProtoMessage RegistryEntry} {L : ProtoLaws RegistryEntry}.
Implicit Types (this : PersistenceService) (s : Storage) (d : disk).

(** ** The calls are the operations of [Persistence] *)

Lemma open_append_op path d : can_write path = true -> open_append path d = Some (apply_op d (OnFile path Touch)).
Proof. unfold open_append. by intros ->. Qed.

Lemma open_wal_view this s : view (run (open_wal_calls this) s) =
  match open_wal this (view s) with Some (_, d) => d | None => view s end.
Proof.
  unfold open_wal_calls, open_wal. destruct (resolve_secure_path _ _) as [path|]; [|done].
  destruct (can_write path) eqn:Hw; unfold open_append; rewrite Hw; [apply call_view|done].
Qed.

Lemma unrenamed_snoc path l p c : unrenamed path l -> unrenamed path (l ++ [OnFile p c]).
Proof. intros Hl. apply Forall_app_2; [done|]. apply Forall_cons_2; [|constructor]. naive_solver. Qed.

Lemma append_entry_view entry this s : (forall path, wal_file_ this = Some path -> unrenamed path (pending s)) ->
  view (run (append_entry_calls entry this) s) = append_entry entry this (view s).
Proof.
  intros Hu. unfold append_entry_calls, append_entry. destruct (wal_file_ this) as [path|] eqn:Hf; [|done].
  destruct (SerializeToString entry) as [bs|]; [|done]. cbn [run foldl flush_handle].
  change (call ?s (Fsync path)) with (fsync path s).
  rewrite fsync_view by (apply unrenamed_snoc; by apply Hu). by rewrite call_view.
Qed.

Lemma rename_view tmp snap (d : disk) text : d !! tmp = Some text ->
  apply_op d (Rename tmp snap) = <[snap := text]> (delete tmp d).
Proof. simpl. by intros ->. Qed.

Lemma create_snapshot_view entries this s :
  (forall snap, resolve_secure_path (base_dir (pconfig this)) (snapshot_path (pconfig this)) = inl snap ->
     unrenamed (snap +:+ ".tmp") (pending s)) ->
  view (run (create_snapshot_calls entries this) s) = (create_snapshot entries this (view s)).1.2.
Proof.
  intros Hu. unfold create_snapshot_calls, create_snapshot. cbn [set_wal pconfig].
  destruct (resolve_secure_path _ (snapshot_path _)) as [snap|] eqn:Hs; [|done]. specialize (Hu snap eq_refl).
  set (tmp := snap +:+ ".tmp") in *. unfold open_truncate at 1. destruct (can_write tmp) eqn:Ht.
  - cbn [app]. cbn [flush_handle]. cbn [app].
    set (rest := _ ++ match resolve_secure_path _ (wal_path _) with inr _ => _ | _ => _ end).
    change (run (?a :: ?b :: Fsync tmp :: rest) s) with (run rest (fsync tmp (call (call s a) b))).
    set (s1 := fsync tmp _).
    assert (Hv1 : view s1 = <[tmp := snapshot_text entries]> (<[tmp := []]> (view s))).
    { unfold s1. rewrite fsync_view by (do 2 apply unrenamed_snoc; done). rewrite !call_view. simpl.
      by rewrite lookup_insert_eq. }
    rewrite <- Hv1. subst rest. rewrite run_app.
    set (s2 := run (if can_rename _ _ then _ else _) s1).
    assert (Hv2 : view s2 = if can_rename tmp snap then <[snap := snapshot_text entries]> (delete tmp (view s1)) else view s1).
    { unfold s2. destruct (can_rename tmp snap); [|done]. cbn [run foldl]. rewrite call_view.
      apply rename_view. by rewrite Hv1, lookup_insert_eq. }
    rewrite <- Hv2. destruct (resolve_secure_path _ (wal_path _)) as [wal|] eqn:Hw; [|done].
    rewrite run_app, open_wal_view. unfold open_wal. cbn [set_wal pconfig]. rewrite Hw. unfold open_truncate, open_append.
    destruct (can_write wal) eqn:Hc; [|done]. cbn [run foldl]. by rewrite call_view.
  - rewrite open_wal_view. unfold open_wal. cbn [set_wal pconfig].
    destruct (resolve_secure_path _ (wal_path _)) as [wal|]; [|done]. unfold open_append. by destruct (can_write wal).
Qed.

(** ** Appends *)

(** On the device: a snapshot and a log; on the way to it: nothing about either. *)
Definition durable (wal snap : string) (s : Storage) (acc : list RegistryEntry) (ts : Z) (es : list RegistryEntry) : Prop :=
  holds wal snap (base s) acc ts es /\ quiet wal (pending s) /\ quiet snap (pending s).

Lemma append_calls_loggable e this wal : wal_file_ this = Some wal -> loggable e ->
  append_entry_calls e this = [Do (OnFile wal (Append (frame_of e))); Fsync wal].
Proof. intros Hf (_ & bs & Hbs & _). unfold append_entry_calls, frame_of. by rewrite Hf, Hbs. Qed.

Lemma run_append s wal bs : quiet wal (pending s) ->
  run [Do (OnFile wal (Append bs)); Fsync wal] s = mkStorage (<[wal := default [] (base s !! wal) ++ bs]> (base s)) (pending s).
Proof.
  intros Hq. destruct (quiet_filter _ _ Hq) as [H1 H2]. unfold run. cbn [foldl call fsync pending base]. unfold fsync.
  cbn [pending base]. rewrite !filter_app, H1, H2, !filter_cons. simpl.
  rewrite decide_True by done. rewrite decide_False by naive_solver. by rewrite app_nil_r.
Qed.

Lemma append_all_durable this wal snap s acc ts es new : wal <> snap -> wal_file_ this = Some wal -> Forall loggable new ->
  holds wal snap (base s) acc ts es -> quiet wal (pending s) ->
  holds wal snap (base (run (append_all_calls new this) s)) acc ts (es ++ new) /\
  pending (run (append_all_calls new this) s) = pending s.
Proof.
  intros Hne Hf Hnew. revert s es. induction Hnew as [|e new He _ IH]; intros s es Hd Hq; [by rewrite app_nil_r|].
  unfold append_all_calls. rewrite fmap_cons. cbn [concat]. rewrite run_app, (append_calls_loggable e this wal), run_append by done.
  replace (es ++ e :: new) with ((es ++ [e]) ++ new) by by rewrite <- app_assoc.
  set (s' := mkStorage _ _). apply (IH s'); [|done]. destruct Hd as [Hsnap Hlog]. cbn [s' base]. rewrite Hlog.
  split; [by apply snapshot_holds_insert|]. by rewrite lookup_insert_eq, frames_snoc.
Qed.

(** A log with a complete or an incomplete last entry. *)
Lemma recover_cut_log this wal snap d acc ts es e k : located this wal snap -> Forall loggable es -> loggable e ->
  snapshot_holds snap d acc ts -> d !! wal = Some (frames es ++ take k (frame_of e)) ->
  recover this d = inl (acc ++ survivors ts es) \/ recover this d = inl (acc ++ survivors ts (es ++ [e])).
Proof.
  intros Hloc Hes He Hsnap Hlog. rewrite (recover_log _ _ _ _ _ _ _ Hloc Hsnap Hlog).
  destruct (decide (k < length (frame_of e))%nat) as [Hk|Hk].
  - left. rewrite replay_frames by done. rewrite <- (app_nil_r (take k _)), replay_torn; [done|done|].
    destruct (decide (k < 8)%nat); [by left|right]. simpl. lia.
  - right. rewrite take_ge, <- frames_snoc, <- (app_nil_r (frames _)) by lia. by rewrite replay_frames by (by apply Forall_app_2; [|apply Forall_singleton]).
Qed.

Lemma survives_append wal bs ops : survives [OnFile wal (Append bs)] ops ->
  ops = [] \/ exists k, ops = [OnFile wal (Append (take k bs))].
Proof.
  intros Hs. inversion Hs as [|? ? ? Hr|? ? ? Hr|? ? k ? ? Hr]; subst; inversion Hr; subst; eauto.
  right. exists (length bs). by rewrite firstn_all.
Qed.

Lemma snapshot_holds_lookup snap d d' acc ts : d' !! snap = d !! snap -> snapshot_holds snap d acc ts -> snapshot_holds snap d' acc ts.
Proof. unfold snapshot_holds. by intros ->. Qed.

Lemma recover_holds this wal snap d acc ts es : located this wal snap -> Forall loggable es -> holds wal snap d acc ts es ->
  recover this d = inl (acc ++ survivors ts es).
Proof.
  intros Hloc Hes [Hsnap Hlog]. rewrite (recover_log _ _ _ _ _ _ _ Hloc Hsnap Hlog).
  by rewrite <- (app_nil_r (frames es)), replay_frames.
Qed.

Lemma durable_loss wal snap s acc ts es d : durable wal snap s acc ts es -> after_power_loss s d -> holds wal snap d acc ts es.
Proof.
  intros ([Hsnap Hlog] & Hqw & Hqs) (ops & Hops & ->). split.
  - eapply snapshot_holds_lookup; [|done]. by apply apply_ops_quiet, (survives_quiet _ _ _ Hops).
  - by rewrite apply_ops_quiet by by apply (survives_quiet _ _ _ Hops).
Qed.

(** (C13) An append that has returned survives a power failure: whatever the operating system had
    not yet written of other files, after any number of appends and a failure at any point of
    a further one, between its system calls or in the middle of the write, [recover] returns
    the snapshot and every entry whose append returned, followed by the interrupted entry or
    not, and nothing else. *)
Theorem append_survives_power_loss this wal snap s acc ts old new e n d
    (paths : located this wal snap) (open : wal_file_ this = Some wal) (before : durable wal snap s acc ts old)
    (old_ok : Forall loggable old) (new_ok : Forall loggable new) (e_ok : loggable e)
    (failure : after_power_loss (run (take n (append_entry_calls e this)) (run (append_all_calls new this) s)) d) :
  recover this d = inl (acc ++ survivors ts (old ++ new)) \/
  recover this d = inl (acc ++ survivors ts ((old ++ new) ++ [e])).
Proof.
  pose proof paths as (_ & _ & Hne & _). destruct before as (Hd & Hqw & Hqs).
  destruct (append_all_durable this wal snap s acc ts old new) as [Hd' Hp]; [done..|].
  set (s' := run (append_all_calls new this) s) in *. rewrite <- Hp in Hqw, Hqs.
  assert (Hes : Forall loggable (old ++ new)) by by apply Forall_app_2.
  rewrite (append_calls_loggable e this wal) in failure by done. destruct n as [|[|n]]; cbn [take] in failure.
  - left. apply (recover_holds this wal snap); [done..|]. by apply (durable_loss _ _ s').
  - destruct failure as (ops & Hops & ->). apply survives_app in Hops as (o1 & o2 & -> & H1 & H2).
    destruct (durable_loss wal snap s' acc ts (old ++ new) (apply_ops (base s') o1)) as [Hsnap Hlog]; [done|by exists o1|].
    rewrite apply_ops_app. apply survives_append in H2 as [->|[k ->]].
    + left. by apply (recover_holds this wal snap).
    + simpl. rewrite Hlog. apply (recover_cut_log this wal snap _ _ _ _ _ k); [done..| |by rewrite lookup_insert_eq].
      by apply snapshot_holds_insert.
  - right. rewrite take_nil, run_append in failure by done. apply (recover_holds this wal snap); [done| |].
    { apply Forall_app_2; [done|]. by apply Forall_singleton. }
    eapply durable_loss; [|exact failure]. split; [|done]. cbn [base]. destruct Hd' as [Hsnap Hlog]. rewrite Hlog.
    split; [by apply snapshot_holds_insert|]. by rewrite lookup_insert_eq, frames_snoc.
Qed.

(** ** Snapshots *)

Section snapshot.
Context (this : PersistenceService) (wal snap : string) (es : list RegistryEntry).
Abbreviation tmp := (snap +:+ ".tmp").
Hypothesis paths : located this wal snap.
Hypothesis log_writable : can_write wal = true.
Hypothesis tmp_writable : can_write tmp = true.
Hypothesis renames : can_rename tmp snap = true.

Lemma snap_not_tmp : snap <> tmp.
Proof. intros Heq%(f_equal String.length). rewrite str_length_app in Heq. simpl in Heq. lia. Qed.

Lemma create_snapshot_calls_all : create_snapshot_calls es this =
  [Do (OnFile tmp Truncate); Do (OnFile tmp (Append (snapshot_text es))); Fsync tmp;
   Do (Rename tmp snap); Do (OnFile wal Truncate); Do (OnFile wal Touch)].
Proof.
  destruct paths as (Hw & Hs & _). unfold create_snapshot_calls, open_wal_calls.
  by rewrite Hs, Hw, tmp_writable, log_writable, renames.
Qed.

(** The new text is on the device before anything else is changed. *)
Lemma run_write_tmp s : quiet tmp (pending s) ->
  run [Do (OnFile tmp Truncate); Do (OnFile tmp (Append (snapshot_text es))); Fsync tmp] s =
  mkStorage (<[tmp := snapshot_text es]> (base s)) (pending s).
Proof.
  intros Hq. destruct (quiet_filter _ _ Hq) as [H1 H2]. unfold run. cbn [foldl call]. unfold fsync.
  cbn [pending base]. rewrite <- app_assoc, !filter_app, H1, H2. cbn [app]. rewrite !filter_cons. simpl.
  rewrite !decide_True by done. rewrite !decide_False by naive_solver. rewrite app_nil_r. 
  unfold apply_ops. simpl. by rewrite lookup_insert_eq, insert_insert_eq.
Qed.

Lemma quiet_snoc path l op : quiet path l -> ~ touches path op -> quiet path (l ++ [op]).
Proof. intros Hl Hop. apply Forall_app_2; [done|]. by apply Forall_singleton. Qed.

Lemma durable_tmp s acc ts log : durable wal snap s acc ts log ->
  durable wal snap (mkStorage (<[tmp := snapshot_text es]> (base s)) (pending s)) acc ts log.
Proof.
  pose proof snap_not_tmp. destruct paths as (_ & _ & _ & Htmp). intros ([Hsnap Hlog] & Hqw & Hqs). split; [|done]. cbn [base]. split.
  - by apply snapshot_holds_insert.
  - by rewrite lookup_insert_ne.
Qed.

Lemma durable_pending_tmp s acc ts log c : durable wal snap s acc ts log ->
  durable wal snap (call s (Do (OnFile tmp c))) acc ts log.
Proof.
  pose proof snap_not_tmp. destruct paths as (_ & _ & _ & Htmp). intros (Hd & Hqw & Hqs).
  split; [done|]. split; apply quiet_snoc; done || by apply not_eq_sym.
Qed.

(** From a disk with the new text in the temporary file, the rename installs it. *)
Lemma renamed_holds d acc ts log : Forall loggable es -> size_of es <= MAX_SNAPSHOT_RECORDS ->
  holds wal snap d acc ts log -> d !! tmp = Some (snapshot_text es) ->
  holds wal snap (apply_op d (Rename tmp snap)) es (max_timestamp 0 es) log.
Proof.
  destruct paths as (_ & _ & Hne & Htmp). intros Hes Hlen [_ Hlog] Ht. rewrite (rename_view _ _ _ _ Ht). split.
  - unfold snapshot_holds. rewrite lookup_insert_eq. by apply read_snapshot_text.
  - by rewrite lookup_insert_ne, lookup_delete_ne.
Qed.

Lemma truncated_holds d acc ts log : holds wal snap d acc ts log ->
  holds wal snap (apply_op d (OnFile wal Truncate)) acc ts [] /\
  holds wal snap (apply_op (apply_op d (OnFile wal Truncate)) (OnFile wal Touch)) acc ts [].
Proof.
  destruct paths as (_ & _ & Hne & _). intros [Hsnap _]. simpl. rewrite lookup_insert_eq.
  repeat split; repeat apply snapshot_holds_insert; try done; by rewrite lookup_insert_eq.
Qed.

(** The three changes behind the flush, as far as they got. *)
Lemma recover_stage d acc ts log k : Forall loggable es -> size_of es <= MAX_SNAPSHOT_RECORDS -> Forall loggable log ->
  holds wal snap d acc ts log -> d !! tmp = Some (snapshot_text es) ->
  let d' := apply_ops d (take k [Rename tmp snap; OnFile wal Truncate; OnFile wal Touch]) in
  recover this d' = inl (acc ++ survivors ts log) \/
  recover this d' = inl (es ++ survivors (max_timestamp 0 es) log) \/ recover this d' = inl es.
Proof.
  intros Hes Hlen Hlog Hd Ht d'. pose proof (renamed_holds d acc ts log Hes Hlen Hd Ht) as Hr.
  destruct (truncated_holds _ _ _ _ Hr) as [Ht1 Ht2].
  pose proof (fun d' acc ts l => recover_holds this wal snap d' acc ts l paths) as Hrec.
  destruct k as [|[|[|k]]]; unfold d'; cbn [take apply_ops foldl]; [left|right; left|right; right..].
  - by apply Hrec.
  - by apply Hrec.
  - rewrite (Hrec _ _ _ [] (Forall_nil_2 _) Ht1). by rewrite app_nil_r.
  - rewrite take_nil. etrans; [exact (Hrec _ _ _ [] (Forall_nil_2 _) Ht2)|]. by rewrite app_nil_r.
Qed.
End snapshot.

Lemma run_do l s : run (Do <$> l) s = mkStorage (base s) (pending s ++ l).
Proof.
  revert s. induction l as [|op l IH]; intros [b p]; [by rewrite app_nil_r|].
  rewrite fmap_cons. etrans; [apply IH|]. cbn [call base pending]. by rewrite <- app_assoc.
Qed.

Lemma in_order_take l ops : Forall (fun op => forall p bs, op <> OnFile p (Append bs)) l -> survives_in_order l ops ->
  exists k, ops = take k l.
Proof.
  intros Hl Hs. induction Hs as [l|op l l' _ IH|p bs k l]; [by exists O| |].
  - apply Forall_cons in Hl as [_ Hl]. destruct (IH Hl) as [k ->]. by exists (S k).
  - apply Forall_cons in Hl as [Hl _]. by destruct (Hl p bs).
Qed.

(** (C14) A power failure at any point of [create_snapshot], on a file system that keeps the order
    of its changes: [recover] returns what it would have returned before the call, or the new
    snapshot with the entries of the old log above its highest timestamp, or the new snapshot
    alone; it never fails, and never reads a half-written snapshot. *)
Theorem snapshot_atomic_on_ordered_storage this wal snap s es acc ts log n d
    (paths : located this wal snap) (w1 : can_write wal = true) (w2 : can_write (snap +:+ ".tmp") = true)
    (renames : can_rename (snap +:+ ".tmp") snap = true) (es_ok : Forall loggable es)
    (few : size_of es <= MAX_SNAPSHOT_RECORDS) (before : durable wal snap s acc ts log)
    (idle : quiet (snap +:+ ".tmp") (pending s)) (log_ok : Forall loggable log)
    (failure : after_ordered_loss (run (take n (create_snapshot_calls es this)) s) d) :
  recover this d = inl (acc ++ survivors ts log) \/
  recover this d = inl (es ++ survivors (max_timestamp 0 es) log) \/
  recover this d = inl es.
Proof.
  rewrite (create_snapshot_calls_all this wal snap) in failure by done.
  destruct (decide (n < 3)%nat) as [Hn|Hn].
  - left. apply (recover_holds this wal snap); [done..|]. destruct failure as (ops & Hops & ->).
    rewrite <- (app_nil_r (pending _)) in Hops. apply in_order_app in Hops as (o1 & o2 & -> & H1 & H2).
    inversion H2; subst. rewrite app_nil_r. eapply durable_loss; [|by exists o1].
    destruct n as [|[|[|n]]]; [done| | |lia]; cbn [take run foldl]; by repeat apply (durable_pending_tmp this).
  - replace n with (3 + (n - 3))%nat in failure by lia. set (m := (n - 3)%nat) in *.
    change (take (3 + m) (?a :: ?b :: ?c :: ?l)) with ([a; b; c] ++ take m l) in failure.
    rewrite run_app, run_write_tmp in failure by done.
    apply (durable_tmp this wal snap es) in before; [|done]. set (s' := mkStorage _ _) in *.
    change [Do ?a; Do ?b; Do ?c] with (Do <$> [a; b; c]) in failure. rewrite <- fmap_take in failure.
    rewrite run_do in failure. destruct failure as (ops & Hops & ->). cbn [base pending] in *.
    apply in_order_app in Hops as (o1 & o2 & -> & H1 & H2).
    apply in_order_take in H2 as [k ->]; [|by apply Forall_take; repeat apply Forall_cons_2; [..|constructor]].
    rewrite apply_ops_app, take_take.
    assert (Hd : holds wal snap (apply_ops (base s') o1) acc ts log) by (eapply durable_loss; [done|by exists o1]).
    assert (Ht : apply_ops (base s') o1 !! (snap +:+ ".tmp") = Some (snapshot_text es)).
    { rewrite apply_ops_quiet by by apply (survives_quiet _ _ _ H1). apply lookup_insert_eq. }
    by apply (recover_stage this wal snap es).
Qed.

(** ** Without an order *)

Lemma pending_append_entry e this s path : unrenamed path (pending s) -> unrenamed path (pending (run (append_entry_calls e this) s)).
Proof.
  intros Hu. unfold append_entry_calls. destruct (wal_file_ this) as [p|]; [|done]. destruct (SerializeToString e) as [l|]; [|done].
  cbn. apply Forall_forall. intros op [_ Hop]%list_elem_of_filter. 
  by apply (proj1 (Forall_forall _ _) (unrenamed_snoc path _ p (Append (log_frame l)) Hu)).
Qed.

Lemma append_all_view es this wal s : wal_file_ this = Some wal -> unrenamed wal (pending s) ->
  view (run (append_all_calls es this) s) = append_all es this (view s).
Proof.
  intros Hf. revert s. induction es as [|e es IH]; intros s Hu; [done|].
  unfold append_all_calls. rewrite fmap_cons. cbn [concat]. rewrite run_app. simpl.
  rewrite <- append_entry_view by naive_solver. apply IH. by apply pending_append_entry.
Qed.

(** The first append after a snapshot makes the truncation of the log durable, and the rename
    of the snapshot stays pending. *)
Lemma append_after_snapshot this wal snap s es acc ts log f : located this wal snap ->
  can_write wal = true -> can_write (snap +:+ ".tmp") = true -> can_rename (snap +:+ ".tmp") snap = true ->
  durable wal snap s acc ts log -> quiet (snap +:+ ".tmp") (pending s) -> loggable f ->
  let s' := run (append_entry_calls f (set_wal (Some wal) this)) (run (create_snapshot_calls es this) s) in
  holds wal snap (base s') acc ts [f] /\ pending s' = pending s ++ [Rename (snap +:+ ".tmp") snap].
Proof.
  intros Hloc Hw Ht Hr Hd Hidle Hf s'. unfold s'. clear s'. rewrite (create_snapshot_calls_all this wal snap) by done.
  pose proof (durable_tmp this wal snap es Hloc _ _ _ _ Hd) as ([Hsnap _] & Hqw & _). pose proof Hloc as (_ & _ & Hne & _).
  change [?a; ?b; ?c; Do ?x; Do ?y; Do ?z] with ([a; b; c] ++ (Do <$> [x; y; z])).
  rewrite run_app, run_write_tmp, run_do, (append_calls_loggable f _ wal) by done. cbn [base pending] in *.
  destruct (quiet_filter _ _ Hqw) as [H1 H2]. unfold run. cbn [foldl call]. unfold fsync. cbn [pending base].
  rewrite <- app_assoc, !filter_app, H1, H2. cbn [app]. rewrite !filter_cons. simpl.
  repeat (case_decide; [try done|try done]); try naive_solver.
  split; [|done]. unfold apply_ops. simpl. rewrite !lookup_insert_eq, !insert_insert_eq. split.
  - by apply snapshot_holds_insert.
  - rewrite lookup_insert_eq. unfold frames. simpl. by rewrite app_nil_r.
Qed.

(** (C38) The rename that puts a snapshot in place is never made durable: after a complete
    snapshot and at least one append, the program reads back the new snapshot and the new
    entries; but the device may still hold the old snapshot beside the truncated log, and
    after a power failure [recover] then returns the old snapshot and the new entries.  Every
    entry that was only in the old log, each of them written with [fsync], is lost. *)
Theorem snapshot_power_loss_drops_log this wal snap s es acc ts log f new
    (paths : located this wal snap) (w1 : can_write wal = true) (w2 : can_write (snap +:+ ".tmp") = true)
    (renames : can_rename (snap +:+ ".tmp") snap = true) (es_ok : Forall loggable es)
    (few : size_of es <= MAX_SNAPSHOT_RECORDS) (before : durable wal snap s acc ts log)
    (idle : quiet (snap +:+ ".tmp") (pending s)) (new_ok : Forall loggable (f :: new)) :
  let this' := set_wal (Some wal) this in
  let s' := run (append_all_calls (f :: new) this') (run (create_snapshot_calls es this) s) in
  recover this' (view s') = inl (es ++ survivors (max_timestamp 0 es) (f :: new)) /\
  exists d, after_power_loss s' d /\ recover this' d = inl (acc ++ survivors ts (f :: new)).
Proof.
  intros this' s'. pose proof paths as (_ & Hs & Hne & Htmp). assert (paths' : located this' wal snap) by done. split.
  - assert (Hu : unrenamed wal (pending (run (create_snapshot_calls es this) s))).
    { rewrite (create_snapshot_calls_all this wal snap) by done.
      change [?a; ?b; ?c; Do ?x; Do ?y; Do ?z] with ([a; b; c] ++ (Do <$> [x; y; z])).
      rewrite run_app, run_write_tmp, run_do by done. apply Forall_app_2; [apply quiet_unrenamed, before|].
      repeat apply Forall_cons_2; [naive_solver..|constructor]. }
    unfold s'. rewrite (append_all_view _ this' wal) by done. rewrite create_snapshot_view.
    2:{ intros ? Heq. rewrite Hs in Heq. simplify_eq. by apply quiet_unrenamed. }
    destruct (create_snapshot_ok this wal snap (view s) es) as (d & -> & Hd); [done..|]. cbn [fst snd].
    apply (recover_holds this' wal snap); [done..|]. by apply (append_all_holds this' wal snap _ _ _ []).
  - exists (base s'). split; [by exists []; split; [apply survives_none|]|].
    apply Forall_cons in new_ok as [Hf Hnew]. apply (recover_holds this' wal snap); [done|by apply Forall_cons_2|].
    destruct (append_after_snapshot this wal snap s es acc ts log f) as [Hd Hp]; [done..|].
    unfold s', append_all_calls. rewrite fmap_cons. cbn [concat]. rewrite run_app.
    apply (append_all_durable this' wal snap _ acc ts [f] new); [done..|].
    unfold this'. rewrite Hp. apply quiet_snoc; [apply before|naive_solver].
Qed.
End props.

(** ** Witnesses *)

Definition ex_storage : Storage := mkStorage empty_log [OnFile "/work/other" Truncate].
Lemma ex_durable : @durable toy_entry "/work/registry.wal" "/work/registry.bin" ex_storage [] 0 [].
Proof. split; [exact ex_holds|]. split; (apply Forall_cons_2; [done|constructor]). Qed.

(** The second append is cut after nine bytes, the change of another file is lost. *)
Lemma append_survives_power_loss_witness :
  let s := run (take 1 (@append_entry_calls toy_entry (ex_entry "c" 5) ex_service))
    (run (@append_all_calls toy_entry [ex_entry "a" 3] ex_service) ex_storage) in
  let d := apply_ops (base s) [OnFile "/work/registry.wal" (Append (take 9 (@frame_of toy_entry (ex_entry "c" 5))))] in
  after_power_loss s d /\
  (@recover lexical_env toy_entry ex_service d = inl [ex_entry "a" 3] \/
   @recover lexical_env toy_entry ex_service d = inl [ex_entry "a" 3; ex_entry "c" 5]).
Proof.
  intros s d.
  assert (Hloss : after_power_loss s d).
  { eexists. split; [|reflexivity]. apply survives_lose. apply (survives_tear _ _ 9 [] []). constructor. }
  split; [exact Hloss|].
  apply (@append_survives_power_loss lexical_env toy_entry toy_entry_laws ex_service "/work/registry.wal" "/work/registry.bin"
    ex_storage [] 0 [] [ex_entry "a" 3] (ex_entry "c" 5) 1 d).
  - exact ex_located.
  - reflexivity.
  - exact ex_durable.
  - apply Forall_nil_2.
  - apply Forall_cons_2; [apply loggable_check; by vm_compute|apply Forall_nil_2].
  - apply loggable_check; by vm_compute.
  - exact Hloss.
Defined.

(** The power fails after the rename, which survives. *)
Lemma snapshot_atomic_on_ordered_storage_witness :
  let es := [ex_entry "a" 3] in
  let s := run (take 4 (@create_snapshot_calls lexical_env (writable true) toy_entry es ex_service)) ex_storage in
  let d := apply_ops (base s) (pending s) in
  after_ordered_loss s d /\
  (@recover lexical_env toy_entry ex_service d = inl [] \/ @recover lexical_env toy_entry ex_service d = inl es \/
   @recover lexical_env toy_entry ex_service d = inl es).
Proof.
  intros es s d.
  assert (Hloss : after_ordered_loss s d).
  { eexists. split; [|reflexivity]. apply in_order_keep, in_order_keep, in_order_stop. }
  split; [exact Hloss|].
  apply (@snapshot_atomic_on_ordered_storage lexical_env (writable true) toy_entry toy_entry_laws ex_service
    "/work/registry.wal" "/work/registry.bin" ex_storage es [] 0 [] 4 d).
  - exact ex_located.
  - reflexivity.
  - reflexivity.
  - reflexivity.
  - apply Forall_cons_2; [apply loggable_check; by vm_compute|apply Forall_nil_2].
  - by vm_compute.
  - exact ex_durable.
  - apply Forall_cons_2; [done|apply Forall_nil_2].
  - apply Forall_nil_2.
  - exact Hloss.
Defined.

(** The entry of "a", logged and flushed before the snapshot, is gone. *)
Lemma snapshot_power_loss_drops_log_witness :
  let this' := set_wal (Some "/work/registry.wal"%string) ex_service in
  let s := run (@append_all_calls toy_entry [ex_entry "a" 3] ex_service) ex_storage in
  let s' := run (@append_all_calls toy_entry [ex_entry "b" 5] this')
    (run (@create_snapshot_calls lexical_env (writable true) toy_entry [ex_entry "a" 3] ex_service) s) in
  @recover lexical_env toy_entry this' (view s') = inl [ex_entry "a" 3; ex_entry "b" 5] /\
  exists d, after_power_loss s' d /\ @recover lexical_env toy_entry this' d = inl [ex_entry "b" 5].
Proof.
  intros this' s s'.
  apply (@snapshot_power_loss_drops_log lexical_env (writable true) toy_entry toy_entry_laws ex_service
    "/work/registry.wal" "/work/registry.bin" s [ex_entry "a" 3] [] 0 [ex_entry "a" 3] (ex_entry "b" 5) []).
  - exact ex_located.
  - reflexivity.
  - reflexivity.
  - reflexivity.
  - apply Forall_cons_2; [apply loggable_check; by vm_compute|apply Forall_nil_2].
  - by vm_compute.
  - split; [by vm_compute|]. split; (apply Forall_cons_2; [done|apply Forall_nil_2]).
  - apply Forall_cons_2; [done|apply Forall_nil_2].
  - apply Forall_cons_2; [apply loggable_check; by vm_compute|apply Forall_nil_2].
Defined.
