(* ===== verification/IdentityStore.v ===== *)
(** * The node's identity file: [src/src/beacon/identity_store.hpp], [identity_store.cpp]

    [load_or_create] reads the identity of the node from a text file and checks the size of
    the key file beside it, or creates both with a fresh key pair.  The file system has the
    files of [Persistence] and their permission bits (POSIX); what the creation does to it is
    a sequence of effects, so that a crash between or within them can be stated.  Exceptions
    are values of [store_error]. *)

From S2P Require Import Prelude CxxString CxxContainers Sodium SecureBuffer Crypto SecurePath Persistence.

(** ** Definitions *)

Record NodeIdentity := mkNodeIdentity {
  id_node_id : string;
  id_public_key_hex : string;
  id_private_key_path : string;
}.

Definition EXPECTED_KEY_SIZE : Z := 64.

(** The value behind the first line [key=value]. *)
Fixpoint read_value_lines (lines : list string) (key : string) : string :=
  match lines with
  | [] => ""
  | line :: rest =>
      match find_char "="%char line with
      | Some equals =>
          if bool_decide (substr line 0 equals = key) then substr_from line (S equals)
          else read_value_lines rest key
      | None => read_value_lines rest key
      end
  end.
Definition read_value (content key : string) : string := read_value_lines (getlines content) key.

(** The position of the last '/'. *)
Fixpoint last_slash (p : string) : option nat :=
  match p with
  | EmptyString => None
  | String c p' =>
      match last_slash p' with
      | Some n => Some (S n)
      | None => if bool_decide (c = "/"%char) then Some O else None
      end
  end.
Definition filename (p : string) : string :=
  match last_slash p with None => p | Some n => substr_from p (S n) end.
Definition parent_path (p : string) : string :=
  match last_slash p with None => "" | Some O => "/" | Some n => substr p 0 n end.

Inductive store_error := StoreBadPath (e : path_error) | KeyInaccessible | KeySizeInvalid (n : Z).

(** Files and their permission bits. *)
Record FileSystem := mkFileSystem {
  files : disk;
  modes : gmap string Z;
}.

(** The permissions of the process: the bits its files are created with ([0666] without the
    umask), and whether it may change those of a file. *)
Class Permissions := {
  creation_mode : Z;
  can_chmod : string -> bool;
}.

(** The copy of [resolve_secure_path] in this file. *)
Definition store_resolve_secure_path {E : PathEnv} (base user_path : string) : string + path_error :=
  resolve_secure_path base user_path.

(** [std::ofstream f(path, std::ios::trunc); f << text]: nothing happens if it does not open. *)
Definition write_file {M : Machine} {U : Permissions} (path : string) (text : bytes) (fs : FileSystem) : FileSystem :=
  if can_write path then
    mkFileSystem (<[path := text]> (files fs))
      (match files fs !! path with Some _ => modes fs | None => <[path := creation_mode]> (modes fs) end)
  else fs.

(** [chmod(path, 0600)]; a failure is only reported. *)
Definition owner_only : Z := 384.
Definition restrict_file_permissions {U : Permissions} (path : string) (fs : FileSystem) : FileSystem :=
  match files fs !! path with
  | Some _ => if can_chmod path then mkFileSystem (files fs) (<[path := owner_only]> (modes fs)) else fs
  | None => fs
  end.

(** The effects of a creation. *)
Inductive fs_effect := WriteFile (path : string) (text : bytes) | RestrictFile (path : string).
Definition run_effect {M : Machine} {U : Permissions} (fs : FileSystem) (e : fs_effect) : FileSystem :=
  match e with
  | WriteFile path text => write_file path text fs
  | RestrictFile path => restrict_file_permissions path fs
  end.

Definition identity_text (identity : NodeIdentity) : string :=
  "node_id=" +:+ id_node_id identity +:+ nl +:+
  "public_key_hex=" +:+ id_public_key_hex identity +:+ nl +:+
  "private_key_path=" +:+ id_private_key_path identity +:+ nl.

(** The identity and the effects of creating it. *)
Definition create_effects {S : Sodium} (config_path node_id : string) (seed : Z) : NodeIdentity * list fs_effect :=
  let '(public_key, secret_key) := generate_ed25519_keypair seed in
  let key_path := config_path +:+ ".key" in
  let identity := mkNodeIdentity node_id (encode_hex (contents public_key)) key_path in
  (identity, [WriteFile key_path (contents secret_key); RestrictFile key_path;
              WriteFile config_path (bytes_of_string (identity_text identity))]).

Definition load_or_create {E : PathEnv} {M : Machine} {U : Permissions} {S : Sodium} (path_ node_id : string) (seed : Z)
    (fs : FileSystem) : (NodeIdentity * FileSystem) + store_error :=
  let base_dir := parent_path path_ in
  let base_dir := if str_empty base_dir then "." else base_dir in
  match store_resolve_secure_path base_dir (filename path_) with
  | inr e => inr (StoreBadPath e)
  | inl config_path =>
      match files fs !! config_path with
      | Some text =>
          let content := string_of_bytes text in
          let key_path := config_path +:+ ".key" in
          match files fs !! key_path with
          | None => inr KeyInaccessible
          | Some key =>
              if negb (size_of key =? EXPECTED_KEY_SIZE) then inr (KeySizeInvalid (size_of key))
              else inl (mkNodeIdentity (read_value content "node_id") (read_value content "public_key_hex") key_path, fs)
          end
      | None =>
          let '(created, effects) := create_effects config_path node_id seed in
          inl (created, foldl run_effect fs effects)
      end
  end.

(** A crash while effects are carried out: before one, or in the middle of a write. *)
Inductive crash_during {M : Machine} {U : Permissions} : FileSystem -> list fs_effect -> FileSystem -> Prop :=
| CrashBefore fs es : crash_during fs es fs
| CrashWithin fs path text k es : can_write path = true ->
    crash_during fs (WriteFile path text :: es) (write_file path (take k text) fs)
| CrashLater fs e es fs' : crash_during (run_effect fs e) es fs' -> crash_during fs (e :: es) fs'.

(** ** Lemmas *)

Lemma read_value_head key v rest : no_char "="%char key = true ->
  read_value_lines ((key +:+ "=" +:+ v) :: rest) key = v.
Proof.
  intros Hk. cbn [read_value_lines]. change ("=" +:+ v) with (String "=" v). rewrite find_char_app by done.
  rewrite (substring_all key (String "=" v) : substr _ 0 _ = _), bool_decide_true by done. apply substr_from_after.
Qed.

Lemma read_value_skip key key' v rest : no_char "="%char key' = true -> key' <> key ->
  read_value_lines ((key' +:+ "=" +:+ v) :: rest) key = read_value_lines rest key.
Proof.
  intros Hk Hne. cbn [read_value_lines]. change ("=" +:+ v) with (String "=" v). rewrite find_char_app by done.
  by rewrite (substring_all key' (String "=" v) : substr _ 0 _ = _), bool_decide_false.
Qed.

Lemma identity_text_lines i :
  identity_text i = unlines ["node_id=" +:+ id_node_id i; "public_key_hex=" +:+ id_public_key_hex i;
    "private_key_path=" +:+ id_private_key_path i]%string.
Proof. unfold identity_text, unlines. cbn [foldr]. by autorewrite with str. Qed.

Lemma encode_hex_no_newline bs : no_char newline (encode_hex bs) = true.
Proof.
  induction bs as [|b bs IH]; [done|]. cbn [encode_hex]. unfold no_char in *. rewrite str_forall_app, IH, andb_true_r.
  by destruct b.
Qed.

(** What a text identity is read back as. *)
Lemma read_identity_text i : no_char newline (id_node_id i) = true ->
  no_char newline (id_public_key_hex i) = true -> no_char newline (id_private_key_path i) = true ->
  read_value (identity_text i) "node_id" = id_node_id i /\
  read_value (identity_text i) "public_key_hex" = id_public_key_hex i.
Proof.
  intros Hn Hk Hp. unfold read_value. rewrite identity_text_lines, getlines_unlines.
  2: { unfold no_char in *. repeat apply Forall_cons_2; [..|apply Forall_nil_2];
       rewrite str_forall_app, ?Hn, ?Hk, ?Hp; done. }
  split; [apply (read_value_head "node_id"); done|].
  etrans; [apply (read_value_skip "public_key_hex" "node_id"); done|apply (read_value_head "public_key_hex"); done].
Qed.

(** The first [k] bytes of a text. *)
Definition first_bytes (k : nat) (text : string) : string := string_of_bytes (take k (bytes_of_string text)).

Lemma first_bytes_cons k c text : first_bytes (S k) (String c text) = String c (first_bytes k text).
Proof.
  unfold first_bytes. change (bytes_of_string (String c text)) with (Ascii.byte_of_ascii c :: bytes_of_string text). simpl take.
  change (string_of_bytes (?x :: ?l)) with (String (Ascii.ascii_of_byte x) (string_of_bytes l)). by rewrite Ascii.ascii_of_byte_of_ascii.
Qed.

Lemma first_bytes_app k a b : (k <= String.length a)%nat -> first_bytes k (a +:+ b) = first_bytes k a.
Proof.
  revert k. induction a as [|c a IH]; intros [|k] Hk; simpl in Hk; try done; try lia.
  rewrite str_app_cons, !first_bytes_cons. f_equal. apply IH. lia.
Qed.

Lemma first_bytes_no_char c k a : no_char c a = true -> no_char c (first_bytes k a) = true.
Proof.
  revert k. induction a as [|d a IH]; intros [|k] Hn; try done. rewrite first_bytes_cons. unfold no_char in *. simpl in *.
  apply andb_true_iff in Hn as [-> Hn]. by apply IH.
Qed.

(** Of a file that was cut in its first line, no public key is read. *)
Lemma read_value_first_line node rest k :
  (k <= String.length ("node_id=" +:+ node))%nat -> no_char newline node = true ->
  read_value (first_bytes k ("node_id=" +:+ node +:+ rest)) "public_key_hex" = "".
Proof.
  intros Hk Hn. replace ("node_id=" +:+ node +:+ rest) with (("node_id=" +:+ node) +:+ rest) by by rewrite str_app_assoc.
  rewrite first_bytes_app by done. assert (Hl : no_char newline (first_bytes k ("node_id=" +:+ node)) = true).
  { apply first_bytes_no_char. unfold no_char in *. by rewrite str_forall_app, Hn. }
  destruct k as [|k]; [done|]. change ("node_id=" +:+ node) with (String "n" ("ode_id=" +:+ node)) in *.
  rewrite first_bytes_cons in *. unfold read_value. rewrite getlines_one by done. cbn [read_value_lines].
  destruct (find_char "="%char _) as [e|] eqn:He; [|done]. destruct e as [|e]; [done|]. rewrite bool_decide_false; [done|].
  unfold substr. simpl. discriminate.
Qed.

Section store.
Context {E : PathEnv} {M : Machine} {U : Permissions} {S : Sodium}.

(** Where [load_or_create] keeps its files. *)
Definition store_at (path_ config_path : string) : Prop :=
  store_resolve_secure_path (if str_empty (parent_path path_) then "." else parent_path path_) (filename path_) = inl config_path.

Lemma key_path_ne p : p +:+ ".key" <> p.
Proof. intros Heq%(f_equal String.length). rewrite str_length_app in Heq. simpl in Heq. lia. Qed.

(** Effects on one file leave the others alone. *)
Lemma write_file_files path text fs : can_write path = true -> files (write_file path text fs) = <[path := text]> (files fs).
Proof. intros Hw. unfold write_file. by rewrite Hw. Qed.
Lemma restrict_files path fs : files (restrict_file_permissions path fs) = files fs.
Proof. unfold restrict_file_permissions. by repeat case_match. Qed.

(** The files and modes a first call leaves. *)
Lemma create_identity path_ cp node seed fs : store_at path_ cp -> files fs !! cp = None ->
  can_write cp = true -> can_write (cp +:+ ".key") = true ->
  let keys := generate_ed25519_keypair seed in
  let i := mkNodeIdentity node (encode_hex (contents keys.1)) (cp +:+ ".key") in
  exists fs1, load_or_create path_ node seed fs = inl (i, fs1) /\
    files fs1 !! cp = Some (bytes_of_string (identity_text i)) /\ files fs1 !! (cp +:+ ".key") = Some (contents keys.2) /\
    modes fs1 !! cp = Some creation_mode /\ (can_chmod (cp +:+ ".key") = true -> modes fs1 !! (cp +:+ ".key") = Some owner_only).
Proof.
  intros Hat Hd Hw1 Hw2 keys i. unfold load_or_create, create_effects. unfold store_at in Hat. rewrite Hat, Hd.
  subst i keys. destruct (generate_ed25519_keypair seed) as [pk sk]. eexists. split; [done|]. cbn [foldl run_effect fst snd].
  rewrite (write_file_files cp), restrict_files, (write_file_files (cp +:+ ".key")) by done.
  rewrite lookup_insert_eq, !lookup_insert_ne by (apply not_eq_sym, key_path_ne). rewrite lookup_insert_eq.
  pose proof (key_path_ne cp) as Hne. split_and!; [done|done|..].
  - unfold write_file at 1. rewrite Hw1, restrict_files, write_file_files, lookup_insert_ne, Hd by done. simpl. by rewrite lookup_insert_eq.
  - intros Hc. unfold write_file at 1. rewrite Hw1, restrict_files, write_file_files, lookup_insert_ne, Hd by done. simpl.
    rewrite lookup_insert_ne by done. unfold restrict_file_permissions. rewrite write_file_files, lookup_insert_eq, Hc by done.
    simpl. by rewrite lookup_insert_eq.
Qed.

(** Loading from files that are there. *)
Lemma load_files path_ cp node seed fs text key : store_at path_ cp ->
  files fs !! cp = Some text -> files fs !! (cp +:+ ".key") = Some key ->
  load_or_create path_ node seed fs =
  if size_of key =? EXPECTED_KEY_SIZE
  then inl (mkNodeIdentity (read_value (string_of_bytes text) "node_id") (read_value (string_of_bytes text) "public_key_hex")
              (cp +:+ ".key"), fs)
  else inr (KeySizeInvalid (size_of key)).
Proof.
  intros Hat Hd Hkey. unfold load_or_create. unfold store_at in Hat. rewrite Hat, Hd, Hkey.
  by destruct (size_of key =? EXPECTED_KEY_SIZE).
Qed.

(** Files other than the two are not touched. *)
Lemma load_other path_ cp node seed fs i fs1 p : store_at path_ cp -> load_or_create path_ node seed fs = inl (i, fs1) ->
  p <> cp -> p <> cp +:+ ".key" -> files fs1 !! p = files fs !! p.
Proof.
  intros Hat Hl H1 H2. unfold load_or_create in Hl. unfold store_at in Hat. rewrite Hat in Hl.
  assert (Hw : forall q text fs, p <> q -> files (write_file q text fs) !! p = files fs !! p).
  { intros q text fs0 Hne. unfold write_file. destruct (can_write q); [|done]. simpl. by rewrite lookup_insert_ne. }
  destruct (files fs !! cp); [repeat case_match; by simplify_eq|]. unfold create_effects in Hl.
  destruct (generate_ed25519_keypair seed) as [pk sk]. injection Hl as _ <-. cbn [foldl run_effect].
  by rewrite Hw, restrict_files, Hw.
Qed.

(** The second call, on any key size. *)
Lemma load_identity path_ cp node seed fs i key : store_at path_ cp ->
  files fs !! cp = Some (bytes_of_string (identity_text i)) -> files fs !! (cp +:+ ".key") = Some key ->
  no_char newline (id_node_id i) = true -> no_char newline (id_public_key_hex i) = true ->
  no_char newline cp = true -> id_private_key_path i = cp +:+ ".key" ->
  load_or_create path_ node seed fs =
  if size_of key =? EXPECTED_KEY_SIZE then inl (i, fs) else inr (KeySizeInvalid (size_of key)).
Proof.
  intros Hat Hd Hkey Hn Hk Hcp Hp. rewrite (load_files path_ cp node seed fs _ key Hat Hd Hkey), string_of_bytes_of_string.
  destruct (read_identity_text i) as [-> ->]; [done|done|rewrite Hp; unfold no_char in *; by rewrite str_forall_app, Hcp|].
  rewrite <- Hp. by destruct i.
Qed.

Lemma create_then_load {L : SodiumLaws S} path_ cp node seed fs
    (enabled : sodium_enabled = true) (at_cp : store_at path_ cp) (fresh : files fs !! cp = None)
    (w1 : can_write cp = true) (w2 : can_write (cp +:+ ".key") = true) (chmod : can_chmod (cp +:+ ".key") = true)
    (line1 : no_char newline node = true) (line2 : no_char newline cp = true) :
  exists i fs1, load_or_create path_ node seed fs = inl (i, fs1) /\ id_node_id i = node /\
    id_public_key_hex i = encode_hex (crypto_sign_keypair seed).1 /\
    files fs1 !! id_private_key_path i = Some (crypto_sign_keypair seed).2 /\
    modes fs1 !! id_private_key_path i = Some owner_only /\
    forall node' seed', load_or_create path_ node' seed' fs1 = inl (i, fs1).
Proof.
  destruct (create_identity path_ cp node seed fs at_cp fresh w1 w2) as (fs1 & H1 & Hcp & Hkey & _ & Hmode).
  pose proof (keypair_sizes seed) as [_ Hsk]. pose proof key_sizes as (_ & _ & H64).
  unfold generate_ed25519_keypair in *. rewrite enabled in *.
  destruct (crypto_sign_keypair seed) as [pk sk]. simpl in *.
  eexists _, fs1. split_and!; [done|done|done|done|by apply Hmode|]. intros node' seed'.
  rewrite (load_identity path_ cp node' seed' fs1 _ _ at_cp Hcp Hkey line1 (encode_hex_no_newline _) line2 eq_refl).
  unfold contents. simpl. by rewrite Hsk, H64.
Qed.

(** (C29) A node keeps its identity: the first call creates a key pair and both files, the key
    readable by its owner only; and every later call, whatever node id it is given, returns
    the identity the first one created and changes nothing. *)
Theorem identity_survives_restart {L : SodiumLaws S} path_ cp node seed fs
    (enabled : sodium_enabled = true) (at_cp : store_at path_ cp) (fresh : files fs !! cp = None)
    (w1 : can_write cp = true) (w2 : can_write (cp +:+ ".key") = true) (chmod : can_chmod (cp +:+ ".key") = true)
    (line1 : no_char newline node = true) (line2 : no_char newline cp = true) :
  exists i fs1, load_or_create path_ node seed fs = inl (i, fs1) /\ id_node_id i = node /\
    id_public_key_hex i = encode_hex (crypto_sign_keypair seed).1 /\
    files fs1 !! id_private_key_path i = Some (crypto_sign_keypair seed).2 /\
    modes fs1 !! id_private_key_path i = Some owner_only /\
    forall node' seed', load_or_create path_ node' seed' fs1 = inl (i, fs1).
Proof. exact (create_then_load path_ cp node seed fs enabled at_cp fresh w1 w2 chmod line1 line2). Qed.

(** The key file is written before it is restricted: between the two effects of a creation the
    secret key is complete on disk with the ordinary permissions of a new file, and it keeps
    them if changing them fails, which is only reported. *)
Theorem key_file_exposed {L : SodiumLaws S} path_ cp node seed fs
    (enabled : sodium_enabled = true) (at_cp : store_at path_ cp) (fresh : files fs !! cp = None)
    (new_key : files fs !! (cp +:+ ".key") = None)
    (w1 : can_write cp = true) (w2 : can_write (cp +:+ ".key") = true) :
  let key_path := cp +:+ ".key" in
  (exists fs', crash_during fs (create_effects cp node seed).2 fs' /\
     files fs' !! key_path = Some (crypto_sign_keypair seed).2 /\ modes fs' !! key_path = Some creation_mode) /\
  (can_chmod key_path = false -> exists i fs1, load_or_create path_ node seed fs = inl (i, fs1) /\
     files fs1 !! key_path = Some (crypto_sign_keypair seed).2 /\ modes fs1 !! key_path = Some creation_mode).
Proof.
  intros key_path. unfold load_or_create, create_effects, generate_ed25519_keypair. unfold store_at in at_cp.
  rewrite at_cp, fresh, enabled. destruct (crypto_sign_keypair seed) as [pk sk]. simpl. fold key_path.
  pose proof (key_path_ne cp) as Hne. fold key_path in Hne, w2, new_key.
  assert (Hw : forall text, files (write_file key_path text fs) !! key_path = Some text /\
    modes (write_file key_path text fs) !! key_path = Some creation_mode).
  { intros text. unfold write_file. rewrite w2, new_key. simpl. by rewrite !lookup_insert_eq. }
  split.
  - exists (write_file key_path sk fs). split; [|apply Hw]. apply (CrashLater fs (WriteFile key_path sk)), CrashBefore.
  - intros Hc. eexists _, _. split; [done|]. unfold restrict_file_permissions at 1 2. rewrite (proj1 (Hw _)), Hc.
    rewrite write_file_files, lookup_insert_ne by done. rewrite (proj1 (Hw _)).
    split; [done|]. unfold write_file at 1. rewrite w1, write_file_files, lookup_insert_ne, fresh by done.
    simpl. rewrite lookup_insert_ne by done. apply Hw.
Qed.

(** A build without libsodium locks itself out: the first start writes an empty key file
    and reports success, and every later start fails on the size of that file. *)
Theorem identity_without_sodium_locks_out path_ cp node seed fs
    (disabled : sodium_enabled = false) (at_cp : store_at path_ cp) (fresh : files fs !! cp = None)
    (w1 : can_write cp = true) (w2 : can_write (cp +:+ ".key") = true)
    (line1 : no_char newline node = true) (line2 : no_char newline cp = true) :
  exists i fs1, load_or_create path_ node seed fs = inl (i, fs1) /\
    forall node' seed', load_or_create path_ node' seed' fs1 = inr (KeySizeInvalid 0).
Proof.
  destruct (create_identity path_ cp node seed fs at_cp fresh w1 w2) as (fs1 & H1 & Hcp & Hkey & _).
  unfold generate_ed25519_keypair in *. rewrite disabled in *. simpl in *.
  eexists _, fs1. split; [done|]. intros node' seed'.
  by rewrite (load_identity path_ cp node' seed' fs1 _ _ at_cp Hcp Hkey line1 eq_refl line2 eq_refl).
Qed.

(** ** Crashes during the creation *)

(** What a crash leaves: no identity file, or a prefix of it beside the complete key file. *)
Lemma create_crash_states cp node seed fs fs' : files fs !! cp = None ->
  can_write cp = true -> can_write (cp +:+ ".key") = true ->
  crash_during fs (create_effects cp node seed).2 fs' ->
  files fs' !! cp = None \/
  exists k, files fs' !! cp = Some (take k (bytes_of_string (identity_text (create_effects cp node seed).1))) /\
    files fs' !! (cp +:+ ".key") = Some (contents (generate_ed25519_keypair seed).2).
Proof.
  intros Hd Hw1 Hw2. unfold create_effects. destruct (generate_ed25519_keypair seed) as [pk sk]. cbn [fst snd].
  pose proof (key_path_ne cp) as Hne. set (text := bytes_of_string _).
  assert (Hkey : forall t, files (write_file (cp +:+ ".key") t fs) !! cp = None).
  { intros t. rewrite write_file_files, lookup_insert_ne by done. done. }
  intros Hc. inversion Hc as [? ?|? ? ? k ? Hw|? ? ? ? Hc1]; subst; [by left|left; apply Hkey|].
  inversion Hc1 as [? ?|? ? ? k ? Hw|? ? ? ? Hc2]; subst; [left; apply Hkey|].
  assert (Hdone : forall t, let fs2 := write_file cp t (restrict_file_permissions (cp +:+ ".key") (write_file (cp +:+ ".key") (contents sk) fs)) in
    files fs2 !! cp = Some t /\ files fs2 !! (cp +:+ ".key") = Some (contents sk)).
  { intros t fs2. subst fs2. rewrite (write_file_files cp), restrict_files, (write_file_files (cp +:+ ".key")) by done.
    by rewrite lookup_insert_eq, lookup_insert_ne, lookup_insert_eq by done. }
  inversion Hc2 as [? ?|? ? ? k ? Hw|? ? ? ? Hc3]; subst.
  - left. cbn [run_effect]. rewrite restrict_files. apply Hkey.
  - right. exists k. apply Hdone.
  - right. exists (length text). rewrite firstn_all. inversion Hc3; subst. apply Hdone.
Qed.

(** (C30) A crash during the first start is survived, but not always noticed: whenever the process
    dies while the identity is created, the next start does not fail; either it creates a new
    identity, or the identity file is a prefix of what was to be written, beside the complete
    key, and the start returns what can be read from that prefix, and changes nothing.  So an
    identity file that was cut within its first line is taken for good as an identity without
    public key. *)
Theorem identity_creation_crash {L : SodiumLaws S} path_ cp node seed fs fs' node' seed'
    (enabled : sodium_enabled = true) (at_cp : store_at path_ cp) (fresh : files fs !! cp = None)
    (w1 : can_write cp = true) (w2 : can_write (cp +:+ ".key") = true)
    (crash : crash_during fs (create_effects cp node seed).2 fs') :
  (files fs' !! cp = None /\
   exists i fs1, load_or_create path_ node' seed' fs' = inl (i, fs1) /\ id_node_id i = node' /\
     id_public_key_hex i = encode_hex (crypto_sign_keypair seed').1) \/
  (exists k, let prefix := string_of_bytes (take k (bytes_of_string (identity_text (create_effects cp node seed).1))) in
   load_or_create path_ node' seed' fs' =
     inl (mkNodeIdentity (read_value prefix "node_id") (read_value prefix "public_key_hex") (cp +:+ ".key"), fs') /\
   ((k <= String.length ("node_id=" +:+ node))%nat -> no_char newline node = true -> read_value prefix "public_key_hex" = "")).
Proof.
  destruct (create_crash_states cp node seed fs fs' fresh w1 w2 crash) as [Hnone|(k & Hcp & Hkey)]; [left|right].
  - split; [done|]. destruct (create_identity path_ cp node' seed' fs' at_cp Hnone w1 w2) as (fs1 & H1 & _).
    eexists _, fs1. split; [done|]. unfold generate_ed25519_keypair. rewrite enabled. by destruct (crypto_sign_keypair seed').
  - exists k. intros prefix. split.
    + rewrite (load_files path_ cp node' seed' fs' _ _ at_cp Hcp Hkey).
      pose proof (keypair_sizes seed) as [_ Hsk]. pose proof key_sizes as (_ & _ & H64).
      unfold generate_ed25519_keypair in *. rewrite enabled in *. destruct (crypto_sign_keypair seed) as [pk sk].
      unfold contents; simpl in *. by rewrite Hsk, H64.
    + intros Hk Hn. unfold create_effects in prefix. destruct (generate_ed25519_keypair seed) as [pk sk].
      by apply (read_value_first_line node).
Qed.
End store.

Definition ex_machine : Machine := {| can_write _ := true; can_rename _ _ := true |}.
Definition ex_permissions (chmod : bool) : Permissions := {| creation_mode := 420; can_chmod _ := chmod |}.
Definition no_files : FileSystem := mkFileSystem ∅ ∅.

Lemma identity_survives_restart_witness :
  exists i fs1, @load_or_create lexical_env ex_machine (ex_permissions true) toy_sodium ".beaconnode/identity.txt" "dev-node" 7 no_files = inl (i, fs1) /\
    id_node_id i = "dev-node"%string /\ modes fs1 !! id_private_key_path i = Some owner_only /\
    forall node' seed', @load_or_create lexical_env ex_machine (ex_permissions true) toy_sodium ".beaconnode/identity.txt" node' seed' fs1 = inl (i, fs1).
Proof.
  destruct (@identity_survives_restart lexical_env ex_machine (ex_permissions true) toy_sodium toy_sodium_laws ".beaconnode/identity.txt"
    "/work/.beaconnode/identity.txt" "dev-node" 7 no_files) as (i & fs1 & H1 & H2 & _ & _ & H5 & H6).
  1-8: by vm_compute.
  exists i, fs1. split; [exact H1|]. split; [exact H2|]. split; [exact H5|exact H6].
Defined.

Lemma key_file_exposed_witness :
  let key_path := ("/work/.beaconnode/identity.txt" +:+ ".key")%string in
  exists i fs1, @load_or_create lexical_env ex_machine (ex_permissions false) toy_sodium ".beaconnode/identity.txt" "n" 7 no_files = inl (i, fs1) /\
    modes fs1 !! key_path = Some 420.
Proof.
  intros key_path.
  destruct (@key_file_exposed lexical_env ex_machine (ex_permissions false) toy_sodium toy_sodium_laws ".beaconnode/identity.txt"
    "/work/.beaconnode/identity.txt" "n" 7 no_files) as [_ H].
  1-6: by vm_compute.
  destruct (H eq_refl) as (i & fs1 & H1 & _ & H2). exists i, fs1. split; [exact H1|exact H2].
Defined.

Lemma identity_without_sodium_locks_out_witness :
  exists i fs1, @load_or_create lexical_env ex_machine (ex_permissions true) no_sodium ".beaconnode/identity.txt" "dev-node" 7 no_files = inl (i, fs1) /\
    forall node' seed', @load_or_create lexical_env ex_machine (ex_permissions true) no_sodium ".beaconnode/identity.txt" node' seed' fs1 =
      inr (KeySizeInvalid 0).
Proof.
  apply (@identity_without_sodium_locks_out lexical_env ex_machine (ex_permissions true) no_sodium ".beaconnode/identity.txt"
    "/work/.beaconnode/identity.txt" "dev-node" 7 no_files); by vm_compute.
Defined.

(** The process dies when it has opened the identity file and written nothing. *)
Lemma identity_creation_crash_witness :
  let cp := "/work/.beaconnode/identity.txt"%string in
  let effects := (@create_effects toy_sodium cp "dev-node" 7).2 in
  let fs' := @write_file ex_machine (ex_permissions true) cp [] (foldl (@run_effect ex_machine (ex_permissions true)) no_files (take 2 effects)) in
  @load_or_create lexical_env ex_machine (ex_permissions true) toy_sodium ".beaconnode/identity.txt" "dev-node" 8 fs' =
    inl (mkNodeIdentity "" "" (cp +:+ ".key"), fs').
Proof.
  intros cp effects fs'.
  assert (Hc : @crash_during ex_machine (ex_permissions true) no_files effects fs').
  { apply CrashLater, CrashLater. apply (@CrashWithin ex_machine (ex_permissions true) _ cp _ 0 []). reflexivity. }
  destruct (@identity_creation_crash lexical_env ex_machine (ex_permissions true) toy_sodium toy_sodium_laws ".beaconnode/identity.txt"
    cp "dev-node" 7 no_files fs' "dev-node" 8 eq_refl ltac:(by vm_compute) eq_refl eq_refl eq_refl Hc) as [[H _]|(k & H & _)].
  - exfalso. revert H. by vm_compute.
  - by vm_compute.
Defined.
