(* ===== verification/WindowsAcl.v ===== *)
(** * The key file on Windows: [restrict_file_permissions] of [src/src/beacon/identity_store.cpp]

    The branch of the function under [_WIN32].  The calls to the operating system are the
    interface [Win32]: whether each of them succeeds and what it hands back.  The state has what
    the calls change: the handles and the access control lists the process holds, and the list
    in force on every file.  The constants are those of the Windows headers. *)

From S2P Require Import Prelude CxxString CxxContainers.

(** ** Definitions *)

Definition GENERIC_READ : Z := 2 ^ 31.
Definition GENERIC_WRITE : Z := 2 ^ 30.

Inductive access_mode := SET_ACCESS.
Inductive inheritance := NO_INHERITANCE.
Inductive trustee_form := TRUSTEE_IS_SID.
Inductive trustee_type := TRUSTEE_IS_USER.

(** [EXPLICIT_ACCESS]; the trustee is flattened into it. *)
Record ExplicitAccess := mkExplicitAccess {
  grfAccessPermissions : Z;
  grfAccessMode : access_mode;
  grfInheritance : inheritance;
  TrusteeForm : trustee_form;
  TrusteeType : trustee_type;
  ptstrName : bytes;
}.

(** [GetTokenInformation] is called for the size first, then for the bytes; [token_sid] is the
    identifier the [TOKEN_USER] at the start of the bytes points to.  A list of entries that
    [SetEntriesInAclA] builds is opaque; success with a null pointer is [Some None]. *)
Class Win32 := {
  OpenProcessToken : bool;
  token_information_size : Z;
  GetTokenInformation : Z -> option bytes;
  token_sid : bytes -> bytes;
  PACL : Type;
  SetEntriesInAclA : list ExplicitAccess -> option (option PACL);
  SetNamedSecurityInfoA : string -> option PACL -> bool;
}.

(** What a file is protected by: its list (a null list lets everybody in) and whether the
    entries of the directory are kept out. *)
Record Security {W : Win32} := mkSecurity {
  dacl : option PACL;
  dacl_protected : bool;
}.
Record Windows {W : Win32} := mkWindows {
  open_handles : Z;
  allocated_acls : Z;
  security : gmap string Security;
}.

Section windows.
Context {W : Win32}.

Definition open_handle (w : Windows) : Windows := mkWindows W (open_handles w + 1) (allocated_acls w) (security w).
Definition CloseHandle (w : Windows) : Windows := mkWindows W (open_handles w - 1) (allocated_acls w) (security w).
Definition hold_acl (p : option PACL) (w : Windows) : Windows :=
  match p with Some _ => mkWindows W (open_handles w) (allocated_acls w + 1) (security w) | None => w end.
Definition LocalFree (w : Windows) : Windows := mkWindows W (open_handles w) (allocated_acls w - 1) (security w).
Definition set_security (path : string) (p : option PACL) (w : Windows) : Windows :=
  if SetNamedSecurityInfoA path p
  then mkWindows W (open_handles w) (allocated_acls w) (<[path := mkSecurity W p true]> (security w)) else w.

(** The entry for the user with an identifier. *)
Definition user_access (sid : bytes) : ExplicitAccess :=
  mkExplicitAccess (Z.lor GENERIC_READ GENERIC_WRITE) SET_ACCESS NO_INHERITANCE TRUSTEE_IS_SID TRUSTEE_IS_USER sid.

Definition restrict_file_permissions_win32 (path : string) (w : Windows) : Windows :=
  if negb OpenProcessToken then w
  else
    let w := open_handle w in
    let dwSize := token_information_size in
    if dwSize =? 0 then CloseHandle w
    else match GetTokenInformation dwSize with
    | None => CloseHandle w
    | Some token_buf =>
        let w := CloseHandle w in
        match SetEntriesInAclA [user_access (token_sid token_buf)] with
        | None => w
        | Some p_new_dacl =>
            let w := hold_acl p_new_dacl w in
            let w := set_security path p_new_dacl w in
            match p_new_dacl with Some _ => LocalFree w | None => w end
        end
    end.

(** The list the function puts on the key file, when every call but the last succeeds. *)
Definition key_file_dacl : option (option PACL) :=
  if negb OpenProcessToken || (token_information_size =? 0) then None
  else token_buf ← GetTokenInformation token_information_size; SetEntriesInAclA [user_access (token_sid token_buf)].

(** ** Properties *)

(** On Windows the key file is protected or left as it was, and nothing leaks: the function
    gives back every handle and every list it took, on every path; it changes no other file;
    and the key file ends with exactly the list built from one entry, which lets the user of
    the process read and write, cut off from the entries of its directory, if all the calls
    succeed, and with what it had before if one of them fails, which is not reported. *)
Theorem windows_restriction path w :
  let w' := restrict_file_permissions_win32 path w in
  open_handles w' = open_handles w /\ allocated_acls w' = allocated_acls w /\
  security w' =
    match key_file_dacl with
    | Some acl => if SetNamedSecurityInfoA path acl then <[path := mkSecurity W acl true]> (security w) else security w
    | None => security w
    end.
Proof.
  unfold restrict_file_permissions_win32, key_file_dacl. destruct OpenProcessToken; [|done]. cbn [negb orb].
  destruct (token_information_size =? 0); [split_and!; simpl; (lia || done)|].
  destruct (GetTokenInformation token_information_size) as [buf|]; [|split_and!; simpl; (lia || done)]. cbn [mbind option_bind].
  destruct (SetEntriesInAclA _) as [[acl|]|]; [| |split_and!; simpl; (lia || done)]; unfold set_security;
    destruct (SetNamedSecurityInfoA path _); split_and!; simpl; (lia || done).
Qed.
End windows.
