(* ===== verification/UdpResponder.v ===== *)
(** * The UDP handshake responder: [src/src/beacon_net/udp_handshake_responder.hpp],
      [udp_handshake_responder.cpp]

    A datagram, of which at most 1024 bytes are read, and the answer sent back to its sender,
    if any; and the receive loop on its thread, an instance of the [WorkerLoop] of
    [Lifecycle].  The loop only reads the registry. *)

From S2P Require Import Prelude CxxString CxxContainers Types AgentRegistry RegistryProps PeerHandshake Lifecycle.

(** ** Definitions *)

(** [receive_from] into [std::array<char, 1024>]. *)
Definition datagram_payload (datagram : string) : string := substr datagram 0 1024.

Definition respond {W} (config : NodeConfig) (registry : AgentRegistry W) (datagram : string) : option string :=
  match decode_peer_hello (datagram_payload datagram) with
  | None => None
  | Some _ =>
      Some (encode_peer_welcome (mkPeerWelcome (cfg_node_id config) (highest_revision (stats registry))))
  end.

(** ** The receive loop on its thread *)

(** Where the worker is in [run]: [UHandling] is behind the second test of the flag. *)
Inductive udp_phase :=
| UBinding
| UChecking
| UReceiving
| UReceived (sender datagram : string)
| UHandling (sender datagram : string)
| UExited.

(** What the loop shares: the datagrams queued at its socket, the registry, and the answers
    sent. *)
Record UdpWorld (W : Type) := mkUdpWorld {
  inbox : list (string * string);
  uw_registry : AgentRegistry W;
  answered : list (string * string);
}.
Arguments mkUdpWorld {W}.
Arguments inbox {W}.
Arguments uw_registry {W}.
Arguments answered {W}.

Definition set_inbox {W} (ds : list (string * string)) (q : UdpWorld W) : UdpWorld W :=
  mkUdpWorld ds (uw_registry q) (answered q).
Definition add_answer {W} (sender answer : string) (q : UdpWorld W) : UdpWorld W :=
  mkUdpWorld (inbox q) (uw_registry q) (answered q ++ [(sender, answer)]).

(** The socket is bound. *)
Definition udp_bound (p : udp_phase) : bool :=
  match p with UBinding | UExited => false | _ => true end.

Section receive_loop.
Context {W : Type} (config : NodeConfig).

(** The steps of [run]; an exception of the socket, in [send_to] too, ends it. *)
Inductive receive_step : bool -> udp_phase -> UdpWorld W -> udp_phase -> UdpWorld W -> Prop :=
| UBound stop q : receive_step stop UBinding q UChecking (set_inbox [] q)
| UBindFailed stop q : receive_step stop UBinding q UExited q
| UCheck q : receive_step false UChecking q UReceiving q
| ULeave q : receive_step true UChecking q UExited q
| UReceive stop sender d ds q : inbox q = (sender, d) :: ds ->
    receive_step stop UReceiving q (UReceived sender d) (set_inbox ds q)
| UReceiveFailed stop q : receive_step stop UReceiving q UExited q
| UGoOn sender d q : receive_step false (UReceived sender d) q (UHandling sender d) q
| UBreak sender d q : receive_step true (UReceived sender d) q UExited q
| UIgnore stop sender d q : respond config (uw_registry q) d = None ->
    receive_step stop (UHandling sender d) q UChecking q
| UAnswer stop sender d answer q : respond config (uw_registry q) d = Some answer ->
    receive_step stop (UHandling sender d) q UChecking (add_answer sender answer q)
| USendFailed stop sender d answer q : respond config (uw_registry q) d = Some answer ->
    receive_step stop (UHandling sender d) q UExited q.

(** [stop] sends a datagram to the socket; every failure is swallowed, and datagrams get lost. *)
Definition stop_datagram : string * string :=
  ("127.0.0.1"%string, "BEACON_STOP" +:+ String Ascii.zero EmptyString).
Inductive datagram_wake : udp_phase -> UdpWorld W -> UdpWorld W -> Prop :=
| UWakeQueued p q : udp_bound p = true -> datagram_wake p q (set_inbox (inbox q ++ [stop_datagram]) q)
| UWakeLost p q : datagram_wake p q q.

(** Datagrams arrive; other threads change the registry. *)
Inductive udp_outside : option udp_phase -> UdpWorld W -> UdpWorld W -> Prop :=
| UArrives p sender d q : udp_bound p = true -> udp_outside (Some p) q (set_inbox (inbox q ++ [(sender, d)]) q)
| URegistryChanges w reg q : udp_outside w q (mkUdpWorld (inbox q) reg (answered q)).

#[export] Instance receive_loop : WorkerLoop udp_phase (UdpWorld W) := {|
  run_entry := UBinding;
  run_returned := UExited;
  wstep := receive_step;
  wake := datagram_wake;
  outside := udp_outside;
|}.

(** The constructor, and [start]. *)
Definition new_udp_responder (registry : AgentRegistry W) : Service udp_phase (UdpWorld W) :=
  new_service (mkUdpWorld [] registry []).
Definition udp_start : Service udp_phase (UdpWorld W) -> Service udp_phase (UdpWorld W) := start.

Definition udp_drain (p : udp_phase) : nat :=
  match p with
  | UBinding => 2 | UChecking => 1 | UReceiving => 2 | UReceived _ _ => 1 | UHandling _ _ => 2 | UExited => 0
  end.
Definition udp_ready (p : udp_phase) (q : UdpWorld W) : Prop :=
  match p with UReceiving => inbox q <> [] | _ => True end.
Definition udp_busy (p : udp_phase) : nat := match p with UHandling _ _ => 1 | _ => 0 end.

Lemma udp_ready_progress p q : udp_ready p q -> p = UExited \/ exists p' q', receive_step true p q p' q'.
Proof.
  destruct p as [| | |sender d|sender d|]; simpl; intros Hr; [right..|by left].
  - eexists _, _. apply UBound.
  - eexists _, _. apply ULeave.
  - destruct (inbox q) as [|[sender d] ds] eqn:Hb; [done|]. eexists _, _. by eapply UReceive.
  - eexists _, _. apply UBreak.
  - destruct (respond config (uw_registry q) d) as [answer|] eqn:Ha; eexists _, _; [by eapply UAnswer|by eapply UIgnore].
Qed.

#[export] Program Instance receive_loop_laws : WorkerLaws := {|
  drain := udp_drain;
  blocked _ := False;
  ready := udp_ready;
  busy := udp_busy;
  completed q := length (answered q);
  ready_progress := udp_ready_progress;
|}.
Next Obligation. intros p q p' q' H. inversion H; subst; simpl; lia. Qed.
Next Obligation. intros p q p' q' Hr H. inversion H; subst; simpl; done. Qed.
Next Obligation.
  intros p q q' Hr H. inversion H as [p0 sender d q0 Hl|w reg q0]; subst; [|done]. destruct p; simpl in *; try done.
  by destruct (inbox q).
Qed.
Next Obligation. intros p q. eexists. apply UWakeLost. Qed.
Next Obligation. intros b p q p' q' []. Qed.
Next Obligation. intros p q p' q' H. inversion H; subst; simpl; rewrite ?length_app; simpl; lia. Qed.
Next Obligation. intros w q q' H. by inversion H. Qed.

(** Stopping the responder, for every interleaving with the network and the other threads: while
    [stop] is in [join], and unless the loop waits for a datagram although none is there, it
    makes at most two more steps and sends at most the answer it is about to send, and the join
    returns; and a datagram of [stop] that arrives, or comes before the socket is bound or after
    the loop has ended, frees the loop. *)
Theorem udp_stop_returns q s p n s' :
  rtc service_step (new_service q) s -> owner s = StopJoining -> worker_ s = Some p -> udp_ready p (shared s) -> worker_runs n s s' ->
  ((n <= 2)%nat /\ (length (answered (shared s')) <= length (answered (shared s)) + udp_busy p)%nat /\
   (service_step s' (mkService true None (shared s') OwnerIdle) \/
    exists p1 q1, service_step s' (mkService true (Some p1) q1 StopJoining))) /\
  (forall p0 q0, if udp_bound p0 then udp_ready p0 (set_inbox (inbox q0 ++ [stop_datagram]) q0) else udp_ready p0 q0).
Proof.
  intros Hr Ho Hp Hb Hn. split.
  - destruct (stop_returns (Laws := receive_loop_laws) q s p n s' Hr Ho Hp Hb Hn) as (H1 & H2 & p' & _ & _ & H3).
    split; [simpl in H1; destruct p; simpl in H1; lia|]. split; [done|].
    destruct H3 as [H3|(p1 & q1 & _ & H3)]; [by left|right; eauto].
  - intros p0 q0. destruct p0; simpl; try done. by destruct (inbox q0).
Qed.

(** Nothing happens any more: the worker has returned from [run], and the owner only calls
    [start] (which finds the thread joinable and returns) or is idle. *)
Inductive service_step_without_stop : Service udp_phase (UdpWorld W) -> Service udp_phase (UdpWorld W) -> Prop :=
| WithoutStop s s' : service_step s s' -> owner s' = OwnerIdle -> worker_ s' <> None -> service_step_without_stop s s'.

(** One answer that cannot be sent ends the responder for good: after it, no datagram is ever
    answered, and calling [start] again does not help, until the owner calls [stop]. *)
Theorem udp_send_failure_is_final sender d answer (q : UdpWorld W) :
  respond config (uw_registry q) d = Some answer ->
  let s := mkService false (Some (UHandling sender d)) q OwnerIdle in
  exists s1, service_step s s1 /\ answered (shared s1) = answered q /\
    forall s2, rtc service_step_without_stop s1 s2 -> answered (shared s2) = answered q /\ start s2 = s2.
Proof.
  intros Ha s. exists (mkService false (Some UExited) q OwnerIdle). split; [|split; [done|]].
  { apply WorkerMoves. by eapply USendFailed. }
  assert (Hinv : forall s1 s2, service_step_without_stop s1 s2 -> worker_ s1 = Some UExited /\ owner s1 = OwnerIdle ->
    (worker_ s2 = Some UExited /\ owner s2 = OwnerIdle) /\ answered (shared s2) = answered (shared s1)).
  { intros s1 s2 [s1' s2' Hstep Ho2 Hw2] [Hw Ho].
    destruct Hstep as [t Ht|t Ht|b t|b p0 t t' Hk|b t|b p0 t p1 t' o Hk|b w t t' o Hk]; simpl in *; simplify_eq; try done.
    - unfold start in *. by rewrite Hw in *.
    - inversion Hk.
    - split; [done|]. by inversion Hk. }
  intros s2 Hr.
  assert (Hgen : forall a b, rtc service_step_without_stop a b -> worker_ a = Some UExited /\ owner a = OwnerIdle ->
    worker_ b = Some UExited /\ answered (shared b) = answered (shared a)).
  { clear s2 Hr. intros a b Hr. induction Hr as [a|a1 a2 a3 H12 _ IH]; intros [Hw Ho]; [done|].
    destruct (Hinv _ _ H12 (conj Hw Ho)) as [Hs He]. destruct (IH Hs) as [? ?]. split; congruence. }
  destruct (Hgen _ _ Hr (conj eq_refl eq_refl)) as [Hw He]. split; [done|]. unfold start. by rewrite Hw.
Qed.
End receive_loop.

(** ** Lemmas *)

Lemma datagram_payload_short s : (String.length s <= 1024)%nat -> datagram_payload s = s.
Proof.
  unfold datagram_payload, substr. generalize 1024%nat as n. intros n. revert n.
  induction s as [|c s IH]; intros [|n] Hn; simpl in *; try done; try lia. f_equal. apply IH. lia.
Qed.

(** ** Properties *)

(** The handshake, end to end: a peer's hello that fits a datagram is answered, and the
    peer decodes from the answer this node's id and the highest revision of its registry;
    nothing else than a hello is ever answered. *)
Theorem handshake_exchange {W} config (registry : AgentRegistry W) hello
    (hello_fine : hello_ok hello) (fits : (String.length (encode_peer_hello hello) <= 1024)%nat)
    (id_word : is_word (cfg_node_id config) = true) (reg_ok : registry_ok registry) :
  (exists answer, respond config registry (encode_peer_hello hello) = Some answer /\
     decode_peer_welcome answer = Some (mkPeerWelcome (cfg_node_id config) (highest_revision (stats registry)))) /\
  (forall datagram, respond config registry datagram <> None ->
     exists h, decode_peer_hello (datagram_payload datagram) = Some h /\ hello_ok h).
Proof.
  split.
  - unfold respond. rewrite datagram_payload_short, round_trip by done. eexists. split; [done|].
    apply round_trip. split; [done|]. simpl. destruct reg_ok as [_ Hu].
    destruct (foldl_max_spec (records_ registry) 0) as (Hge & _ & Hex). simpl in *.
    destruct Hex as [-> |(r & Hr & <-)]; [lia|]. by eapply Forall_forall in Hu.
  - intros datagram. unfold respond. destruct (decode_peer_hello _) as [h|] eqn:Hd; [|done].
    intros _. exists h. split; [done|]. by eapply decode_peer_hello_ok.
Qed.

Lemma handshake_exchange_witness :
  let registry : AgentRegistry unit := mkAgentRegistry [mkAgentRecord "a" "n" "h" ∅ 12 0 "" ""] None in
  exists answer, respond (node default_config) registry (encode_peer_hello (mkPeerHello "node-2" 43170)) = Some answer /\
     decode_peer_welcome answer = Some (mkPeerWelcome "dev-node" 12).
Proof.
  intros registry.
  apply (handshake_exchange (node default_config) registry (mkPeerHello "node-2" 43170)).
  - split; [reflexivity|simpl; lia].
  - by apply (bool_decide_unpack (_ <= _)%nat).
  - reflexivity.
  - split; [apply NoDup_singleton|]. apply Forall_cons_2; [simpl; lia|apply Forall_nil_2].
Defined.
