(* ===== verification/GossipService.v ===== *)
(** * Gossip rounds: [src/src/beacon_net/gossip_service.hpp], [gossip_service.cpp]

    The state is the list of peers; a round picks some of them at random and, for each, sends
    a UDP heartbeat and synchronises over TCP.  [std::shuffle] is an interface (some
    permutation, which depends on the random draw); the network is the [Transport] of
    [SyncClient] and a way to send a datagram, either of which may fail. *)

From S2P Require Import Prelude CxxString CxxContainers Types Sodium SecureBuffer Crypto IdentityService AgentRegistry RegistrySpec RegistryProps ControlProtocol ControlProps PeerHandshake Lifecycle UdpResponder RegistrySync SyncClient.

(** ** Definitions *)

Record GossipPeer := mkGossipPeer {
  gp_node_id : string;
  gp_host : string;
  gp_listen_port : Z;
  gp_control_port : Z;
}.

Definition GOSSIP_INTERVAL : Z := 2.
Definition GOSSIP_FANOUT : Z := 3.

(** [std::shuffle] with the generator seeded by a draw of [std::random_device]. *)
Class StdShuffle := {
  std_shuffle : Z -> list nat -> list nat;
  std_shuffle_perm : forall draw l, std_shuffle draw l ≡ₚ l;
}.

Definition pick_random_indices {R : StdShuffle} (draw : Z) (count : nat) (fanout : Z) : list nat :=
  if (count =? 0)%nat then []
  else
    let indices := std_shuffle draw (seq 0 count) in
    let n := Z.min fanout (Z.of_nat count) in
    take (Z.to_nat n) indices.

Definition add_peer (peer : GossipPeer) (peers_ : list GossipPeer) : list GossipPeer :=
  if bool_decide (Exists (fun e => gp_host e = gp_host peer /\ gp_control_port e = gp_control_port peer) peers_)
  then peers_ else peers_ ++ [peer].

Definition heartbeat_text (config : NodeConfig) : string :=
  "GOSSIP_HEARTBEAT node_id=" +:+ cfg_node_id config +:+
  " listen_port=" +:+ to_string (listen_port config) +:+
  " control_port=" +:+ to_string (control_port config).

(** Sending a datagram to a host and port; failures are swallowed. *)
Class Datagrams (N : Type) := send_to : string -> Z -> string -> N -> N.

Section service.
Context {W : Type} {S : Sodium} {Sort : StdSort} {N : Type} {T : Transport N} {D : Datagrams N} {R : StdShuffle}.

Definition send_udp_heartbeat (config : NodeConfig) (peer : GossipPeer) (net : N) : N :=
  send_to (gp_host peer) (gp_listen_port peer) (heartbeat_text config) net.

Definition sync_with_peer_tcp (gossip_config : GossipConfig) (clock : nat -> TimePoint) (peer : GossipPeer)
    (st : NodeState W) (net : N) : NodeState W * N :=
  (sync_with_peer (mkSyncClient (max_registry_items_per_round gossip_config))
     (mkSyncPeer (gp_host peer) (gp_control_port peer)) clock st net).1.

(** The peers a round contacts, in order. *)
Definition round_targets (draw : Z) (peers_ : list GossipPeer) : list GossipPeer :=
  omap (fun idx => peers_ !! idx) (pick_random_indices draw (length peers_) GOSSIP_FANOUT).

Definition perform_gossip_round (config : NodeConfig) (gossip_config : GossipConfig) (draw : Z)
    (clock : nat -> nat -> TimePoint) (peers_ : list GossipPeer) (st : NodeState W) (net : N) : NodeState W * N :=
  match peers_ with
  | [] => (st, net)
  | _ =>
      foldl (fun '(st, net) '(i, peer) =>
        sync_with_peer_tcp gossip_config (clock i) peer st (send_udp_heartbeat config peer net))
        (st, net) (imap pair (round_targets draw peers_))
  end.

(** ** Lemmas *)

Lemma pick_random_indices_spec draw count fanout : 0 <= fanout ->
  NoDup (pick_random_indices draw count fanout) /\
  Forall (fun i => (i < count)%nat) (pick_random_indices draw count fanout) /\
  Z.of_nat (length (pick_random_indices draw count fanout)) = Z.min fanout (Z.of_nat count).
Proof.
  intros Hf. unfold pick_random_indices. destruct (count =? 0)%nat eqn:Hc.
  - apply Nat.eqb_eq in Hc as ->. split_and!; [constructor|constructor|simpl; lia].
  - pose proof (std_shuffle_perm draw (seq 0 count)) as Hp.
    assert (Hnd : NoDup (std_shuffle draw (seq 0 count))) by (rewrite Hp; apply NoDup_seq).
    assert (Hlt : Forall (fun i => (i < count)%nat) (std_shuffle draw (seq 0 count))).
    { rewrite Hp. apply Forall_forall. intros i Hi%elem_of_seq. lia. }
    split_and!; [|by apply Forall_take|].
    + rewrite <- (take_drop (Z.to_nat (Z.min fanout (Z.of_nat count)))) in Hnd. by apply NoDup_app in Hnd as [? _].
    + rewrite length_take, Hp, length_seq. lia.
Qed.

Lemma omap_lookup_NoDup {A B} (f : A -> B) (l : list A) idxs :
  NoDup (f <$> l) -> NoDup idxs -> NoDup (f <$> omap (fun i => l !! i) idxs).
Proof.
  intros Hl. induction 1 as [|i idxs Hi _ IH]; [constructor|]. simpl.
  destruct (l !! i) as [x|] eqn:Hx; [|done]. csimpl. constructor; [|done].
  intros (y & Hfy & (j & Hj & Hy)%list_elem_of_omap)%list_elem_of_fmap. destruct Hi.
  assert (i = j) as -> by (eapply (NoDup_lookup (f <$> l)); [done|by rewrite list_lookup_fmap, Hx|
    by rewrite list_lookup_fmap, Hy, Hfy]). done.
Qed.

(** Where a peer is reached. *)
Definition peer_address (p : GossipPeer) : string * Z := (gp_host p, gp_control_port p).

Definition add_all (new : list GossipPeer) (peers_ : list GossipPeer) : list GossipPeer :=
  foldl (fun ps p => add_peer p ps) peers_ new.

Lemma add_peer_NoDup p ps : NoDup (peer_address <$> ps) -> NoDup (peer_address <$> add_peer p ps).
Proof.
  intros Hnd. unfold add_peer. case_bool_decide as Hex; [done|]. rewrite fmap_app. apply NoDup_app.
  split_and!; [done| |apply NoDup_singleton]. intros a (q & -> & Hq)%list_elem_of_fmap Ha.
  apply list_elem_of_singleton in Ha. destruct Hex. apply Exists_exists. exists q.
  unfold peer_address in Ha. by simplify_eq.
Qed.

Lemma add_all_NoDup new ps : NoDup (peer_address <$> ps) -> NoDup (peer_address <$> add_all new ps).
Proof. revert ps. induction new as [|p new IH]; intros ps Hps; [done|]. by apply IH, add_peer_NoDup. Qed.

Lemma round_targets_length draw ps : Z.of_nat (length (round_targets draw ps)) = Z.min GOSSIP_FANOUT (Z.of_nat (length ps)).
Proof.
  destruct (pick_random_indices_spec draw (length ps) GOSSIP_FANOUT) as (_ & Hlt & <-); [done|].
  unfold round_targets. f_equal. induction Hlt as [|i idxs Hi _ IH]; [done|]. simpl.
  destruct (lookup_lt_is_Some_2 ps i Hi) as [x ->]. simpl. f_equal. exact IH.
Qed.

(** ** Properties *)

(** A gossip round contacts the right peers: of the peers added (a host and control port
    count once), it picks distinct ones, no address twice, as many as there are up to three;
    the number does not depend on the configured fan-out. *)
Theorem gossip_round_targets draw new :
  let peers_ := add_all new [] in
  let targets := round_targets draw peers_ in
  NoDup (peer_address <$> targets) /\ Forall (fun p => p ∈ peers_) targets /\
  Z.of_nat (length targets) = Z.min 3 (Z.of_nat (length peers_)) /\
  (forall a, a ∈ (peer_address <$> peers_) <-> a ∈ (peer_address <$> new)).
Proof.
  intros peers_ targets.
  destruct (pick_random_indices_spec draw (length peers_) GOSSIP_FANOUT) as (Hnd & _ & _); [done|].
  assert (Hps : NoDup (peer_address <$> peers_)) by (apply add_all_NoDup; constructor).
  split_and!; [by apply omap_lookup_NoDup| |apply round_targets_length|].
  - apply Forall_forall. intros p (i & _ & Hi)%list_elem_of_omap. by eapply list_elem_of_lookup_2.
  - subst peers_ targets. clear. induction new as [|p new IH] using rev_ind; [done|]. intros a.
    unfold add_all. rewrite foldl_app. simpl. change (foldl _ [] new) with (add_all new []).
    rewrite fmap_app, elem_of_app, <- IH. unfold add_peer. case_bool_decide as Hex.
    + split; [by left|]. intros [?|Ha]; [done|]. apply list_elem_of_singleton in Ha as ->.
      apply Exists_exists in Hex as (q & Hq & H1 & H2). apply list_elem_of_fmap. exists q.
      unfold peer_address. by rewrite H1, H2.
    + by rewrite fmap_app, elem_of_app.
Qed.

(** Whatever text arrives, the revisions read from it are 64-bit values. *)
Lemma parse_agent_token_range t r : u64 (revision r) -> u64 (revision (parse_agent_token t r)).
Proof.
  intros Hr. pose proof (parse_unsigned_range uint64_max (field_value t) (revision r) ltac:(unfold uint64_max; lia)) as H'.
  unfold parse_agent_token. repeat case_match; try done. cbn [revision set_revision]. unfold client_parse_revision.
  revert H'. generalize (parse_unsigned uint64_max (field_value t) (revision r)).1. unfold uint64_max. lia.
Qed.

Lemma parse_agent_line_range now line r : parse_agent_line now line = Some r -> u64 (revision r).
Proof.
  unfold parse_agent_line. destruct (tokens line) as [|word rest]; [done|]. case_bool_decide; [|done].
  case_match; [done|]. intros [= <-].
  assert (Hgo : forall r, u64 (revision r) -> u64 (revision (foldl (fun r t => parse_agent_token t r) r rest))).
  { clear. induction rest as [|t rest IH]; intros r Hr; [done|]. cbn [foldl]. apply IH. by apply parse_agent_token_range. }
  apply Hgo. simpl. lia.
Qed.

Lemma parse_agent_lines_range clock response : Forall (fun r => u64 (revision r)) (parse_agent_lines clock response).
Proof.
  unfold parse_agent_lines. revert clock. induction (getlines response) as [|line lines IH]; intros clock; [constructor|].
  simpl. apply Forall_app_2; [|apply IH]. destruct (parse_agent_line (clock 0%nat) line) as [r|] eqn:Hl; simpl; [|constructor].
  apply Forall_cons_2; [by eapply parse_agent_line_range|apply Forall_nil_2].
Qed.

Lemma sync_with_peer_ok this peer clock (st : NodeState W) (net : N) :
  registry_ok (st_registry st) -> registry_ok (st_registry (sync_with_peer this peer clock st net).1.1).
Proof.
  intros Hok. unfold sync_with_peer.
  destruct (send_command peer "STATS" net) as [net1 [remote_stats|]]; [|done].
  destruct (send_command peer _ net1) as [net2 [response|]]; [|done].
  unfold merge_response.
  pose proof (merge_ok (parse_agent_lines clock response) (st_identity st) (st_registry st) (st_world st) Hok
    (parse_agent_lines_range clock response)) as Hm.
  destruct (merge _ _ _ _) as [[[reg w] identity] n]; simpl in *.
  by destruct (push_entries _ _ _) as [net3 [k|]].
Qed.

(** A node survives hostile peers: whatever the network does in a gossip round (refused or
    broken connections, answers that are any text at all), the round ends, and the registry
    keeps its invariant. *)
Theorem gossip_round_keeps_invariant config gossip_config draw clock peers_ (st : NodeState W) (net : N) :
  registry_ok (st_registry st) ->
  registry_ok (st_registry (perform_gossip_round config gossip_config draw clock peers_ st net).1).
Proof.
  intros Hok. unfold perform_gossip_round. destruct peers_ as [|p ps]; [done|].
  generalize (imap pair (round_targets draw (p :: ps))) as targets. intros targets.
  revert st net Hok. induction targets as [|[i t] targets IH]; intros st net Hok; [done|]. cbn [foldl].
  unfold sync_with_peer_tcp at 2.
  pose proof (sync_with_peer_ok (mkSyncClient (max_registry_items_per_round gossip_config))
    (mkSyncPeer (gp_host t) (gp_control_port t)) (clock i) st (send_udp_heartbeat config t net) Hok) as H1.
  destruct (sync_with_peer _ _ _ _ _) as [[st1 net1] res]. by apply IH.
Qed.

(** A heartbeat is not a hello: the responder of the peer it is sent to ignores it. *)
Lemma heartbeat_ignored {V} config (registry : AgentRegistry V) config' :
  is_word (cfg_node_id config) = true -> 0 <= listen_port config -> 0 <= control_port config ->
  (String.length (heartbeat_text config) <= 1024)%nat ->
  respond config' registry (heartbeat_text config) = None.
Proof.
  intros Hw Hl Hc Hlen. unfold respond. rewrite datagram_payload_short by done.
  unfold decode_peer_hello, split_tokens, heartbeat_text.
  change ("GOSSIP_HEARTBEAT node_id=" +:+ ?x) with ("GOSSIP_HEARTBEAT" +:+ " " +:+ "node_id=" +:+ x).
  rewrite tokens_word_space by done. by rewrite bool_decide_true by done.
Qed.
End service.

(** ** The timer loop on its thread *)

(** Where the worker is in [run]: in [schedule_round], in [context.run()] with the timer
    pending, in the handler of the timer with its error code, in a round; or in a round with a
    peer that accepts the connection and never answers ([send_command] has no timeout). *)
Inductive timer_error := TimerFired | TimerAborted | TimerFailed.
#[global] Instance timer_error_eq_dec : EqDecision timer_error.
Proof. solve_decision. Defined.

Inductive gossip_phase :=
| GStarting
| GScheduling
| GTimer (expires_after : Z)
| GHandler (ec : timer_error)
| GRound
| GRoundStuck
| GReturned.

(** What the loop shares: the peers, the node's state, the network, and the rounds ended. *)
Record GossipWorld (W N : Type) := mkGossipWorld {
  peers_ : list GossipPeer;
  gw_node : NodeState W;
  gw_net : N;
  rounds : nat;
}.
Arguments mkGossipWorld {W N}.
Arguments peers_ {W N}.
Arguments gw_node {W N}.
Arguments gw_net {W N}.
Arguments rounds {W N}.

Section timer_loop.
Context {W : Type} {S : Sodium} {Sort : StdSort} {N : Type} {T : Transport N} {D : Datagrams N} {R : StdShuffle}
  (config : NodeConfig) (gossip_config : GossipConfig).

(** [perform_gossip_round] on the copy of the peers that [peers()] returns. *)
Definition gossip_round (draw : Z) (clock : nat -> nat -> TimePoint) (q : GossipWorld W N) : GossipWorld W N :=
  let '(st, net) := perform_gossip_round config gossip_config draw clock (peers_ q) (gw_node q) (gw_net q) in
  mkGossipWorld (peers_ q) st net (rounds q + 1).

(** The steps of [run].  Creating the context and a round may throw, which ends it; when no
    timer is pending, [context.run()] returns. *)
Inductive timer_step : bool -> gossip_phase -> GossipWorld W N -> gossip_phase -> GossipWorld W N -> Prop :=
| GEnter stop q : timer_step stop GStarting q GScheduling q
| GEnterFailed stop q : timer_step stop GStarting q GReturned q
| GStopped q : timer_step true GScheduling q GReturned q
| GSchedule q : timer_step false GScheduling q (GTimer GOSSIP_INTERVAL) q
| GExpires stop ec secs q : timer_step stop (GTimer secs) q (GHandler ec) q
| GIgnored stop ec q : ec = TimerAborted \/ stop = true \/ ec <> TimerFired ->
    timer_step stop (GHandler ec) q GReturned q
| GBegins q : timer_step false (GHandler TimerFired) q GRound q
| GBeginsStuck q : peers_ q <> [] -> timer_step false (GHandler TimerFired) q GRoundStuck q
| GEnds stop draw clock q : timer_step stop GRound q GScheduling (gossip_round draw clock q)
| GThrows stop q : timer_step stop GRound q GReturned q.

(** [stop] does nothing to wake the thread up: it waits for the timer. *)
Definition no_wake (p : gossip_phase) (q q' : GossipWorld W N) : Prop := q' = q.

(** Other threads add peers and change the node's state; the network changes. *)
Inductive gossip_outside : option gossip_phase -> GossipWorld W N -> GossipWorld W N -> Prop :=
| GAddPeer w peer q : gossip_outside w q (mkGossipWorld (add_peer peer (peers_ q)) (gw_node q) (gw_net q) (rounds q))
| GElsewhere w st net q : gossip_outside w q (mkGossipWorld (peers_ q) st net (rounds q)).

#[export] Instance timer_loop : WorkerLoop gossip_phase (GossipWorld W N) := {|
  run_entry := GStarting;
  run_returned := GReturned;
  wstep := timer_step;
  wake := no_wake;
  outside := gossip_outside;
|}.

(** The constructor, followed by [add_peer] for every seed, and [start]. *)
Definition new_gossip_service (seeds : list GossipPeer) (st : NodeState W) (net : N) : Service gossip_phase (GossipWorld W N) :=
  new_service (mkGossipWorld seeds st net 0).
Definition gossip_start : Service gossip_phase (GossipWorld W N) -> Service gossip_phase (GossipWorld W N) := start.

Definition gossip_drain (p : gossip_phase) : nat :=
  match p with
  | GStarting => 2 | GScheduling => 1 | GTimer _ => 2 | GHandler _ => 1 | GRound => 2 | GRoundStuck => 0 | GReturned => 0
  end.
Definition in_round (p : gossip_phase) : nat := match p with GRound | GRoundStuck => 1 | _ => 0 end.

Lemma rounds_gossip_round draw clock q : rounds (gossip_round draw clock q) = (rounds q + 1)%nat.
Proof. unfold gossip_round. by destruct (perform_gossip_round _ _ _ _ _ _ _). Qed.

Lemma gossip_progress p (q : GossipWorld W N) : p <> GRoundStuck ->
  p = GReturned \/ exists p' q', timer_step true p q p' q'.
Proof.
  destruct p as [| |secs|ec| | |]; intros Hp; [right..|by left].
  - eexists _, _. apply GEnter.
  - eexists _, _. apply GStopped.
  - eexists _, _. apply (GExpires true TimerFired).
  - eexists _, _. apply GIgnored. auto.
  - eexists _, _. apply (GEnds true 0 (fun _ _ => 0)).
  - done.
Qed.

#[export] Program Instance timer_loop_laws : WorkerLaws := {|
  drain := gossip_drain;
  blocked p := p = GRoundStuck;
  ready p _ := p <> GRoundStuck;
  busy := in_round;
  completed := rounds;
  ready_progress := gossip_progress;
|}.
Next Obligation. intros p q p' q' H. inversion H; subst; simpl; lia. Qed.
Next Obligation. intros p q p' q' Hr H. by inversion H; subst. Qed.
Next Obligation. done. Qed.
Next Obligation. intros p q. by exists q. Qed.
Next Obligation. intros b p q p' q' -> H. inversion H. Qed.
Next Obligation. intros p q p' q' H. inversion H; subst; simpl; rewrite ?rounds_gossip_round; lia. Qed.
Next Obligation. intros w q q' H. by inversion H. Qed.

(** Stopping the service: once [stop] is in [join], and unless the worker is in a round with a
    peer that never answers, the timer loop makes at most two more steps, ends at most the
    round it is in, and the join returns. *)
Theorem gossip_stop_returns q s p n s' :
  rtc service_step (new_service q) s -> owner s = StopJoining -> worker_ s = Some p -> p <> GRoundStuck ->
  worker_runs n s s' ->
  (n <= 2)%nat /\ (rounds (shared s') <= rounds (shared s) + in_round p)%nat /\
  (service_step s' (mkService true None (shared s') OwnerIdle) \/
   exists p1 q1, service_step s' (mkService true (Some p1) q1 StopJoining)).
Proof.
  intros Hr Ho Hp Hb Hn. destruct (stop_returns (Laws := timer_loop_laws) q s p n s' Hr Ho Hp Hb Hn) as (H1 & H2 & p' & _ & _ & H3).
  split; [simpl in H1; destruct p; simpl in H1; lia|]. split; [done|].
  destruct H3 as [H3|(p1 & q1 & _ & H3)]; [by left|right; eauto].
Qed.

(** A round contacts only peers of the shared list, which never holds an address twice: over a
    whole run, whoever adds peers meanwhile, addresses stay unique. *)
Lemma peers_unique q s : NoDup (peer_address <$> peers_ q) -> rtc service_step (new_service q) s ->
  NoDup (peer_address <$> peers_ (shared s)).
Proof.
  intros Hq Hr. refine (rtc_ind_r (fun s => NoDup (peer_address <$> peers_ (shared s))) _ _ _ _ Hr); [done|].
  clear s Hr. intros s1 s2 _ Hstep H1. destruct Hstep as [s _|s _|b q1|b p q1 q' Hw|b q1|b p q1 p' q' o Hw|b w q1 q' o Ho];
    simpl in *; try done.
  - unfold start. by destruct (worker_ s).
  - by inversion Hw; subst.
  - inversion Hw; subst; try done. unfold gossip_round. by destruct (perform_gossip_round _ _ _ _ _ _ _).
  - inversion Ho; subst; simpl; [by apply add_peer_NoDup|done].
Qed.
End timer_loop.

(** The rotation: a concrete shuffle. *)
Definition rotate_shuffle : StdShuffle.
Proof.
  refine {| std_shuffle draw l := drop (Z.to_nat draw) l ++ take (Z.to_nat draw) l |}.
  intros draw l. rewrite (Permutation_app_comm (drop _ _)). by rewrite take_drop.
Defined.

Example gossip_round_ex :
  let p h := mkGossipPeer "" h 1 2 in
  @round_targets rotate_shuffle 3 (add_all [p "a"; p "b"; p "a"; p "c"; p "d"]%string []) =
    [p "d"; p "a"; p "b"]%string.
Proof. by vm_compute. Qed.

(** A network whose every answer is the same text. *)
Definition parrot (answer : string) : Transport unit := fun _ _ net => (net, Received answer read_eof).

Lemma gossip_round_keeps_invariant_witness :
  let answer := "OK" +:+ nl +:+ "AGENT agent_id=a revision=99999999999999999999" +:+ nl +:+ "AGENT agent_id=a revision=7x" +:+ nl in
  let out := @perform_gossip_round unit toy_sodium _ unit (parrot answer) (fun _ _ _ net => net) rotate_shuffle
    (node default_config) (gossip default_config) 0 (fun _ _ => 0) [mkGossipPeer "" "h" 1 2] empty_node tt in
  registry_ok (st_registry out.1) /\ (revision <$> find "a" (st_registry out.1)) = Some 7.
Proof.
  intros answer out. split; [|by vm_compute].
  apply (@gossip_round_keeps_invariant unit toy_sodium _ unit (parrot answer) (fun _ _ _ net => net) rotate_shuffle
    (node default_config) (gossip default_config) 0 (fun _ _ => 0) [mkGossipPeer "" "h" 1 2] empty_node tt).
  split; constructor.
Defined.
