(* ===== verification/Engine.v ===== *)
(** * The engine: [src/src/beacon_engine/main.cpp]

    [main] reads the command line, restores the registry from disk, hangs the log on the
    registry's callback and runs the housekeeping loop.  The disk is the world the registry's
    callback acts on. *)

From S2P Require Import Prelude CxxString CxxContainers Types Sodium SecureBuffer Crypto IdentityService AgentRegistry RegistrySpec RegistryProps ControlProtocol ControlProps Protobuf Crc32 SecurePath Persistence PersistenceProps Reputation GossipScheduler PeerHandshake UdpResponder RegistrySync SyncClient GossipService.

(** ** The command line *)

(** [parse_port(value, port)]: the new value of [port] and the result. *)
Definition parse_port (value : string) (port : Z) : Z * bool :=
  match stoi value with
  | None => (port, false)
  | Some parsed =>
      if (parsed <=? 0) || (65535 <? parsed) then (port, false) else (wrap 16 parsed, true)
  end.

(** The variables [main] fills before it starts. *)
Record Options := mkOptions {
  config_path : string;
  run_once : bool;
  opt_config : BeaconConfig;
  seed_nodes : list string;
}.

Definition default_options : Options := mkOptions "config/beaconnode.example.toml" false default_config [].

Definition set_node (f : NodeConfig -> NodeConfig) (o : Options) : Options :=
  let c := opt_config o in
  mkOptions (config_path o) (run_once o) (mkBeaconConfig (f (node c)) (gossip c) (lifecycle c) (trust c)) (seed_nodes o).

(** [inl]: start with these options; [inr]: [main] returned this code. *)
Fixpoint parse_args (args : list string) (o : Options) : Options + Z :=
  match args with
  | [] => inl o
  | arg :: rest =>
      if bool_decide (arg = "--help") then inr 0
      else if bool_decide (arg = "--once") then
        parse_args rest (mkOptions (config_path o) true (opt_config o) (seed_nodes o))
      else if bool_decide (arg = "--require-signatures") then
        let c := opt_config o in
        let t := mkTrustConfig (malformed_threshold (trust c)) (rate_limit_per_minute (trust c)) true in
        parse_args rest (mkOptions (config_path o) (run_once o) (mkBeaconConfig (node c) (gossip c) (lifecycle c) t) (seed_nodes o))
      else match rest with
      | [] => inr 2
      | value :: rest' =>
          if bool_decide (arg = "--config") then
            parse_args rest' (mkOptions value (run_once o) (opt_config o) (seed_nodes o))
          else if bool_decide (arg = "--node-id") then
            parse_args rest' (set_node (fun n => mkNodeConfig value (listen_host n) (listen_port n) (control_host n) (control_port n)) o)
          else if bool_decide (arg = "--listen-port") then
            match parse_port value (listen_port (node (opt_config o))) with
            | (_, false) => inr 2
            | (p, true) => parse_args rest' (set_node (fun n => mkNodeConfig (cfg_node_id n) (listen_host n) p (control_host n) (control_port n)) o)
            end
          else if bool_decide (arg = "--control-port") then
            match parse_port value (control_port (node (opt_config o))) with
            | (_, false) => inr 2
            | (p, true) => parse_args rest' (set_node (fun n => mkNodeConfig (cfg_node_id n) (listen_host n) (listen_port n) (control_host n) p) o)
            end
          else if bool_decide (arg = "--seed-node") then
            parse_args rest' (mkOptions (config_path o) (run_once o) (opt_config o) (seed_nodes o ++ [value]))
          else inr 2
      end
  end.

(** One turn of the loop over [seed_nodes]: [host] or [host:port]. *)
Definition parse_seed (n : NodeConfig) (seed : string) : GossipPeer :=
  match find_char ":"%char seed with
  | None => mkGossipPeer "" seed (listen_port n) (control_port n)
  | Some colon =>
      let host := substr seed 0 colon in
      let port := match stoi (substr_from seed (S colon)) with
                  | Some p => wrap 16 p
                  | None => control_port n
                  end in
      mkGossipPeer "" host (wrap 16 (if 0 <? port then port - 1 else 43170)) port
  end.

Definition seed_peers (o : Options) : list GossipPeer :=
  add_all (parse_seed (node (opt_config o)) <$> seed_nodes o) [].

(** ** Persistence of the registry *)

(** The callback's [RegistryEntry] for a record, and the record recovery makes of an entry. *)
Definition entry_of_record (record : AgentRecord) : RegistryEntry :=
  mkRegistryEntry (agent_id record) (node_id record) (endpoint record) (revision record)
    (decode_hex (public_key_hex record)) (decode_hex (signature_hex record)).

Definition record_of_entry (now : TimePoint) (entry : RegistryEntry) : AgentRecord :=
  mkAgentRecord (ent_agent_id entry) (ent_capability entry) (ent_endpoint entry) ∅ (ent_timestamp entry) now
    (encode_hex (ent_public_key entry)) (encode_hex (ent_signature entry)).

Section engine.
Context {E : PathEnv} {M : Machine} {P : ProtoMessage RegistryEntry}.

Definition log_callback (persistence : PersistenceService) : AgentRecord -> disk -> disk :=
  fun record d => append_entry (entry_of_record record) persistence d.

(** The registry as it is when the services start; [None]: an exception ended the process.
    The clock readings of the start, one for every restored record and one in
    [load_from_persistence], are taken as one value. *)
Definition restore (persistence : PersistenceService) (now : TimePoint) (d : disk) : option (AgentRegistry disk) :=
  match recover persistence d with
  | inr _ => None
  | inl recovered =>
      let registry :=
        match recovered with
        | [] => new_registry
        | _ => load_from_persistence now (record_of_entry now <$> recovered) new_registry
        end in
      Some (set_upsert_callback (Some (log_callback persistence)) registry)
  end.

(** [ControlProtocol control(config.lifecycle, config.trust, &identity_service)]. *)
Definition opt_protocol (o : Options) : ControlProtocol :=
  mkControlProtocol (lifecycle (opt_config o)) (trust (opt_config o)).

(** One turn of the housekeeping loop: what it prints and the state after it. *)
Record Tick := mkTick {
  tick_stats : RegistryStats;
  tick_push : Z;
  tick_purged : Z;
  tick_accepts_self : bool;
  tick_trusted : Z;
  tick_stats_line : string;
}.
Definition tick {W} {S : Sodium} {Sort : StdSort} (o : Options) (reputation : ReputationEngine) (now init : TimePoint)
    (st : NodeState W) : NodeState W * Tick :=
  let c := opt_config o in
  let '(reg, purged) := purge_expired now (st_registry st) in
  let st := mkNodeState reg (st_world st) (st_identity st) in
  let s := stats reg in
  let push := select_push_entries (mkGossipScheduler (gossip c)) (list_agents reg) in
  let '(st, line) := handle_line (opt_protocol o) init now "STATS" st in
  (st, mkTick s (size_of push) purged (accepts_peer reputation (cfg_node_id (node c)))
         (from_option trusted_agents 0 (st_identity st)) line).
End engine.

(** ** Lemmas on the command line *)

Lemma parse_port_range v p p' : u16 p -> parse_port v p = (p', true) -> 0 < p' < 2 ^ 16.
Proof.
  intros Hp. unfold parse_port. destruct (stoi v) as [z|]; [|done].
  destruct ((z <=? 0) || (65535 <? z)) eqn:Hz; [done|]. intros [= <-].
  apply orb_false_iff in Hz as [? ?]. bool_to_prop. rewrite wrap_small by lia. lia.
Qed.

(** The options agree but for [config_path]. *)
Definition same_but_path (o1 o2 : Options) : Prop :=
  run_once o1 = run_once o2 /\ opt_config o1 = opt_config o2 /\ seed_nodes o1 = seed_nodes o2.

Definition ports_ok (o : Options) : Prop :=
  0 < listen_port (node (opt_config o)) < 2 ^ 16 /\ 0 < control_port (node (opt_config o)) < 2 ^ 16.

Lemma parse_args_path args o1 o2 : same_but_path o1 o2 ->
  match parse_args args o1, parse_args args o2 with
  | inl p1, inl p2 => same_but_path p1 p2
  | inr c1, inr c2 => c1 = c2
  | _, _ => False
  end.
Proof.
  remember (length args) as n eqn:Hn. revert args Hn o1 o2. induction n as [n IH] using lt_wf_ind.
  intros [|arg rest] Hn o1 o2 Ho; [done|]. pose proof Ho as (H1 & H2 & H3). simpl in *. unfold set_node. rewrite H1, H2, H3.
  assert (Hgo : forall l q1 q2, (length l <= length rest)%nat -> same_but_path q1 q2 ->
    match parse_args l q1, parse_args l q2 with
    | inl p1, inl p2 => same_but_path p1 p2 | inr c1, inr c2 => c1 = c2 | _, _ => False end).
  { intros l q1 q2 Hl Hq. apply (IH (length l)); [lia|done|done]. }
  repeat case_bool_decide; try done; try (by apply Hgo).
  all: destruct rest as [|v rest']; [done|]; simpl in Hgo; try (apply Hgo; (lia || done)); try done.
  all: destruct (parse_port v _) as [p [|]]; [|done]; apply Hgo; (lia || done).
Qed.

Lemma parse_args_ports args o o' : ports_ok o -> parse_args args o = inl o' -> ports_ok o'.
Proof.
  remember (length args) as n eqn:Hn. revert args Hn o. induction n as [n IH] using lt_wf_ind.
  intros [|arg rest] Hn o Ho; simpl in *; [by intros [= <-]|].
  assert (Hgo : forall l q, (length l <= length rest)%nat -> ports_ok q -> parse_args l q = inl o' -> ports_ok o').
  { intros l q Hl Hq. apply (IH (length l)); [lia|done|done]. }
  destruct Ho as [Hl Hc].
  repeat case_bool_decide; try done; try (by apply Hgo).
  all: destruct rest as [|v rest']; [done|]; simpl in Hgo; try (apply Hgo; (lia || done)); try done.
  all: destruct (parse_port v _) as [p [|]] eqn:Hp; [|done]; apply parse_port_range in Hp; [|lia].
  all: apply Hgo; [lia|done].
Qed.

(** [main] returns 0 or 2 before it starts. *)
Lemma parse_args_codes args o code : parse_args args o = inr code -> code = 0 \/ code = 2.
Proof.
  remember (length args) as n eqn:Hn. revert args Hn o. induction n as [n IH] using lt_wf_ind.
  intros [|arg rest] Hn o; simpl in *; [done|].
  assert (Hgo : forall l q, (length l <= length rest)%nat -> parse_args l q = inr code -> code = 0 \/ code = 2).
  { intros l q Hl. apply (IH (length l)); [lia|done]. }
  repeat case_bool_decide; try (by apply Hgo); try (by intros [= <-]; auto).
  all: destruct rest as [|v rest']; [by intros [= <-]; auto|]; simpl in Hgo; try (apply Hgo; lia); try (by intros [= <-]; auto).
  all: destruct (parse_port v _) as [p [|]]; [apply Hgo; lia|by intros [= <-]; auto].
Qed.

(** ** Threads that store records while the engine runs

    The control server and the gossip service call [upsert] from their own threads.  A record
    is stored under the lock of the registry; its entry is appended to the log later, when the
    thread gets to the callback, and other threads may store and log in between.
    [run_pending] holds the records stored but not yet logged. *)

Record Running := mkRunning {
  run_registry : AgentRegistry disk;
  run_pending : list AgentRecord;
  run_disk : disk;
}.

(** [offered]: the records the threads hand to [upsert]. *)
Inductive run_step (offered : AgentRecord -> Prop) : Running -> Running -> Prop :=
| RunStore r reg reg' stored pending d :
    offered r -> upsert_locked r reg = (reg', stored) ->
    run_step offered (mkRunning reg pending d)
      (mkRunning reg' (if (stored : bool) then pending ++ [r] else pending) d)
| RunNotify r reg p1 p2 d :
    run_step offered (mkRunning reg (p1 ++ r :: p2) d) (mkRunning reg (p1 ++ p2) (notify r reg d)).

Section restart.
Context {E : PathEnv} {M : Machine} {P : ProtoMessage RegistryEntry} {L : ProtoLaws RegistryEntry}.

(** The engine as it starts on an empty log. *)
Definition started (persistence : PersistenceService) (d : disk) : Running :=
  mkRunning (set_upsert_callback (Some (log_callback persistence)) new_registry) [] d.

(** What recovery makes of a record that was logged. *)
Definition restored (now : TimePoint) (r : AgentRecord) : AgentRecord := record_of_entry now (entry_of_record r).

(** Of what was stored, the registry holds a newest record of every agent. *)
Definition newest_of (stored : list AgentRecord) (aid : string) (o : option AgentRecord) : Prop :=
  match o with
  | None => forall x, x ∈ stored -> agent_id x <> aid
  | Some r => r ∈ stored /\ agent_id r = aid /\ forall x, x ∈ stored -> agent_id x = aid -> revision x <= revision r
  end.

Lemma newest_of_perm l1 l2 aid o : l1 ≡ₚ l2 -> newest_of l1 aid o -> newest_of l2 aid o.
Proof. intros Hp. unfold newest_of. destruct o; by setoid_rewrite Hp. Qed.

(** Storing a record that is offered. *)
Lemma newest_of_upsert stored aid r m : newest_of stored aid (m !! aid) ->
  let '(m', ok) := spec_upsert r m in
  newest_of (if (ok : bool) then stored ++ [r] else stored) aid (m' !! aid).
Proof.
  intros Hn. unfold spec_upsert. destruct (decide (agent_id r = aid)) as [<-|Hne].
  - destruct (m !! agent_id r) as [e|] eqn:He; simpl in Hn.
    + destruct (replaces r e) eqn:Hrep; [|by rewrite He]. rewrite lookup_insert_eq. simpl.
      unfold replaces in Hrep. bool_to_prop. destruct Hn as (_ & _ & Hmax).
      split_and!; [set_solver|done|]. intros x [Hx| ->%list_elem_of_singleton]%elem_of_app Hid; [|lia].
      specialize (Hmax x Hx Hid). lia.
    + rewrite lookup_insert_eq. split_and!; [set_solver|done|].
      intros x [Hx| ->%list_elem_of_singleton]%elem_of_app Hid; [|lia]. by destruct (Hn x Hx).
  - assert (Hout : forall o, newest_of stored aid o -> newest_of (stored ++ [r]) aid o).
    { intros [e|]; simpl; [intros (He & Hid & Hmax)|intros Hnone].
      - split_and!; [set_solver|done|]. intros x [Hx| ->%list_elem_of_singleton]%elem_of_app ?; [auto|done].
      - intros x [Hx| ->%list_elem_of_singleton]%elem_of_app; auto. }
    destruct (m !! agent_id r) as [e|]; [destruct (replaces r e)|]; rewrite ?lookup_insert_ne by done; auto.
Qed.

(** What holds at every moment of a run. *)
Definition run_inv (persistence : PersistenceService) (wal snap : string) (offered : AgentRecord -> Prop) (s : Running) : Prop :=
  on_upsert_ (run_registry s) = Some (log_callback persistence) /\
  exists log, holds wal snap (run_disk s) [] 0 (entry_of_record <$> log) /\
    Forall offered (log ++ run_pending s) /\
    forall aid, newest_of (log ++ run_pending s) aid (by_id (records_ (run_registry s)) !! aid).

Lemma upsert_locked_refines {W} r (reg reg' : AgentRegistry W) ok : upsert_locked r reg = (reg', ok) ->
  spec_upsert r (by_id (records_ reg)) = (by_id (records_ reg'), ok) /\ on_upsert_ reg' = on_upsert_ reg.
Proof.
  intros Hu. split.
  - assert (Hw : forall w, upsert r reg w = (reg', if ok then notify r reg' w else w, ok)) by (intros w; unfold upsert; by rewrite Hu).
    unfold upsert_locked in Hu. pose proof (upsert_cases r reg) as Hc.
    unfold spec_upsert. rewrite by_id_lookup. unfold replaces, key_conflict.
    destruct (find_agent _ _) as [[i e]|] eqn:Hf; simpl.
    + destruct (revision r <? revision e); [by simplify_eq|]. simpl.
      destruct (negb (str_empty (public_key_hex e)) && _ && _); [by simplify_eq|]. simplify_eq. simpl.
      by rewrite (by_id_insert i e).
    + simplify_eq. simpl. by rewrite by_id_snoc.
  - unfold upsert_locked in Hu. repeat case_match; by simplify_eq.
Qed.

Lemma run_step_inv persistence wal snap offered s s' :
  wal <> snap -> wal_file_ persistence = Some wal -> (forall r, offered r -> loggable (entry_of_record r)) ->
  run_step offered s s' -> run_inv persistence wal snap offered s -> run_inv persistence wal snap offered s'.
Proof.
  intros Hne Hf Hoff Hstep (Hcb & log & Hh & Hall & Hnew). destruct Hstep as [r reg reg' stored pending d Hr Hu|r reg p1 p2 d]; simpl in *.
  - apply upsert_locked_refines in Hu as [Href Hcb']. split; [simpl; congruence|]. exists log. split; [done|].
    cbn [run_pending run_registry]. split; [destruct stored; [|done]; rewrite app_assoc; apply Forall_app_2; [done|]; by apply Forall_cons_2|].
    intros aid. pose proof (newest_of_upsert _ aid r _ (Hnew aid)) as Hup. rewrite Href in Hup.
    destruct stored; [by rewrite app_assoc|done].
  - split; [done|]. exists (log ++ [r]).
    assert (Hp : (log ++ [r]) ++ p1 ++ p2 ≡ₚ log ++ p1 ++ r :: p2) by (rewrite <- app_assoc; simpl; by rewrite Permutation_middle).
    split_and!; [|by rewrite Hp|intros aid; by eapply newest_of_perm; [symmetry; exact Hp|apply Hnew]].
    unfold notify. rewrite Hcb, fmap_app. apply append_holds; [done|done| |done]. apply Hoff.
    rewrite Forall_forall in Hall. apply Hall. set_solver.
Qed.

(** The registry after a restart, as a map. *)
Definition reload (now : TimePoint) (log : list AgentRecord) : registry_map :=
  foldl (fun m r => spec_load_one (now + hours (24 * 365)) (restored now r) m) ∅ (filter (fun r => 0 < revision r) log).

Lemma spec_load_one_other far r m aid : agent_id r <> aid -> spec_load_one far r m !! aid = m !! aid.
Proof. intros Hne. unfold spec_load_one. repeat case_match; by rewrite ?lookup_insert_ne by done. Qed.

Lemma reload_snoc now log r :
  reload now (log ++ [r]) =
  if decide (0 < revision r) then spec_load_one (now + hours (24 * 365)) (restored now r) (reload now log) else reload now log.
Proof. unfold reload. rewrite filter_app, filter_cons, filter_nil. case_decide; [by rewrite foldl_app|by rewrite app_nil_r]. Qed.

(** In whatever order the log was written, an agent comes back at its highest revision. *)
Lemma reload_max now log aid :
  match reload now log !! aid with
  | None => forall x, x ∈ log -> agent_id x = aid -> revision x <= 0
  | Some y => exists x ex, y = set_expires_at ex (restored now x) /\ x ∈ log /\ agent_id x = aid /\ 0 < revision x /\
      forall x', x' ∈ log -> agent_id x' = aid -> revision x' <= revision x
  end.
Proof.
  induction log as [|r log IH] using rev_ind; [set_solver|]. rewrite reload_snoc.
  assert (Hcons : forall x, x ∈ log ++ [r] -> x ∈ log \/ x = r) by set_solver.
  assert (Hin : forall x, x ∈ log -> x ∈ log ++ [r]) by set_solver.
  case_decide as Hpos; [destruct (decide (agent_id r = aid)) as [<-|Hne]|].
  - unfold spec_load_one. change (agent_id (restored now r)) with (agent_id r).
    destruct (reload now log !! agent_id r) as [y|] eqn:Hy.
    + destruct IH as (x & ex & -> & Hx & Hid & Hx0 & Hmax). cbn [revision set_expires_at restored record_of_entry entry_of_record ent_timestamp].
      destruct (revision x <? revision r) eqn:Hlt; bool_to_prop.
      * rewrite lookup_insert_eq. exists r, now. split_and!; [done|set_solver|done|done|].
        intros x' [Hx'| ->]%Hcons Hid'; [|lia]. specialize (Hmax x' Hx' Hid'). lia.
      * rewrite Hy. exists x, ex. split_and!; [done|auto|done|done|].
        intros x' [Hx'| ->]%Hcons Hid'; [auto|lia].
    + rewrite lookup_insert_eq. exists r, (now + hours (24 * 365)). split_and!; [done|set_solver|done|done|].
      intros x' [Hx'| ->]%Hcons Hid'; [|lia]. specialize (IH x' Hx' Hid'). lia.
  - rewrite spec_load_one_other by done. destruct (reload now log !! aid) as [y|].
    + destruct IH as (x & ex & -> & Hx & Hid & Hx0 & Hmax). exists x, ex. split_and!; auto.
      intros x' [Hx'| ->]%Hcons Hid'; [auto|done].
    + intros x [Hx| ->]%Hcons Hid; [auto|done].
  - destruct (reload now log !! aid) as [y|].
    + destruct IH as (x & ex & -> & Hx & Hid & Hx0 & Hmax). exists x, ex. split_and!; auto.
      intros x' [Hx'| ->]%Hcons Hid'; [auto|lia].
    + intros x [Hx| ->]%Hcons Hid; [auto|lia].
Qed.

Lemma restore_reload_ok persistence wal snap now d log : located persistence wal snap ->
  holds wal snap d [] 0 (entry_of_record <$> log) -> Forall (fun r => loggable (entry_of_record r)) log ->
  exists reg, restore persistence now d = Some reg /\ registry_ok reg /\ by_id (records_ reg) = reload now log.
Proof.
  intros Hloc [Hsnap Hd] Hlog. unfold restore. rewrite (recover_log _ wal snap _ [] 0 _ Hloc Hsnap Hd).
  rewrite <- (app_nil_r (frames _)), replay_frames by by apply Forall_fmap.
  change (replay [] 0 ?l) with l. rewrite app_nil_l.
  assert (Hf : filter (fun e => 0 < ent_timestamp e) (entry_of_record <$> log) =
    entry_of_record <$> filter (fun r => 0 < revision r) log).
  { clear. induction log as [|r log IH]; [done|]. rewrite fmap_cons, !filter_cons. rewrite IH. simpl.
    repeat case_decide; done. }
  rewrite Hf. unfold reload. set (kept := filter _ log).
  eexists. split; [done|]. split.
  { assert (Hu : Forall (fun r => u64 (revision r)) (record_of_entry now <$> (entry_of_record <$> kept))).
    { rewrite <- list_fmap_compose. apply Forall_fmap, Forall_forall. intros r [_ Hr]%list_elem_of_filter.
      rewrite Forall_forall in Hlog. by destruct (Hlog r Hr) as [(_ & _ & _ & ?) _]. }
    destruct kept as [|r kept]; [split; constructor|]. apply (load_ok now _ (@new_registry disk)); [split; constructor|exact Hu]. }
  assert (Hall : by_id (records_ (load_from_persistence now (record_of_entry now <$> (entry_of_record <$> kept)) (@new_registry disk))) =
    foldl (fun m r => spec_load_one (now + hours (24 * 365)) (restored now r) m) ∅ kept).
  { pose proof (load_refines now (record_of_entry now <$> (entry_of_record <$> kept)) (@new_registry disk)) as Hl.
    simpl in Hl. injection Hl as Hl. etrans; [symmetry; exact Hl|]. rewrite <- list_fmap_compose. by rewrite foldl_fmap. }
  destruct kept as [|r kept]; [done|]. exact Hall.
Qed.

Lemma restore_reload persistence wal snap now d log : located persistence wal snap ->
  holds wal snap d [] 0 (entry_of_record <$> log) -> Forall (fun r => loggable (entry_of_record r)) log ->
  exists reg, restore persistence now d = Some reg /\ by_id (records_ reg) = reload now log.
Proof. intros H1 H2 H3. destruct (restore_reload_ok persistence wal snap now d log H1 H2 H3) as (reg & ? & _ & ?). by exists reg. Qed.

(** ** Properties *)

(** Durability across a restart, end to end and for any interleaving of threads: start on an
    empty log, let any number of threads store records and run the callback that logs them,
    in any order, until nothing is pending, stop, and start again.  The new registry has
    exactly the agents the old one had with a positive revision, each at the revision it had;
    and an agent for which no two different records of that revision were offered comes back
    as the registration it had (without metadata, which the log does not hold). *)
Theorem restart_restores_registry persistence wal snap d offered reg d' now
    (paths : located persistence wal snap) (open : wal_file_ persistence = Some wal)
    (empty : holds wal snap d [] 0 []) (offered_ok : forall r, offered r -> loggable (entry_of_record r))
    (ran : rtc (run_step offered) (started persistence d) (mkRunning reg [] d')) :
  exists reg', restore persistence now d' = Some reg' /\
    forall aid, match find aid reg with
      | None => find aid reg' = None
      | Some r =>
          if decide (revision r = 0) then find aid reg' = None
          else exists r', find aid reg' = Some r' /\ revision r' = revision r /\
            ((forall x, offered x -> agent_id x = aid -> revision x = revision r -> x = r) -> r' ≡ restored now r)
      end.
Proof.
  pose proof paths as (_ & _ & Hne & _).
  assert (Hinv : run_inv persistence wal snap offered (mkRunning reg [] d')).
  { refine (rtc_ind_r (run_inv persistence wal snap offered) _ _ _ _ ran).
    - split; [done|]. exists []. split_and!; [done|constructor|]. intros aid. simpl. set_solver.
    - intros s s' _ Hstep Hs. by eapply run_step_inv. }
  destruct Hinv as (_ & log & Hh & Hall & Hnew). simpl in *. rewrite app_nil_r in Hall, Hnew.
  assert (Hlog : Forall (fun r => loggable (entry_of_record r)) log) by (by eapply Forall_impl; [exact Hall|]).
  destruct (restore_reload persistence wal snap now d' _ paths Hh Hlog) as (reg' & Hreg' & Hm').
  exists reg'. split; [done|]. intros aid. rewrite !find_refines, Hm'.
  specialize (Hnew aid). pose proof (reload_max now log aid) as Hmax.
  destruct (by_id (records_ reg) !! aid) as [r|]; simpl in Hnew.
  - destruct Hnew as (Hr & Hid & Hrmax).
    assert (Hr64 : u64 (revision r)).
    { rewrite Forall_forall in Hlog. destruct (Hlog r Hr) as [(_ & _ & _ & Hu) _]. done. }
    destruct (reload now log !! aid) as [y|].
    + destruct Hmax as (x & ex & -> & Hx & Hxid & Hx0 & Hxmax).
      specialize (Hrmax x Hx Hxid). specialize (Hxmax r Hr Hid). rewrite decide_False by lia.
      eexists. split; [done|]. split; [simpl; lia|]. intros Hone. rewrite (Hone x); [done|..|done|lia].
      by rewrite Forall_forall in Hall; apply Hall.
    + specialize (Hmax r Hr Hid). by rewrite decide_True by lia.
  - destruct (reload now log !! aid) as [y|]; [|done].
    destruct Hmax as (x & _ & _ & Hx & Hxid & _). by destruct (Hnew x Hx).
Qed.

(** A re-registration under the same revision is undone by a restart: the running registry
    holds the second record, the log holds both, and the restarted registry holds the first,
    because [upsert] replaces a record of equal revision and [load_from_persistence] does not. *)
Theorem restart_reverts_equal_revision persistence wal snap d r1 r2 now
    (paths : located persistence wal snap) (open : wal_file_ persistence = Some wal)
    (empty : holds wal snap d [] 0 []) (l1 : loggable (entry_of_record r1)) (l2 : loggable (entry_of_record r2))
    (same : agent_id r2 = agent_id r1) (equal : revision r2 = revision r1) (positive : 0 < revision r1)
    (keys : key_conflict (public_key_hex r1) (public_key_hex r2) = false) :
  let '(reg1, d1, ok1) := upsert r1 (set_upsert_callback (Some (log_callback persistence)) new_registry) d in
  let '(reg2, d2, ok2) := upsert r2 reg1 d1 in
  find (agent_id r1) reg2 = Some r2 /\
  exists reg', restore persistence now d2 = Some reg' /\
    find (agent_id r1) reg' = Some (set_expires_at (now + hours (24 * 365)) (restored now r1)).
Proof.
  pose proof paths as (_ & _ & Hne & _). rewrite upsert_cases.
  cbn [set_records records_ set_upsert_callback new_registry app on_upsert_ from_option find_agent list_find].
  assert (Hf : find_agent (agent_id r2) [r1] = Some (0%nat, r1)) by (unfold find_agent; simpl; by rewrite decide_True).
  rewrite upsert_cases. cbn [set_records records_ app on_upsert_ from_option]. rewrite Hf.
  unfold replaces. rewrite keys, (proj2 (Z.ltb_ge _ _)) by lia. simpl.
  split; [unfold find, find_agent; simpl; by rewrite decide_True|].
  assert (Hh : holds wal snap (log_callback persistence r2 (log_callback persistence r1 d)) [] 0 (entry_of_record <$> [r1; r2])).
  { change (entry_of_record <$> [r1; r2]) with (([] ++ [entry_of_record r1]) ++ [entry_of_record r2]).
    by apply append_holds, append_holds. }
  destruct (restore_reload persistence wal snap now _ _ paths Hh) as (reg' & Hreg' & Hm').
  { apply Forall_cons_2; [done|]. by apply Forall_cons_2. }
  exists reg'. split; [done|]. rewrite find_refines, Hm'.
  unfold reload. rewrite !filter_cons, filter_nil, !decide_True by lia. cbn [foldl]. unfold spec_load_one.
  rewrite lookup_empty. change (agent_id (restored now ?r)) with (agent_id r). rewrite same, lookup_insert_eq.
  cbn [revision set_expires_at restored record_of_entry entry_of_record ent_timestamp].
  rewrite equal, Z.ltb_irrefl. by rewrite lookup_insert_eq.
Qed.
End restart.

Example command_line_ex :
  (exists o, parse_args ["--listen-port"; "80abc"; "--once"]%string default_options = inl o /\
     listen_port (node (opt_config o)) = 80 /\ run_once o = true) /\
  parse_args ["--control-port"; "0"]%string default_options = inr 2 /\
  parse_args ["--node-id"]%string default_options = inr 2 /\
  parse_seed (node default_config) "10.0.0.7:5000" = mkGossipPeer "" "10.0.0.7" 4999 5000 /\
  parse_seed (node default_config) "10.0.0.7" = mkGossipPeer "" "10.0.0.7" 43170 43171.
Proof. split_and!; [eexists; by vm_compute|by vm_compute..]. Qed.

(** ** Witnesses *)

Definition plain_agent (id : string) (rev : Z) : AgentRecord := mkAgentRecord id "" "" ∅ rev 0 "" "".

Definition offered_ex (r : AgentRecord) : Prop := r ∈ [plain_agent "a" 1; plain_agent "a" 2; plain_agent "b" 0].

Lemma offered_ex_loggable r : offered_ex r -> @loggable toy_entry (entry_of_record r).
Proof.
  unfold offered_ex. rewrite !elem_of_cons, elem_of_nil.
  intros [-> |[-> |[-> |[]]]]; apply loggable_check; by vm_compute.
Qed.

(** Three threads store; the second logs before the first.  Agent "a" comes back at revision 2;
    agent "b", at revision 0, does not. *)
Lemma restart_restores_registry_witness :
  let reg0 := set_upsert_callback (Some (@log_callback toy_entry ex_service)) new_registry in
  let reg1 := (upsert_locked (plain_agent "a" 1) reg0).1 in
  let reg2 := (upsert_locked (plain_agent "a" 2) reg1).1 in
  let reg3 := (upsert_locked (plain_agent "b" 0) reg2).1 in
  let d1 := notify (plain_agent "a" 2) reg3 empty_log in
  let d2 := notify (plain_agent "a" 1) reg3 d1 in
  let d3 := notify (plain_agent "b" 0) reg3 d2 in
  exists reg', @restore lexical_env toy_entry ex_service 100 d3 = Some reg' /\
    (exists r', find "a" reg' = Some r' /\ revision r' = 2) /\ find "b" reg' = None.
Proof.
  intros reg0 reg1 reg2 reg3 d1 d2 d3.
  destruct (@restart_restores_registry lexical_env toy_entry toy_entry_laws ex_service "/work/registry.wal" "/work/registry.bin"
    empty_log offered_ex reg3 d3 100 ex_located eq_refl ex_holds offered_ex_loggable) as (reg' & Hr & H).
  - apply (rtc_l _ _ (mkRunning reg1 [plain_agent "a" 1] empty_log)).
    { apply (RunStore offered_ex (plain_agent "a" 1) reg0 reg1 true [] empty_log); [unfold offered_ex; set_solver|reflexivity]. }
    apply (rtc_l _ _ (mkRunning reg2 [plain_agent "a" 1; plain_agent "a" 2] empty_log)).
    { apply (RunStore offered_ex (plain_agent "a" 2) reg1 reg2 true [plain_agent "a" 1] empty_log);
        [unfold offered_ex; set_solver|reflexivity]. }
    apply (rtc_l _ _ (mkRunning reg3 [plain_agent "a" 1; plain_agent "a" 2; plain_agent "b" 0] empty_log)).
    { apply (RunStore offered_ex (plain_agent "b" 0) reg2 reg3 true [plain_agent "a" 1; plain_agent "a" 2] empty_log);
        [unfold offered_ex; set_solver|reflexivity]. }
    apply (rtc_l _ _ (mkRunning reg3 [plain_agent "a" 1; plain_agent "b" 0] d1)).
    { exact (RunNotify offered_ex (plain_agent "a" 2) reg3 [plain_agent "a" 1] [plain_agent "b" 0] empty_log). }
    apply (rtc_l _ _ (mkRunning reg3 [plain_agent "b" 0] d2)).
    { exact (RunNotify offered_ex (plain_agent "a" 1) reg3 [] [plain_agent "b" 0] d1). }
    apply (rtc_l _ _ (mkRunning reg3 [] d3)).
    { exact (RunNotify offered_ex (plain_agent "b" 0) reg3 [] [] d2). }
    apply rtc_refl.
  - exists reg'. split; [exact Hr|]. split.
    + destruct (H "a"%string) as (r' & H1 & H2 & _). exists r'. split; [exact H1|exact H2].
    + exact (H "b"%string).
Defined.

Lemma restart_reverts_equal_revision_witness :
  let moved := mkAgentRecord "a" "" "h:2" ∅ 1 0 "" "" in
  let '(reg1, d1, ok1) := upsert (plain_agent "a" 1)
    (set_upsert_callback (Some (@log_callback toy_entry ex_service)) new_registry) empty_log in
  let '(reg2, d2, ok2) := upsert moved reg1 d1 in
  find "a" reg2 = Some moved /\
  exists reg', @restore lexical_env toy_entry ex_service 100 d2 = Some reg' /\
    find "a" reg' = Some (set_expires_at (100 + hours (24 * 365)) (restored 100 (plain_agent "a" 1))).
Proof.
  intros moved.
  apply (@restart_reverts_equal_revision lexical_env toy_entry toy_entry_laws ex_service "/work/registry.wal" "/work/registry.bin"
    empty_log (plain_agent "a" 1) moved 100 ex_located eq_refl ex_holds).
  - apply loggable_check. by vm_compute.
  - apply loggable_check. by vm_compute.
  - reflexivity.
  - reflexivity.
  - reflexivity.
  - reflexivity.
Defined.
