(* ===== verification/Node.v ===== *)
(** * The node: all services on one registry and one trust store

    The engine runs the control server, the gossip service and the housekeeping loop on three
    threads that share the registry, the trust store and the log.  Each of them is locked for
    the time of one operation, so what the threads interleave are single operations.  A
    [guarded_step] is one of them, for a given rule of what may be stored and which heartbeats
    arrive; [admitted] is the rule of the two doors of a node, and [node_step] the step of a
    node that follows it and gets any heartbeat.
    Every handler of the program is shown to be a sequence of such steps; invariants of the
    steps are therefore invariants of the node, whatever clients and peers send and however
    the threads are scheduled. *)

From S2P Require Import Prelude CxxString CxxContainers Types Sodium SecureBuffer Crypto IdentityService AgentRegistry RegistrySpec RegistryProps Framing ControlProtocol ControlProps Protobuf ControlProtobuf ControlServer RegistrySync SyncClient PeerHandshake Lifecycle UdpResponder GossipService Reputation GossipScheduler Crc32 SecurePath Persistence PersistenceProps Engine.

(** ** Definitions *)

(** Through which door a record came. *)
Inductive origin := ControlPort | GossipMerge.

(** What the doors check of the signature: the control port refuses what is [Invalid], and all
    but [Valid] on a strict node; a gossip merge admits what is [Valid] or [Missing]. *)
Definition admitted {S : Sodium} (protocol : ControlProtocol) (from : origin) (r : AgentRecord) : Prop :=
  match from with
  | ControlPort =>
      verify_agent_signature r <> Invalid /\
      (require_signatures (trust_ protocol) = true -> verify_agent_signature r = Valid)
  | GossipMerge => verify_agent_signature r = Valid \/ verify_agent_signature r = Missing
  end.

(** The state, and the records stored whose callback has not run yet. *)
Record Node (W : Type) := mkNode {
  nd_state : NodeState W;
  nd_pending : list AgentRecord;
}.
Arguments mkNode {W}.
Arguments nd_state {W}.
Arguments nd_pending {W}.

Definition set_registry {W} (reg : AgentRegistry W) (st : NodeState W) : NodeState W :=
  mkNodeState reg (st_world st) (st_identity st).
Definition set_world {W} (w : W) (st : NodeState W) : NodeState W :=
  mkNodeState (st_registry st) w (st_identity st).
Definition set_identity {W} (svc : IdentityService) (st : NodeState W) : NodeState W :=
  mkNodeState (st_registry st) (st_world st) (Some svc).

(** One locked operation of one thread, of a node that stores only what [may] allows and gets
    only the heartbeats [beat] allows. *)
Inductive guarded_step {W} {S : Sodium} (may : origin -> AgentRecord -> Prop) (beat : string -> Z -> AgentRegistry W -> Prop)
    : Node W -> Node W -> Prop :=
| NStore from r st reg stored pending :
    may from r -> u64 (revision r) -> upsert_locked r (st_registry st) = (reg, stored) ->
    guarded_step may beat (mkNode st pending)
      (mkNode (set_registry reg st) (if (stored : bool) then pending ++ [r] else pending))
| NNotify r st p1 p2 :
    guarded_step may beat (mkNode st (p1 ++ r :: p2))
      (mkNode (set_world (notify r (st_registry st) (st_world st)) st) (p1 ++ p2))
| NHeartbeat id expires rev st reg ok pending :
    u64 rev -> beat id rev (st_registry st) -> refresh_heartbeat id expires rev (st_registry st) = (reg, ok) ->
    guarded_step may beat (mkNode st pending) (mkNode (set_registry reg st) pending)
| NPurge now st reg n pending :
    purge_expired now (st_registry st) = (reg, n) ->
    guarded_step may beat (mkNode st pending) (mkNode (set_registry reg st) pending)
| NPin r svc st pending :
    st_identity st = Some svc ->
    guarded_step may beat (mkNode st pending) (mkNode (set_identity (verify_and_register r svc).1 st) pending).

(** A node on which clients and peers do what they like, and the doors check what they check. *)
Definition any_beat {W} (id : string) (rev : Z) (reg : AgentRegistry W) : Prop := True.
Definition node_step {W} {S : Sodium} (protocol : ControlProtocol) : Node W -> Node W -> Prop :=
  guarded_step (admitted protocol) any_beat.

(** The same claim: the fields a client chose, but for the revision, which a heartbeat moves. *)
Definition same_claim (r1 r2 : AgentRecord) : Prop :=
  set_revision 0 (set_expires_at 0 r1) = set_revision 0 (set_expires_at 0 r2).
#[global] Instance same_claim_equiv : Equivalence same_claim.
Proof. split; unfold same_claim; congruence. Qed.

Lemma same_claim_heartbeat rev ex r : same_claim r (set_revision rev (set_expires_at ex r)).
Proof. by destruct r. Qed.
#[export] Hint Resolve same_claim_heartbeat : beacon.

(** ** Handlers are sequences of steps *)

Section guarded.
Context {W : Type} {S : Sodium} {Sort : StdSort} (protocol : ControlProtocol)
  (may : origin -> AgentRecord -> Prop) (beat : string -> Z -> AgentRegistry W -> Prop).
Implicit Types (st : NodeState W).

(** A handler leaves as many callbacks pending as it has found. *)
Definition runs (st st' : NodeState W) : Prop :=
  forall pending, rtc (guarded_step may beat) (mkNode st pending) (mkNode st' pending).

#[export] Instance runs_preorder : PreOrder runs.
Proof. split; [by intros st pending|]. intros st1 st2 st3 H1 H2 pending. etrans; [apply H1|apply H2]. Qed.

Lemma runs_upsert from r st reg w ok : may from r -> u64 (revision r) ->
  upsert r (st_registry st) (st_world st) = (reg, w, ok) -> runs st (mkNodeState reg w (st_identity st)).
Proof.
  intros Ha Hr Hu pending. unfold upsert in Hu. destruct (upsert_locked r (st_registry st)) as [reg' stored] eqn:Hl.
  injection Hu as <- <- <-.
  eapply rtc_l; [by eapply (NStore may beat from r st)|]. destruct stored; [|by destruct st].
  apply rtc_once. pose proof (NNotify may beat r (set_registry reg' st) pending []) as Hn. by rewrite app_nil_r in Hn.
Qed.

Lemma runs_pin r svc st : st_identity st = Some svc -> runs st (set_identity (verify_and_register r svc).1 st).
Proof. intros Hs pending. by apply rtc_once, NPin. Qed.

Lemma runs_heartbeat id ex rev st reg ok : u64 rev -> beat id rev (st_registry st) ->
  refresh_heartbeat id ex rev (st_registry st) = (reg, ok) -> runs st (set_registry reg st).
Proof. intros Hr Hb Hh pending. by eapply rtc_once, NHeartbeat. Qed.

(** The two tests the handlers of the control port make. *)
Lemma control_admits r :
  require_signatures (trust_ protocol) && bool_decide (verify_agent_signature r <> Valid) = false ->
  negb (require_signatures (trust_ protocol)) && bool_decide (verify_agent_signature r = Invalid) = false ->
  admitted protocol ControlPort r.
Proof.
  unfold admitted. destruct (require_signatures (trust_ protocol)); simpl; rewrite !bool_decide_eq_false; intros H1 H2;
    [apply dec_stable in H1; by rewrite H1|done].
Qed.

Lemma runs_handle_store r ok st : u64 (revision r) -> (admitted protocol ControlPort r -> may ControlPort r) ->
  runs st (handle_store protocol r ok st).1.
Proof.
  intros Hr Hmay. unfold handle_store.
  destruct (require_signatures (trust_ protocol) && _) eqn:H1; [done|].
  destruct (negb (require_signatures (trust_ protocol)) && _) eqn:H2; [done|].
  destruct (upsert r (st_registry st) (st_world st)) as [[reg w] acc] eqn:Hu. cbn [fst].
  pose proof (runs_upsert ControlPort r st reg w acc (Hmay (control_admits r H1 H2)) Hr Hu) as Hrun. destruct acc; [|done].
  unfold register_identity. destruct (st_identity st) as [svc|]; [|done].
  destruct (str_empty (public_key_hex r)); [done|]. etrans; [exact Hrun|]. by apply (runs_pin r svc (mkNodeState reg w (Some svc))).
Qed.

Lemma runs_handle_line init now line st :
  let c := parse_command protocol init now line in
  (error c = "" -> action c = Register \/ action c = Merge -> admitted protocol ControlPort (registration c) ->
   may ControlPort (registration c)) ->
  (error c = "" -> action c = ControlProtocol.Heartbeat -> beat (cmd_agent_id c) (revision (registration c)) (st_registry st)) ->
  runs st (handle_line protocol init now line st).1.
Proof.
  intros c Hmay Hbeat. unfold handle_line. fold c. destruct (str_empty (error c)) eqn:He; cbn [negb]; [|done].
  apply str_empty_true in He. pose proof (parse_command_ok _ _ _ _ He) as ((Hr & _) & _). fold c in Hr.
  destruct (action c) eqn:Ha; try done; try by (apply runs_handle_store; auto).
  destruct (refresh_heartbeat _ _ _ _) as [reg acc] eqn:Hh. by eapply runs_heartbeat in Hh; auto.
Qed.

Lemma runs_merge rs st : st_identity st <> None -> Forall (fun r => u64 (revision r)) rs ->
  Forall (fun r => admitted protocol GossipMerge r -> may GossipMerge r) rs ->
  let '(reg, w, identity, _) := merge rs (st_identity st) (st_registry st) (st_world st) in
  runs st (mkNodeState reg w identity) /\ identity <> None.
Proof.
  intros Hid. induction rs as [|r rs IH] using rev_ind; [by destruct st|]. intros [Hrs [Hr _]%Forall_cons]%Forall_app [Hms [Hm _]%Forall_cons]%Forall_app.
  specialize (IH Hrs Hms). rewrite merge_snoc.
  destruct (merge rs _ _ _) as [[[reg1 w1] [svc1|]] n]; [|by destruct IH]. destruct IH as [IH _]. unfold merge_one.
  destruct (verify_and_register r svc1) as [svc2 status] eqn:Hv.
  assert (Hpin : runs st (mkNodeState reg1 w1 (Some svc2))).
  { etrans; [exact IH|]. pose proof (runs_pin r svc1 (mkNodeState reg1 w1 (Some svc1)) eq_refl) as Hp. by rewrite Hv in Hp. }
  destruct (bool_decide (status <> Valid) && bool_decide (status <> Missing)) eqn:Hs; [done|].
  destruct (upsert r reg1 w1) as [[reg2 w2] ok] eqn:Hu. split; [|done]. etrans; [exact Hpin|].
  apply (runs_upsert GossipMerge r (mkNodeState reg1 w1 (Some svc2)) reg2 w2 ok); [|done|done]. apply Hm. clear -Hv Hs.
  unfold verify_and_register in Hv. unfold admitted. destruct (verify_agent_signature r); [by left|by right|..];
    simpl in Hv; by injection Hv as <- <-.
Qed.

(** The binary protocol. *)
Lemma runs_store_agent {Moved : MovedFrom} now proto ok st resp : u64 (V1.reg_revision proto) ->
  (admitted protocol ControlPort (from_proto proto (lifecycle_ protocol) now) -> may ControlPort (from_proto proto (lifecycle_ protocol) now)) ->
  runs st (store_agent protocol now proto ok st resp).1.
Proof.
  intros Hr Hmay. unfold store_agent. case_match; [done|]. set (r := from_proto _ _ _) in *. unfold signature_allowed.
  destruct (require_signatures (trust_ protocol) && _) eqn:H1; [done|].
  destruct (negb (require_signatures (trust_ protocol)) && _) eqn:H2; [done|]. cbn [negb].
  destruct (upsert r (st_registry st) (st_world st)) as [[reg w] acc] eqn:Hu. cbn [fst].
  pose proof (runs_upsert ControlPort r st reg w acc (Hmay (control_admits r H1 H2)) Hr Hu) as Hrun.
  destruct (st_identity st) as [svc|]; [|done]. destruct acc; [|done].
  etrans; [exact Hrun|]. by apply (runs_pin (moved_from r) svc (mkNodeState reg w (Some svc))).
Qed.

(** What a request registers, and the heartbeat it brings. *)
Definition request_registers (request : V1.ControlRequest) : option V1.AgentRegistration :=
  match request with V1.register_agent r | V1.sync_merge r => Some r | _ => None end.

Lemma runs_request {Moved : MovedFrom} now request st : proto_valid request ->
  (forall r, request_registers request = Some r -> let x := from_proto r (lifecycle_ protocol) now in
     admitted protocol ControlPort x -> may ControlPort x) ->
  (forall h, request = V1.heartbeat h -> beat (V1.hb_agent_id h) (V1.hb_revision h) (st_registry st)) ->
  runs st (handle_request protocol now request st).1.
Proof.
  intros Hp Hmay Hbeat. destruct request as [a|h|l|p|a| |]; simpl in *; try done.
  - pose proof (runs_store_agent now a "registered" st empty_response ltac:(apply Hp) (Hmay a eq_refl)) as Hs.
    by destruct (store_agent _ _ _ _ _ _).
  - destruct (refresh_heartbeat _ _ _ _) as [reg acc] eqn:Hh. eapply runs_heartbeat in Hh; [exact Hh|apply Hp|auto].
  - pose proof (runs_store_agent now a "merged" st empty_response ltac:(apply Hp) (Hmay a eq_refl)) as Hs.
    by destruct (store_agent _ _ _ _ _ _).
Qed.
End guarded.

Section handlers.
Context {W : Type} {S : Sodium} {Sort : StdSort} (protocol : ControlProtocol).
Implicit Types (st : NodeState W).
#[local] Abbreviation node_runs := (runs (W := W) (admitted protocol) any_beat).

Lemma runs_any_line init now line st : node_runs st (handle_line protocol init now line st).1.
Proof. by apply runs_handle_line. Qed.

Lemma runs_gossip_sync {N : Type} {T : Transport N} this peer clock st (net : N) : st_identity st <> None ->
  let st' := (sync_with_peer this peer clock st net).1.1 in node_runs st st' /\ st_identity st' <> None.
Proof.
  intros Hid. unfold sync_with_peer. destruct (send_command peer "STATS" net) as [net1 [remote_stats|]]; [|done].
  destruct (send_command peer _ net1) as [net2 [response|]]; [|done]. unfold merge_response.
  pose proof (runs_merge protocol (admitted protocol) any_beat (parse_agent_lines clock response) st Hid (parse_agent_lines_range clock response)) as Hm.
  specialize (Hm ltac:(by apply Forall_forall)).
  destruct (merge _ _ _ _) as [[[reg w] identity] n]. by destruct (push_entries _ _ _) as [net3 [k|]].
Qed.

Lemma runs_gossip_round {N : Type} {T : Transport N} {D : Datagrams N} {R : StdShuffle}
    config gossip_config draw clock ps st (net : N) : st_identity st <> None ->
  node_runs st (perform_gossip_round config gossip_config draw clock ps st net).1.
Proof.
  intros Hid. unfold perform_gossip_round. destruct ps as [|p ps]; [done|].
  generalize (imap pair (round_targets draw (p :: ps))) as targets. intros targets.
  revert st net Hid. induction targets as [|[i t] targets IH]; intros st net Hid; [done|]. cbn [foldl].
  unfold sync_with_peer_tcp at 2.
  destruct (runs_gossip_sync (mkSyncClient (max_registry_items_per_round gossip_config))
    (mkSyncPeer (gp_host t) (gp_control_port t)) (clock i) st (send_udp_heartbeat config t net) Hid) as [H1 H2].
  destruct (sync_with_peer _ _ _ _ _) as [[st1 net1] res]. etrans; [exact H1|]. by apply IH.
Qed.

Context {Moved : MovedFrom} {Req : ProtoMessage V1.ControlRequest} {Resp : ProtoMessage V1.ControlResponse}
  {L : ProtoLaws V1.ControlRequest}.

Lemma runs_control_frame now bs st : node_runs st (handle_control_frame protocol now bs st).1.
Proof.
  unfold handle_control_frame. destruct (decode_frame bs) as [f|]; [|done]. case_bool_decide; [|done].
  unfold handle_control_request_payload.
  destruct (ParseFromString (payload f)) as [request|] eqn:Hp; [|done]. apply parsed_valid in Hp.
  pose proof (runs_request protocol (admitted protocol) any_beat now request st Hp) as Hr.
  specialize (Hr ltac:(done) ltac:(done)). by destruct (handle_request _ _ _ _).
Qed.

Lemma runs_session pb init now s st : node_runs st (serve_session pb protocol init now s st).1.
Proof.
  unfold serve_session. case_bool_decide; [done|]. case_match.
  - destruct pb; [|done]. case_match; [done|].
    pose proof (runs_control_frame now (take (Z.to_nat (9 + header_length (peek_header s))) (sess_input s)) st).
    by destruct (handle_control_frame _ _ _ _).
  - destruct (read_line (sess_input s)) as [line|]; [|done].
    pose proof (runs_any_line init now line st). by destruct (handle_line _ _ _ _ _).
Qed.

Lemma runs_tick o reputation now init st : opt_protocol o = protocol -> node_runs st (tick o reputation now init st).1.
Proof.
  intros Ho. unfold tick. rewrite Ho. destruct (purge_expired now (st_registry st)) as [reg n] eqn:Hp.
  pose proof (runs_any_line init now "STATS" (set_registry reg st)) as Hl. unfold set_registry in Hl.
  destruct (handle_line _ _ _ _ _) as [st' line]. etrans; [|exact Hl]. intros pending. by eapply rtc_once, NPurge.
Qed.
End handlers.

(** ** What the steps preserve *)

Section invariant.
Context {W : Type} {S : Sodium} {SL : SodiumLaws S} (protocol : ControlProtocol).
Implicit Types (n : Node W) (st : NodeState W).

(** Relative to the state [st0] the node started with. *)
Definition node_inv (st0 : NodeState W) (n : Node W) : Prop :=
  registry_ok (st_registry (nd_state n)) /\
  Forall (fun x => exists y, same_claim y x /\ (y ∈ records_ (st_registry st0) \/ exists from, admitted protocol from y))
    (records_ (st_registry (nd_state n))) /\
  (forall svc, st_identity (nd_state n) = Some svc -> identity_ok svc) /\
  (forall svc agent key, st_identity st0 = Some svc -> pinned_key svc agent = Some key ->
     exists svc', st_identity (nd_state n) = Some svc' /\ pinned_key svc' agent = Some key).

Lemma upsert_locked_upsert r (reg reg' : AgentRegistry W) ok w : upsert_locked r reg = (reg', ok) ->
  (upsert r reg w).1.1 = reg'.
Proof. intros H. unfold upsert. by rewrite H. Qed.

Lemma node_step_inv st0 n n' : node_inv st0 n -> node_step protocol n n' -> node_inv st0 n'.
Proof.
  intros (Hreg & Hrec & Hid & Hpin) Hstep.
  destruct Hstep as [from r st reg stored pending Ha Hr Hu|r st p1 p2|id ex rev st reg ok pending Hr _ Hh|
    now st reg k pending Hp|r svc st pending Hs]; unfold node_inv; cbn [nd_state st_registry st_identity set_registry set_world set_identity] in *.
  - pose proof (upsert_locked_upsert _ _ _ _ (st_world st) Hu) as Hup.
    pose proof (upsert_ok r (st_registry st) (st_world st) Hreg Hr) as Hok. rewrite Hup in Hok.
    split_and!; [done| |done|done]. apply Forall_forall. intros x Hx.
    pose proof (upsert_elem r (st_registry st) (st_world st) x) as Hel. rewrite Hup in Hel.
    destruct (Hel Hx) as [-> |Hin]; [|by eapply Forall_forall in Hrec]. exists r. split; [done|]. right. by exists from.
  - done.
  - pose proof (heartbeat_ok id ex rev (st_registry st) Hreg Hr) as Hok. pose proof (heartbeat_records id ex rev (st_registry st)) as Hel.
    rewrite Hh in Hok, Hel. split_and!; [done| |done|done]. apply Forall_forall. intros x Hx. rewrite Forall_forall in Hrec.
    destruct (Hel x Hx) as [Hin|(y & Hin & ->)]; [by apply Hrec|]. destruct (Hrec y Hin) as (z & Hz & Hfrom).
    exists z. split; [|done]. etrans; [exact Hz|apply same_claim_heartbeat].
  - pose proof (purge_ok now (st_registry st) Hreg) as Hok. rewrite Hp in Hok. split_and!; [done| |done|done].
    injection Hp as <- _. apply Forall_forall. intros x [_ Hx]%list_elem_of_filter. by eapply Forall_forall in Hrec.
  - specialize (Hid svc Hs). split_and!; [done|done| |].
    + intros svc' [= <-]. by apply verify_and_register_ok.
    + intros svc0 agent key H0 Hk. destruct (Hpin svc0 agent key H0 Hk) as (svc1 & H1 & Hk1). rewrite Hs in H1. injection H1 as <-.
      eexists. split; [done|]. by apply verify_and_register_pinned.
Qed.

(** (C2) The invariant of the whole node: started in any well-formed state, after any interleaving
    of the operations of its threads, whatever clients and peers send, the registry has no
    agent twice and only 64-bit revisions; every registration in it was there at the start or
    was admitted by one of the two doors (never with an invalid signature), up to the expiry
    and revision that heartbeats move; and every key pinned at the start is still pinned. *)
Theorem node_invariant st n :
  registry_ok (st_registry st) -> (forall svc, st_identity st = Some svc -> identity_ok svc) ->
  rtc (node_step protocol) (mkNode st []) n ->
  registry_ok (st_registry (nd_state n)) /\
  (forall x, x ∈ records_ (st_registry (nd_state n)) -> exists y, same_claim y x /\
     (y ∈ records_ (st_registry st) \/ exists from, admitted protocol from y /\ verify_agent_signature y <> Invalid)) /\
  (forall svc agent key, st_identity st = Some svc -> pinned_key svc agent = Some key ->
     exists svc', st_identity (nd_state n) = Some svc' /\ pinned_key svc' agent = Some key).
Proof.
  intros Hreg Hid Hr.
  assert (Hinv : node_inv st n).
  { refine (rtc_ind_r (node_inv st) _ _ _ _ Hr).
    - split_and!; [done| |done|simpl; by eauto]. apply Forall_forall. intros x Hx. exists x. split; [done|by left].
    - intros n1 n2 _ Hs Hi. by eapply node_step_inv. }
  destruct Hinv as (H1 & H2 & _ & H4). split_and!; [done| |done].
  intros x Hx. rewrite Forall_forall in H2. destruct (H2 x Hx) as (y & Hy & [Hin|[from Ha]]); exists y; [by auto|].
  split; [done|]. right. exists from. split; [done|]. destruct from; [apply Ha|]. by destruct Ha as [-> | ->].
Qed.
End invariant.

Section refinement.
Context {W : Type} {S : Sodium} {Sort : StdSort} {Moved : MovedFrom}
  {Req : ProtoMessage V1.ControlRequest} {Resp : ProtoMessage V1.ControlResponse} {L : ProtoLaws V1.ControlRequest}
  {N : Type} {T : Transport N} {D : Datagrams N} {R : StdShuffle}.

(** (C16) The program does nothing but node steps: serving a session, whatever its bytes and
    however they arrive, a gossip round, whatever the network does, and a turn of the
    housekeeping loop are each a sequence of admitted, locked operations that leaves no
    callback pending, from every state, even when other threads have callbacks pending. *)
Theorem handlers_refine_node_steps o (st : NodeState W) pending
    (has_identity : st_identity st <> None) :
  let protocol := opt_protocol o in
  (forall pb init now s, rtc (node_step protocol) (mkNode st pending)
     (mkNode (serve_session pb protocol init now s st).1 pending)) /\
  (forall draw clock ps (net : N), rtc (node_step protocol) (mkNode st pending)
     (mkNode (perform_gossip_round (node (opt_config o)) (gossip (opt_config o)) draw clock ps st net).1 pending)) /\
  (forall reputation now init, rtc (node_step protocol) (mkNode st pending)
     (mkNode (tick o reputation now init st).1 pending)).
Proof.
  intros protocol. split_and!; intros.
  - by apply runs_session.
  - by apply runs_gossip_round.
  - by apply runs_tick.
Qed.
End refinement.

(** ** Durability over whole histories *)

(** What a step stores: the record it leaves for the callback. *)
Definition stored_now {W} (n1 n2 : Node W) : list AgentRecord :=
  drop (length (nd_pending n1)) (nd_pending n2).

(** A run of the node and the records stored along it, in order. *)
Inductive node_run {W} {S : Sodium} (protocol : ControlProtocol) : Node W -> list AgentRecord -> Node W -> Prop :=
| RunHere n : node_run protocol n [] n
| RunOn n stored n1 n2 : node_run protocol n stored n1 -> node_step protocol n1 n2 ->
    node_run protocol n (stored ++ stored_now n1 n2) n2.

Section durability.
Context {E : PathEnv} {M : Machine} {P : ProtoMessage RegistryEntry} {L : ProtoLaws RegistryEntry} {S : Sodium}
  (protocol : ControlProtocol).

(** What a registry restored from a log says about an agent: nothing if no record of it with a
    positive revision was logged, otherwise one of those of the highest revision. *)
Definition newest_logged (now : TimePoint) (log : list AgentRecord) (aid : string) (o : option AgentRecord) : Prop :=
  match o with
  | None => forall x, x ∈ log -> agent_id x = aid -> revision x <= 0
  | Some y => exists x, y ≡ restored now x /\ x ∈ log /\ agent_id x = aid /\ 0 < revision x /\
      forall x', x' ∈ log -> agent_id x' = aid -> revision x' <= revision x
  end.

Lemma reload_newest now log aid : newest_logged now log aid (reload now log !! aid).
Proof.
  pose proof (reload_max now log aid) as Hm. unfold newest_logged. destruct (reload now log !! aid) as [y|]; [|done].
  destruct Hm as (x & ex & -> & H). by exists x.
Qed.

Definition log_inv (persistence : PersistenceService) (wal snap : string) (log0 stored : list AgentRecord) (n : Node disk) : Prop :=
  on_upsert_ (st_registry (nd_state n)) = Some (log_callback persistence) /\
  exists logged, holds wal snap (st_world (nd_state n)) [] 0 (entry_of_record <$> log0 ++ logged) /\
    stored ≡ₚ logged ++ nd_pending n.

Lemma log_inv_same_pending persistence wal snap log0 stored n n' :
  log_inv persistence wal snap log0 stored n -> on_upsert_ (st_registry (nd_state n')) = on_upsert_ (st_registry (nd_state n)) ->
  st_world (nd_state n') = st_world (nd_state n) -> nd_pending n' = nd_pending n ->
  log_inv persistence wal snap log0 (stored ++ stored_now n n') n'.
Proof.
  intros (Hcb & logged & Hh & Hp) H1 H2 H3. unfold log_inv, stored_now. rewrite H1, H2, H3, drop_all, app_nil_r. eauto.
Qed.

Lemma log_inv_step persistence wal snap log0 stored n n' :
  wal <> snap -> wal_file_ persistence = Some wal -> Forall (fun r => loggable (entry_of_record r)) stored ->
  node_step protocol n n' -> log_inv persistence wal snap log0 stored n ->
  log_inv persistence wal snap log0 (stored ++ stored_now n n') n'.
Proof.
  intros Hne Hf Hlog Hstep Hinv.
  destruct Hstep as [from r st reg ok pending Ha Hr Hu|r st p1 p2|id ex rev st reg ok pending Hr _ Hh|
    now st reg k pending Hp|r svc st pending Hs]; try (apply (log_inv_same_pending _ _ _ _ _ _ _ Hinv); done).
  - apply upsert_locked_refines in Hu as [_ Hcb']. destruct ok; [|by apply (log_inv_same_pending _ _ _ _ _ _ _ Hinv)].
    destruct Hinv as (Hcb & logged & Hh & Hp). split; [simpl in *; congruence|]. exists logged. split; [done|].
    unfold stored_now. simpl in *. rewrite drop_app_length, Hp. by rewrite app_assoc.
  - destruct Hinv as (Hcb & logged & Hh & Hp). simpl in *. split; [done|]. exists (logged ++ [r]). split.
    + simpl. unfold notify. rewrite Hcb, !app_assoc, fmap_app. apply append_holds; [done|done| |by rewrite fmap_app in Hh |- *].
      rewrite Forall_forall in Hlog. apply Hlog. rewrite Hp. set_solver.
    + unfold stored_now. simpl. rewrite drop_ge by (rewrite !length_app; simpl; lia). rewrite app_nil_r, Hp, <- app_assoc. simpl.
      by rewrite Permutation_middle.
  - apply (log_inv_same_pending _ _ _ _ _ _ _ Hinv); [|done..]. simpl. revert Hh. unfold refresh_heartbeat. repeat case_match; by intros [= <- _].
  - apply (log_inv_same_pending _ _ _ _ _ _ _ Hinv); [|done..]. simpl. by injection Hp as <- _.
Qed.

(** (C3) Durability over histories and crashes.  Start the engine on a log, let its threads do
    whatever they do (stores, heartbeats, purges, callbacks, interleaved in any way), kill it
    at any moment between two operations, and start it again.  Of the records stored in that
    life, exactly those whose callback had run are in the log, behind the ones it had; and
    the new registry holds, for every agent ever logged with a positive revision, a record of
    its highest logged revision, and no other agent. *)
Theorem crash_restart_history persistence wal snap d log0 identity now0 reg0 stored n now
    (paths : located persistence wal snap) (open : wal_file_ persistence = Some wal)
    (disk0 : holds wal snap d [] 0 (entry_of_record <$> log0))
    (loggable0 : Forall (fun r => loggable (entry_of_record r)) log0)
    (start0 : restore persistence now0 d = Some reg0)
    (ran : node_run protocol (mkNode (mkNodeState reg0 d identity) []) stored n)
    (loggable1 : Forall (fun r => loggable (entry_of_record r)) stored) :
  exists logged reg', stored ≡ₚ logged ++ nd_pending n /\
    restore persistence now (st_world (nd_state n)) = Some reg' /\
    forall aid, newest_logged now (log0 ++ logged) aid (find aid reg').
Proof.
  pose proof paths as (_ & _ & Hne & _).
  assert (Hinv : log_inv persistence wal snap log0 stored n).
  { remember (mkNode (mkNodeState reg0 d identity) []) as n0 eqn:Hn0. induction ran as [n0|n0 stored n1 n2 Hrun IH Hstep].
    - subst n0. split; [|exists []; by rewrite app_nil_r].
      unfold restore in start0. destruct (recover persistence d); [|done]. by injection start0 as <-.
    - apply Forall_app in loggable1 as [H1 _]. apply log_inv_step; [done..|by apply IH]. }
  destruct Hinv as (_ & logged & Hh & Hp). exists logged.
  assert (Hall : Forall (fun r => loggable (entry_of_record r)) (log0 ++ logged)).
  { apply Forall_app_2; [done|]. rewrite Hp in loggable1. by apply Forall_app in loggable1 as [? _]. }
  destruct (restore_reload persistence wal snap now _ _ paths Hh Hall) as (reg' & Hreg' & Hm').
  exists reg'. split_and!; [done|done|]. intros aid. rewrite find_refines, Hm'. apply reload_newest.
Qed.

(** Heartbeats and purges are not logged, so a restart takes them back: after a registration
    was stored and logged, the running node can advance its revision by a heartbeat, or drop
    it when it has expired, without any write to the disk; the restarted node has the agent
    again, at the revision of the registration and with a year to live. *)
Theorem restart_forgets_heartbeat_and_purge persistence wal snap d r now
    (paths : located persistence wal snap) (open : wal_file_ persistence = Some wal)
    (empty : holds wal snap d [] 0 []) (fits : loggable (entry_of_record r)) (positive : 0 < revision r) :
  let '(reg, d1, ok) := upsert r (set_upsert_callback (Some (log_callback persistence)) new_registry) d in
  ok = true /\
  (forall ex rev, revision r <= rev ->
     find (agent_id r) (refresh_heartbeat (agent_id r) ex rev reg).1 = Some (set_revision rev (set_expires_at ex r))) /\
  (forall t, expires_at r <= t -> find (agent_id r) (purge_expired t reg).1 = None) /\
  exists reg', restore persistence now d1 = Some reg' /\
    find (agent_id r) reg' = Some (set_expires_at (now + hours (24 * 365)) (restored now r)).
Proof.
  pose proof paths as (_ & _ & Hne & _). rewrite upsert_cases.
  cbn [set_records records_ set_upsert_callback new_registry app on_upsert_ from_option find_agent list_find].
  split_and!; [done|..].
  - intros ex rev Hrev. unfold refresh_heartbeat, find, find_agent. simpl. rewrite decide_True by done. simpl.
    rewrite (proj2 (Z.ltb_ge _ _)) by lia. simpl. by rewrite decide_True by done.
  - intros t Ht. unfold find, find_agent, purge_expired. simpl. rewrite filter_cons, decide_False by (intros Hn; by apply Hn). done.
  - assert (Hh : holds wal snap (log_callback persistence r d) [] 0 (entry_of_record <$> [r])).
    { change (entry_of_record <$> [r]) with ([] ++ [entry_of_record r]). by apply append_holds. }
    destruct (restore_reload persistence wal snap now _ _ paths Hh) as (reg' & Hreg' & Hm'); [by apply Forall_cons_2|].
    exists reg'. split; [done|]. rewrite find_refines, Hm'. unfold reload. rewrite filter_cons, filter_nil, decide_True by lia.
    cbn [foldl]. unfold spec_load_one. rewrite lookup_empty. by rewrite lookup_insert_eq.
Qed.
End durability.

(** ** Witnesses *)

Definition ex_register : Session :=
  mkSession (bytes_of_string ("REGISTER agent_id=a node_id=n endpoint=e revision=4" +:+ nl)) 9.

Lemma node_invariant_witness :
  let st' := (@serve_session unit toy_sodium _ libstdcxx_moved_from toy_request toy_response true open_protocol 0 0
    ex_register empty_node).1 in
  registry_ok (st_registry st') /\ (exists r, records_ (st_registry st') = [r] /\ exists y, same_claim y r /\
    (y ∈ [] \/ exists from, admitted open_protocol from y /\ verify_agent_signature y <> Invalid)).
Proof.
  intros st'.
  destruct (@node_invariant unit toy_sodium toy_sodium_laws open_protocol empty_node (mkNode st' [])) as (H1 & H2 & _).
  - split; constructor.
  - intros svc [= <-]. apply map_Forall_empty.
  - apply (@runs_session unit toy_sodium _ open_protocol libstdcxx_moved_from toy_request toy_response (countable_ProtoLaws _)
      true 0 0 ex_register empty_node []).
  - split; [exact H1|]. exists (mkAgentRecord "a" "n" "e" ∅ 4 30000000000 "" "").
    assert (Hr : records_ (st_registry st') = [mkAgentRecord "a" "n" "e" ∅ 4 30000000000 "" ""]) by by vm_compute.
    split; [exact Hr|]. apply (H2 (mkAgentRecord "a" "n" "e" ∅ 4 30000000000 "" "")).
    change (mkAgentRecord "a" "n" "e" ∅ 4 30000000000 "" "" ∈ records_ (st_registry st')). rewrite Hr. apply list_elem_of_singleton. reflexivity.
Defined.

Lemma handlers_refine_node_steps_witness :
  let protocol := opt_protocol default_options in
  let net := parrot ("OK" +:+ nl +:+ "AGENT agent_id=a revision=7" +:+ nl) in
  let st' := (@perform_gossip_round unit toy_sodium _ unit net (fun _ _ _ n => n) rotate_shuffle
    (node default_config) (gossip default_config) 0 (fun _ _ => 0) [mkGossipPeer "" "h" 1 2] empty_node tt).1 in
  (revision <$> find "a" (st_registry st')) = Some 7 /\
  rtc (node_step protocol) (mkNode empty_node []) (mkNode st' []).
Proof.
  intros protocol net st'. split; [by vm_compute|].
  apply (@handlers_refine_node_steps unit toy_sodium _ libstdcxx_moved_from toy_request toy_response (countable_ProtoLaws _)
    unit net (fun _ _ _ n => n) rotate_shuffle default_options empty_node []).
  discriminate.
Defined.

(** A first life: one record is stored and logged, another stored, and the process is killed
    before the second is logged. *)
Lemma crash_restart_history_witness :
  let reg0 := set_upsert_callback (Some (@log_callback toy_entry ex_service)) new_registry in
  let reg1 := (upsert_locked (plain_agent "a" 1) reg0).1 in
  let reg2 := (upsert_locked (plain_agent "a" 2) reg1).1 in
  let d1 := notify (plain_agent "a" 1) reg1 empty_log in
  exists logged reg', [plain_agent "a" 1; plain_agent "a" 2] ≡ₚ logged ++ [plain_agent "a" 2] /\
    @restore lexical_env toy_entry ex_service 100 d1 = Some reg' /\
    newest_logged 100 logged "a" (find "a" reg').
Proof.
  intros reg0 reg1 reg2 d1. set (svc := Some new_identity_service).
  destruct (@crash_restart_history lexical_env toy_entry toy_entry_laws toy_sodium open_protocol ex_service
    "/work/registry.wal" "/work/registry.bin" empty_log [] svc 50 reg0
    [plain_agent "a" 1; plain_agent "a" 2] (mkNode (mkNodeState reg2 d1 svc) [plain_agent "a" 2]) 100 ex_located eq_refl ex_holds)
    as (logged & reg' & H1 & H2 & H3).
  - apply Forall_nil_2.
  - assert (Hr : @recover lexical_env toy_entry ex_service empty_log = inl []) by by vm_compute.
    unfold restore. rewrite Hr. reflexivity.
  - assert (Ha : forall rev, admitted open_protocol ControlPort (plain_agent "a" rev)) by (intros rev; split; [discriminate|done]).
    refine (RunOn open_protocol _ [plain_agent "a" 1] (mkNode (mkNodeState reg1 d1 svc) []) _ _
      (NStore (admitted open_protocol) any_beat ControlPort (plain_agent "a" 2) (mkNodeState reg1 d1 svc) reg2 true [] (Ha 2) _ _)).
    2: { by split. }
    2: { reflexivity. }
    refine (RunOn open_protocol _ [plain_agent "a" 1] (mkNode (mkNodeState reg1 empty_log svc) [plain_agent "a" 1]) _ _
      (NNotify (admitted open_protocol) any_beat (plain_agent "a" 1) (mkNodeState reg1 empty_log svc) [] [])).
    refine (RunOn open_protocol _ [] (mkNode (mkNodeState reg0 empty_log svc) []) _ _
      (NStore (admitted open_protocol) any_beat ControlPort (plain_agent "a" 1) (mkNodeState reg0 empty_log svc) reg1 true [] (Ha 1) _ _)).
    + apply RunHere.
    + by split.
    + reflexivity.
  - apply Forall_cons_2; [|apply Forall_cons_2; [|apply Forall_nil_2]]; apply loggable_check; by vm_compute.
  - exists logged, reg'. split; [exact H1|]. split; [exact H2|exact (H3 "a"%string)].
Defined.

Lemma restart_forgets_heartbeat_and_purge_witness :
  let r := plain_agent "a" 1 in
  let '(reg, d1, ok) := upsert r (set_upsert_callback (Some (@log_callback toy_entry ex_service)) new_registry) empty_log in
  find "a" (refresh_heartbeat "a" 7 5 reg).1 = Some (set_revision 5 (set_expires_at 7 r)) /\
  find "a" (purge_expired 0 reg).1 = None /\
  exists reg', @restore lexical_env toy_entry ex_service 100 d1 = Some reg' /\
    find "a" reg' = Some (set_expires_at (100 + hours (24 * 365)) (restored 100 r)).
Proof.
  intros r.
  destruct (@restart_forgets_heartbeat_and_purge lexical_env toy_entry toy_entry_laws ex_service
    "/work/registry.wal" "/work/registry.bin" empty_log r 100 ex_located eq_refl ex_holds) as (_ & H1 & H2 & H3).
  - apply loggable_check. by vm_compute.
  - reflexivity.
  - split; [apply H1; discriminate|]. split; [apply H2; discriminate|exact H3].
Defined.
