(* ===== verification/Cluster.v ===== *)
(** * A cluster of nodes

    Several nodes that gossip, and their clients.  What travels between nodes is abstracted to
    the set of registrations ever [sent]: messages may be delayed, reordered, duplicated and
    lost, and may reach any node, but arrive whole.  A node works in the steps of [Node]; it
    stores what a client registers, or what some node has sent.  What its clients register are
    records the line format carries ([line_ok]), as everything is that comes over the line
    protocol.  A node may stop at any time and start again with what it finds in its log; the
    relation [recovers] says what it makes of a record it had handed to the callback that logs:
    [from_log] is the engine with its log, which keeps no metadata, [no_log] the build without
    protobuf, which keeps nothing.  [round_steps], [line_steps], [request_steps] and
    [restart_refines_cluster] show that a synchronisation round between two nodes over
    connections that may fail, a control line, a protobuf request and a restart, as the program
    executes them, are sequences of cluster steps. *)

From S2P Require Import Prelude CxxString CxxContainers Types Sodium SecureBuffer Crypto IdentityService AgentRegistry RegistrySpec RegistryProps ControlProtocol ControlProps Protobuf ControlProtobuf ControlServer RegistrySync SyncClient Crc32 SecurePath Persistence PersistenceProps Engine Node.

(** ** Definitions *)

(** [offered] are the registrations clients have handed to some node, [logged] those that were
    stored and handed to the callback of a node, with the name of the node. *)
Record Cluster (W : Type) := mkCluster {
  members : gmap string (Node W);
  sent : list AgentRecord;
  offered : list AgentRecord;
  logged : list (string * AgentRecord);
}.
Arguments mkCluster {W}.
Arguments members {W}.
Arguments sent {W}.
Arguments offered {W}.
Arguments logged {W}.

(** Node [a] has become [n], and clients have offered it [rs]. *)
Definition advance {W} (a : string) (n : Node W) (rs : list AgentRecord) (c : Cluster W) : Cluster W :=
  mkCluster (<[a := n]> (members c)) (sent c) (offered c ++ rs) (logged c ++ (pair a <$> nd_pending n)).

Abbreviation stored n := (records_ (st_registry (nd_state n))).

(** What the log keeps of a record. *)
Definition from_log (y x : AgentRecord) : Prop := exists now ex, x = set_expires_at ex (restored now y).
Definition no_log (y x : AgentRecord) : Prop := False.

Section cluster.
Context {W : Type} {S : Sodium} (protocols : string -> ControlProtocol) (beat : string -> Z -> AgentRegistry W -> Prop)
  (recovers : AgentRecord -> AgentRecord -> Prop).
Implicit Types (c : Cluster W) (n : Node W).

(** What a node may store without its clients: what was sent, with an expiry of its own. *)
Definition deliverable (a : string) (messages : list AgentRecord) (from : origin) (r : AgentRecord) : Prop :=
  admitted (protocols a) from r /\ exists x ex, x ∈ messages /\ r = set_expires_at ex x.

Definition registers (a : string) (r : AgentRecord) (from : origin) (x : AgentRecord) : Prop :=
  from = ControlPort /\ x = r /\ admitted (protocols a) ControlPort r.

Inductive cluster_step : Cluster W -> Cluster W -> Prop :=
| CWork a n n' c : members c !! a = Some n -> guarded_step (deliverable a (sent c)) beat n n' ->
    cluster_step c (advance a n' [] c)
| CClient a n n' r c : members c !! a = Some n -> line_ok r -> guarded_step (registers a r) beat n n' ->
    cluster_step c (advance a n' [r] c)
| CSend a n r c : members c !! a = Some n -> r ∈ stored n ->
    cluster_step c (mkCluster (members c) (sent c ++ [r]) (offered c) (logged c))
| CRestart a n st c : members c !! a = Some n -> registry_ok (st_registry st) ->
    Forall (fun x => exists y, (a, y) ∈ logged c /\ recovers y x) (records_ (st_registry st)) ->
    cluster_step c (advance a (mkNode st []) [] c).

(** A cluster before its first step: nothing was sent or is pending, the registries are
    well-formed, and the line format carries everything that is stored or was logged. *)
Record initial (c : Cluster W) : Prop := mkInitial {
  in_quiet : sent c = [];
  in_ok : forall b m, members c !! b = Some m -> registry_ok (st_registry (nd_state m)) /\ Forall line_ok (stored m) /\ nd_pending m = [];
  in_logged : forall b x, (b, x) ∈ logged c -> line_ok x;
}.

(** A registration the cluster started with, in a registry or a log, or a client has offered. *)
Definition origin_of (c0 c : Cluster W) (y : AgentRecord) : Prop :=
  y ∈ offered c \/ (exists b m, members c0 !! b = Some m /\ y ∈ stored m) \/ exists b, (b, y) ∈ logged c0.

(** ** Provenance, for any notion of "the same registration" that survives a new expiry, the
       heartbeats that are allowed and a restart *)

Section provenance.
Context (R : AgentRecord -> AgentRecord -> Prop) (R_refl : forall x, R x x)
  (R_expiry : forall y x ex, R y x -> R y (set_expires_at ex x))
  (R_beat : forall id rev reg y x ex, beat id rev reg -> find id reg = Some x -> R y x -> R y (set_revision rev (set_expires_at ex x)))
  (R_recover : forall y x x', recovers x x' -> R y x -> R y x')
  (recover_line : forall x x', recovers x x' -> line_ok x -> line_ok x').

Definition good (c0 c : Cluster W) (x : AgentRecord) : Prop := line_ok x /\ exists y, origin_of c0 c y /\ R y x.

Definition good_node (c0 c : Cluster W) (n : Node W) : Prop :=
  registry_ok (st_registry (nd_state n)) /\ Forall (good c0 c) (stored n) /\ Forall (good c0 c) (nd_pending n).

Definition cluster_inv (c0 c : Cluster W) : Prop :=
  (forall a n, members c !! a = Some n -> good_node c0 c n) /\
  Forall (good c0 c) (sent c) /\ Forall (fun ax => good c0 c ax.2) (logged c).

Lemma good_mono c0 c c' x : (forall y, y ∈ offered c -> y ∈ offered c') -> good c0 c x -> good c0 c' x.
Proof. intros Ho (Hl & y & [Hy|Hy] & Hr); (split; [done|]); exists y; (split; [|done]); [left; auto|by right]. Qed.

Lemma good_node_mono c0 c c' n : (forall x, good c0 c x -> good c0 c' x) -> good_node c0 c n -> good_node c0 c' n.
Proof. intros Hm (H1 & H2 & H3). split_and!; [done|by eapply Forall_impl..]. Qed.

Lemma heartbeat_found aid ex rev (reg : AgentRegistry W) x : x ∈ records_ (refresh_heartbeat aid ex rev reg).1 ->
  x ∈ records_ reg \/ exists y, find aid reg = Some y /\ y ∈ records_ reg /\ x = set_revision rev (set_expires_at ex y).
Proof.
  unfold refresh_heartbeat, find. destruct (find_agent aid (records_ reg)) as [[i e]|] eqn:Hf; [|by left].
  case_match; [by left|]. simpl. intros [-> |?]%elem_of_insert; [right|by left]. exists e. split_and!; [done| |done].
  apply find_agent_id in Hf as [Hi _]. by eapply list_elem_of_lookup_2.
Qed.

(** A node that stores only good records holds only good records. *)
Lemma guarded_good c0 c may n n' :
  (forall from r, may from r -> good c0 c r) -> guarded_step may beat n n' -> good_node c0 c n -> good_node c0 c n'.
Proof.
  intros Hmay Hstep (Hok & Hgood & Hpend). rewrite Forall_forall in Hgood.
  destruct Hstep as [from r st reg ok pending Hm Hr Hu|r st p1 p2|id ex rev st reg ok pending Hr Hb Hh|
    now st reg k pending Hp|r svc st pending Hs]; unfold good_node; cbn [nd_state nd_pending st_registry set_registry set_world set_identity] in *.
  - pose proof (upsert_locked_upsert _ _ _ _ (st_world st) Hu) as Hup.
    pose proof (upsert_ok r (st_registry st) (st_world st) Hok Hr) as Hok'. rewrite Hup in Hok'. split_and!; [done| |].
    + apply Forall_forall. intros x Hx. pose proof (upsert_elem r (st_registry st) (st_world st) x) as Hel. rewrite Hup in Hel.
      destruct (Hel Hx) as [-> |Hin]; [by eapply Hmay|by apply Hgood].
    + destruct ok; [|done]. apply Forall_app_2; [done|]. apply Forall_singleton. by eapply Hmay.
  - apply Forall_app in Hpend as [H1 [_ H2]%Forall_cons]. split_and!; [done|by apply Forall_forall|by apply Forall_app_2].
  - pose proof (heartbeat_ok id ex rev (st_registry st) Hok Hr) as Hok'. rewrite Hh in Hok'. split_and!; [done| |done].
    apply Forall_forall. intros x Hx. pose proof (heartbeat_found id ex rev (st_registry st) x) as Hel. rewrite Hh in Hel.
    destruct (Hel Hx) as [Hin|(y & Hf & Hin & ->)]; [by apply Hgood|]. destruct (Hgood y Hin) as (Hl & z & Hz & HR).
    split; [|exists z; split; [done|by eapply R_beat]]. destruct Hl as (?&?&?&?&?&_&?). unfold line_ok; simpl; tauto.
  - pose proof (purge_ok now (st_registry st) Hok) as Hok'. rewrite Hp in Hok'. split_and!; [done| |done].
    injection Hp as <- _. apply Forall_forall. intros x [_ Hx]%list_elem_of_filter. by apply Hgood.
  - split_and!; [done|by apply Forall_forall|done].
Qed.

(** Advancing a node to a good state. *)
Lemma advance_inv c0 c a n rs : cluster_inv c0 c -> good_node c0 (advance a n rs c) n -> cluster_inv c0 (advance a n rs c).
Proof.
  intros (Hn & Hs & Hg) Hgood.
  assert (Hmono : forall x, good c0 c x -> good c0 (advance a n rs c) x) by (intros x; apply good_mono; simpl; set_solver).
  split_and!; cbn [members sent logged advance].
  - intros b m [[<- <-]|[_ Hb]]%lookup_insert_Some; [done|]. exact (good_node_mono _ _ _ _ Hmono (Hn b m Hb)).
  - eapply Forall_impl; [exact Hs|auto].
  - apply Forall_app_2; [eapply Forall_impl; [exact Hg|auto]|]. apply Forall_fmap. apply Hgood.
Qed.

Lemma cluster_inv_step c0 c c' : cluster_inv c0 c -> cluster_step c c' -> cluster_inv c0 c'.
Proof.
  intros Hinv Hstep. pose proof Hinv as (Hn & Hs & Hg). rewrite Forall_forall in Hs. rewrite Forall_forall in Hg.
  destruct Hstep as [a n n' c Ha Hst|a n n' r c Ha Hl Hst|a n r c Ha Hin|a n st c Ha Hok Hrec].
  - apply advance_inv; [done|]. apply (good_node_mono c0 c); [intros x; apply good_mono; simpl; set_solver|].
    apply (guarded_good c0 c (deliverable a (sent c)) n n'); [|done|by apply (Hn a n)].
    intros from r (_ & x & ex & Hx & ->). destruct (Hs x Hx) as (Hl & y & Hy & HR). split; [done|]. exists y. auto.
  - apply advance_inv; [done|]. set (c' := advance _ _ _ _).
    apply (guarded_good c0 c' (registers a r) n n'); [|done|].
    + intros from x (_ & -> & _). split; [done|]. exists r. split; [left; simpl; set_solver|done].
    + apply (good_node_mono c0 c); [intros x; apply good_mono; simpl; set_solver|by apply (Hn a n)].
  - split_and!; [exact Hn| |by apply Forall_forall]. simpl. apply Forall_app_2; [by apply Forall_forall|]. apply Forall_singleton.
    destruct (Hn a n Ha) as (_ & H & _). by eapply Forall_forall in H.
  - apply advance_inv; [done|]. apply (good_node_mono c0 c); [intros x; apply good_mono; simpl; set_solver|].
    split_and!; [done| |constructor]. eapply Forall_impl; [exact Hrec|]. intros x (y & Hy & Hyx).
    destruct (Hg _ Hy) as (Hl & z & Hz & HR). split; [by eapply recover_line|]. exists z. eauto.
Qed.

Lemma cluster_reachable_inv c0 c : initial c0 -> rtc cluster_step c0 c -> cluster_inv c0 c.
Proof.
  intros [Hsent Hinit Hlog] Hr. refine (rtc_ind_r (cluster_inv c0) _ _ _ _ Hr).
  - split_and!; [|by rewrite Hsent|].
    + intros a n Ha. destruct (Hinit a n Ha) as (H1 & H2 & H3). split_and!; [done| |by rewrite H3].
      apply Forall_forall. intros x Hx. rewrite Forall_forall in H2. split; [auto|]. exists x. split; [right; left; eauto|done].
    + apply Forall_forall. intros [b x] Hx. split; [by eapply Hlog|]. exists x. split; [right; right; eauto|done].
  - intros c1 c2 _ Hs Hi. by eapply cluster_inv_step.
Qed.
End provenance.
End cluster.

(** ** The program refines the cluster *)

Section lifting.
Context {W : Type} {S : Sodium} (protocols : string -> ControlProtocol) (beat : string -> Z -> AgentRegistry W -> Prop)
  (recovers : AgentRecord -> AgentRecord -> Prop).
Implicit Types (c : Cluster W) (n : Node W).
#[local] Abbreviation step := (cluster_step protocols beat recovers).

(** What a node does with what was sent. *)
Lemma cluster_works a c n n' : members c !! a = Some n -> rtc (guarded_step (deliverable protocols a (sent c)) beat) n n' ->
  exists c', rtc step c c' /\ members c' = <[a := n']> (members c) /\ sent c' = sent c /\ offered c' = offered c.
Proof.
  intros Ha Hr.
  refine (rtc_ind_r (fun n' => exists c', rtc step c c' /\ members c' = <[a := n']> (members c) /\ sent c' = sent c /\ offered c' = offered c) n _ _ n' Hr).
  - exists c. rewrite insert_id by done. by split_and!.
  - intros n1 n2 _ Hs (c1 & Hc & Hm & Hsent & Ho). exists (advance a n2 [] c1). split_and!.
    + etrans; [exact Hc|]. apply rtc_once. apply CWork with (n := n1); [rewrite Hm; apply lookup_insert_eq|by rewrite Hsent].
    + cbn [members advance]. by rewrite Hm, insert_insert_eq.
    + done.
    + cbn [offered advance]. by rewrite app_nil_r.
Qed.

(** What it does for a client. *)
Lemma cluster_registers a c n n' r : members c !! a = Some n -> line_ok r ->
  rtc (guarded_step (registers protocols a r) beat) n n' ->
  exists c' k, rtc step c c' /\ members c' = <[a := n']> (members c) /\ sent c' = sent c /\ offered c' = offered c ++ replicate k r.
Proof.
  intros Ha Hl Hr.
  refine (rtc_ind_r (fun n' => exists c' k, rtc step c c' /\ members c' = <[a := n']> (members c) /\ sent c' = sent c /\
    offered c' = offered c ++ replicate k r) n _ _ n' Hr).
  - exists c, 0%nat. rewrite insert_id by done. simpl. rewrite app_nil_r. by split_and!.
  - intros n1 n2 _ Hs (c1 & k & Hc & Hm & Hsent & Ho). exists (advance a n2 [r] c1), (Datatypes.S k). split_and!.
    + etrans; [exact Hc|]. apply rtc_once. apply CClient with (n := n1); [rewrite Hm; apply lookup_insert_eq|done|done].
    + cbn [members advance]. by rewrite Hm, insert_insert_eq.
    + done.
    + cbn [offered advance]. by rewrite Ho, replicate_S_end, app_assoc.
Qed.

(** What it sends. *)
Lemma cluster_sends a c n rs : members c !! a = Some n -> (forall r, r ∈ rs -> r ∈ stored n) ->
  exists c', rtc step c c' /\ members c' = members c /\ sent c' = sent c ++ rs /\ offered c' = offered c.
Proof.
  intros Ha. induction rs as [|r rs IH] using rev_ind; intros Hin; [exists c; by rewrite app_nil_r|].
  destruct IH as (c1 & Hc & Hm & Hs & Ho); [set_solver|].
  exists (mkCluster (members c1) (sent c1 ++ [r]) (offered c1) (logged c1)). split_and!; simpl; [|done|by rewrite Hs, app_assoc|done].
  etrans; [exact Hc|]. apply rtc_once. apply CSend with (a := a) (n := n); [by rewrite Hm|]. apply Hin. set_solver.
Qed.
End lifting.

(** ** Connections that fail *)

(** What can become of a connection to a peer: it is served and answered, does not reach the
    peer, or is served and its answer lost. *)
Inductive outcome := Served | Unreached | Unanswered.

Section flaky.
Context {W : Type} {S : Sodium} {Sort : StdSort} {Moved : MovedFrom}
  {Req : ProtoMessage V1.ControlRequest} {Resp : ProtoMessage V1.ControlResponse}
  (pb : bool) (protocol : ControlProtocol) (peer_clock : nat -> TimePoint) (peek : nat -> bytes -> nat)
  (peek_ok : forall n bs, session_ok (mkSession bs (peek n bs))) (outcomes : nat -> outcome).

(** The peer of [SyncClient], over connections of which the [n]-th comes to [outcomes n]. *)
Definition flaky_peer : Transport (PeerNode (W := W)) := fun peer request node =>
  let '(node', answer) := beacon_peer pb protocol peer_clock peek peer request node in
  match outcomes (peer_connections node) with
  | Served => (node', answer)
  | Unreached => (mkPeerNode (peer_state node) (Datatypes.S (peer_connections node)), ConnectFailed)
  | Unanswered => (node', Received "" read_failed)
  end.

(** A line over such a connection. *)
Lemma flaky_line peer line node :
  no_char newline line = true -> starts_with line "BN" = false ->
  let now := peer_clock (peer_connections node) in
  exists st answer, @send_command _ flaky_peer peer line node = (mkPeerNode st (Datatypes.S (peer_connections node)), answer) /\
    (answer = None /\ st = peer_state node \/
     st = (handle_line protocol now now line (peer_state node)).1 /\
     (answer = None \/ answer = Some (handle_line protocol now now line (peer_state node)).2)).
Proof.
  intros Hl Hbn now. pose proof (send_line pb protocol peer_clock peek peek_ok peer line node Hl Hbn) as Hs. fold now in Hs.
  unfold send_command, tcp_exchange, flaky_peer in *. destruct (beacon_peer _ _ _ _ _ _ _) as [node' answer] eqn:Hb.
  assert (Hans : exists resp, answer = Received resp read_eof).
  { unfold beacon_peer in Hb. destruct (serve_session _ _ _ _ _ _) as [st out]. injection Hb as <- <-. eauto. }
  destruct Hans as [resp ->]. destruct (handle_line protocol now now line (peer_state node)) as [st text]. injection Hs as -> ->.
  destruct (outcomes (peer_connections node)); eexists _, _; (split; [done|]); [right|left|right]; auto.
Qed.

(** The pushes that reach the peer are the first ones. *)
Lemma flaky_push peer entries node : Forall line_ok entries ->
  exists j, peer_state (@push_entries _ flaky_peer peer entries node).1 =
    (receive_merges protocol peer_clock (peer_connections node) (take j entries) (peer_state node)).1.
Proof.
  intros Hes. revert node. induction Hes as [|r rs Hr _ IH]; intros [st n]; [by exists 0%nat|]. cbn [push_entries].
  destruct (merge_command_line r Hr) as [Hnl Hbn].
  destruct (flaky_line peer _ (mkPeerNode st n) Hnl Hbn) as (st1 & answer & -> & Hst). cbn [peer_connections peer_state] in *.
  destruct Hst as [[-> ->]|[Hst Hans]]; [by exists 0%nat|].
  assert (Hline : handle_line protocol (peer_clock n) (peer_clock n) (encode_merge_command r) st =
    handle_store protocol (set_expires_at (peer_clock n + milliseconds (heartbeat_ttl (lifecycle_ protocol))) r) "OK message=merged" st).
  { unfold handle_line. by rewrite parse_merge_command by done. }
  rewrite Hline in Hst, Hans. destruct Hans as [-> | ->].
  - exists 1%nat. cbn [take receive_merges]. rewrite take_0. cbn [receive_merges]. rewrite Hst. by destruct (handle_store _ _ _ st).
  - destruct (IH (mkPeerNode st1 (Datatypes.S n))) as [j Hj]. exists (Datatypes.S j). cbn [take receive_merges].
    destruct (push_entries peer rs _) as [node' o]. cbn [fst peer_connections peer_state] in Hj.
    destruct (handle_store _ _ _ st) as [st2 resp]. simpl in Hst. subst st2.
    destruct (receive_merges _ _ _ (take j rs) st1) as [st3 k]. cbn [fst] in *. by destruct o.
Qed.
End flaky.

Section refinement.
Context {W : Type} {S : Sodium} {Sort : StdSort} {Moved : MovedFrom}
  {Req : ProtoMessage V1.ControlRequest} {Resp : ProtoMessage V1.ControlResponse}
  (protocols : string -> ControlProtocol) (beat : string -> Z -> AgentRegistry W -> Prop)
  (recovers : AgentRecord -> AgentRecord -> Prop)
  (pb : bool) (peer_clock : nat -> TimePoint) (peek : nat -> bytes -> nat)
  (peek_ok : forall n bs, session_ok (mkSession bs (peek n bs))) (outcomes : nat -> outcome).
Implicit Types (c : Cluster W) (st : NodeState W).
#[local] Abbreviation step := (cluster_step protocols beat recovers).

Lemma runs_receive_merges b messages k rs st : Forall (fun r => u64 (revision r)) rs -> (forall r, r ∈ rs -> r ∈ messages) ->
  runs (deliverable protocols b messages) beat st (receive_merges (protocols b) peer_clock k rs st).1.
Proof.
  revert k st. induction rs as [|r rs IH]; intros k st Hu Hin; [done|]. apply Forall_cons in Hu as [Hr Hu]. cbn [receive_merges].
  set (r' := set_expires_at _ r).
  pose proof (runs_handle_store (protocols b) (deliverable protocols b messages) beat r' "OK message=merged" st) as Hrun.
  destruct (handle_store _ _ _ st) as [st1 resp]. specialize (IH (Datatypes.S k) st1 Hu ltac:(set_solver)).
  destruct (receive_merges _ _ _ rs st1) as [st2 j]. etrans; [apply Hrun|apply IH]; [done|].
  intros Ha. split; [done|]. exists r, (expires_at r'). split; [set_solver|by destruct r].
Qed.

(** What a round does to the two nodes, whatever becomes of its connections: nothing, or the
    local node merges the page of the peer, and the peer executes the first so many merges. *)
Lemma flaky_round b this peer clock st (node : PeerNode (W := W)) :
  registry_ok (st_registry st) ->
  Forall line_ok (records_ (st_registry st)) -> Forall line_ok (records_ (st_registry (peer_state node))) ->
  u64 (max_entries_per_round_ this) ->
  let '(st', node', _) := @sync_with_peer W S Sort _ (flaky_peer pb (protocols b) peer_clock peek outcomes) this peer clock st node in
  (st' = st /\ peer_state node' = peer_state node) \/
  exists page push k, (forall x, x ∈ page -> x ∈ records_ (st_registry (peer_state node))) /\
    let '(reg, w, id', _) := merge (stamped clock page) (st_identity st) (st_registry st) (st_world st) in
    st' = mkNodeState reg w id' /\ (forall x, x ∈ push -> x ∈ records_ reg) /\
    peer_state node' = (receive_merges (protocols b) peer_clock k push (peer_state node)).1.
Proof.
  intros Hok Hl Hr Hmax. pose proof (stats_u64 _ Hok) as Hrev. destruct node as [rst n]. cbn [peer_state] in Hr.
  unfold sync_with_peer. set (T := flaky_peer _ _ _ _ _).
  destruct (flaky_line pb (protocols b) peer_clock peek peek_ok outcomes peer "STATS" (mkPeerNode rst n) eq_refl eq_refl)
    as (st1 & a1 & Hs1 & Hst1). cbn [peer_state peer_connections] in *.
  assert (st1 = rst) as -> by (destruct Hst1 as [[_ ->]|[-> _]]; done). clear Hst1. fold T in Hs1. rewrite Hs1.
  destruct a1 as [stats_text|]; [|by left].
  destruct (sync_pull_line (highest_revision (stats (st_registry st))) (max_entries_per_round_ this)) as [Hnl Hbn]; [lia..|].
  destruct (flaky_line pb (protocols b) peer_clock peek peek_ok outcomes peer _ (mkPeerNode rst (Datatypes.S n)) Hnl Hbn)
    as (st2 & a2 & Hs2 & Hst2). cbn [peer_state peer_connections] in *. fold T in Hs2. rewrite Hs2.
  set (page := entries_after_revision (highest_revision (stats (st_registry st))) (max_entries_per_round_ this) (st_registry rst)).
  assert (Hpull : handle_line (protocols b) (peer_clock (Datatypes.S n)) (peer_clock (Datatypes.S n))
    (encode_sync_pull_command (highest_revision (stats (st_registry st))) (max_entries_per_round_ this)) rst =
    (rst, agents_response "OK message=sync_pull" page)).
  { unfold handle_line. by rewrite parse_sync_pull_command by done. }
  rewrite Hpull in Hst2. cbn [fst snd] in Hst2.
  assert (st2 = rst) as -> by (destruct Hst2 as [[_ ->]|[-> _]]; done).
  destruct a2 as [response|]; [|by left]. assert (response = agents_response "OK message=sync_pull" page) as ->.
  { destruct Hst2 as [[[=] _]|[_ [[=]|[= ->]]]]. done. }
  clear Hst2. assert (Hpage : forall x, x ∈ page -> x ∈ records_ (st_registry rst)) by (by intros x [? _]%entries_after_elem).
  assert (Hpl : Forall line_ok page) by (apply Forall_forall; intros x Hx%Hpage; by eapply Forall_forall in Hr).
  unfold merge_response. rewrite parse_agents_response by done. fold (stamped clock page).
  pose proof (merge_elem (stamped clock page) (st_identity st) (st_registry st) (st_world st)) as Hin.
  destruct (merge (stamped clock page) _ _ _) as [[[reg w] identity] n_pulled] eqn:Hmerge. cbn [fst] in Hin.
  set (push := push_entries_of _).
  assert (Hpush : forall x, x ∈ push -> x ∈ records_ reg) by (by intros x [? _]%entries_after_elem).
  assert (Hpushl : Forall line_ok push).
  { apply Forall_forall. intros x [Hx|Hx]%Hpush%Hin; [by eapply Forall_forall in Hl|].
    apply stamped_elem in Hx as (ex & r & Hx & ->). apply set_expires_line_ok. by eapply Forall_forall in Hpl. }
  destruct (flaky_push pb (protocols b) peer_clock peek peek_ok outcomes peer push (mkPeerNode rst (Datatypes.S (Datatypes.S n))) Hpushl) as [j Hj].
  fold T in Hj. destruct (push_entries peer push _) as [node' o]. cbn [fst peer_connections peer_state] in Hj.
  assert (Hend : peer_state node' = (receive_merges (protocols b) peer_clock (Datatypes.S (Datatypes.S n)) (take j push) rst).1) by done.
  destruct o; right; exists page, (take j push), (Datatypes.S (Datatypes.S n));
    (split; [done|]); rewrite Hmerge; (split_and!; [done| |done]); intros x Hx%subseteq_take; auto.
Qed.

(** A round of two members, as [sync_with_peer] and the peer's server execute it. *)
Lemma round_steps a b c st pa pb_ (node : PeerNode (W := W)) this peer clock :
  a <> b -> members c !! a = Some (mkNode st pa) -> members c !! b = Some (mkNode (peer_state node) pb_) ->
  registry_ok (st_registry st) ->
  Forall line_ok (records_ (st_registry st)) -> Forall line_ok (records_ (st_registry (peer_state node))) ->
  st_identity st <> None -> u64 (max_entries_per_round_ this) ->
  let '(st', node', _) := @sync_with_peer W S Sort _ (flaky_peer pb (protocols b) peer_clock peek outcomes) this peer clock st node in
  exists c', rtc step c c' /\ offered c' = offered c /\
    members c' = <[b := mkNode (peer_state node') pb_]> (<[a := mkNode st' pa]> (members c)).
Proof.
  intros Hab Ha Hb Hok Hl Hlr Hid Hmax.
  pose proof (flaky_round b this peer clock st node Hok Hl Hlr Hmax) as Hround.
  destruct (sync_with_peer _ _ _ _ _) as [[st' node'] res].
  destruct Hround as [[-> ->]|(page & push & k & Hpage & Hround)].
  { exists c. split_and!; [done|done|]. by rewrite (insert_id _ a), insert_id by done. }
  assert (Hu : forall x, x ∈ page -> u64 (revision x)).
  { intros x Hx%Hpage. rewrite Forall_forall in Hlr. apply (Hlr x Hx). }
  destruct (cluster_sends protocols beat recovers b c _ page Hb Hpage) as (c1 & Hc1 & Hm1 & Hs1 & Ho1).
  assert (Hrange : Forall (fun r => u64 (revision r)) (stamped clock page)).
  { apply Forall_forall. intros x (ex & y & Hy & ->)%stamped_elem. exact (Hu y Hy). }
  pose proof (runs_merge (protocols a) (deliverable protocols a (sent c1)) beat (stamped clock page) st Hid Hrange) as Hm.
  pose proof (merge_elem (stamped clock page) (st_identity st) (st_registry st) (st_world st)) as Hin.
  destruct (merge (stamped clock page) _ _ _) as [[[reg w] identity] n_pulled].
  destruct Hround as (-> & Hpush & ->), Hm as [Hm _].
  { apply Forall_forall. intros x (ex & y & Hy & ->)%stamped_elem Hadm. split; [done|]. exists y, ex. rewrite Hs1. split; [set_solver|done]. }
  destruct (cluster_works protocols beat recovers a c1 _ _ ltac:(by rewrite Hm1) (Hm pa)) as (c2 & Hc2 & Hm2 & Hs2 & Ho2).
  destruct (cluster_sends protocols beat recovers a c2 (mkNode (mkNodeState reg w identity) pa) push) as (c3 & Hc3 & Hm3 & Hs3 & Ho3);
    [rewrite Hm2; apply lookup_insert_eq|done|].
  pose proof (runs_receive_merges b (sent c3) k push (peer_state node)) as Hrun.
  assert (Hpu : Forall (fun r => u64 (revision r)) push).
  { apply Forall_forall. intros x [Hx|Hx]%Hpush%Hin; rewrite Forall_forall in Hl, Hrange; [apply (Hl x Hx)|by apply Hrange]. }
  specialize (Hrun Hpu ltac:(rewrite Hs3; set_solver)).
  destruct (cluster_works protocols beat recovers b c3 (mkNode (peer_state node) pb_)
    (mkNode (receive_merges (protocols b) peer_clock k push (peer_state node)).1 pb_)) as (c4 & Hc4 & Hm4 & Hs4 & Ho4);
    [by rewrite Hm3, Hm2, Hm1, lookup_insert_ne by done|exact (Hrun pb_)|].
  exists c4. split_and!; [by etrans; [exact Hc1|etrans; [exact Hc2|etrans; [exact Hc3|exact Hc4]]]|congruence|].
  by rewrite Hm4, Hm3, Hm2, Hm1.
Qed.

(** A line of a client, as the server executes it. *)
Lemma line_steps a c st pending init now line :
  members c !! a = Some (mkNode st pending) ->
  (let cmd := parse_command (protocols a) init now line in
   error cmd = "" -> action cmd = ControlProtocol.Heartbeat -> beat (cmd_agent_id cmd) (revision (registration cmd)) (st_registry st)) ->
  exists c' more, rtc step c c' /\ offered c' = offered c ++ more /\
    members c' = <[a := mkNode (handle_line (protocols a) init now line st).1 pending]> (members c) /\
    forall x, x ∈ more -> x = registration (parse_command (protocols a) init now line).
Proof.
  intros Ha Hbeat. set (cmd := parse_command (protocols a) init now line).
  destruct (decide (error cmd = "" /\ (action cmd = Register \/ action cmd = Merge))) as [[He Hact]|Hno].
  - pose proof (parse_command_line_ok (protocols a) init now line He Hact) as Hl. fold cmd in Hl.
    pose proof (runs_handle_line (protocols a) (registers protocols a (registration cmd)) beat init now line st) as Hrun.
    destruct (cluster_registers protocols beat recovers a c _ (mkNode (handle_line (protocols a) init now line st).1 pending) (registration cmd) Ha Hl)
      as (c' & k & Hc & Hm & _ & Ho).
    { apply Hrun; [|exact Hbeat]. fold cmd. by intros _ _ Hadm. }
    exists c', (replicate k (registration cmd)). split_and!; [done..|]. by intros x [-> _]%elem_of_replicate.
  - pose proof (runs_handle_line (protocols a) (deliverable protocols a (sent c)) beat init now line st) as Hrun.
    destruct (cluster_works protocols beat recovers a c _ (mkNode (handle_line (protocols a) init now line st).1 pending) Ha) as (c' & Hc & Hm & _ & Ho).
    { apply Hrun; [|exact Hbeat]. fold cmd. intros He Hact. by destruct Hno. }
    exists c', []. rewrite app_nil_r. split_and!; [done..|by intros x ?%elem_of_nil].
Qed.

(** A request of a protobuf client, whose registration the line format carries. *)
Lemma request_steps a c st pending now request :
  members c !! a = Some (mkNode st pending) -> proto_valid request ->
  (forall r, request_registers request = Some r -> line_ok (from_proto r (lifecycle_ (protocols a)) now)) ->
  (forall h, request = V1.heartbeat h -> beat (V1.hb_agent_id h) (V1.hb_revision h) (st_registry st)) ->
  exists c' more, rtc step c c' /\ offered c' = offered c ++ more /\
    members c' = <[a := mkNode (handle_request (protocols a) now request st).1 pending]> (members c) /\
    forall x, x ∈ more -> exists r, request_registers request = Some r /\ x = from_proto r (lifecycle_ (protocols a)) now.
Proof.
  intros Ha Hv Hline Hbeat. destruct (request_registers request) as [r|] eqn:Hr.
  - set (x := from_proto r (lifecycle_ (protocols a)) now). specialize (Hline r eq_refl).
    destruct (cluster_registers protocols beat recovers a c _ (mkNode (handle_request (protocols a) now request st).1 pending) x Ha Hline)
      as (c' & k & Hc & Hm & _ & Ho).
    { apply (runs_request (protocols a)); [done| |done]. intros r' Hr' x' Hadm. rewrite Hr in Hr'. by injection Hr' as <-. }
    exists c', (replicate k x). split_and!; [done..|]. intros y [-> _]%elem_of_replicate. by exists r.
  - destruct (cluster_works protocols beat recovers a c _ (mkNode (handle_request (protocols a) now request st).1 pending) Ha) as (c' & Hc & Hm & _ & Ho).
    { apply (runs_request (protocols a)); [done| |done]. intros r' Hr'. by rewrite Hr in Hr'. }
    exists c', []. rewrite app_nil_r. split_and!; [done..|by intros x ?%elem_of_nil].
Qed.
End refinement.

(** ** Restarts *)

Lemma restored_line now y : line_ok y -> line_ok (restored now y).
Proof.
  intros (Ha & Hn & He & _ & _ & Hr & _). unfold line_ok, restored, record_of_entry, entry_of_record.
  cbn [agent_id node_id endpoint revision metadata public_key_hex signature_hex ent_agent_id ent_capability ent_endpoint ent_timestamp
       ent_public_key ent_signature].
  split; [done|]. split; [done|]. split; [done|]. split; [apply encode_hex_no_space|]. split; [apply encode_hex_no_space|].
  split; [done|]. intros k v Hk. by rewrite lookup_empty in Hk.
Qed.

(** A second restart loses nothing more. *)
Lemma restored_again t t' y : restored t (restored t' y) = set_expires_at t (restored t' y).
Proof.
  unfold restored, record_of_entry, entry_of_record, set_expires_at.
  cbn [agent_id node_id endpoint revision metadata public_key_hex signature_hex ent_agent_id ent_capability ent_endpoint ent_timestamp
       ent_public_key ent_signature]. by rewrite !decode_encode_hex.
Qed.

Lemma from_log_line x x' : from_log x x' -> line_ok x -> line_ok x'.
Proof. intros (now & ex & ->) Hl. by apply set_expires_line_ok, restored_line. Qed.

(** The same claim, or what the log keeps of it: no metadata, and key and signature in the
    spelling of [encode_hex]. *)
Definition kept_claim (y x : AgentRecord) : Prop := same_claim y x \/ same_claim (restored 0 y) x.

Lemma restored_claim y x : same_claim y x -> same_claim (restored 0 y) (restored 0 x).
Proof. destruct y, x. unfold same_claim, restored. simpl. by intros [= -> -> -> -> -> ->]. Qed.

Lemma kept_claim_recover y x x' : from_log x x' -> kept_claim y x -> kept_claim y x'.
Proof.
  intros (now & ex & ->) Hk. right.
  assert (Hx : same_claim (restored 0 x) (set_expires_at ex (restored now x))) by by destruct x.
  destruct Hk as [Hy|Hy]; apply restored_claim in Hy; [by etrans|]. rewrite restored_again in Hy.
  etrans; [|exact Hx]. etrans; [|exact Hy]. done.
Qed.

(** The same registration, whatever its expiry; and the same, or what the log keeps of it. *)
Definition same_entry (x y : AgentRecord) : Prop := set_expires_at 0 x = set_expires_at 0 y.
#[global] Instance same_entry_equiv : Equivalence same_entry.
Proof. split; unfold same_entry; congruence. Qed.
Definition kept_entry (y x : AgentRecord) : Prop := same_entry y x \/ same_entry (restored 0 y) x.

Lemma restored_entry y x : same_entry y x -> same_entry (restored 0 y) (restored 0 x).
Proof. destruct y, x. unfold same_entry, restored. simpl. by intros [= -> -> -> -> -> -> ->]. Qed.

Lemma kept_entry_restored y x : kept_entry y x -> same_entry (restored 0 y) (restored 0 x).
Proof. intros [Hy|Hy]; apply restored_entry in Hy; [done|]. rewrite restored_again in Hy. etrans; [|exact Hy]. done. Qed.

Lemma kept_entry_recover y x x' : from_log x x' -> kept_entry y x -> kept_entry y x'.
Proof. intros (now & ex & ->) Hk%kept_entry_restored. right. etrans; [exact Hk|]. by destruct x. Qed.

Section restart.
Context {E : PathEnv} {M : Machine} {P : ProtoMessage RegistryEntry} {L : ProtoLaws RegistryEntry} {S : Sodium}
  (protocols : string -> ControlProtocol) (beat : string -> Z -> AgentRegistry disk -> Prop).

(** The engine, started again on a log that holds records handed to the callback of the node in
    its earlier lives, all of them or not, is a node after [CRestart]. *)
Theorem restart_refines_cluster persistence wal snap now a (c : Cluster disk) n d log svc
    (paths : located persistence wal snap) (member : members c !! a = Some n)
    (on_disk : holds wal snap d [] 0 (entry_of_record <$> log)) (loggable_log : Forall (fun r => loggable (entry_of_record r)) log)
    (own : forall x, x ∈ log -> (a, x) ∈ logged c) :
  exists reg, restore persistence now d = Some reg /\
    cluster_step protocols beat from_log c (advance a (mkNode (mkNodeState reg d svc) []) [] c).
Proof.
  destruct (restore_reload_ok persistence wal snap now d log paths on_disk loggable_log) as (reg & Hreg & Hok & Hby).
  exists reg. split; [done|]. apply CRestart with (n := n); [done|done|]. cbn [st_registry]. apply Forall_forall. intros x Hx.
  apply elem_by_id in Hx; [|apply Hok]. rewrite Hby in Hx. pose proof (reload_max now log (agent_id x)) as Hmax. rewrite Hx in Hmax.
  destruct Hmax as (y & ex & -> & Hy & _). exists y. split; [by apply own|]. by exists now, ex.
Qed.
End restart.

(** ** Properties *)

Section properties.
Context {W : Type} {S : Sodium} (protocols : string -> ControlProtocol).
Implicit Types (c : Cluster W) (n : Node W).

(** (C4) Nothing is made up anywhere in a cluster whose clients register only what the line format
    carries (true of everything that comes over the line protocol) and between whose nodes
    messages arrive whole or not at all.  However many nodes gossip, in whatever order, with
    messages delayed, duplicated or lost, nodes stopping and starting again from their logs and
    records expiring, every node's registry is well-formed, and every registration on every
    node is one some client offered to some node, or one the cluster started with in a registry
    or a log, up to the expiry and revision that heartbeats move and, after a restart on its
    way, without its metadata and with its key and signature respelled. *)
Theorem cluster_provenance c0 c a n x
    (start : initial c0) (ran : rtc (cluster_step protocols any_beat from_log) c0 c)
    (member : members c !! a = Some n) (found : x ∈ stored n) :
  registry_ok (st_registry (nd_state n)) /\ line_ok x /\
  exists y, kept_claim y x /\
    (y ∈ offered c \/ (exists b m, members c0 !! b = Some m /\ y ∈ stored m) \/ exists b, (b, y) ∈ logged c0).
Proof.
  edestruct (cluster_reachable_inv (W := W) protocols any_beat from_log kept_claim) as [Hn _]; [..|exact start|exact ran|].
  - by left.
  - intros y z ex [Hy|Hy]; [left|right]; (etrans; [exact Hy|]); by destruct z.
  - intros id rev reg y z ex _ _ [Hy|Hy]; [left|right]; (etrans; [exact Hy|]); apply same_claim_heartbeat.
  - intros y z z'. apply kept_claim_recover.
  - apply from_log_line.
  - destruct (Hn a n member) as (Hok & Hg & _). rewrite Forall_forall in Hg. destruct (Hg x found) as (Hl & y & Hy & Hc).
    split_and!; [done|done|]. by exists y.
Qed.

(** A heartbeat that repeats the revision of the registration it renews. *)
Definition renewing (id : string) (rev : Z) (reg : AgentRegistry W) : Prop :=
  forall e, find id reg = Some e -> revision e = rev.

Lemma found_stored aid n x : find aid (st_registry (nd_state n)) = Some x -> x ∈ stored n /\ agent_id x = aid.
Proof.
  intros ([i z] & Hf & ->)%fmap_Some. apply find_agent_id in Hf as [Hi Hid]. split; [by eapply list_elem_of_lookup_2|done].
Qed.

(** What two nodes hold of an agent at one revision goes back to the same registration. *)
Lemma same_origin R c0 c a1 a2 n1 n2 x1 x2 : cluster_inv R c0 c ->
  (forall y1 y2, origin_of c0 c y1 -> origin_of c0 c y2 -> agent_id y1 = agent_id y2 -> revision y1 = revision y2 -> same_entry y1 y2) ->
  (forall y x, R y x -> agent_id y = agent_id x /\ revision y = revision x) ->
  members c !! a1 = Some n1 -> members c !! a2 = Some n2 ->
  find (agent_id x1) (st_registry (nd_state n1)) = Some x1 -> find (agent_id x1) (st_registry (nd_state n2)) = Some x2 ->
  revision x1 = revision x2 ->
  exists y1 y2, R y1 x1 /\ R y2 x2 /\ same_entry y1 y2.
Proof.
  intros [Hn _] Hcoh HR H1 H2 Hf1 Hf2 Hrev.
  destruct (found_stored _ _ _ Hf1) as [Hs1 _], (found_stored _ _ _ Hf2) as [Hs2 Hid].
  destruct (Hn a1 n1 H1) as (_ & Hg1 & _), (Hn a2 n2 H2) as (_ & Hg2 & _). rewrite Forall_forall in Hg1, Hg2.
  destruct (Hg1 x1 Hs1) as (_ & y1 & Ho1 & HR1), (Hg2 x2 Hs2) as (_ & y2 & Ho2 & HR2).
  exists y1, y2. split_and!; [done|done|]. destruct (HR _ _ HR1), (HR _ _ HR2). apply Hcoh; [done|done|congruence..].
Qed.

(** (C5) Agreement of replicas, in a cluster as above.  If no two registrations that were ever
    offered (or were there at the start) differ although they have the same agent and revision,
    and heartbeats renew without moving revisions, then any two nodes that hold an agent at the
    same revision hold it, at every moment and whatever happened to the messages, with the same
    node, endpoint, key and signature; and where no node restarts from a log, they hold exactly
    the same registration, metadata included.  (A node that restarted has lost the metadata.) *)
Theorem cluster_agreement recovers c0 c a1 a2 n1 n2 x1 x2
    (start : initial c0) (logs : forall y x, recovers y x -> from_log y x) (ran : rtc (cluster_step protocols renewing recovers) c0 c)
    (coherent : forall y1 y2, origin_of c0 c y1 -> origin_of c0 c y2 ->
       agent_id y1 = agent_id y2 -> revision y1 = revision y2 -> same_entry y1 y2)
    (at1 : members c !! a1 = Some n1) (at2 : members c !! a2 = Some n2)
    (found1 : find (agent_id x1) (st_registry (nd_state n1)) = Some x1)
    (found2 : find (agent_id x1) (st_registry (nd_state n2)) = Some x2)
    (level : revision x1 = revision x2) :
  same_entry (restored 0 x1) (restored 0 x2) /\ ((forall y x, ~ recovers y x) -> same_entry x1 x2).
Proof.
  assert (Hbeat : forall id rev reg z ex, renewing id rev reg -> find id reg = Some z -> same_entry z (set_revision rev (set_expires_at ex z))).
  { intros id rev reg z ex Hb Hf. unfold same_entry. rewrite <- (Hb z Hf). by destruct z. }
  assert (Hexp : forall z ex, same_entry z (set_expires_at ex z)) by (by intros []).
  split.
  - destruct (same_origin kept_entry c0 c a1 a2 n1 n2 x1 x2) as (y1 & y2 & H1 & H2 & Hy); try done.
    + apply (cluster_reachable_inv (W := W) protocols renewing recovers kept_entry); [by left|..|done|done].
      * intros y z ex [Hy|Hy]; [left|right]; by etrans.
      * intros id rev reg y z ex Hb Hf [Hy|Hy]; [left|right]; (etrans; [exact Hy|]); by eapply Hbeat.
      * intros y z z' Hz. by apply kept_entry_recover, logs.
      * intros z z' Hz. by apply from_log_line, logs.
    + intros y x [Hy|Hy]; (split; [by apply (f_equal agent_id) in Hy|by apply (f_equal revision) in Hy]).
    + etrans; [symmetry; by apply kept_entry_restored|]. etrans; [by apply restored_entry|]. by apply kept_entry_restored.
  - intros Hno. destruct (same_origin same_entry c0 c a1 a2 n1 n2 x1 x2) as (y1 & y2 & H1 & H2 & Hy); try done.
    + apply (cluster_reachable_inv (W := W) protocols renewing recovers same_entry); [done|..|done|done].
      * intros y z ex Hy. by etrans.
      * intros id rev reg y z ex Hb Hf Hy. etrans; [exact Hy|]. by eapply Hbeat.
      * intros y z z' Hz. by destruct (Hno z z').
      * intros z z' Hz. by destruct (Hno z z').
    + intros y x Hy. split; [by apply (f_equal agent_id) in Hy|by apply (f_equal revision) in Hy].
    + etrans; [symmetry; exact H1|]. by etrans.
Qed.
End properties.

Section refines.
Context {W : Type} {S : Sodium} {Sort : StdSort} {Moved : MovedFrom}
  {Req : ProtoMessage V1.ControlRequest} {Resp : ProtoMessage V1.ControlResponse}
  (protocols : string -> ControlProtocol) (recovers : AgentRecord -> AgentRecord -> Prop)
  (pb : bool) (peer_clock : nat -> TimePoint) (peek : nat -> bytes -> nat)
  (peek_ok : forall n bs, session_ok (mkSession bs (peek n bs))) (outcomes : nat -> outcome).

(** (C6) Rounds and requests of the program are steps of the cluster, where the line format
    carries the records of the two nodes.  When the synchronisation client of node [a] runs a
    round against the server of node [b], through both parsers and both encoders, over
    connections any of which may fail to reach the peer or lose its answer as a whole, and when
    a node serves any line of any client, or any protobuf request that is not a registration
    outside the line format, the states of the nodes change exactly as by a sequence of cluster
    steps, in which nothing is offered but the registration of the line or request. *)
Theorem program_refines_cluster a b (c : Cluster W) st pending_a pending_b (node : PeerNode (W := W)) this peer clock
    (apart : a <> b) (member_a : members c !! a = Some (mkNode st pending_a))
    (member_b : members c !! b = Some (mkNode (peer_state node) pending_b))
    (ok_a : registry_ok (st_registry st))
    (lines_a : Forall line_ok (records_ (st_registry st))) (lines_b : Forall line_ok (records_ (st_registry (peer_state node))))
    (identity_a : st_identity st <> None) (limit : u64 (max_entries_per_round_ this)) :
  (let '(st', node', _) :=
     @sync_with_peer W S Sort _ (flaky_peer pb (protocols b) peer_clock peek outcomes) this peer clock st node in
   exists c', rtc (cluster_step protocols any_beat recovers) c c' /\ offered c' = offered c /\
     members c' = <[b := mkNode (peer_state node') pending_b]> (<[a := mkNode st' pending_a]> (members c))) /\
  (forall init now line, exists c' more, rtc (cluster_step protocols any_beat recovers) c c' /\ offered c' = offered c ++ more /\
     members c' = <[a := mkNode (handle_line (protocols a) init now line st).1 pending_a]> (members c) /\
     forall x, x ∈ more -> x = registration (parse_command (protocols a) init now line)) /\
  (forall now request, proto_valid request ->
     (forall r, request_registers request = Some r -> line_ok (from_proto r (lifecycle_ (protocols a)) now)) ->
     exists c' more, rtc (cluster_step protocols any_beat recovers) c c' /\ offered c' = offered c ++ more /\
       members c' = <[a := mkNode (handle_request (protocols a) now request st).1 pending_a]> (members c) /\
       forall x, x ∈ more -> exists r, request_registers request = Some r /\ x = from_proto r (lifecycle_ (protocols a)) now).
Proof.
  split_and!; [by apply round_steps| |].
  - intros init now line. by apply line_steps.
  - intros now request Hv Hl. by apply request_steps.
Qed.
End refines.

(** ** Witnesses *)

(** Two nodes, of which "a" has logged an agent with metadata in an earlier life.  It starts
    again; a client registers an agent on "b"; and "a" gossips with "b". *)
Definition example_x (ex : TimePoint) : AgentRecord := mkAgentRecord "x" "n" "h:1" ∅ 4 ex "" "".
Definition example_z : AgentRecord := mkAgentRecord "z" "n" "h:2" {["k" := "v"]} 2 0 "" "".
Definition example_cluster : Cluster unit :=
  mkCluster (<["a"%string := mkNode (example_node []) []]> (<["b"%string := mkNode (example_node []) []]> ∅)) [] [] [("a"%string, example_z)].
Definition example_back : NodeState unit := example_node [restored 0 example_z].
Definition example_line : string := "REGISTER agent_id=x node_id=n endpoint=h:1 revision=4".
Definition example_after : NodeState unit := (handle_line open_protocol 0 0 example_line (example_node [])).1.
Definition all_served (_ : nat) : outcome := Served.
Definition example_round : NodeState unit * PeerNode * option SyncResult :=
  @sync_with_peer unit toy_sodium _ PeerNode
    (@flaky_peer unit toy_sodium _ libstdcxx_moved_from toy_request toy_response true open_protocol (fun _ => 5) whole_peek all_served)
    (mkSyncClient 256) (mkSyncPeer "b" 43171) (fun _ => 9) example_back (mkPeerNode example_after 0).

Lemma example_z_line : line_ok example_z.
Proof.
  split_and!; try done. intros k v Hk. change (metadata example_z) with ({["k" := "v"]} : gmap string string) in Hk.
  by apply lookup_singleton_Some in Hk as [<- <-].
Qed.

Lemma example_start : initial example_cluster.
Proof.
  split; [done| |].
  - cbn [members example_cluster]. intros b m [[<- <-]|[_ [[<- <-]|[_ [=]]]%lookup_insert_Some]]%lookup_insert_Some;
      (split_and!; [split; constructor|constructor|done]).
  - cbn [logged example_cluster]. intros b x Hx%list_elem_of_singleton. injection Hx as -> ->. exact example_z_line.
Qed.

Lemma example_history (beat : string -> Z -> AgentRegistry unit -> Prop) : exists c,
  rtc (cluster_step (fun _ => open_protocol) beat from_log) example_cluster c /\
  members c !! "a"%string = Some (mkNode example_round.1.1 []) /\ members c !! "b"%string = Some (mkNode (peer_state example_round.1.2) []) /\
  forall x, x ∈ offered c -> x = example_x 30000000000.
Proof.
  set (c1 := advance "a" (mkNode example_back []) [] example_cluster).
  assert (H1 : cluster_step (S := toy_sodium) (fun _ => open_protocol) beat from_log example_cluster c1).
  { apply CRestart with (n := mkNode (example_node []) []); [done|by apply example_registry_ok|].
    apply Forall_singleton. exists example_z. split; [by apply list_elem_of_singleton|]. by exists 0, 0. }
  destruct (line_steps (S := toy_sodium) (fun _ => open_protocol) beat from_log "b" c1 (example_node []) [] 0 0 example_line)
    as (c2 & more & H2 & Ho & Hm & Hmore).
  { reflexivity. }
  { intros cmd _. discriminate. }
  change ((handle_line open_protocol 0 0 example_line (example_node [])).1) with example_after in Hm.
  assert (Ha : members c2 !! "a"%string = Some (mkNode example_back [])) by (rewrite Hm; reflexivity).
  assert (Hb : members c2 !! "b"%string = Some (mkNode example_after [])) by (rewrite Hm; reflexivity).
  assert (Hafter : example_after = example_node [example_x 30000000000]) by by vm_compute.
  pose proof (@round_steps unit toy_sodium _ libstdcxx_moved_from toy_request toy_response (fun _ => open_protocol) beat from_log true (fun _ => 5)
    whole_peek whole_peek_ok all_served "a" "b" c2 example_back [] [] (mkPeerNode example_after 0) (mkSyncClient 256) (mkSyncPeer "b" 43171) (fun _ => 9)
    ltac:(discriminate) Ha Hb) as H3.
  destruct (sync_with_peer _ _ _ _ _) as [[st' node'] res] eqn:Hround in H3. destruct H3 as (c3 & H3 & Ho3 & Hm3).
  - by apply example_registry_ok.
  - apply Forall_singleton, restored_line, example_z_line.
  - cbn [peer_state]. rewrite Hafter. apply Forall_singleton, (example_line_ok "x" 4); [done|lia].
  - done.
  - simpl. lia.
  - exists c3. unfold example_round. rewrite Hround. cbn [fst snd]. split_and!.
    + eapply rtc_l; [exact H1|]. by etrans.
    + rewrite Hm3, lookup_insert_ne by done. apply lookup_insert_eq.
    + rewrite Hm3. apply lookup_insert_eq.
    + intros x. rewrite Ho3, Ho. simpl. exact (Hmore x).
Qed.

(** Agent "z" has come back on "a" without its metadata. *)
Lemma cluster_provenance_witness :
  exists (c : Cluster unit) (n : Node unit), members c !! "a"%string = Some n /\
    find "z" (st_registry (nd_state n)) = Some (restored 0 example_z) /\ metadata (restored 0 example_z) <> metadata example_z /\
    registry_ok (st_registry (nd_state n)) /\
    exists y, kept_claim y (restored 0 example_z) /\
      (y ∈ offered c \/ (exists b m, members example_cluster !! b = Some m /\ y ∈ stored m) \/ exists b, (b, y) ∈ logged example_cluster).
Proof.
  destruct (example_history any_beat) as (c & H & Ha & _). exists c, (mkNode example_round.1.1 []).
  split; [exact Ha|]. split; [by vm_compute|]. split; [by vm_compute|].
  destruct (@cluster_provenance unit toy_sodium (fun _ => open_protocol) example_cluster c "a" (mkNode example_round.1.1 [])
    (restored 0 example_z) example_start H Ha) as (H1 & _ & H2).
  - apply (bool_decide_unpack (_ ∈ _)). by vm_compute.
  - split; [exact H1|exact H2].
Defined.

Lemma cluster_agreement_witness :
  exists x1 x2, find "x" (st_registry example_round.1.1) = Some x1 /\
    find "x" (st_registry (peer_state example_round.1.2)) = Some x2 /\ x1 <> x2 /\ same_entry (restored 0 x1) (restored 0 x2).
Proof.
  destruct (example_history renewing) as (c & H & Ha & Hb & Hmore).
  exists (example_x 60000000009), (example_x 30000000000).
  split; [by vm_compute|]. split; [by vm_compute|]. split; [discriminate|].
  destruct (@cluster_agreement unit toy_sodium (fun _ => open_protocol) from_log example_cluster c "a" "b"
    (mkNode example_round.1.1 []) (mkNode (peer_state example_round.1.2) []) (example_x 60000000009) (example_x 30000000000)) as [Hsame _].
  - exact example_start.
  - intros y x Hyx. exact Hyx.
  - exact H.
  - assert (Ho : forall y, origin_of example_cluster c y -> y = example_x 30000000000 \/ y = example_z).
    { intros y [Hy|[(b & m & Hm & Hy)|[b Hy]]]; [left; by apply Hmore| |right].
      - cbn [members example_cluster] in Hm.
        apply lookup_insert_Some in Hm as [[<- <-]|[_ [[<- <-]|[_ [=]]]%lookup_insert_Some]]; by apply elem_of_nil in Hy.
      - cbn [logged example_cluster] in Hy. apply list_elem_of_singleton in Hy. by injection Hy as -> ->. }
    intros y1 y2 [-> | ->]%Ho [-> | ->]%Ho; try reflexivity; discriminate.
  - exact Ha.
  - exact Hb.
  - by vm_compute.
  - by vm_compute.
  - reflexivity.
  - exact Hsame.
Defined.

(** A round whose second connection never reaches the peer. *)
Lemma program_refines_cluster_witness :
  let c := advance "b" (mkNode (example_node [example_agent "y" 2]) []) [] example_cluster in
  let round outcomes := @sync_with_peer unit toy_sodium _ PeerNode
    (@flaky_peer unit toy_sodium _ libstdcxx_moved_from toy_request toy_response true open_protocol (fun _ => 5) whole_peek outcomes)
    (mkSyncClient 256) (mkSyncPeer "b" 43171) (fun _ => 9) (example_node []) (mkPeerNode (example_node [example_agent "y" 2]) 0) in
  let fails (n : nat) := match n with 1%nat => Unreached | _ => Served end in
  (round all_served).2 = Some (mkSyncResult 1 0) /\ (round fails).2 = None /\
  exists c', rtc (cluster_step (fun _ => open_protocol) any_beat from_log) c c' /\
    members c' = <["b"%string := mkNode (peer_state (round fails).1.2) []]> (<["a"%string := mkNode (round fails).1.1 []]> (members c)).
Proof.
  intros c round fails.
  destruct (@program_refines_cluster unit toy_sodium _ libstdcxx_moved_from toy_request toy_response (fun _ => open_protocol) from_log true (fun _ => 5)
    whole_peek whole_peek_ok fails "a" "b" c (example_node []) [] [] (mkPeerNode (example_node [example_agent "y" 2]) 0)
    (mkSyncClient 256) (mkSyncPeer "b" 43171) (fun _ => 9)) as [H _].
  - discriminate.
  - reflexivity.
  - reflexivity.
  - exact (example_registry_ok [] eq_refl).
  - apply Forall_nil_2.
  - exact (example_lines_ok [("y", 2)]%string eq_refl).
  - discriminate.
  - split; [discriminate|reflexivity].
  - split; [by vm_compute|]. split; [by vm_compute|]. unfold round.
    destruct (sync_with_peer _ _ _ _ _) as [[st' node'] res]. destruct H as (c' & H & _ & Hm). exists c'. exact (conj H Hm).
Defined.
