(* ===== verification/Main.v ===== *)
(** * [main]: [src/src/beacon_engine/main.cpp] put together

    The whole start of the engine, from the command line to the first turn of the housekeeping
    loop, on a file system that survives it: open and replay the log, hang the log on the
    registry, load or create the identity, collect the seed peers, start the services, purge
    and print.  An exception that leaves [main] ends the process.  The two compile-time
    switches are the arguments [protobuf] and [asio]. *)

From S2P Require Import Prelude CxxString CxxContainers Types Sodium SecureBuffer Crypto IdentityService AgentRegistry RegistrySpec RegistryProps Framing PeerHandshake ControlProtocol ControlProps Protobuf ControlProtobuf Reputation GossipScheduler Lifecycle ControlServer RegistrySync SyncClient Crc32 SecurePath Persistence PersistenceProps IdentityStore UdpResponder GossipService Engine.

(** ** Definitions *)

(** The objects [main] has constructed when the services may start. *)
Record Started := mkStarted {
  s_options : Options;
  s_node : NodeState disk;
  s_identity : NodeIdentity;
  s_reputation : ReputationEngine;
  s_hello : string;
  s_peers : list GossipPeer;
  s_modes : gmap string Z;
}.

(** How [main] ends before that: it returns, or an exception leaves it. *)
Inductive early_end := Returned (code : Z) (fs : FileSystem) | Terminated (fs : FileSystem).

Section main.
Context {E : PathEnv} {M : Machine} {U : Permissions} {P : ProtoMessage RegistryEntry} {S : Sodium} {Sort : StdSort}.

(** The files after the log was opened; a file that is created gets the ordinary bits. *)
Definition after_open (persistence : PersistenceService) (d : disk) (fs : FileSystem) : FileSystem :=
  mkFileSystem d
    match wal_file_ persistence with
    | Some path => match files fs !! path with Some _ => modes fs | None => <[path := creation_mode]> (modes fs) end
    | None => modes fs
    end.

(** The block under [BEACONNODE_ENABLE_PROTOBUF]: the registry and the files, [inr] with the
    files when an exception left it. *)
Definition open_registry (protobuf : bool) (now : TimePoint) (fs : FileSystem) : (AgentRegistry disk * FileSystem) + FileSystem :=
  if protobuf then
    match new_persistence default_PersistenceConfig (files fs) with
    | None => inr fs
    | Some (persistence, d) =>
        let fs := after_open persistence d fs in
        match restore persistence now (files fs) with
        | None => inr fs
        | Some registry => inl (registry, fs)
        end
    end
  else inl (new_registry, fs).

(** Everything up to the start of the services.  [now] is the clock during the recovery, [seed]
    the randomness of the key generator. *)
Definition boot (protobuf asio : bool) (args : list string) (now : TimePoint) (seed : Z) (fs : FileSystem) : Started + early_end :=
  match parse_args args default_options with
  | inr code => inr (Returned code fs)
  | inl o =>
      match open_registry protobuf now fs with
      | inr fs => inr (Terminated fs)
      | inl (registry, fs) =>
          let config := opt_config o in
          match load_or_create ".beaconnode/identity.txt" (cfg_node_id (node config)) seed fs with
          | inr _ => inr (Terminated fs)
          | inl (loaded, fs) =>
              inl (mkStarted o (mkNodeState registry (files fs) (Some new_identity_service)) loaded
                (new_reputation (trust config))
                (encode_peer_hello (mkPeerHello (cfg_node_id (node config)) (listen_port (node config))))
                (if asio then seed_peers o else []) (modes fs))
          end
      end
  end.

(** The housekeeping loop, [turns] turns of it, with the clock readings of every turn. *)
Fixpoint housekeeping (turns : nat) (o : Options) (reputation : ReputationEngine) (clock : nat -> TimePoint * TimePoint)
    (st : NodeState disk) : NodeState disk * list Tick :=
  match turns with
  | O => (st, [])
  | Datatypes.S turns' =>
      let '(st, t) := tick o reputation (clock turns').1 (clock turns').2 st in
      let '(st, ts) := housekeeping turns' o reputation clock st in (st, t :: ts)
  end.

(** The services, constructed, and started unless [--once] was given. *)
Record Services (N : Type) := mkServices {
  sv_control : Service phase (ServerWorld disk);
  sv_handshake : Service udp_phase (UdpWorld disk);
  sv_gossip : Service gossip_phase (GossipWorld disk N);
}.
Definition start_services {Moved : MovedFrom} {Req : ProtoMessage V1.ControlRequest} {Resp : ProtoMessage V1.ControlResponse}
    {N : Type} {T : Transport N} {D : Datagrams N} {R : StdShuffle} (protobuf : bool) (net : N) (s : Started) : Services N :=
  let config := opt_config (s_options s) in
  let control := new_control_server (s_node s) in
  let handshake := new_udp_responder (st_registry (s_node s)) in
  let gossip_ := new_gossip_service (s_peers s) (s_node s) net in
  if run_once (s_options s) then mkServices N control handshake gossip_
  else mkServices N (control_server_start protobuf (opt_protocol (s_options s)) control)
         (udp_start (node config) handshake) (gossip_start (node config) (gossip config) gossip_).

(** What [main] does with [--once]: the objects it has constructed when the loop begins, those
    after the turn of the loop, and the tick it prints. *)
Inductive once_result :=
| OnceDone (s : Started) (st : NodeState disk) (t : list Tick)
| OnceEnded (e : early_end)
| NotOnce.

Definition main_once (protobuf asio : bool) (args : list string) (now : TimePoint) (seed : Z)
    (clock : nat -> TimePoint * TimePoint) (fs : FileSystem) : once_result :=
  match boot protobuf asio args now seed fs with
  | inr e => OnceEnded e
  | inl s =>
      if run_once (s_options s) then
        let '(st, ts) := housekeeping 1 (s_options s) (s_reputation s) clock (s_node s) in
        OnceDone s st ts
      else NotOnce
  end.

(** The files a run leaves. *)
Definition once_files (s : Started) (st : NodeState disk) : FileSystem := mkFileSystem (st_world st) (s_modes s).

(** One more file, with any contents, and what becomes of a run's objects when it is there. *)
Definition with_file (p : string) (c : bytes) (fs : FileSystem) : FileSystem := mkFileSystem (<[p := c]> (files fs)) (modes fs).
Definition node_with (p : string) (c : bytes) (st : NodeState disk) : NodeState disk :=
  mkNodeState (st_registry st) (<[p := c]> (st_world st)) (st_identity st).
Definition started_with (p : string) (c : bytes) (s : Started) : Started :=
  mkStarted (s_options s) (node_with p c (s_node s)) (s_identity s) (s_reputation s) (s_hello s) (s_peers s) (s_modes s).
Definition end_with (p : string) (c : bytes) (e : early_end) : early_end :=
  match e with
  | Returned code fs => Returned code (with_file p c fs)
  | Terminated fs => Terminated (with_file p c fs)
  end.
Definition once_with (p : string) (c : bytes) (r : once_result) : once_result :=
  match r with
  | OnceDone s st t => OnceDone (started_with p c s) (node_with p c st) t
  | OnceEnded e => OnceEnded (end_with p c e)
  | NotOnce => NotOnce
  end.

(** The paths of the engine's own files: log, snapshot, identity and key. *)
Definition own_path (p : string) : Prop :=
  resolve_secure_path "." "registry.wal" = inl p \/ resolve_secure_path "." "registry.bin" = inl p \/
  exists cp, store_at ".beaconnode/identity.txt" cp /\ (p = cp \/ p = cp +:+ ".key").

(** ** Lemmas *)

Lemma tick_world o reputation now init (st : NodeState disk) : st_world (tick o reputation now init st).1 = st_world st.
Proof. unfold tick. destruct (purge_expired _ _). done. Qed.

(** ** Recovery at two times *)

Definition year : TimePoint := hours (24 * 365).

(** What the same entry becomes at the times [now] and [now']: its expiry is the time of the
    recovery or a year later. *)
Definition reloaded (now now' : TimePoint) (x y : AgentRecord) : Prop :=
  y = set_expires_at (expires_at y) x /\
  (expires_at x = now /\ expires_at y = now' \/ expires_at x = now + year /\ expires_at y = now' + year).

Lemma reloaded_find now now' aid l l' : Forall2 (reloaded now now') l l' ->
  match find_agent aid l, find_agent aid l' with
  | Some (i, x), Some (j, y) => i = j /\ reloaded now now' x y
  | None, None => True
  | _, _ => False
  end.
Proof.
  induction 1 as [|x y l l' Hxy Hl IH]; [done|]. rewrite !find_agent_cons.
  assert (agent_id y = agent_id x) as -> by by rewrite (proj1 Hxy). case_decide; [done|].
  destruct (find_agent aid l) as [[i e]|], (find_agent aid l') as [[j e']|]; try done. simpl. naive_solver.
Qed.

Lemma reloaded_load now now' entries l l' : Forall2 (reloaded now now') l l' ->
  Forall2 (reloaded now now')
    (foldl (fun rs r => load_one (now + year) r rs) l (record_of_entry now <$> entries))
    (foldl (fun rs r => load_one (now' + year) r rs) l' (record_of_entry now' <$> entries)).
Proof.
  revert l l'. induction entries as [|e entries IH]; intros l l' Hl; [done|]. cbn [fmap list_fmap foldl]. apply IH.
  unfold load_one. change (agent_id (record_of_entry now' e)) with (agent_id (record_of_entry now e)).
  pose proof (reloaded_find now now' (agent_id (record_of_entry now e)) l l' Hl) as Hf.
  destruct (find_agent _ l) as [[i x]|], (find_agent _ l') as [[j y]|]; try done.
  - destruct Hf as [-> Hxy]. change (revision (record_of_entry now' e)) with (revision (record_of_entry now e)).
    assert (revision y = revision x) as -> by by rewrite (proj1 Hxy). destruct (_ <? _); [|done].
    rewrite !list_insert_insert_eq. apply Forall2_insert; [done|]. split; [done|by left].
  - apply Forall2_app; [done|]. apply Forall2_cons_2; [|constructor]. split; [done|by right].
Qed.

Lemma reloaded_purge now now' t t' l l' : now <= t < now + year -> now' <= t' < now' + year ->
  Forall2 (reloaded now now') l l' ->
  Forall2 (reloaded now now') (filter (fun r => ~ (expires_at r <= t)) l) (filter (fun r => ~ (expires_at r <= t')) l').
Proof.
  intros Ht Ht'. induction 1 as [|x y l l' Hxy Hl IH]; [done|]. rewrite !filter_cons. pose proof Hxy as [_ Hx].
  repeat case_decide; [by constructor|exfalso; lia..|done].
Qed.

(** Lists of the same registrations, whatever their expiry. *)
Definition same_agents (l l' : list AgentRecord) : Prop := set_expires_at 0 <$> l' = set_expires_at 0 <$> l.

Lemma reloaded_same now now' l l' : Forall2 (reloaded now now') l l' -> same_agents l l'.
Proof.
  unfold same_agents. induction 1 as [|x y l l' [Hxy _] _ IH]; [done|]. cbn [fmap list_fmap]. rewrite IH, Hxy. by destruct x.
Qed.

Lemma same_agents_stats (r r' : AgentRegistry disk) : same_agents (records_ r) (records_ r') -> stats r' = stats r.
Proof.
  intros Hs. assert (Hc : forall l : list AgentRecord, revision <$> (set_expires_at 0 <$> l) = revision <$> l).
  { intros l. rewrite <- list_fmap_compose. apply list_fmap_ext. by intros _ [] _. }
  assert (Hrev : revision <$> records_ r' = revision <$> records_ r) by by rewrite <- Hc, Hs, Hc.
  assert (Hf : forall l acc, foldl (fun h x => Z.max h (revision x)) acc l = foldl Z.max acc (revision <$> l)).
  { induction l as [|x l IH]; intros acc; [done|]. cbn [fmap list_fmap foldl]. apply IH. }
  unfold stats. rewrite !Hf, Hrev. f_equal. unfold size_of. by rewrite <- (length_fmap revision (records_ r')), Hrev, length_fmap.
Qed.

Lemma push_size sched (l l' : list AgentRecord) : length l = length l' ->
  size_of (select_push_entries sched l) = size_of (select_push_entries sched l').
Proof.
  intros Hl. unfold select_push_entries.
  assert (Hs : forall k : list AgentRecord, length (std_sort (fun left right => revision right <? revision left) k) = length k)
    by (intros k; by rewrite std_sort_perm).
  unfold size_of, shrink_to. rewrite !Hs, Hl. destruct (_ <? _); [|by rewrite !Hs, Hl]. by rewrite !length_take, !Hs, Hl.
Qed.

(** The turn of the loop at two times, within a year of the recovery. *)
Lemma tick_reloaded o reputation now now' t t' init init' (st st' : NodeState disk) :
  now <= t < now + year -> now' <= t' < now' + year ->
  Forall2 (reloaded now now') (records_ (st_registry st)) (records_ (st_registry st')) -> st_identity st' = st_identity st ->
  (tick o reputation t' init' st').2 = (tick o reputation t init st).2 /\
  same_agents (records_ (st_registry (tick o reputation t init st).1)) (records_ (st_registry (tick o reputation t' init' st').1)).
Proof.
  intros Ht Ht' Hl Hid. pose proof (reloaded_purge now now' t t' _ _ Ht Ht' Hl) as Hp.
  pose proof (reloaded_same _ _ _ _ Hp) as Hs. pose proof (Forall2_length _ _ _ Hp) as Hn. pose proof (Forall2_length _ _ _ Hl) as Hn0.
  unfold tick, purge_expired. cbn [fst]. split; [|exact Hs]. unfold list_agents, set_records. cbn [records_].
  set (r' := mkAgentRegistry (filter _ (records_ (st_registry st'))) _) in *.
  set (r := mkAgentRegistry (filter _ (records_ (st_registry st))) _) in *.
  assert (Hst : stats r' = stats r) by by apply same_agents_stats.
  assert (Hline : forall i n (w : disk) (id : option IdentityService) (a : AgentRegistry disk),
    handle_line (opt_protocol o) i n "STATS" (mkNodeState a w id) = (mkNodeState a w id,
      "OK active_agents=" +:+ to_string (active_agents (stats a)) +:+ " highest_revision=" +:+ to_string (highest_revision (stats a)) +:+ nl)) by done.
  rewrite !Hline. cbn [snd st_identity]. rewrite Hst, Hid. f_equal.
  - by apply push_size.
  - unfold size_of. by rewrite Hn, Hn0.
Qed.

(** Recovery reads two files. *)
Lemma restore_reads persistence now d d' :
  (forall p, resolve_secure_path (base_dir (pconfig persistence)) (snapshot_path (pconfig persistence)) = inl p -> d' !! p = d !! p) ->
  (forall p, resolve_secure_path (base_dir (pconfig persistence)) (wal_path (pconfig persistence)) = inl p -> d' !! p = d !! p) ->
  restore persistence now d' = restore persistence now d.
Proof.
  intros Hs Hw. unfold restore, recover.
  destruct (resolve_secure_path _ (snapshot_path _)) as [snap|]; [|done]. rewrite (Hs snap eq_refl).
  destruct (match d !! snap with None => _ | Some _ => _ end) as [[acc ts]|]; [|done].
  destruct (resolve_secure_path _ (wal_path _)) as [wal|]; [|done]. by rewrite (Hw wal eq_refl).
Qed.

Lemma restore_later persistence now now' d registry : restore persistence now d = Some registry ->
  exists registry', restore persistence now' d = Some registry' /\ on_upsert_ registry' = on_upsert_ registry /\
    Forall2 (reloaded now now') (records_ registry) (records_ registry').
Proof.
  unfold restore. destruct (recover persistence d) as [recovered|]; [|done]. intros [= <-]. eexists. split; [done|].
  destruct recovered as [|e recovered]; [split; [done|constructor]|]. split; [done|].
  apply (reloaded_load now now' (e :: recovered) [] []). constructor.
Qed.

(** Opening the registry again, later, when nothing but unrelated files have changed. *)
Lemma open_registry_again protobuf now now' fs registry fs1 fs2 :
  open_registry protobuf now fs = inl (registry, fs1) ->
  (forall f p, f ∈ ["registry.wal"; "registry.bin"]%string -> resolve_secure_path "." f = inl p -> files fs2 !! p = files fs1 !! p) ->
  exists registry', open_registry protobuf now' fs2 = inl (registry', fs2) /\
    Forall2 (reloaded now now') (records_ registry) (records_ registry').
Proof.
  unfold open_registry. destruct protobuf; [|intros [= <- _]; eexists; split; [done|constructor]]. unfold new_persistence, open_wal, open_append. simpl.
  intros Hopen Hsame.
  assert (Hr : forall persistence d, pconfig persistence = default_PersistenceConfig -> d = files fs1 ->
    restore persistence now d = Some registry -> exists registry', restore persistence now' (files fs2) = Some registry' /\
      Forall2 (reloaded now now') (records_ registry) (records_ registry')).
  { intros persistence d Hc -> Hd. destruct (restore_later persistence now now' _ _ Hd) as (registry' & Hd' & _ & Hf).
    exists registry'. split; [|done]. rewrite <- Hd'. apply restore_reads; rewrite Hc; intros p Hp; eapply Hsame; try done; set_solver. }
  destruct (resolve_secure_path "." "registry.wal") as [wal|] eqn:Hwal; [|done]. destruct (can_write wal) eqn:Hcw.
  - destruct (restore _ now _) as [reg|] eqn:Hreg in Hopen; [|done]. injection Hopen as -> <-.
    assert (Hin : files fs2 !! wal = Some (default [] (files fs !! wal))).
    { rewrite (Hsame "registry.wal"%string wal) by (done || set_solver). simpl. by rewrite lookup_insert_eq. }
    assert (Hid : <[wal := default [] (files fs2 !! wal)]> (files fs2) = files fs2) by (apply insert_id; by rewrite Hin).
    rewrite Hid. unfold after_open at 1. simpl. eapply Hr in Hreg as (registry' & Hreg & Hf); [|done..]. rewrite Hreg.
    exists registry'. split; [|done]. unfold after_open. simpl. rewrite Hin. by destruct fs2.
  - destruct (restore _ now _) as [reg|] eqn:Hreg in Hopen; [|done]. injection Hopen as -> <-.
    unfold after_open at 1. simpl. eapply Hr in Hreg as (registry' & Hreg & Hf); [|done..]. rewrite Hreg.
    exists registry'. split; [|done]. unfold after_open. simpl. by destruct fs2.
Qed.

(** ** Files the engine does not know *)

Lemma open_registry_with protobuf now p c fs : ~ own_path p ->
  open_registry protobuf now (with_file p c fs) =
    match open_registry protobuf now fs with
    | inl (registry, fs1) => inl (registry, with_file p c fs1)
    | inr fs1 => inr (with_file p c fs1)
    end.
Proof.
  intros Hown. unfold open_registry. destruct protobuf; [|done]. unfold new_persistence, open_wal, open_append. simpl.
  assert (Hno : forall q, resolve_secure_path "." "registry.wal" = inl q \/ resolve_secure_path "." "registry.bin" = inl q -> p <> q).
  { intros q Hq ->. apply Hown. unfold own_path. tauto. }
  assert (Hr : forall persistence d, pconfig persistence = default_PersistenceConfig ->
    restore persistence now (<[p := c]> d) = restore persistence now d).
  { intros persistence d Hc. apply restore_reads; rewrite Hc; intros q Hq; rewrite lookup_insert_ne; auto. }
  destruct (resolve_secure_path "." "registry.wal") as [wal|] eqn:Hwal; [|done].
  assert (Hpw : p <> wal) by (apply Hno; by left).
  destruct (can_write wal); unfold after_open; simpl.
  - rewrite lookup_insert_ne, insert_insert_ne, Hr by done. by destruct (restore _ now _).
  - rewrite Hr by done. by destruct (restore _ now _).
Qed.

Lemma write_file_with p c q text fs : p <> q -> write_file q text (with_file p c fs) = with_file p c (write_file q text fs).
Proof.
  intros Hne. unfold write_file, with_file. destruct (can_write q); [|done]. simpl. f_equal; [by rewrite insert_insert_ne|].
  by rewrite lookup_insert_ne.
Qed.

Lemma restrict_file_with p c q fs : p <> q ->
  restrict_file_permissions q (with_file p c fs) = with_file p c (restrict_file_permissions q fs).
Proof.
  intros Hne. unfold restrict_file_permissions, with_file. simpl. rewrite lookup_insert_ne by done.
  destruct (files fs !! q); [|done]. by destruct (can_chmod q).
Qed.

Lemma load_or_create_with node seed p c fs : ~ own_path p ->
  load_or_create ".beaconnode/identity.txt" node seed (with_file p c fs) =
    match load_or_create ".beaconnode/identity.txt" node seed fs with
    | inl (i, fs1) => inl (i, with_file p c fs1)
    | inr e => inr e
    end.
Proof.
  intros Hown. unfold load_or_create.
  destruct (store_resolve_secure_path _ _) as [cp|] eqn:Hcp; [|done].
  assert (Hp : p <> cp /\ p <> cp +:+ ".key").
  { split; intros ->; apply Hown; right; right; exists cp; (split; [exact Hcp|tauto]). }
  destruct Hp as [Hp1 Hp2]. cbn [files with_file]. rewrite !lookup_insert_ne by done.
  destruct (files fs !! cp).
  - destruct (files fs !! (cp +:+ ".key")); [|done]. by destruct (negb _).
  - unfold create_effects. destruct (generate_ed25519_keypair seed) as [pk sk]. cbn [foldl run_effect].
    by rewrite write_file_with, restrict_file_with, write_file_with.
Qed.

(** The identity is loaded again as it was. *)
Lemma load_again {L : SodiumLaws S} path_ cp node seed seed' fs loaded fs1 : store_at path_ cp -> sodium_enabled = true ->
  can_write cp = true -> can_write (cp +:+ ".key") = true -> can_chmod (cp +:+ ".key") = true ->
  no_char newline node = true -> no_char newline cp = true ->
  load_or_create path_ node seed fs = inl (loaded, fs1) -> load_or_create path_ node seed' fs1 = inl (loaded, fs1).
Proof.
  intros Hat He Hw1 Hw2 Hc Hn Hcp Hl. destruct (files fs !! cp) as [text|] eqn:Hcpf.
  - assert (fs1 = fs) as ->.
    { unfold load_or_create in Hl. unfold store_at in Hat. rewrite Hat, Hcpf in Hl. repeat case_match; by simplify_eq. }
    rewrite <- Hl. unfold load_or_create. unfold store_at in Hat. by rewrite Hat, Hcpf.
  - destruct (create_then_load path_ cp node seed fs He Hat Hcpf Hw1 Hw2 Hc Hn Hcp) as (i & fs0 & H0 & _ & _ & _ & _ & H1).
    rewrite Hl in H0. injection H0 as <- <-. apply H1.
Qed.

(** ** Properties *)

(** (C28) Starting the engine is repeatable.  A run with [--once] that succeeds, in a build with
    libsodium whose identity files can be written and protected and are not those of the log,
    and with a node id without line breaks, leaves files from which the next run, at any
    later or earlier time and with other randomness, succeeds too: it loads the same identity,
    prints the same greeting, has the same peers, restores the same registry up to the expiry
    times, and leaves the files exactly as they are.  If in both runs the turn of the loop comes
    at or after the recovery and within a year, it also prints the same tick and keeps the same
    agents.  A command line that is refused, or asks for help, ends with code 2 or 0 before any
    file is touched. *)
Theorem main_once_repeatable {L : SodiumLaws S} protobuf asio args now now' seed seed' clock clock' fs o cp
    (enabled : sodium_enabled = true) (at_cp : store_at ".beaconnode/identity.txt" cp)
    (w1 : can_write cp = true) (w2 : can_write (cp +:+ ".key") = true) (chmod : can_chmod (cp +:+ ".key") = true)
    (line1 : parse_args args default_options = inl o -> no_char newline (cfg_node_id (node (opt_config o))) = true)
    (line2 : no_char newline cp = true)
    (apart : forall f p, f ∈ ["registry.wal"; "registry.bin"]%string -> resolve_secure_path "." f = inl p -> p <> cp /\ p <> cp +:+ ".key") :
  (forall s st ts, parse_args args default_options = inl o -> main_once protobuf asio args now seed clock fs = OnceDone s st ts ->
   exists s' st' ts', main_once protobuf asio args now' seed' clock' (once_files s st) = OnceDone s' st' ts' /\
     s_identity s' = s_identity s /\ s_hello s' = s_hello s /\ s_peers s' = s_peers s /\ once_files s' st' = once_files s st /\
     same_agents (records_ (st_registry (s_node s))) (records_ (st_registry (s_node s'))) /\
     (now <= (clock 0%nat).1 < now + year -> now' <= (clock' 0%nat).1 < now' + year ->
      ts' = ts /\ same_agents (records_ (st_registry st)) (records_ (st_registry st')))) /\
  (forall code, parse_args args default_options = inr code ->
   (code = 0 \/ code = 2) /\ main_once protobuf asio args now seed clock fs = OnceEnded (Returned code fs)).
Proof.
  split.
  - intros s st ts Hargs. specialize (line1 Hargs). unfold main_once, boot. rewrite Hargs.
    destruct (open_registry protobuf now fs) as [[registry fsA]|] eqn:Hopen; [|done].
    destruct (load_or_create _ _ seed fsA) as [[l fsB]|] eqn:Hload; [|done]. cbn [s_options s_identity s_hello s_reputation s_node s_modes].
    destruct (run_once o) eqn:Honce; [|done]. cbn [housekeeping].
    set (rep := new_reputation _). set (st0 := mkNodeState registry (files fsB) (Some new_identity_service)).
    pose proof (tick_world o rep (clock 0%nat).1 (clock 0%nat).2 st0) as Hw.
    destruct (open_registry_again protobuf now now' fs registry fsA fsB Hopen) as (registry' & Hopen' & Hl).
    { intros f p Hf Hp. destruct (apart f p Hf Hp). by eapply load_other. }
    set (st0' := mkNodeState registry' (files fsB) (Some new_identity_service)).
    pose proof (tick_world o rep (clock' 0%nat).1 (clock' 0%nat).2 st0') as Hw'.
    pose proof (fun H H' => tick_reloaded o rep now now' (clock 0%nat).1 (clock' 0%nat).1 (clock 0%nat).2 (clock' 0%nat).2 st0 st0' H H' Hl eq_refl) as Ht.
    destruct (tick o rep (clock 0%nat).1 _ st0) as [st1 t], (tick o rep (clock' 0%nat).1 _ st0') as [st1' t'] eqn:Ht'.
    cbn [fst snd st_world] in *. intros [= <- <- <-].
    assert (Hfs : once_files (mkStarted o st0 l rep (encode_peer_hello (mkPeerHello (cfg_node_id (node (opt_config o))) (listen_port (node (opt_config o)))))
      (if asio then seed_peers o else []) (modes fsB)) st1 = fsB) by (unfold once_files; simpl; rewrite Hw; by destruct fsB).
    rewrite Hfs, Hopen', (load_again _ cp _ seed seed' fsA l fsB) by done. cbn [s_options s_identity s_hello s_reputation s_node s_modes].
    rewrite Honce. fold rep st0'. rewrite Ht'. eexists _, _, _. split; [done|]. split_and!; try done.
    + unfold once_files. cbn [s_modes]. rewrite Hw'. by destruct fsB.
    + by eapply reloaded_same.
    + intros H H'. destruct (Ht H H') as [-> Hs]. by split.
  - intros code Hargs. unfold main_once, boot. rewrite Hargs. split; [by eapply parse_args_codes|done].
Qed.

(** (C35) The configuration file has no part in a run: whatever a file that is none of the engine's
    own (log, snapshot, identity, key) contains, and whether it is there or not, a run with
    [--once] does the same, with any command line, so also with the one that names the file
    with [--config]: it constructs the same objects, prints the same and ends in the same way,
    and the file is as it was.  The path changes nothing in the options but the path.  And if
    the engine starts, both ports are between 1 and 65535. *)
Theorem main_ignores_config_file protobuf asio args now seed clock p content fs (foreign : ~ own_path p) :
  main_once protobuf asio args now seed clock (with_file p content fs) =
    once_with p content (main_once protobuf asio args now seed clock fs) /\
  (forall path o, parse_args args default_options = inl o ->
   exists o', parse_args ("--config"%string :: path :: args) default_options = inl o' /\ same_but_path o' o) /\
  (forall s, boot protobuf asio args now seed fs = inl s -> ports_ok (s_options s)).
Proof.
  split_and!.
  - unfold main_once, boot. destruct (parse_args args default_options) as [o|code]; [|done].
    rewrite open_registry_with by done. destruct (open_registry protobuf now fs) as [[registry fs1]|fs1]; [|done].
    rewrite load_or_create_with by done. destruct (load_or_create _ _ seed fs1) as [[l fs2]|]; [|done].
    cbn [s_options s_reputation s_node]. destruct (run_once o); [|done]. cbn [housekeeping]. unfold tick.
    by destruct (purge_expired _ _).
  - intros path o Ho.
    pose proof (parse_args_path args (mkOptions path (run_once default_options) (opt_config default_options) (seed_nodes default_options))
      default_options ltac:(done)) as H. rewrite Ho in H.
    change (parse_args ("--config"%string :: path :: args) default_options) with
      (parse_args args (mkOptions path (run_once default_options) (opt_config default_options) (seed_nodes default_options))).
    destruct (parse_args args (mkOptions _ _ _ _)) as [o'|]; [|done]. by exists o'.
  - intros s. unfold boot. destruct (parse_args args default_options) as [o|] eqn:Ho; [|done].
    destruct (open_registry protobuf now fs) as [[registry fs1]|]; [|done]. destruct (load_or_create _ _ seed fs1) as [[l fs2]|]; [|done].
    intros [= <-]. eapply parse_args_ports; [|exact Ho]. split; simpl; lia.
Qed.
End main.

(** ** Witnesses *)

Definition ex_clock (_ : nat) : TimePoint * TimePoint := (100, 100).
Definition ex_main (args : list string) (now seed : Z) (clock : nat -> TimePoint * TimePoint) (fs : FileSystem) : once_result :=
  @main_once lexical_env ex_machine (ex_permissions true) toy_entry toy_sodium _ true true args now seed clock fs.

Definition once_node (r : once_result) : option string :=
  match r with OnceDone s _ _ => Some (id_node_id (s_identity s)) | _ => None end.

(** A first run on an empty disk, and a second one later. *)
Lemma main_once_repeatable_witness :
  let args := ["--once"; "--node-id"; "n1"]%string in
  exists s st ts s' st' ts', ex_main args 100 7 ex_clock no_files = OnceDone s st ts /\ id_node_id (s_identity s) = "n1"%string /\
    ex_main args 5000 8 (fun _ => (6000, 6000)) (once_files s st) = OnceDone s' st' ts' /\ s_identity s' = s_identity s /\ ts' = ts.
Proof.
  intros args.
  assert (Hn : once_node (ex_main args 100 7 ex_clock no_files) = Some "n1"%string) by (vm_compute; reflexivity).
  destruct (ex_main args 100 7 ex_clock no_files) as [s st ts|e|] eqn:Hrun; [|discriminate Hn|discriminate Hn].
  exists s, st, ts. injection Hn as Hn.
  destruct (parse_args args default_options) as [o|] eqn:Ho; [|exfalso; revert Ho; by vm_compute].
  destruct (@main_once_repeatable lexical_env ex_machine (ex_permissions true) toy_entry toy_sodium _ toy_sodium_laws true true args 100 5000 7 8
    ex_clock (fun _ => (6000, 6000)) no_files o "/work/.beaconnode/identity.txt") as [H _].
  - reflexivity.
  - by vm_compute.
  - reflexivity.
  - reflexivity.
  - reflexivity.
  - intros _. vm_compute in Ho. injection Ho as <-. reflexivity.
  - reflexivity.
  - intros f p Hf Hp. rewrite !elem_of_cons, elem_of_nil in Hf. destruct Hf as [-> |[-> |[]]]; vm_compute in Hp; injection Hp as <-; done.
  - destruct (H s st ts Ho Hrun) as (s' & st' & ts' & H1 & H2 & _ & _ & _ & _ & H3). exists s', st', ts'.
    split; [reflexivity|]. split; [exact Hn|]. split; [exact H1|]. split; [exact H2|]. apply H3; by vm_compute.
Defined.

(** The file named on the command line, full of settings. *)
Lemma main_ignores_config_file_witness :
  let args := ["--config"; "/etc/beacon.toml"; "--once"]%string in
  ex_main args 100 7 ex_clock (with_file "/etc/beacon.toml" (bytes_of_string "control_port = 9") no_files) =
    once_with "/etc/beacon.toml" (bytes_of_string "control_port = 9") (ex_main args 100 7 ex_clock no_files).
Proof.
  intros args. unfold ex_main.
  destruct (@main_ignores_config_file lexical_env ex_machine (ex_permissions true) toy_entry toy_sodium _ true true args 100 7 ex_clock
    "/etc/beacon.toml" (bytes_of_string "control_port = 9") no_files) as [H _]; [|exact H].
  intros [H|[H|(cp & H & Hp)]]; [by vm_compute in H..|]. vm_compute in H. injection H as <-. by destruct Hp.
Defined.
