(* ===== verification/Console.v ===== *)
(** * What the engine prints: [src/src/beacon_engine/main.cpp]

    The usage text, the messages for a command line that is refused, the lines of the start
    and the two lines of every turn of the housekeeping loop, as strings.  The lines the
    persistence service prints while it recovers are not among them. *)

From S2P Require Import Prelude CxxString CxxContainers Types Sodium SecureBuffer Crypto IdentityService AgentRegistry RegistrySpec RegistryProps Framing PeerHandshake ControlProtocol ControlProps Protobuf ControlProtobuf Reputation GossipScheduler Lifecycle ControlServer RegistrySync SyncClient Crc32 SecurePath Persistence PersistenceProps IdentityStore UdpResponder GossipService Engine Main.

(** ** Definitions *)

Definition print_usage : string :=
  "beacon-engine [--config <path>] [--node-id <id>] [--listen-port <port>] " +:+
  "[--control-port <port>] [--seed-node <host:port>] [--require-signatures] [--once]" +:+ nl.

(** What the loop over the arguments writes to standard output and to standard error.  Whether
    a port is refused does not depend on the port that was set before. *)
Fixpoint args_console (args : list string) : string * string :=
  match args with
  | [] => ("", "")
  | arg :: rest =>
      let unknown := (print_usage, "unknown argument: " +:+ arg +:+ nl) in
      if bool_decide (arg = "--help") then (print_usage, "")
      else if bool_decide (arg = "--once") then args_console rest
      else if bool_decide (arg = "--require-signatures") then args_console rest
      else match rest with
      | [] => unknown
      | value :: rest' =>
          if bool_decide (arg ∈ ["--config"; "--node-id"; "--seed-node"]) then args_console rest'
          else if bool_decide (arg = "--listen-port") then
            if (parse_port value 0).2 then args_console rest' else ("", "invalid listen port" +:+ nl)
          else if bool_decide (arg = "--control-port") then
            if (parse_port value 0).2 then args_console rest' else ("", "invalid control port" +:+ nl)
          else unknown
      end
  end.

(** The lines between the construction of the objects and the start of the services. *)
Definition banner (s : Started) : string :=
  let n := node (opt_config (s_options s)) in
  "BeaconNode engine starting" +:+ nl +:+
  "config: " +:+ config_path (s_options s) +:+ nl +:+
  "node: " +:+ cfg_node_id n +:+ nl +:+
  "identity_public_key: " +:+ id_public_key_hex (s_identity s) +:+ nl +:+
  "control: " +:+ control_host n +:+ ":" +:+ to_string (control_port n) +:+ nl +:+
  "p2p: " +:+ listen_host n +:+ ":" +:+ to_string (listen_port n) +:+ nl +:+
  "udp_hello: " +:+ s_hello s +:+ nl +:+
  "trusted_agents: " +:+ to_string (from_option trusted_agents 0 (st_identity (s_node s))) +:+ nl +:+
  "require_signatures: " +:+ (if require_signatures (trust (opt_config (s_options s))) then "yes" else "no") +:+ nl.

(** [std::cout << flag], without [boolalpha]. *)
Definition bool_digit (b : bool) : string := if b then "1" else "0".

Definition tick_lines (t : Tick) : string :=
  "tick active_agents=" +:+ to_string (active_agents (tick_stats t)) +:+
  " highest_revision=" +:+ to_string (highest_revision (tick_stats t)) +:+
  " gossip_push_entries=" +:+ to_string (tick_push t) +:+
  " purged=" +:+ to_string (tick_purged t) +:+
  " accepts_self=" +:+ bool_digit (tick_accepts_self t) +:+
  " trusted_agents=" +:+ to_string (tick_trusted t) +:+ nl +:+
  "control_stats: " +:+ tick_stats_line t.

(** ** Lemmas *)

Lemma parse_port_result value p q : (parse_port value p).2 = (parse_port value q).2.
Proof. unfold parse_port. repeat case_match; done. Qed.

(** What a run of the loop has written, from how it ended. *)
Definition args_reported (args : list string) (end_ : Options + Z) : Prop :=
  match end_ with
  | inl _ => args_console args = ("", "")
  | inr code =>
      code = 0 /\ args_console args = (print_usage, "") \/
      code = 2 /\ (args_console args = ("", "invalid listen port" +:+ nl) \/
                   args_console args = ("", "invalid control port" +:+ nl) \/
                   exists arg, arg ∈ args /\ args_console args = (print_usage, "unknown argument: " +:+ arg +:+ nl))
  end.

Lemma args_reported_skip args args' end_ : args_console args = args_console args' -> args' ⊆ args ->
  args_reported args' end_ -> args_reported args end_.
Proof. intros Hc Hs. unfold args_reported. rewrite Hc. destruct end_; [done|]. set_solver. Qed.

(** ** Properties *)

(** A command line is refused with a reason: if [main] goes on it has written nothing; if it
    returns 0 it has written the usage to standard output, and nothing else; if it returns 2
    it has named on standard error the port that is invalid, or an argument of the command
    line it does not know, then with the usage on standard output. *)
Theorem command_line_reported args o : args_reported args (parse_args args o).
Proof.
  remember (length args) as n eqn:Hn. revert args Hn o. induction n as [n IH] using lt_wf_ind.
  intros [|arg rest] Hn o; [done|]. simpl in Hn.
  assert (Hgo : forall l o', (length l <= length rest)%nat -> l ⊆ arg :: rest -> args_console (arg :: rest) = args_console l ->
    args_reported (arg :: rest) (parse_args l o')).
  { intros l o' Hl Hs Hc. apply (args_reported_skip _ l); [done..|]. apply (IH (length l)); [lia|done]. }
  assert (Hunknown : args_console (arg :: rest) = (print_usage, "unknown argument: " +:+ arg +:+ nl) ->
    args_reported (arg :: rest) (inr 2)).
  { intros Hc. right. split; [done|]. right; right. exists arg. split; [set_solver|done]. }
  cbn [parse_args]. case_bool_decide as H1; [left; split; [done|]; simpl; by rewrite bool_decide_true|].
  case_bool_decide as H2; [apply Hgo; [done|set_solver|]; subst; done|].
  case_bool_decide as H3; [apply Hgo; [done|set_solver|]; subst; done|].
  destruct rest as [|value rest]; [apply Hunknown; simpl; by rewrite !bool_decide_false|].
  case_bool_decide as H4; [apply Hgo; [simpl; lia|set_solver|]; subst; done|].
  case_bool_decide as H5; [apply Hgo; [simpl; lia|set_solver|]; subst; done|].
  case_bool_decide as H6.
  { subst. pose proof (parse_port_result value (listen_port (node (opt_config o))) 0) as Hp.
    destruct (parse_port value (listen_port _)) as [p [|]]; simpl in Hp.
    - apply Hgo; [simpl; lia|set_solver|]. simpl. by rewrite <- Hp.
    - right. split; [done|left]. simpl. by rewrite <- Hp. }
  case_bool_decide as H7.
  { subst. pose proof (parse_port_result value (control_port (node (opt_config o))) 0) as Hp.
    destruct (parse_port value (control_port _)) as [p [|]]; simpl in Hp.
    - apply Hgo; [simpl; lia|set_solver|]. simpl. by rewrite <- Hp.
    - right. split; [done|right; left]. simpl. by rewrite <- Hp. }
  case_bool_decide as H8; [apply Hgo; [simpl; lia|set_solver|]; subst; done|].
  apply Hunknown. simpl. rewrite !bool_decide_false; [done|set_solver..].
Qed.

(** The two lines of a turn report the same numbers: nothing happens to the registry between
    the counting and the request. *)
Lemma tick_lines_agree {W} {S : Sodium} {Sort : StdSort} o reputation now init (st : NodeState W) :
  let t := (tick o reputation now init st).2 in
  tick_stats_line t = "OK active_agents=" +:+ to_string (active_agents (tick_stats t)) +:+
    " highest_revision=" +:+ to_string (highest_revision (tick_stats t)) +:+ nl.
Proof. unfold tick. by destruct (purge_expired _ _). Qed.

(** What a first start prints. *)
Example first_start :
  match @boot lexical_env ex_machine (ex_permissions true) toy_entry no_sodium true true ["--once"; "--node-id"; "n1"]%string 100 7 no_files with
  | inl s =>
      getlines (banner s) =
        ["BeaconNode engine starting"; "config: config/beaconnode.example.toml"; "node: n1"; "identity_public_key: ";
         "control: 127.0.0.1:43171"; "p2p: 0.0.0.0:43170"; "udp_hello: " +:+ s_hello s; "trusted_agents: 0";
         "require_signatures: no"]%string /\
      getlines (tick_lines (@tick _ no_sodium _ (s_options s) (s_reputation s) 100 100 (s_node s)).2) =
        ["tick active_agents=0 highest_revision=0 gossip_push_entries=0 purged=0 accepts_self=1 trusted_agents=0";
         "control_stats: OK active_agents=0 highest_revision=0"]%string
  | inr _ => False
  end.
Proof. by vm_compute. Qed.
