(* ===== verification/PyText.v ===== *)
(** * The parts of Python the SDK uses: text, numbers, dictionaries

    [str.split], [str.splitlines], [str.isdecimal], [int], [bytes.hex], [bytes.fromhex] and
    insertion-ordered dictionaries, as the client under [src/python] calls them.  Text is
    ASCII: there the characters of a [str] and the bytes that carry it are the same, and the
    definitions say nothing about other text.  Python's white space and line breaks are more
    than those of C++ ([U+001C] to [U+001F] are among them); on [plain] text they agree. *)

From S2P Require Import Prelude CxxString CxxContainers Crypto.

(** ** Text *)

Definition code_in (codes : list Z) (c : ascii) : bool := existsb (Z.eqb (char_code c)) codes.

(** White space and line breaks of [str]. *)
Definition py_isspace (c : ascii) : bool := code_in [9; 10; 11; 12; 13; 28; 29; 30; 31; 32] c.
Definition line_break (c : ascii) : bool := code_in [10; 11; 12; 13; 28; 29; 30] c.

(** [s.split()]. *)
Fixpoint py_split (s : string) : list string :=
  match s with
  | EmptyString => []
  | String c s' =>
      if py_isspace c then py_split s'
      else if head_is py_isspace s' then String c EmptyString :: py_split s'
      else match py_split s' with
           | t :: ts => String c t :: ts
           | [] => [String c EmptyString]
           end
  end.

(** [s.splitlines()]; a carriage return and the newline behind it are one line break. *)
Definition crlf (c d : ascii) : bool := (char_code c =? 13) && (char_code d =? 10).
Fixpoint py_splitlines (s : string) : list string :=
  match s with
  | EmptyString => []
  | String c s' =>
      if line_break c then
        match s' with
        | String d s'' => if crlf c d then EmptyString :: py_splitlines s'' else EmptyString :: py_splitlines s'
        | EmptyString => [EmptyString]
        end
      else match py_splitlines s' with
           | l :: ls => String c l :: ls
           | [] => [String c EmptyString]
           end
  end.

(** [sep.join(parts)]. *)
Definition py_join (sep : string) (parts : list string) : string :=
  match parts with [] => "" | p :: ps => p +:+ foldr (fun q rest => sep +:+ q +:+ rest) "" ps end.

(** [token.split("=", 1)] of a token with '='. *)
Definition split_equals (token : string) : option (string * string) :=
  match find_char "="%char token with
  | Some e => Some (substr token 0 e, substr_from token (S e))
  | None => None
  end.

(** ** Numbers *)

Definition isdecimal (s : string) : bool := negb (str_empty s) && str_forall is_digit s.

(** [int(s)] for a text without white space around it: a sign, digits, single underscores
    between them; [None] is the [ValueError], which is also raised beyond 4300 digits. *)
Definition max_str_digits : nat := 4300.
Fixpoint int_digits (acc : Z) (after_digit : bool) (s : string) : option Z :=
  match s with
  | EmptyString => if after_digit then Some acc else None
  | String c s' =>
      match char_digit c with
      | Some d => int_digits (acc * 10 + d) true s'
      | None => if bool_decide (c = "_"%char) && after_digit then int_digits acc false s' else None
      end
  end.
Fixpoint count_digits (s : string) : nat :=
  match s with EmptyString => O | String c s' => if is_digit c then S (count_digits s') else count_digits s' end.
Definition py_int (s : string) : option Z :=
  if (max_str_digits <? count_digits s)%nat then None
  else match s with
       | String "-" r => Z.opp <$> int_digits 0 false r
       | String "+" r => int_digits 0 false r
       | _ => int_digits 0 false s
       end.

(** [str(n)]. *)
Definition py_str_int (n : Z) : string := if n <? 0 then "-" +:+ to_string (- n) else to_string n.

(** [bytes.fromhex(s)]: white space is allowed between two bytes; [None] is the [ValueError].
    [bytes.hex] is [encode_hex]. *)
Fixpoint py_fromhex (s : string) : option bytes :=
  match s with
  | EmptyString => Some []
  | String h rest =>
      if isspace h then py_fromhex rest
      else match rest with
           | String l rest' =>
               if (hex_value h <? 0) || (hex_value l <? 0) then None
               else (fun bs => byte_of_Z (Z.lor (Z.shiftl (hex_value h) 4) (hex_value l)) :: bs) <$> py_fromhex rest'
           | EmptyString => None
           end
  end.

(** ** Dictionaries *)

Abbreviation dict V := (list (string * V)).

(** [d[k] = v]: in place if the key is there, at the end if not. *)
Fixpoint dict_set {V} (k : string) (v : V) (d : dict V) : dict V :=
  match d with
  | [] => [(k, v)]
  | (k', v') :: d' => if bool_decide (k' = k) then (k, v) :: d' else (k', v') :: dict_set k v d'
  end.
(** [d.get(k)]. *)
Fixpoint dict_get {V} (k : string) (d : dict V) : option V :=
  match d with
  | [] => None
  | (k', v') :: d' => if bool_decide (k' = k) then Some v' else dict_get k d'
  end.
(** [d.update(e)]. *)
Definition dict_update {V} (d e : dict V) : dict V := foldl (fun d kv => dict_set kv.1 kv.2 d) d e.

(** [sorted(d.items())]: the keys of a dictionary are distinct, so the values are never
    compared. *)
Definition sorted_items {V} (d : dict V) : list (string * V) := merge_sort key_le d.

(** ** Lemmas: plain text *)

(** Characters on which the two languages agree. *)
Definition plain_char (c : ascii) : bool := (char_code c <? 128) && negb (code_in [11; 12; 13; 28; 29; 30; 31] c).
Definition plain (s : string) : bool := str_forall plain_char s.

Lemma plain_space c : plain_char c = true -> py_isspace c = isspace c.
Proof. intros Hc. destruct c as [[] [] [] [] [] [] [] []]; vm_compute in Hc |- *; congruence. Qed.
Lemma plain_break c : plain_char c = true -> line_break c = bool_decide (c = newline).
Proof. intros Hc. destruct c as [[] [] [] [] [] [] [] []]; vm_compute in Hc |- *; congruence. Qed.
Lemma plain_crlf c d : plain_char c = true -> crlf c d = false.
Proof. unfold crlf. intros Hc. apply andb_false_iff. left. destruct c as [[] [] [] [] [] [] [] []]; vm_compute in Hc |- *; congruence. Qed.

Lemma plain_app s t : plain (s +:+ t) = plain s && plain t.
Proof. apply str_forall_app. Qed.

Lemma py_split_plain s : plain s = true -> py_split s = tokens s.
Proof.
  induction s as [|c s IH]; [done|]. unfold plain in *. simpl. intros [Hc Hs]%andb_true_iff. unfold tokens; fold tokens.
  rewrite IH, plain_space by done. destruct (isspace c); [done|].
  replace (head_is py_isspace s) with (head_is isspace s); [done|].
  destruct s as [|d s]; [done|]. simpl in *. apply andb_true_iff in Hs as [Hd _]. by rewrite plain_space.
Qed.

Lemma py_splitlines_plain s : plain s = true -> py_splitlines s = getlines s.
Proof.
  induction s as [|c s IH]; [done|]. unfold plain in *. simpl. intros [Hc Hs]%andb_true_iff. rewrite IH, plain_break by done.
  case_bool_decide as Hn; [rewrite decide_True by done|by rewrite decide_False].
  destruct s as [|d s]; [done|]. by rewrite plain_crlf.
Qed.

(** ** Lemmas: numbers *)

Lemma int_digits_read acc s b : str_forall is_digit s = true -> b || negb (str_empty s) = true ->
  int_digits acc b s = Some (read_digits acc s).1.
Proof.
  revert acc b. induction s as [|c s IH]; intros acc b Hs Hb; simpl in *; [by destruct b|].
  apply andb_true_iff in Hs as [Hc Hs]. apply is_digit_spec in Hc as [d Hd]. rewrite Hd. by apply IH.
Qed.

Lemma count_digits_all s : str_forall is_digit s = true -> count_digits s = String.length s.
Proof. induction s as [|c s IH]; [done|]. simpl. intros [-> Hs]%andb_true_iff. by rewrite IH. Qed.

Lemma digit_no_sign c : is_digit c = true -> c <> "-"%char /\ c <> "+"%char.
Proof. intros Hc. split; intros ->; by vm_compute in Hc. Qed.

Lemma py_int_decimal s : isdecimal s = true -> (String.length s <= max_str_digits)%nat -> py_int s = Some (read_digits 0 s).1.
Proof.
  intros [Hne Hs]%andb_true_iff Hlen. unfold py_int. rewrite count_digits_all by done.
  rewrite (proj2 (Nat.ltb_ge _ _)) by done. destruct s as [|c s]; [done|].
  pose proof Hs as Hall. simpl in Hs. apply andb_true_iff in Hs as [Hc _]. destruct (digit_no_sign c Hc) as [H1 H2].
  pose proof (int_digits_read 0 (String c s) false Hall eq_refl) as Hr.
  destruct c as [[] [] [] [] [] [] [] []]; try exact Hr; by destruct (H1 eq_refl) || destruct (H2 eq_refl).
Qed.

Lemma isdecimal_to_string n : 0 <= n -> isdecimal (to_string n) = true.
Proof. intros Hn. destruct (to_string_spec n Hn) as (Hne & Hd & _). unfold isdecimal. rewrite Hd, andb_true_r. by destruct (to_string n). Qed.

Lemma read_digits_to_string n : 0 <= n -> (read_digits 0 (to_string n)).1 = n.
Proof. intros Hn. destruct (to_string_spec n Hn) as (_ & _ & Hr). specialize (Hr ""). by rewrite str_app_nil_r in Hr; rewrite Hr. Qed.

Lemma py_fromhex_word s : no_space s = true -> py_fromhex s = decode_hex_loop s.
Proof.
  remember (String.length s) as n eqn:Hn. revert s Hn. induction n as [n IH] using lt_wf_ind. intros s Hn Hs.
  destruct s as [|h [|l rest]]; [done| |]; unfold no_space in *; simpl in *.
  - apply andb_true_iff in Hs as [Hh%negb_true_iff _]. by rewrite Hh.
  - apply andb_true_iff in Hs as [Hh%negb_true_iff Hs]. apply andb_true_iff in Hs as [_ Hs]. rewrite Hh.
    rewrite (IH (String.length rest)) by (lia || done). done.
Qed.

(** ** Lemmas: dictionaries *)

Lemma dict_set_fresh {V} k (v : V) d : k ∉ d.*1 -> dict_set k v d = d ++ [(k, v)].
Proof.
  induction d as [|[k' v'] d IH]; [done|]. csimpl. intros [Hk Hd]%not_elem_of_cons.
  rewrite bool_decide_false by done. by rewrite IH.
Qed.

Lemma dict_get_elem {V} k (v : V) d : NoDup d.*1 -> (k, v) ∈ d -> dict_get k d = Some v.
Proof.
  induction d as [|[k' v'] d IH]; csimpl; [by intros _ ?%elem_of_nil|]. intros [Hk Hd]%NoDup_cons [[= -> ->]|Hin]%elem_of_cons.
  - by rewrite bool_decide_true.
  - rewrite bool_decide_false; [by apply IH|]. intros ->. apply Hk, list_elem_of_fmap. by exists (k, v).
Qed.

Lemma dict_get_none {V} k (d : dict V) : k ∉ d.*1 -> dict_get k d = None.
Proof.
  induction d as [|[k' v'] d IH]; [done|]. csimpl. intros [Hk Hd]%not_elem_of_cons. rewrite bool_decide_false by done. by apply IH.
Qed.

(** A dictionary read as a map: the iteration order of C++ is the sorted one. *)
Lemma sorted_items_map {V} (d : dict V) : NoDup d.*1 -> sorted_items d = map_items (list_to_map d : gmap string V).
Proof.
  intros Hd. pose proof (merge_sort_Permutation key_le d) as Hp. symmetry. apply map_items_unique.
  - unfold sorted_items. by rewrite Hp.
  - apply (StronglySorted_merge_sort key_le).
  - unfold sorted_items. apply list_to_map_proper; [by rewrite Hp|done].
Qed.

(** ** Lemmas: what a node writes is plain *)

Lemma to_string_plain n : 0 <= n -> plain (to_string n) = true.
Proof.
  intros Hn. destruct (to_string_spec n Hn) as (_ & Hd & _). eapply str_forall_impl; [|exact Hd].
  intros c [d Hc]%is_digit_spec. destruct c as [[] [] [] [] [] [] [] []]; vm_compute in Hc |- *; congruence.
Qed.

Lemma encode_hex_plain bs : plain (encode_hex bs) = true.
Proof. induction bs as [|b bs IH]; [done|]. cbn [encode_hex]. rewrite plain_app, IH. by destruct b. Qed.

Lemma to_string_go_length fuel n acc : (String.length (to_string_go fuel n acc) <= fuel + String.length acc)%nat.
Proof.
  revert n acc. induction fuel as [|fuel IH]; intros n acc; [done|]. cbn [to_string_go]. case_match; simpl; [lia|].
  etrans; [apply IH|]. simpl. lia.
Qed.

Lemma to_string_short n : u64 n -> (String.length (to_string n) <= max_str_digits)%nat.
Proof.
  intros Hn. unfold to_string. etrans; [apply to_string_go_length|]. simpl.
  assert (Hl : Z.log2 n < 64) by (destruct (decide (n = 0)) as [-> |]; [done|apply Z.log2_lt_pow2; lia]).
  unfold max_str_digits. pose proof (Z.log2_nonneg n). lia.
Qed.

(** Elsewhere they do not: a file separator is part of a word for the node, and ends a word and
    a line for the client. *)
Example separators_differ :
  let s := "a" +:+ String "028" "b" in
  tokens s = [s] /\ getlines s = [s] /\ py_split s = ["a"; "b"]%string /\ py_splitlines s = ["a"; "b"]%string.
Proof. by vm_compute. Qed.
