(* ===== verification/PySdk.v ===== *)
(** * The Python SDK: [src/python/src/beaconnode]

    The client of the control port ([client.py]), with the frames ([framing.py]), the signing
    identity ([identity.py]), the registration ([models.py]), the synchronisation of two nodes
    through their control ports ([sync.py]) and the UDP probe ([peer.py]).  TCP is the
    interface [Transport] of [SyncClient], so that the other end can be the control server of
    this development; the protobuf classes are the interface of [Protobuf]; the Ed25519 of the
    package [cryptography] is the interface [PyEd25519].  Exceptions are values of [py_error];
    that an optional package is not installed is left out. *)

From S2P Require Import Prelude CxxString CxxContainers Types Sodium Crypto Framing Protobuf SyncClient PyText.

(** ** Data *)

Inductive py_error := ValueError | TypeError | StructError | DecodeError | BeaconConnectionError | TimeoutError | FileNotFoundError.

(** What a field of a line is read as, and [str] of it. *)
Inductive value := VInt (n : Z) | VStr (s : string).
Definition py_str (v : value) : string := match v with VInt n => py_str_int n | VStr s => s end.

(** [AgentRegistration] of [models.py].  The values of [metadata] are declared as [str], and can
    be numbers: the annotations are not enforced. *)
Record Registration := mkRegistration {
  py_agent_id : string;
  py_node_id : string;
  py_endpoint : string;
  py_metadata : dict value;
  py_revision : Z;
  py_public_key : bytes;
  py_signature : bytes;
}.

(** The values of the dictionaries the client returns. *)
Inductive svalue := SVal (v : value) | SBool (b : bool) | SNone | SRequest (r : Registration).

(** ** [framing.py] *)

Definition MAGIC : bytes := [Byte.x42; Byte.x4e].
Definition VERSION : Z := 1.
Definition HEADER_SIZE : Z := 9.
Definition FRAME_CONTROL_REQUEST : Z := 1.
Definition FRAME_CONTROL_RESPONSE : Z := 2.

(** [struct.pack(">HI", kind, length)] raises when a number does not fit. *)
Definition py_pack_HI (kind_ length_ : Z) : option bytes :=
  if (0 <=? kind_) && (kind_ <? 2 ^ 16) && (0 <=? length_) && (length_ <? 2 ^ 32) then
    Some [byte_of_Z (kind_ / 2 ^ 8); byte_of_Z kind_;
          byte_of_Z (length_ / 2 ^ 24); byte_of_Z (length_ / 2 ^ 16); byte_of_Z (length_ / 2 ^ 8); byte_of_Z length_]
  else None.
(** [struct.unpack(">HI", data)] of six bytes. *)
Definition py_unpack_HI (data : bytes) : Z * Z :=
  let at_ i := Z_of_byte (data !!! i) in
  (at_ 0%nat * 2 ^ 8 + at_ 1%nat, be32 (data !!! 2%nat) (data !!! 3%nat) (data !!! 4%nat) (data !!! 5%nat)).

Definition py_encode_frame (frame : Frame) : bytes + py_error :=
  match py_pack_HI (kind frame) (size_of (payload frame)) with
  | None => inr StructError
  | Some packed => inl (MAGIC ++ [byte_of_Z VERSION] ++ packed ++ payload frame)
  end.

Definition py_decode_frame (data : bytes) : Frame + py_error :=
  if size_of data <? HEADER_SIZE then inr ValueError
  else if negb (bool_decide (take 2 data = MAGIC)) then inr ValueError
  else if negb (Z_of_byte (data !!! 2%nat) =? VERSION) then inr ValueError
  else
    let '(kind_, length_) := py_unpack_HI (drop 3 (take 9 data)) in
    if negb (size_of data =? HEADER_SIZE + length_) then inr ValueError
    else inl (mkFrame kind_ (drop 9 data)).

Definition expected_frame_length (header : bytes) : Z + py_error :=
  if negb (size_of header =? HEADER_SIZE) then inr ValueError
  else if negb (bool_decide (take 2 header = MAGIC)) then inr ValueError
  else let '(_, length_) := py_unpack_HI (drop 3 (take 9 header)) in inl (HEADER_SIZE + length_).

(** ** [identity.py] *)

(** Ed25519 on raw keys: the public key of a private key, the signature of a message, whether
    [verify] of a key accepts a signature; and private keys as PEM, where [None] is the
    [ValueError] of data that is not a key. *)
Class PyEd25519 := {
  py_public_bytes : bytes -> bytes;
  py_private_sign : bytes -> bytes -> bytes;
  py_public_verify : bytes -> bytes -> bytes -> bool;
  py_private_bytes : bytes -> bytes;
  py_load_pem_private_key : bytes -> option bytes;
}.

Definition py_metadata_line (kv : string * value) : string := "metadata." +:+ kv.1 +:+ "=" +:+ py_str kv.2.
Definition py_canonical_payload (r : Registration) : bytes :=
  let lines :=
    ["agent_id=" +:+ py_agent_id r; "node_id=" +:+ py_node_id r; "endpoint=" +:+ py_endpoint r;
     "revision=" +:+ py_str_int (py_revision r)]%string ++ (py_metadata_line <$> sorted_items (py_metadata r)) in
  bytes_of_string (py_join nl lines +:+ nl).

(** [AgentIdentity.sign]; an identity is its private key. *)
Definition py_identity_sign {Ed : PyEd25519} (private_key : bytes) (r : Registration) : Registration :=
  mkRegistration (py_agent_id r) (py_node_id r) (py_endpoint r) (py_metadata r) (py_revision r)
    (py_public_bytes private_key) (py_private_sign private_key (py_canonical_payload r)).

(** [verify_registration]; a public key that is not 32 bytes long is a [ValueError]. *)
Definition py_verify_registration {Ed : PyEd25519} (r : Registration) : bool + py_error :=
  if bool_decide (py_public_key r = []) || bool_decide (py_signature r = []) then inl false
  else if negb (size_of (py_public_key r) =? 32) then inr ValueError
  else inl (py_public_verify (py_public_key r) (py_signature r) (py_canonical_payload r)).

(** The key files, by path; [save] also makes the directories above the file.  [generated] is
    the key [generate] draws. *)
Definition py_identity_save {Ed : PyEd25519} (path : string) (private_key : bytes) (files : gmap string bytes) : gmap string bytes :=
  <[path := py_private_bytes private_key]> files.
Definition py_identity_load {Ed : PyEd25519} (path : string) (files : gmap string bytes) : bytes + py_error :=
  match files !! path with
  | None => inr FileNotFoundError
  | Some data => match py_load_pem_private_key data with None => inr ValueError | Some key => inl key end
  end.
Definition py_identity_load_or_create {Ed : PyEd25519} (generated : bytes) (path : string) (files : gmap string bytes)
    : gmap string bytes * (bytes + py_error) :=
  if bool_decide (is_Some (files !! path)) then (files, py_identity_load path files)
  else (py_identity_save path generated files, inl generated).

(** ** The line protocol of [client.py] *)

Definition py_encode_record_command (command : string) (r : Registration) : string :=
  py_join " "
    ([command; "agent_id=" +:+ py_agent_id r; "node_id=" +:+ py_node_id r; "endpoint=" +:+ py_endpoint r;
      "revision=" +:+ py_str_int (py_revision r)]%string ++
     (py_metadata_line <$> py_metadata r) ++
     (if bool_decide (py_public_key r = []) then [] else ["public_key=" +:+ encode_hex (py_public_key r)]) ++
     (if bool_decide (py_signature r = []) then [] else ["signature=" +:+ encode_hex (py_signature r)])).

(** One token of [_parse_fields]; [None] is the [ValueError] of [int]. *)
Definition py_field_value (raw : bool) (v : string) : option value :=
  if raw then Some (VStr v) else if isdecimal v then VInt <$> py_int v else Some (VStr v).
Definition py_parse_field (raw_keys : list string) (fields : option (dict value)) (token : string) : option (dict value) :=
  d ← fields;
  match split_equals token with
  | None => Some d
  | Some (key, v) => x ← py_field_value (bool_decide (key ∈ raw_keys)) v; Some (dict_set key x d)
  end.
Definition py_fields_of (raw_keys : list string) (line : string) : option (dict value) :=
  foldl (py_parse_field raw_keys) (Some []) (tail (py_split line)).
Definition py_parse_fields (line : string) : option (dict value) := py_fields_of ["public_key"; "signature"]%string line.

Definition py_parse_status (response : string) (extra : dict svalue) : dict svalue + py_error :=
  let first_line :=
    if str_empty response then "ERR message=empty_response" else default "" (head (py_splitlines response)) in
  match py_parse_fields first_line with
  | None => inr ValueError
  | Some fields =>
      let result := [("ok", SBool (starts_with first_line "OK")); ("endpoint", SNone)]%string in
      let result := dict_update result (prod_map id SVal <$> fields) in
      let result := dict_update result extra in
      let endpoint :=
        match dict_get "endpoint" result with
        | Some SNone | None | Some (SVal (VInt 0)) => SVal (VStr "")
        | Some v => v
        end in
      inl (dict_set "endpoint" endpoint result)
  end.

(** [str(fields.get(key, ""))]. *)
Definition str_field (key : string) (fields : dict value) : string := from_option py_str "" (dict_get key fields).
(** [int(fields.get("revision", 0))]. *)
Definition int_field (key : string) (fields : dict value) : option Z :=
  match dict_get key fields with None => Some 0 | Some (VInt n) => Some n | Some (VStr s) => py_int s end.

(** [key.removeprefix("metadata.")] of the keys that start with it. *)
Definition metadata_of (fields : dict value) : dict value :=
  foldl (fun d kv => dict_set (substr_from kv.1 9) kv.2 d) [] (filter (fun kv => starts_with kv.1 "metadata." = true) fields).

Definition py_parse_agent_line (line : string) : option Registration :=
  fields ← py_parse_fields line;
  rev ← int_field "revision" fields;
  pk ← py_fromhex (str_field "public_key" fields);
  sg ← py_fromhex (str_field "signature" fields);
  Some (mkRegistration (str_field "agent_id" fields) (str_field "node_id" fields) (str_field "endpoint" fields)
          (metadata_of fields) rev pk sg).

Fixpoint py_parse_agent_list_lines (lines : list string) : list Registration + py_error :=
  match lines with
  | [] => inl []
  | line :: rest =>
      if starts_with line "AGENT " then
        match py_parse_agent_line line with
        | None => inr ValueError
        | Some r => match py_parse_agent_list_lines rest with inl rs => inl (r :: rs) | inr e => inr e end
        end
      else py_parse_agent_list_lines rest
  end.
Definition py_parse_agent_list (response : string) : list Registration + py_error :=
  py_parse_agent_list_lines (py_splitlines response).

(** ** The protobuf protocol of [client.py] *)

(** The constructors of the generated classes refuse numbers that do not fit the field, and
    [update] of a [map<string, string>] refuses values that are not text. *)
Definition fits (w n : Z) : bool := (0 <=? n) && (n <? 2 ^ w).

Fixpoint text_items (d : dict value) : option (dict string) :=
  match d with
  | [] => Some []
  | (k, VStr s) :: d' => (fun l => (k, s) :: l) <$> text_items d'
  | (_, VInt _) :: _ => None
  end.

Definition to_proto_agent (r : Registration) : V1.AgentRegistration + py_error :=
  if negb (fits 64 (py_revision r)) then inr ValueError
  else match text_items (py_metadata r) with
       | None => inr TypeError
       | Some items =>
           inl (V1.mkAgentRegistration (py_agent_id r) (py_node_id r) (py_endpoint r) (map_store ∅ items)
                  (py_revision r) 0 (py_public_key r) (py_signature r))
       end.

(** The order in which a protobuf map is iterated is not specified; it is that of the keys
    here. *)
Definition from_proto_agent (a : V1.AgentRegistration) : Registration :=
  mkRegistration (V1.reg_agent_id a) (V1.reg_node_id a) (V1.reg_endpoint a)
    (prod_map id VStr <$> map_items (V1.reg_metadata a)) (V1.reg_revision a) (V1.reg_public_key a) (V1.reg_signature a).

Definition py_parse_proto_status (response : V1.ControlResponse) (extra : dict svalue) : dict svalue + py_error :=
  let line := (if V1.resp_ok response then "OK " else "ERR ") +:+ V1.resp_message response in
  match py_parse_fields line with
  | None => inr ValueError
  | Some fields =>
      let result := [("ok", SBool (V1.resp_ok response)); ("message", SVal (VStr (V1.resp_message response)));
                     ("endpoint", SVal (VStr ""))]%string in
      inl (dict_update (dict_update result (prod_map id SVal <$> fields)) extra)
  end.

(** ** The client *)

Record BeaconClient := mkBeaconClient {
  py_host : string;
  py_port : Z;
  py_protocol : string;
  py_identity : option bytes;
}.

Section client.
Context {N : Type} {T : Transport N} {Ed : PyEd25519}
  {Req : ProtoMessage V1.ControlRequest} {Resp : ProtoMessage V1.ControlResponse}.
Implicit Types (this : BeaconClient) (net : N).

Definition py_address this : SyncPeer := mkSyncPeer (py_host this) (py_port this).

(** [_round_trip]: the whole answer, up to the end of the stream. *)
Definition py_round_trip this (command : string) net : N * (string + py_error) :=
  match tcp_exchange (py_address this) (command +:+ nl) net with
  | (net', ConnectFailed) | (net', WriteFailed) | (net', Received _ read_failed) => (net', inr BeaconConnectionError)
  | (net', Received response _) => (net', inl response)
  end.

(** [_read_exact] on what arrives: too few bytes is a closed or broken connection. *)
Definition py_read_exact (length_ : Z) (data : bytes) : option (bytes * bytes) :=
  if length_ <=? size_of data then Some (take (Z.to_nat length_) data, drop (Z.to_nat length_) data) else None.

(** What is made of the bytes of an answer. *)
Definition py_read_response (data : bytes) : V1.ControlResponse + py_error :=
  match py_read_exact HEADER_SIZE data with
  | None => inr BeaconConnectionError
  | Some (header, rest) =>
      match expected_frame_length header with
      | inr e => inr e
      | inl total_length =>
          match py_read_exact (total_length - HEADER_SIZE) rest with
          | None => inr BeaconConnectionError
          | Some (body, _) =>
              match py_decode_frame (header ++ body) with
              | inr e => inr e
              | inl frame =>
                  if negb (kind frame =? FRAME_CONTROL_RESPONSE) then inr BeaconConnectionError
                  else match ParseFromString (payload frame) with
                       | None => inr DecodeError
                       | Some response => inl response
                       end
              end
          end
      end
  end.

(** [_round_trip_proto]; a request whose text is not UTF-8 is not serialised. *)
Definition py_round_trip_proto this (request : V1.ControlRequest) net : N * (V1.ControlResponse + py_error) :=
  match SerializeToString request with
  | None => (net, inr ValueError)
  | Some serialized =>
      match py_encode_frame (mkFrame FRAME_CONTROL_REQUEST serialized) with
      | inr e => (net, inr e)
      | inl framed =>
          match tcp_exchange (py_address this) (string_of_bytes framed) net with
          | (net', ConnectFailed) | (net', WriteFailed) => (net', inr BeaconConnectionError)
          | (net', Received response _) => (net', py_read_response (bytes_of_string response))
          end
      end
  end.

Definition is_protobuf this : bool := bool_decide (py_protocol this = "protobuf").
Definition py_signed this (r : Registration) : Registration :=
  match py_identity this with Some key => py_identity_sign key r | None => r end.

(** [register] and [merge], up to the name of the command. *)
Definition py_store this (word : string) (body : V1.AgentRegistration -> V1.ControlRequest) (r : Registration) net
    : N * (dict svalue + py_error) :=
  let r := py_signed this r in
  if is_protobuf this then
    match to_proto_agent r with
    | inr e => (net, inr e)
    | inl agent =>
        match py_round_trip_proto this (body agent) net with
        | (net, inr e) => (net, inr e)
        | (net, inl response) => (net, py_parse_proto_status response [("request", SRequest r)]%string)
        end
    end
  else
    match py_round_trip this (py_encode_record_command word r) net with
    | (net, inr e) => (net, inr e)
    | (net, inl response) => (net, py_parse_status response [("request", SRequest r)]%string)
    end.
Definition py_register this := py_store this "REGISTER" V1.register_agent.
Definition py_merge this := py_store this "MERGE" V1.sync_merge.

Definition py_heartbeat this (agent_id_ : string) (rev : Z) net : N * (dict svalue + py_error) :=
  let extra := [("agent_id", SVal (VStr agent_id_))]%string in
  if is_protobuf this then
    if negb (fits 64 rev) then (net, inr ValueError)
    else match py_round_trip_proto this (V1.heartbeat (V1.mkHeartbeat agent_id_ "" rev 0 [])) net with
         | (net, inr e) => (net, inr e)
         | (net, inl response) => (net, py_parse_proto_status response extra)
         end
  else
    match py_round_trip this ("HEARTBEAT agent_id=" +:+ agent_id_ +:+ " revision=" +:+ py_str_int rev) net with
    | (net, inr e) => (net, inr e)
    | (net, inl response) => (net, py_parse_status response extra)
    end.

(** [_from_proto_agents(response.snapshot.agents)]: an absent snapshot has no agents. *)
Definition py_agents_of (response : V1.ControlResponse) : list Registration :=
  from_proto_agent <$> default [] (V1.resp_snapshot response).

Definition py_fetch this (command : string) (request : V1.ControlRequest) net : N * (list Registration + py_error) :=
  if is_protobuf this then
    match py_round_trip_proto this request net with
    | (net, inr e) => (net, inr e)
    | (net, inl response) => (net, inl (py_agents_of response))
    end
  else
    match py_round_trip this command net with
    | (net, inr e) => (net, inr e)
    | (net, inl response) => (net, py_parse_agent_list response)
    end.
Definition py_list_agents this := py_fetch this "LIST" (V1.list_agents_request (V1.mkListAgentsRequest "" "")).
Definition py_sync_pull this (after_revision_ limit_ : Z) net : N * (list Registration + py_error) :=
  if is_protobuf this && negb (fits 64 after_revision_ && fits 32 limit_) then (net, inr ValueError)
  else py_fetch this ("SYNC_PULL after_revision=" +:+ py_str_int after_revision_ +:+ " limit=" +:+ py_str_int limit_)
         (V1.sync_pull (V1.mkSyncPullRequest after_revision_ limit_)) net.

Definition py_stats this net : N * (dict svalue + py_error) :=
  if is_protobuf this then
    match py_round_trip_proto this V1.stats_request net with
    | (net, inr e) => (net, inr e)
    | (net, inl response) => (net, py_parse_proto_status response [])
    end
  else
    match py_round_trip this "STATS" net with
    | (net, inr e) => (net, inr e)
    | (net, inl response) => (net, py_parse_status response [])
    end.

(** ** [sync.py] *)

(** [int(stats.get("highest_revision", 0))]. *)
Definition py_watermark (stats_ : dict svalue) : Z + py_error :=
  match dict_get "highest_revision" stats_ with
  | None => inl 0
  | Some (SVal (VInt n)) => inl n
  | Some (SVal (VStr s)) => match py_int s with Some n => inl n | None => inr ValueError end
  | Some (SBool b) => inl (if b then 1 else 0)
  | Some _ => inr TypeError
  end.

(** [response.get("ok")], as a condition. *)
Definition py_truthy (v : option svalue) : bool :=
  match v with
  | Some (SBool b) => b
  | Some (SVal (VInt n)) => negb (n =? 0)
  | Some (SVal (VStr s)) => negb (str_empty s)
  | Some (SRequest _) => true
  | Some SNone | None => false
  end.

(** Merging registrations into a node, one after the other; the number that were accepted. *)
Fixpoint py_merge_all this (rs : list Registration) (n : Z) net : N * (Z + py_error) :=
  match rs with
  | [] => (net, inl n)
  | r :: rest =>
      match py_merge this r net with
      | (net, inr e) => (net, inr e)
      | (net, inl response) => py_merge_all this rest (if py_truthy (dict_get "ok" response) then n + 1 else n) net
      end
  end.

(** Pull from one node what is newer than a watermark, and merge it into another. *)
Definition py_transfer (source target : BeaconClient) (rev limit_ : Z) net : N * (Z + py_error) :=
  match py_sync_pull source rev limit_ net with
  | (net, inr e) => (net, inr e)
  | (net, inl rs) => py_merge_all target rs 0 net
  end.

Definition py_sync_with_peer (local remote : BeaconClient) (limit_ : Z) net : N * (SyncResult + py_error) :=
  match py_stats local net with
  | (net, inr e) => (net, inr e)
  | (net, inl local_stats) =>
      match py_stats remote net with
      | (net, inr e) => (net, inr e)
      | (net, inl remote_stats) =>
          match py_watermark local_stats with
          | inr e => (net, inr e)
          | inl local_revision =>
              match py_watermark remote_stats with
              | inr e => (net, inr e)
              | inl remote_revision =>
                  match py_transfer remote local local_revision limit_ net with
                  | (net, inr e) => (net, inr e)
                  | (net, inl pulled_) =>
                      match py_transfer local remote remote_revision limit_ net with
                      | (net, inr e) => (net, inr e)
                      | (net, inl pushed_) => (net, inl (mkSyncResult pulled_ pushed_))
                      end
                  end
              end
          end
      end
  end.
End client.

(** ** [peer.py] *)

(** The exchange of datagrams is an argument: the answer and the address it came from, [None]
    when none came in time. *)
Definition probe_peer (send_receive : string -> option (string * string)) (node_id_ : string) (listen_port_ : Z)
    : dict svalue + py_error :=
  let payload := "BEACON_HELLO node_id=" +:+ node_id_ +:+ " listen_port=" +:+ py_str_int listen_port_ in
  match send_receive payload with
  | None => inr TimeoutError
  | Some (response, address) =>
      let response := substr response 0 1024 in
      match py_fields_of [] response with
      | None => inr ValueError
      | Some fields =>
          inl (dict_update [("ok", SBool (starts_with response "BEACON_WELCOME")); ("address", SVal (VStr address))]%string
                 (prod_map id SVal <$> fields))
      end
  end.
