(* ===== verification/PySdkProps.v ===== *)
(** * The Python SDK and the node understand each other

    The two sides of the control port were written twice, in Python and in C++.  This file
    proves that they agree: the same frames, the same payload under a signature, commands that
    the node reads as what the client was given, answers that the client reads as what the
    node holds; and what is lost on the way. *)

From S2P Require Import Prelude CxxString CxxContainers Types Sodium SecureBuffer Crypto IdentityService AgentRegistry RegistrySpec RegistryProps Framing ControlProtocol ControlProps RegistrySync Protobuf ControlProtobuf ControlServer SyncClient PyText PySdk.

(** ** Frames *)

Lemma pack_encode f : frame_ok f -> py_encode_frame f = inl (encode_frame f).
Proof.
  intros [Hk Hl]. unfold py_encode_frame, py_pack_HI.
  rewrite !(proj2 (Z.leb_le _ _)), !(proj2 (Z.ltb_lt _ _)) by lia. cbn [andb].
  unfold encode_frame, append_u32, append_u16, MAGIC. rewrite !wrap_small by lia. cbn [app]. do 4 f_equal.
  assert (Hb : forall v n, 0 <= n -> byte_of_Z (v / 2 ^ n) = byte_of_Z (Z.land (Z.shiftr v n) 255)).
  { intros v n Hn. rewrite Z.shiftr_div_pow2 by lia. change 255 with (Z.ones 8). rewrite Z.land_ones by lia.
    unfold byte_of_Z, wrap. by rewrite Z.mod_mod by lia. }
  assert (H0 : forall v, byte_of_Z v = byte_of_Z (Z.land v 255)).
  { intros v. specialize (Hb v 0 ltac:(lia)). rewrite Z.div_1_r, Z.shiftr_0_r in Hb. done. }
  by rewrite !Hb, <- !H0 by lia.
Qed.

Lemma pack_refuses f : ~ frame_ok f -> py_encode_frame f = inr StructError.
Proof.
  intros Hf. unfold py_encode_frame, py_pack_HI. destruct (_ && _ && _ && _) eqn:Hb; [|done].
  destruct Hf. repeat (apply andb_true_iff in Hb as [Hb ?]). bool_to_prop. done.
Qed.

Lemma short_decode data : (length data < 9)%nat -> py_decode_frame data = inr ValueError /\ decode_frame data = None.
Proof.
  intros Hd. unfold py_decode_frame, decode_frame, HEADER_SIZE, kHeaderSize, size_of.
  by rewrite !(proj2 (Z.ltb_lt _ _)) by lia.
Qed.

Lemma unpack_decode data : py_decode_frame data = match decode_frame data with Some f => inl f | None => inr ValueError end.
Proof.
  destruct (decide (length data < 9)%nat) as [Hd|Hd]; [by destruct (short_decode data Hd) as [-> ->]|].
  destruct data as [|b0 [|b1 [|b2 [|k1 [|k0 [|l3 [|l2 [|l1 [|l0 p]]]]]]]]]; simpl in Hd; try lia. clear Hd.
  rewrite decode_frame_cons. unfold py_decode_frame. rewrite !size_of_cons.
  pose proof (size_of_nonneg p). rewrite (proj2 (Z.ltb_ge _ _)) by (unfold HEADER_SIZE; lia).
  change (take 2 _) with [b0; b1]. change (drop 3 (take 9 _)) with [k1; k0; l3; l2; l1; l0].
  change (drop 9 _) with p. unfold py_unpack_HI. cbn [lookup_total list_lookup_total].
  assert (Hm : bool_decide ([b0; b1] = MAGIC) = bool_decide (b0 = kMagic0) && bool_decide (b1 = kMagic1)).
  { unfold MAGIC, kMagic0, kMagic1. repeat case_bool_decide; simplify_eq; done. }
  assert (Hv : (Z_of_byte b2 =? VERSION) = bool_decide (b2 = kVersion)) by (destruct b2; by vm_compute).
  rewrite Hm, Hv. destruct (bool_decide (b0 = kMagic0) && bool_decide (b1 = kMagic1)); [|done]. cbn [negb andb].
  destruct (bool_decide (b2 = kVersion)); [|done]. cbn [negb andb].
  replace (_ =? HEADER_SIZE + be32 l3 l2 l1 l0) with (size_of p =? be32 l3 l2 l1 l0); [by destruct (size_of p =? _)|].
  unfold HEADER_SIZE. apply eq_true_iff_eq. rewrite !Z.eqb_eq. lia.
Qed.

(** (C24) The two implementations of the frame format are the same: the Python encoder produces
    exactly the bytes of the C++ encoder, and refuses the frames whose kind or length the
    header cannot carry (which the C++ encoder truncates); the Python decoder accepts exactly
    the byte strings the C++ decoder accepts, as the same frames. *)
Theorem sdk_frames_agree f data :
  (frame_ok f /\ py_encode_frame f = inl (encode_frame f) \/ ~ frame_ok f /\ py_encode_frame f = inr StructError) /\
  py_decode_frame data = match decode_frame data with Some f => inl f | None => inr ValueError end.
Proof.
  split; [|apply unpack_decode]. unfold frame_ok.
  destruct (decide (u16 (kind f) /\ u32 (size_of (payload f)))) as [Hf|Hf]; [left|right].
  - split; [done|by apply pack_encode].
  - split; [done|by apply pack_refuses].
Qed.

(** ** Signed payloads *)

(** The record a node makes of a registration. *)
Definition node_record (ex : TimePoint) (r : Registration) : AgentRecord :=
  mkAgentRecord (py_agent_id r) (py_node_id r) (py_endpoint r)
    (list_to_map (prod_map id py_str <$> py_metadata r)) (py_revision r) ex
    (encode_hex (py_public_key r)) (encode_hex (py_signature r)).

Lemma fst_prod_map {A B C} (f : B -> C) (l : list (A * B)) : (prod_map id f <$> l).*1 = l.*1.
Proof. induction l as [|[a b] l IH]; [done|]. csimpl. by rewrite IH. Qed.

Lemma sorted_values {A B} (f : A -> B) (d : dict A) : NoDup d.*1 ->
  map_items (list_to_map (prod_map id f <$> d) : gmap string B) = prod_map id f <$> sorted_items d.
Proof.
  intros Hd. pose proof (merge_sort_Permutation key_le d) as Hp. apply map_items_unique.
  - rewrite fst_prod_map. unfold sorted_items. by rewrite Hp.
  - unfold sorted_items. pose proof (StronglySorted_merge_sort key_le d) as Hs.
    clear Hp. induction Hs as [|[k v] l _ IH Hall]; [constructor|]. csimpl. constructor; [done|]. apply Forall_fmap.
    eapply Forall_impl; [exact Hall|]. by intros [].
  - apply list_to_map_proper; [|by unfold sorted_items; rewrite Hp].
    rewrite fst_prod_map. unfold sorted_items. by rewrite Hp.
Qed.

Lemma py_join_lines l ls : py_join nl (l :: ls) +:+ nl = unlines (l :: ls).
Proof.
  revert l. induction ls as [|k ls IH]; intros l; unfold py_join in *; cbn [foldr] in *.
  - unfold unlines. cbn [foldr]. by autorewrite with str.
  - specialize (IH k). unfold unlines in *. cbn [foldr] in *. autorewrite with str in *. by rewrite IH.
Qed.

(** Registrations whose numbers print as C++ prints them. *)
Definition encodable (r : Registration) : Prop := NoDup (py_metadata r).*1 /\ u64 (py_revision r).

Lemma payload_agrees ex r : encodable r -> py_canonical_payload r = bytes_of_string (canonical_agent_payload (node_record ex r)).
Proof.
  intros [Hd Hr]. unfold py_canonical_payload. f_equal. cbn [app]. rewrite py_join_lines, canonical_agent_payload_lines.
  unfold payload_lines, node_record. cbn [agent_id node_id endpoint revision metadata]. unfold py_str_int.
  rewrite (proj2 (Z.ltb_ge _ _)) by lia. do 5 f_equal. rewrite sorted_values by done.
  rewrite <- list_fmap_compose. apply list_fmap_ext. by intros _ [k v] _.
Qed.

(** What the two Ed25519 libraries have in common, both being implementations of RFC 8032: its
    sizes, and that a signature made with a key verifies under its public key, in either
    library.  Nothing is said about other signatures: the libraries differ on some of them.  A
    private key is read back from its PEM. *)
Class Ed25519Interop {S : Sodium} {Ed : PyEd25519} := {
  py_public_size : forall key, size_of (py_public_bytes key) = crypto_sign_PUBLICKEYBYTES;
  py_signature_size : forall key m, size_of (py_private_sign key m) = crypto_sign_BYTES;
  py_sign_verify : forall key m, py_public_verify (py_public_bytes key) (py_private_sign key m) m = true;
  py_sign_sodium : forall key m, crypto_sign_verify_detached (py_private_sign key m) m (py_public_bytes key) = 0;
  py_pem_round_trip : forall key, py_load_pem_private_key (py_private_bytes key) = Some key;
}.
Arguments Ed25519Interop S Ed : clear implicits.

Lemma node_record_sign_payload {Ed : PyEd25519} ex key r :
  canonical_agent_payload (node_record ex (py_identity_sign key r)) = canonical_agent_payload (node_record ex r).
Proof. done. Qed.

Lemma signed_valid {S : Sodium} {L : SodiumLaws S} {Ed : PyEd25519} {I : Ed25519Interop S Ed} ex key r :
  sodium_enabled = true -> encodable r -> verify_agent_signature (node_record ex (py_identity_sign key r)) = Valid.
Proof.
  intros Hen Hr. destruct key_sizes as (Hk & Hs & _).
  pose proof (py_public_size key) as Hpk. pose proof (py_signature_size key (py_canonical_payload r)) as Hsg.
  apply verify_agent_signature_valid. rewrite node_record_sign_payload, <- payload_agrees by done.
  cbn [node_record public_key_hex signature_hex py_identity_sign py_public_key py_signature]. rewrite !decode_encode_hex.
  split_and!; try done; [| |apply py_sign_sodium].
  - intros Hnil. rewrite Hnil, Hk in Hpk. done.
  - intros Hnil. rewrite Hnil, Hs in Hsg. done.
Qed.

(** What it signed, the SDK accepts. *)
Lemma signed_verifies {S : Sodium} {L : SodiumLaws S} {Ed : PyEd25519} {I : Ed25519Interop S Ed} key r :
  py_verify_registration (py_identity_sign key r) = inl true.
Proof.
  destruct key_sizes as (Hk & Hs & _).
  pose proof (py_public_size key) as Hpk. pose proof (py_signature_size key (py_canonical_payload r)) as Hsg.
  unfold py_verify_registration. change (py_canonical_payload (py_identity_sign key r)) with (py_canonical_payload r).
  cbn [py_identity_sign py_public_key py_signature].
  rewrite !bool_decide_eq_false_2.
  - rewrite Hpk, Hk. cbn [orb negb Z.eqb Pos.eqb]. by rewrite py_sign_verify.
  - intros Hnil. rewrite Hnil, Hs in Hsg. done.
  - intros Hnil. rewrite Hnil, Hk in Hpk. done.
Qed.

(** (C22) Signatures work across the two languages, in a build with libsodium, for registrations
    with a 64-bit revision and pairwise different metadata keys: the Python and the C++ code
    put the same bytes under a signature, whatever the order of the metadata in the dictionary;
    a registration signed by an SDK identity is [Valid] for the node that receives it and
    accepted by [verify_registration] of the SDK; a registration without key or signature is
    accepted by neither, and neither is one whose key is not 32 bytes long. *)
Theorem sdk_signatures_verify {S : Sodium} {L : SodiumLaws S} {Ed : PyEd25519} {I : Ed25519Interop S Ed} ex key r
    (enabled : sodium_enabled = true) (ok : encodable r) :
  py_canonical_payload r = bytes_of_string (canonical_agent_payload (node_record ex r)) /\
  verify_agent_signature (node_record ex (py_identity_sign key r)) = Valid /\
  py_verify_registration (py_identity_sign key r) = inl true /\
  (py_public_key r = [] \/ py_signature r = [] ->
   py_verify_registration r = inl false /\ verify_agent_signature (node_record ex r) = Missing) /\
  (size_of (py_public_key r) <> 32 ->
   py_verify_registration r <> inl true /\ verify_agent_signature (node_record ex r) <> Valid).
Proof.
  split_and!; [by apply payload_agrees|by apply signed_valid|apply signed_verifies| |].
  - intros Hno. unfold py_verify_registration.
    rewrite (proj2 (orb_true_iff _ _)) by (destruct Hno; [left|right]; by apply bool_decide_eq_true). split; [done|].
    apply verify_agent_signature_missing. cbn [node_record public_key_hex signature_hex].
    destruct Hno as [-> | ->]; [by left|by right].
  - intros Hsz. split.
    + unfold py_verify_registration. destruct (_ || _); [done|]. by rewrite (proj2 (Z.eqb_neq _ _) Hsz).
    + intros (_ & _ & _ & Hk & _)%verify_agent_signature_valid. cbn [node_record public_key_hex] in Hk.
      rewrite decode_encode_hex in Hk. destruct key_sizes as (Hks & _). congruence.
Qed.

(** An SDK identity is stable: creating it writes the key that every later
    [load_or_create] of the path returns, and no other file changes. *)
Theorem sdk_identity_stable {S : Sodium} {Ed : PyEd25519} {I : Ed25519Interop S Ed} generated generated' path files :
  files !! path = None ->
  let '(files1, key) := py_identity_load_or_create generated path files in
  key = inl generated /\ py_identity_load_or_create generated' path files1 = (files1, inl generated) /\
  forall other, other <> path -> files1 !! other = files !! other.
Proof.
  intros Hno. unfold py_identity_load_or_create. rewrite bool_decide_false by (by rewrite Hno; intros []). split; [done|].
  unfold py_identity_load, py_identity_save. rewrite lookup_insert_eq, py_pem_round_trip, bool_decide_true by done.
  split; [done|]. intros other Hne. by rewrite lookup_insert_ne by done.
Qed.

(** ** Commands *)

(** Registrations the line protocol can carry: fields without white space, keys without '='. *)
Definition sendable (r : Registration) : Prop :=
  is_word (py_agent_id r) = true /\ is_word (py_node_id r) = true /\ is_word (py_endpoint r) = true /\
  encodable r /\
  Forall (fun kv => no_space kv.1 = true /\ no_char "="%char kv.1 = true /\ no_space (py_str kv.2) = true) (py_metadata r).

Lemma py_join_fields word fs : py_join " " (word :: fs) = word +:+ fields_text fs.
Proof. done. Qed.

(** The fields of a command, in the order of the client. *)
Definition py_command_fields (r : Registration) : list string :=
  ["agent_id=" +:+ py_agent_id r; "node_id=" +:+ py_node_id r; "endpoint=" +:+ py_endpoint r;
   "revision=" +:+ to_string (py_revision r)]%string ++ (py_metadata_line <$> py_metadata r) ++
  optional_field "public_key=" (encode_hex (py_public_key r)) ++ optional_field "signature=" (encode_hex (py_signature r)).

Lemma encode_hex_nil bs : str_empty (encode_hex bs) = bool_decide (bs = []).
Proof.
  destruct bs as [|b bs]; [done|]. rewrite bool_decide_false by done. cbn [encode_hex]. destruct b; reflexivity.
Qed.

Lemma py_command_text word r : u64 (py_revision r) ->
  py_encode_record_command word r = word +:+ fields_text (py_command_fields r).
Proof.
  intros Hr. unfold py_encode_record_command, py_command_fields, optional_field, py_str_int. cbn [app].
  rewrite py_join_fields, !encode_hex_nil, (proj2 (Z.ltb_ge _ _)) by lia. done.
Qed.

Lemma py_command_words r : sendable r -> Forall (fun f => is_word f = true) (py_command_fields r).
Proof.
  intros (Ha & Hn & He & [_ Hr] & Hm). pose proof (fun s H => is_word_no_space_line s H) as Hw.
  unfold py_command_fields. apply Forall_app_2; [|apply Forall_app_2; [|apply Forall_app_2]].
  - repeat apply Forall_cons_2; [apply word_after_prefix; auto..|constructor].
    apply Hw, to_string_word. lia.
  - apply Forall_fmap. eapply Forall_impl; [exact Hm|]. intros [k v] (Hk & _ & Hv). by apply metadata_field_word.
  - apply optional_field_words; [done|apply encode_hex_no_space].
  - apply optional_field_words; [done|apply encode_hex_no_space].
Qed.

Lemma parse_command_fields r c : sendable r ->
  metadata (registration c) = ∅ -> public_key_hex (registration c) = "" -> signature_hex (registration c) = "" ->
  parse_fields (py_command_fields r) c =
  inl (set_registration (node_record (expires_at (registration c)) r) (set_cmd_agent_id (py_agent_id r) c)).
Proof.
  intros (_ & _ & _ & [Hd Hr] & Hm) Hm0 Hk0 Hs0. unfold py_command_fields.
  rewrite parse_fields_app, (parse_fields_required (node_record 0 r)) by done. cbn match.
  replace (py_metadata_line <$> py_metadata r)
    with ((fun kv => "metadata." +:+ kv.1 +:+ "=" +:+ kv.2) <$> (prod_map id py_str <$> py_metadata r))
    by (rewrite <- list_fmap_compose; apply list_fmap_ext; by intros _ [k v] _).
  rewrite parse_fields_app, parse_fields_metadata.
  2:{ apply Forall_fmap. eapply Forall_impl; [exact Hm|]. intros [k v] (_ & Hk & _). done. }
  cbn match. rewrite parse_fields_app, parse_fields_public_key by done. cbn match.
  rewrite parse_fields_signature by done. destruct c as [? [] ? ? ? ?]; simpl in *. subst.
  rewrite map_store_list_to_map by by rewrite fst_prod_map. by rewrite (right_id_L ∅ (∪)).
Qed.

(** The node reads a command of the client as the registration the client was given. *)
Lemma parse_sdk_command this init now word act r : sendable r ->
  (word = "REGISTER" /\ act = Register \/ word = "MERGE" /\ act = Merge)%string ->
  parse_command this init now (py_encode_record_command word r) =
  mkControlCommand act (node_record (now + milliseconds (heartbeat_ttl (lifecycle_ this))) r) (py_agent_id r) "" 0 256.
Proof.
  intros Hs Hact. pose proof Hs as (Ha & Hn & He & [_ Hr] & _).
  assert (Hw : is_word word = true) by (by destruct Hact as [[-> _]|[-> _]]).
  rewrite py_command_text by done. rewrite <- (str_app_nil_r (word +:+ _)), str_app_assoc.
  unfold parse_command, control_split_tokens. rewrite tokens_fields by (try done; by apply py_command_words).
  rewrite app_nil_r.
  assert (Hpa : parse_action this now word (default_ControlCommand init) =
    inl (mkControlCommand act (default_AgentRecord (now + milliseconds (heartbeat_ttl (lifecycle_ this)))) "" "" 0 256)).
  { destruct Hact as [[-> ->]|[-> ->]]; reflexivity. }
  rewrite Hpa, parse_command_fields by done. unfold check_command.
  apply is_word_spec in Ha as [Ha%str_empty_false _], Hn as [Hn%str_empty_false _], He as [He%str_empty_false _].
  simpl. by rewrite Ha, Hn, He, !andb_false_r.
Qed.

Lemma sdk_command_line word r : sendable r -> (word = "REGISTER" \/ word = "MERGE")%string ->
  no_char newline (py_encode_record_command word r) = true /\ starts_with (py_encode_record_command word r) "BN" = false.
Proof.
  intros Hs Hw. pose proof Hs as (_ & _ & _ & [_ Hr] & _). rewrite py_command_text by done.
  pose proof (fields_text_no_newline _ (py_command_words r Hs)) as Hn. unfold no_char in *.
  destruct Hw as [-> | ->]; (split; [by rewrite str_forall_app, Hn|done]).
Qed.

(** ** Witnesses *)

(** A toy Ed25519 that fits the toy libsodium. *)
Definition toy_public (key : bytes) : bytes := take 32 (key ++ replicate 32 Byte.x00).
Definition toy_ed : PyEd25519 := {|
  py_public_bytes := toy_public;
  py_private_sign key m := replicate 64 (toy_mac m (toy_public key));
  py_public_verify pk sg m := bool_decide (sg = replicate 64 (toy_mac m pk));
  py_private_bytes key := Byte.x2d :: key;
  py_load_pem_private_key data := match data with Byte.x2d :: key => Some key | _ => None end;
|}.

Lemma toy_interop : Ed25519Interop toy_sodium toy_ed.
Proof.
  split; cbn.
  - intros key. unfold size_of, toy_public. rewrite length_take, length_app, length_replicate. lia.
  - done.
  - intros key m. by rewrite bool_decide_true.
  - intros key m. by rewrite decide_True.
  - done.
Qed.

Definition toy_key : bytes := bytes_of_string "secret".
Definition example_registration_py : Registration :=
  mkRegistration "agent-1" "node-1" "h:1" [("role", VStr "w"); ("cpu", VInt 8)]%string 3 [] [].

Lemma example_encodable : encodable example_registration_py.
Proof. split; [by apply (bool_decide_unpack _)|]. cbn. lia. Qed.

(** The metadata is sorted under the signature, and was not in the dictionary. *)
Lemma sdk_signatures_verify_witness :
  @verify_agent_signature toy_sodium (node_record 5 (@py_identity_sign toy_ed toy_key example_registration_py)) = Valid /\
  @py_verify_registration toy_ed (@py_identity_sign toy_ed toy_key example_registration_py) = inl true /\
  (@py_verify_registration toy_ed example_registration_py = inl false /\
   @verify_agent_signature toy_sodium (node_record 5 example_registration_py) = Missing) /\
  py_canonical_payload example_registration_py = bytes_of_string
    ("agent_id=agent-1" +:+ nl +:+ "node_id=node-1" +:+ nl +:+ "endpoint=h:1" +:+ nl +:+ "revision=3" +:+ nl +:+
     "metadata.cpu=8" +:+ nl +:+ "metadata.role=w" +:+ nl).
Proof.
  destruct (@sdk_signatures_verify toy_sodium toy_sodium_laws toy_ed toy_interop 5 toy_key example_registration_py eq_refl example_encodable)
    as (Hpay & Hv & Hs & Hno & _).
  split; [exact Hv|]. split; [exact Hs|]. split; [apply Hno; by left|]. rewrite Hpay. by vm_compute.
Defined.

Lemma sdk_identity_stable_witness :
  let '(files, key) := @py_identity_load_or_create toy_ed toy_key "agent.pem" ∅ in
  key = inl toy_key /\ @py_identity_load_or_create toy_ed [] "agent.pem" files = (files, inl toy_key).
Proof.
  pose proof (@sdk_identity_stable toy_sodium toy_ed toy_interop toy_key [] "agent.pem" ∅ eq_refl) as H.
  destruct (py_identity_load_or_create _ _ _) as [files key]. destruct H as (H1 & H2 & _). exact (conj H1 H2).
Defined.

(** [tests/python/test_identity.py], run on the model. *)
Example test_canonical_agent_payload :
  py_canonical_payload (mkRegistration "agent-1" "node-1" "127.0.0.1:9000" [("z", VStr "last"); ("a", VStr "first")]%string 2 [] []) =
  bytes_of_string (unlines ["agent_id=agent-1"; "node_id=node-1"; "endpoint=127.0.0.1:9000"; "revision=2";
    "metadata.a=first"; "metadata.z=last"]%string).
Proof. by vm_compute. Qed.
