(* ===== verification/PySdkNode.v ===== *)
(** * The Python client against a node

    The client of [PySdk] connected to a node that runs the control server ([beacon_peer]): what
    a registration leaves in the registry, what a listing returns, and what
    [sync_with_peer] of [sync.py] does to two nodes. *)

From S2P Require Import Prelude CxxString CxxContainers Types Sodium SecureBuffer Crypto IdentityService AgentRegistry RegistrySpec RegistryProps Framing ControlProtocol ControlProps RegistrySync Protobuf ControlProtobuf ControlServer SyncClient PyText PySdk PySdkProps.

(** ** Answers *)

(** The dictionary of a call says so: [response["ok"]]. *)
Definition says_ok (b : bool) (response : dict svalue + py_error) : Prop :=
  match response with inl d => dict_get "ok" d = Some (SBool b) | inr _ => False end.

(** Every answer of REGISTER and MERGE. *)
Definition store_answers (success : string) : list string :=
  [success +:+ nl; "ERR message=stale_revision" +:+ nl; "ERR message=missing_signature" +:+ nl;
   "ERR message=invalid_signature" +:+ nl; "ERR message=signature_verification_unsupported" +:+ nl]%string.

Lemma handle_store_answers {W} {S : Sodium} protocol r success (st : NodeState W) :
  (handle_store protocol r success st).2 ∈ store_answers success.
Proof.
  unfold handle_store, store_answers. destruct (require_signatures _ && bool_decide _) eqn:Hs.
  - apply andb_true_iff in Hs as [_ Hs%bool_decide_eq_true].
    destruct (verify_agent_signature r); try done; vm_compute; repeat constructor.
  - case_match; [simpl; set_solver|]. destruct (upsert _ _ _) as [[reg w] []]; simpl; set_solver.
Qed.

Lemma store_answer_status success resp r :
  (success = "OK message=registered" \/ success = "OK message=merged")%string -> resp ∈ store_answers success ->
  says_ok (starts_with resp "OK") (py_parse_status resp [("request", SRequest r)]%string).
Proof.
  intros [-> | ->] Hin; unfold store_answers in Hin; rewrite !elem_of_cons, elem_of_nil in Hin;
    destruct Hin as [-> |[-> |[-> |[-> |[-> |[]]]]]]; vm_compute; reflexivity.
Qed.

Section node.
Context {W : Type} {S : Sodium} {Sort : StdSort} {Moved : MovedFrom} {Ed : PyEd25519}
  {Req : ProtoMessage V1.ControlRequest} {Resp : ProtoMessage V1.ControlResponse}.
Context (pb : bool) (protocol : ControlProtocol) (clock : nat -> TimePoint) (peek : nat -> bytes -> nat).
Context (peek_ok : forall n bs, session_ok (mkSession bs (peek n bs))).
Implicit Types (this : BeaconClient) (node : @PeerNode W).

Abbreviation transport := (beacon_peer pb protocol clock peek).

Lemma py_round_trip_line this line node :
  no_char newline line = true -> starts_with line "BN" = false ->
  @py_round_trip _ transport this line node =
  let '(st, resp) := handle_line protocol (clock (peer_connections node)) (clock (peer_connections node)) line (peer_state node) in
  (mkPeerNode st (Datatypes.S (peer_connections node)), inl resp).
Proof.
  intros Hl Hbn. pose proof (send_line pb protocol clock peek peek_ok (py_address this) line node Hl Hbn) as Hs.
  unfold send_command, py_round_trip in *. destruct (tcp_exchange _ _ _) as [net' [| |resp []]]; destruct (handle_line _ _ _ _ _); by simplify_eq.
Qed.

(** The record that a registration becomes, at the [n]-th connection. *)
Definition arriving (n : nat) (r : Registration) : AgentRecord :=
  node_record (clock n + milliseconds (heartbeat_ttl (lifecycle_ protocol))) r.

(** What [register] and [merge] do, whatever the node answers. *)
Lemma py_store_line this word body success r node :
  (word = "REGISTER" /\ success = "OK message=registered" \/ word = "MERGE" /\ success = "OK message=merged")%string ->
  is_protobuf this = false -> sendable (py_signed this r) ->
  let '(st, resp) := handle_store protocol (arriving (peer_connections node) (py_signed this r)) success (peer_state node) in
  exists status, @py_store _ transport Ed Req Resp this word body r node =
      (mkPeerNode st (Datatypes.S (peer_connections node)), status) /\
    says_ok (starts_with resp "OK") status.
Proof.
  intros Hword Hp Hs. pose proof (handle_store_answers protocol (arriving (peer_connections node) (py_signed this r)) success (peer_state node)) as Hans.
  destruct (handle_store _ _ _ _) as [st resp] eqn:Hst. cbn [snd] in Hans. unfold py_store. rewrite Hp.
  assert (Hw : (word = "REGISTER" \/ word = "MERGE")%string) by naive_solver.
  destruct (sdk_command_line word _ Hs Hw) as [Hnl Hbn]. rewrite py_round_trip_line by done.
  unfold handle_line.
  rewrite (parse_sdk_command protocol _ _ word (if bool_decide (word = "REGISTER") then Register else Merge)) by (done || naive_solver).
  fold (arriving (peer_connections node) (py_signed this r)).
  destruct Hword as [[-> ->]|[-> ->]]; simpl; fold (arriving (peer_connections node) (py_signed this r)); rewrite Hst;
    (eexists; split; [reflexivity|]); (eapply store_answer_status; [|exact Hans]; auto).
Qed.

(** ** Frames *)

Lemma serve_frame now f s (st : NodeState W) : frame_ok f -> session_ok s -> sess_input s = encode_frame f -> sess_peeked s = 9%nat ->
  serve_session true protocol now now s st =
  let '(st', response) := handle_control_frame protocol now (encode_frame f) st in (st', Some response).
Proof.
  intros [_ Hl] Hok Hin Hp. destruct (encode_frame_cons f) as (k1 & k0 & l3 & l2 & l1 & l0 & He & _ & Hlen).
  rewrite wrap_small in Hlen by done.
  assert (Hh : peek_header s = take 9 (encode_frame f)) by (unfold peek_header; rewrite Hp, Hin; apply app_nil_r).
  assert (Htot : header_length (peek_header s) = size_of (payload f)).
  { rewrite Hh, He, <- Hlen. unfold header_length. cbn [take lookup_total list_lookup_total]. apply be32_lor. }
  unfold serve_session. rewrite bool_decide_eq_false_2 by (by rewrite Hin, He). rewrite Htot, Hp, Hin.
  replace (is_binary_frame_header (peek_header s)) with true by (by rewrite Hh, He).
  assert (Hsz : size_of (encode_frame f) = 9 + size_of (payload f)) by (rewrite He, !size_of_cons; lia).
  rewrite Hsz, Z.ltb_irrefl, <- Hsz. cbn [Nat.leb andb]. unfold size_of. by rewrite Nat2Z.id, firstn_all.
Qed.

Lemma py_read_frame out response : size_of out < 2 ^ 32 -> ParseFromString out = Some response ->
  py_read_response (encode_frame (mkFrame ControlResponse out)) = inl response.
Proof.
  intros Hsz Hparse. pose proof (size_of_nonneg out) as Hpos. set (f := mkFrame ControlResponse out).
  assert (Hf : frame_ok f) by (split; simpl; [unfold ControlResponse|]; lia).
  destruct (encode_frame_cons f) as (k1 & k0 & l3 & l2 & l1 & l0 & He & _ & Hlen). rewrite wrap_small in Hlen by apply Hf.
  rewrite He. unfold py_read_response, py_read_exact. rewrite !size_of_cons.
  cbn [payload f] in *. rewrite (proj2 (Z.leb_le _ _)) by (unfold HEADER_SIZE; lia).
  unfold expected_frame_length.
  change (take (Z.to_nat HEADER_SIZE) _) with [kMagic0; kMagic1; kVersion; k1; k0; l3; l2; l1; l0].
  change (drop (Z.to_nat HEADER_SIZE) _) with out. cbn [negb].
  change (size_of [kMagic0; kMagic1; kVersion; k1; k0; l3; l2; l1; l0] =? HEADER_SIZE) with true.
  change (take 2 _) with MAGIC. rewrite bool_decide_true by done. cbn [negb].
  change (py_unpack_HI (drop 3 (take 9 _))) with (py_unpack_HI [k1; k0; l3; l2; l1; l0]). unfold py_unpack_HI.
  cbn [lookup_total list_lookup_total]. rewrite Hlen.
  replace (HEADER_SIZE + size_of out - HEADER_SIZE) with (size_of out) by lia. rewrite Z.leb_refl.
  unfold size_of. rewrite Nat2Z.id, firstn_all.
  change ([kMagic0; kMagic1; kVersion; k1; k0; l3; l2; l1; l0] ++ out) with
    (kMagic0 :: kMagic1 :: kVersion :: k1 :: k0 :: l3 :: l2 :: l1 :: l0 :: out). rewrite <- He.
  rewrite unpack_decode, decode_encode_frame by apply Hf. rewrite (proj2 (Z.ltb_lt _ _)) by done. simpl. by rewrite Hparse.
Qed.

Context {LReq : ProtoLaws V1.ControlRequest} {LResp : ProtoLaws V1.ControlResponse}.

(** A request in a frame, answered by a server built with protobuf whose peek sees a header. *)
Lemma py_round_trip_frame this request node serialized st response out :
  pb = true -> (forall bs, (9 <= length bs)%nat -> peek (peer_connections node) bs = 9%nat) ->
  proto_valid request -> SerializeToString request = Some serialized ->
  handle_request protocol (clock (peer_connections node)) request (peer_state node) = (st, response) ->
  proto_valid response -> SerializeToString response = Some out ->
  @py_round_trip_proto _ transport Req Resp this request node = (mkPeerNode st (Datatypes.S (peer_connections node)), inl response).
Proof.
  intros Hpb Hpeek Hv Hser Hreq Hrv Hout. unfold py_round_trip_proto. rewrite Hser.
  pose proof (serialized_size _ _ Hser) as Hsz. pose proof (serialized_size _ _ Hout) as Hosz.
  pose proof (size_of_nonneg serialized). set (f := mkFrame FRAME_CONTROL_REQUEST serialized).
  assert (Hf : frame_ok f) by (split; simpl; [unfold FRAME_CONTROL_REQUEST|]; lia).
  rewrite pack_encode by done. unfold tcp_exchange, beacon_peer. rewrite Hpb, bytes_of_string_of_bytes.
  assert (Hlen : (9 <= length (encode_frame f))%nat).
  { destruct (encode_frame_cons f) as (k1 & k0 & l3 & l2 & l1 & l0 & -> & _). cbn [length]. lia. }
  rewrite (serve_frame _ f) by (done || apply peek_ok || by apply Hpeek). unfold handle_control_frame. rewrite decode_encode_frame by apply Hf.
  cbn [payload f]. rewrite (proj2 (Z.ltb_lt _ _)) by lia. cbn [kind f]. rewrite bool_decide_true by done.
  unfold handle_control_request_payload. cbn [payload f]. rewrite (parse_serialized _ _ Hv Hser), Hreq, Hout. unfold default, id.
  rewrite bytes_of_string_of_bytes. rewrite (py_read_frame _ response) by (lia || by apply parse_serialized). done.
Qed.

(** Registrations that protobuf can carry: text in UTF-8, metadata that is text. *)
Definition utf8_text (s : string) : Prop := s <> "" /\ utf8_valid s = true.
Definition framed (r : Registration) : Prop :=
  utf8_text (py_agent_id r) /\ utf8_text (py_node_id r) /\ utf8_text (py_endpoint r) /\ encodable r /\
  Forall (fun kv => exists t, kv.2 = VStr t /\ utf8_valid kv.1 = true /\ utf8_valid t = true) (py_metadata r).

Lemma text_items_framed (d : dict value) : Forall (fun kv => exists t, kv.2 = VStr t /\ utf8_valid kv.1 = true /\ utf8_valid t = true) d ->
  text_items d = Some (prod_map id py_str <$> d).
Proof. induction 1 as [|[k v] d (t & Ht & _) _ IH]; [done|]. simpl in *. subst v. by rewrite IH. Qed.

(** The message of a registration, and the record the node makes of it. *)
Lemma to_proto_framed r : framed r ->
  exists a, to_proto_agent r = inl a /\ registration_valid a /\
    forall now, from_proto a (lifecycle_ protocol) now = node_record (now + milliseconds (heartbeat_ttl (lifecycle_ protocol))) r.
Proof.
  intros ([_ Ha] & [_ Hn] & [_ He] & [Hd Hr] & Hm). unfold to_proto_agent, fits.
  rewrite (proj2 (Z.leb_le _ _)), (proj2 (Z.ltb_lt _ _)) by lia. cbn [andb negb]. rewrite text_items_framed by done.
  assert (Hmap : map_store ∅ (prod_map id py_str <$> py_metadata r) = (list_to_map (prod_map id py_str <$> py_metadata r) : gmap string string)).
  { rewrite map_store_list_to_map by by rewrite fst_prod_map. apply (right_id_L ∅ (∪)). }
  eexists. split; [done|]. rewrite Hmap. split.
  - split_and!; simpl; try done; try lia. intros k v [[k' v'] [[= -> ->] Hkv]]%elem_of_list_to_map_2%list_elem_of_fmap_1.
    rewrite Forall_forall in Hm. destruct (Hm _ Hkv) as (t & Ht & Hk & Hv). simpl in *. by subst v'.
  - intros now. unfold from_proto, node_record. cbn. by rewrite map_store_to_list.
Qed.

(** Every answer to a registration or a merge of an agent with the required fields. *)
Definition store_messages (success : string) : list string :=
  [success; "stale_revision"; "missing_signature"; "invalid_signature"; "signature_verification_unsupported"]%string.

Lemma store_agent_messages now proto success (st : NodeState W) :
  let r := from_proto proto (lifecycle_ protocol) now in agent_id r <> "" -> node_id r <> "" -> endpoint r <> "" ->
  exists b m, (store_agent protocol now proto success st empty_response).2 = V1.mkControlResponse b m None /\ m ∈ store_messages success.
Proof.
  intros r Ha%str_empty_false Hn%str_empty_false He%str_empty_false. unfold store_agent. fold r. rewrite Ha, Hn, He. cbn [orb].
  unfold signature_allowed, store_messages. destruct (require_signatures _ && bool_decide _) eqn:Hs.
  - apply andb_true_iff in Hs as [_ Hs%bool_decide_eq_true]. eexists _, _. split; [reflexivity|].
    destruct (verify_agent_signature r); try done; simpl; set_solver.
  - destruct (negb _ && _); [eexists _, _; split; [reflexivity|]; set_solver|]. cbn [negb].
    destruct (upsert r _ _) as [[reg w] []]; eexists _, _; (split; [reflexivity|]); set_solver.
Qed.

Lemma store_message_status b m success r : (success = "registered" \/ success = "merged")%string -> m ∈ store_messages success ->
  says_ok b (py_parse_proto_status (V1.mkControlResponse b m None) [("request", SRequest r)]%string) /\ utf8_valid m = true.
Proof.
  intros [-> | ->] Hin; unfold store_messages in Hin; rewrite !elem_of_cons, elem_of_nil in Hin;
    destruct Hin as [-> |[-> |[-> |[-> |[-> |[]]]]]]; (split; [destruct b; vm_compute|]; reflexivity).
Qed.

(** The server and the codec can carry a registration: protobuf is compiled in, the peek sees a
    whole header, the request and the answers serialise. *)
Definition frames_work (n : nat) (body : V1.AgentRegistration -> V1.ControlRequest) (success : string) (r : Registration) : Prop :=
  pb = true /\ (forall bs, (9 <= length bs)%nat -> peek n bs = 9%nat) /\
  (forall a, to_proto_agent r = inl a -> is_Some (SerializeToString (body a))) /\
  Forall (fun m => forall b, is_Some (SerializeToString (V1.mkControlResponse b m None))) (store_messages success).

(** What [register] and [merge] do over frames. *)
Lemma py_store_frame this word body success r node :
  (body = V1.register_agent /\ success = "registered" \/ body = V1.sync_merge /\ success = "merged")%string ->
  is_protobuf this = true -> framed (py_signed this r) -> frames_work (peer_connections node) body success (py_signed this r) ->
  let '(st, resp) := handle_store protocol (arriving (peer_connections node) (py_signed this r)) ("OK message=" +:+ success) (peer_state node) in
  exists st' status, @py_store _ transport Ed Req Resp this word body r node =
      (mkPeerNode st' (Datatypes.S (peer_connections node)), status) /\
    says_ok (starts_with resp "OK") status /\ st_registry st' = st_registry st /\ st_world st' = st_world st.
Proof.
  intros Hbody Hp Hr (Hpb & Hpeek & Hroom & Hrooms). set (n := peer_connections node) in *.
  destruct (to_proto_framed _ Hr) as (a & Ha & Hav & Hfrom). specialize (Hfrom (clock n)). destruct (Hroom a Ha) as [serialized Hser].
  destruct Hr as ([Hne1 _] & [Hne2 _] & [Hne3 _] & _).
  pose proof (store_agent_line protocol (clock n) a success ("OK message=" +:+ success) (peer_state node)) as Hline.
  destruct (store_agent_messages (clock n) a success (peer_state node)) as (b & m & Hm & Hin); [by rewrite Hfrom..|].
  cbv zeta in Hline. rewrite Hfrom in Hline. fold (arriving n (py_signed this r)) in Hline. specialize (Hline Hne1 Hne2 Hne3 eq_refl).
  destruct (handle_store _ _ _ _) as [st resp]. destruct (store_agent _ _ _ _ _ _) as [st' response] eqn:Hst. cbn [snd] in Hm. subst response.
  destruct Hline as (Hreg & Hworld & Hok). cbn [V1.resp_ok] in Hok. rewrite Forall_forall in Hrooms. destruct (Hrooms m Hin b) as [out Hout].
  destruct (store_message_status b m success (py_signed this r)) as [Hstatus Hutf]; [naive_solver|done|].
  exists st', (py_parse_proto_status (V1.mkControlResponse b m None) [("request", SRequest (py_signed this r))]%string).
  rewrite <- Hok. split; [|done]. unfold py_store. rewrite Hp, Ha.
  rewrite (py_round_trip_frame this (body a) node serialized st' (V1.mkControlResponse b m None) out); try done.
  - by destruct Hbody as [[-> _]|[-> _]].
  - destruct Hbody as [[-> ->]|[-> ->]]; exact Hst.
Qed.

(** ** Registering *)

(** The registration can be sent, over the protocol the client is set to. *)
Definition carried this (body : V1.AgentRegistration -> V1.ControlRequest) (success : string) (r : Registration) (n : nat) : Prop :=
  if is_protobuf this then framed (py_signed this r) /\ frames_work n body success (py_signed this r)
  else sendable (py_signed this r).

Lemma py_store_spec this word body success r node :
  (word = "REGISTER" /\ body = V1.register_agent /\ success = "registered" \/
   word = "MERGE" /\ body = V1.sync_merge /\ success = "merged")%string ->
  carried this body success r (peer_connections node) ->
  let '(st, resp) := handle_store protocol (arriving (peer_connections node) (py_signed this r)) ("OK message=" +:+ success) (peer_state node) in
  exists st' status, @py_store _ transport Ed Req Resp this word body r node =
      (mkPeerNode st' (Datatypes.S (peer_connections node)), status) /\
    says_ok (starts_with resp "OK") status /\ st_registry st' = st_registry st /\ st_world st' = st_world st.
Proof.
  intros Hop Hc. unfold carried in Hc. destruct (is_protobuf this) eqn:Hp.
  - destruct Hc as [Hr Hw]. apply py_store_frame; naive_solver.
  - pose proof (py_store_line this word body ("OK message=" +:+ success) r node) as Hs.
    destruct (handle_store _ _ _ _) as [st resp]. destruct Hs as (status & Hs & Hok); [naive_solver|done..|]. eauto 10.
Qed.

(** (C10) [register] and [merge] of the SDK do what they say, over lines and over frames, over a
    connection that works and for a registration the protocol in use can carry ([carried]): over
    lines, no white space in a field (the client quotes nothing, and the node would cut the
    value) and no '=' in a metadata key; over frames, to a build with protobuf whose first read
    brings the whole header, UTF-8 text, metadata values that are text, and messages within the
    limits of protobuf.  The node is left with the registry and the log of a REGISTER or MERGE
    of exactly the given fields (signed, when the client has an identity), and the dictionary
    that is returned has ["ok"] true exactly when the node stored them. *)
Theorem sdk_store_end_to_end this r node :
  Forall (fun '(operation, body, success) =>
    carried this body success r (peer_connections node) ->
    let '(st, resp) := handle_store protocol (arriving (peer_connections node) (py_signed this r))
                         ("OK message=" +:+ success) (peer_state node) in
    exists st' status, operation this r node = (mkPeerNode st' (Datatypes.S (peer_connections node)), status) /\
      says_ok (starts_with resp "OK") status /\ st_registry st' = st_registry st /\ st_world st' = st_world st)
  [(@py_register _ transport Ed Req Resp, V1.register_agent, "registered");
   (@py_merge _ transport Ed Req Resp, V1.sync_merge, "merged")]%string.
Proof. repeat apply Forall_cons_2; [..|constructor]; intros Hc; apply py_store_spec; auto 10. Qed.

Lemma handle_store_valid r success (st : NodeState W) : starts_with success "OK" = true ->
  verify_agent_signature r = Valid -> (forall e, find (agent_id r) (st_registry st) = Some e -> replaces r e = true) ->
  let '(st', resp) := handle_store protocol r success st in
  starts_with resp "OK" = true /\ find (agent_id r) (st_registry st') = Some r.
Proof.
  intros Hs Hv Hrep. unfold handle_store. rewrite Hv.
  rewrite bool_decide_eq_false_2, andb_false_r by (intros Hn; by apply Hn). rewrite bool_decide_eq_false_2, andb_false_r by done.
  destruct (upsert r (st_registry st) (st_world st)) as [[reg w] acc] eqn:Hu. apply upsert_refines in Hu.
  unfold spec_upsert in Hu. rewrite find_refines in Hrep.
  destruct (by_id (records_ (st_registry st)) !! agent_id r) as [e|].
  - rewrite (Hrep e eq_refl) in Hu. injection Hu as Hb <-. split; [by apply starts_with_app_l|].
    cbn [st_registry]. by rewrite find_refines, <- Hb, lookup_insert_eq.
  - injection Hu as Hb <-. split; [by apply starts_with_app_l|].
    cbn [st_registry]. by rewrite find_refines, <- Hb, lookup_insert_eq.
Qed.

(** What a client with an identity stores. *)
Lemma py_store_signed {SL : SodiumLaws S} {I : Ed25519Interop S Ed} this word body success key r node :
  (word = "REGISTER" /\ body = V1.register_agent /\ success = "registered" \/
   word = "MERGE" /\ body = V1.sync_merge /\ success = "merged")%string ->
  sodium_enabled = true -> py_identity this = Some key -> encodable r -> carried this body success r (peer_connections node) ->
  let record := arriving (peer_connections node) (py_identity_sign key r) in
  (forall e, find (py_agent_id r) (st_registry (peer_state node)) = Some e -> replaces record e = true) ->
  exists st status, @py_store _ transport Ed Req Resp this word body r node = (mkPeerNode st (Datatypes.S (peer_connections node)), status) /\
    says_ok true status /\ find (py_agent_id r) (st_registry st) = Some record.
Proof.
  intros Hop enabled identity ok sent record Hrep.
  pose proof (py_store_spec this word body success r node Hop sent) as Hs.
  unfold py_signed in Hs. rewrite identity in Hs. fold record in Hs.
  pose proof (handle_store_valid record ("OK message=" +:+ success) (peer_state node) ltac:(by apply starts_with_app_l)
    (signed_valid _ key r enabled ok) Hrep) as Hst.
  destruct (handle_store _ _ _ _) as [st resp]. destruct Hs as (st' & status & Hs & Hok & Hreg & _), Hst as [Hresp Hf].
  exists st', status. rewrite Hresp in Hok. by rewrite Hreg.
Qed.

(** A client with an identity is served by every node, also by one that requires
    signatures: its registration is accepted, and the node's registry then holds the agent with
    the given fields under the identity's key, unless it had a newer registration of the agent
    or one under another key. *)
Theorem sdk_signed_register {SL : SodiumLaws S} {I : Ed25519Interop S Ed} this key r node
    (enabled : sodium_enabled = true) (identity : py_identity this = Some key) (ok : encodable r)
    (sent : carried this V1.register_agent "registered" r (peer_connections node)) :
  let record := arriving (peer_connections node) (py_identity_sign key r) in
  (forall e, find (py_agent_id r) (st_registry (peer_state node)) = Some e -> replaces record e = true) ->
  exists st status, @py_register _ transport Ed Req Resp this r node = (mkPeerNode st (Datatypes.S (peer_connections node)), status) /\
    says_ok true status /\ find (py_agent_id r) (st_registry st) = Some record.
Proof.
  apply (py_store_signed this "REGISTER" V1.register_agent "registered"); auto.
Qed.

Lemma handle_store_conflict r e success (st : NodeState W) : find (agent_id r) (st_registry st) = Some e ->
  key_conflict (public_key_hex e) (public_key_hex r) = true ->
  let '(st', resp) := handle_store protocol r success st in starts_with resp "ERR" = true /\ st_registry st' = st_registry st.
Proof.
  intros Hf Hk. unfold handle_store. destruct (_ && _); [done|]. destruct (_ && _); [done|].
  destruct (upsert r (st_registry st) (st_world st)) as [[reg w] acc] eqn:Hu. pose proof Hu as Href. apply upsert_refines in Href.
  unfold spec_upsert in Href. rewrite <- find_refines, Hf in Href. unfold replaces in Href. rewrite Hk, andb_false_r in Href.
  injection Href as _ <-. apply upsert_false in Hu as [-> _]. done.
Qed.

(** Registrations served one after the other. *)
Definition stores (st : NodeState W) (rs : list AgentRecord) : NodeState W :=
  foldl (fun st r => (handle_store protocol r "OK message=registered" st).1) st rs.

Lemma stores_conflict st e rs : find (agent_id e) (st_registry st) = Some e ->
  Forall (fun r => agent_id r = agent_id e /\ key_conflict (public_key_hex e) (public_key_hex r) = true) rs ->
  st_registry (stores st rs) = st_registry st.
Proof.
  revert st. induction rs as [|r rs IH]; intros st Hf Hall; [done|]. apply Forall_cons in Hall as [[Hid Hk] Hall].
  unfold stores. cbn [foldl]. pose proof (handle_store_conflict r e "OK message=registered" st) as Hc. rewrite Hid in Hc.
  specialize (Hc Hf Hk). destruct (handle_store _ r _ st) as [st1 resp]. destruct Hc as [_ Hreg]. cbn [fst].
  fold (stores st1 rs). rewrite IH; [done|by rewrite Hreg|done].
Qed.

(** (C39) A client with an identity takes over what it merges: [merge] signs the registration with
    the client's own key, whoever owns the agent.  Merged, over a working connection and within
    what the protocol carries, into a node built with libsodium that holds no registration of
    the agent, the node stores it under the client's key; and for as long as this record is
    there, every registration of the agent under another key is refused with ERR, however
    many there are, and leaves the registry as it is.  (The record goes when it expires or
    when a registration without key replaces it.) *)
Theorem sdk_merge_captures_agent {SL : SodiumLaws S} {I : Ed25519Interop S Ed} this key r node
    (enabled : sodium_enabled = true) (identity : py_identity this = Some key) (ok : encodable r)
    (sent : carried this V1.sync_merge "merged" r (peer_connections node))
    (unknown : find (py_agent_id r) (st_registry (peer_state node)) = None) :
  let record := arriving (peer_connections node) (py_identity_sign key r) in
  (exists st status, @py_merge _ transport Ed Req Resp this r node = (mkPeerNode st (Datatypes.S (peer_connections node)), status) /\
     says_ok true status /\ find (py_agent_id r) (st_registry st) = Some record) /\
  forall st owns own, find (py_agent_id r) (st_registry st) = Some record ->
    Forall (fun x => agent_id x = py_agent_id r /\ public_key_hex x <> "" /\ public_key_hex x <> encode_hex (py_public_bytes key)) (owns ++ [own]) ->
    st_registry (stores st owns) = st_registry st /\
    let '(st', resp) := handle_store protocol own "OK message=registered" (stores st owns) in
    starts_with resp "ERR" = true /\ st_registry st' = st_registry st.
Proof.
  intros record. split.
  { apply (py_store_signed this "MERGE" V1.sync_merge "merged"); auto. intros e He. by rewrite unknown in He. }
  intros st owns own Hf Hall.
  assert (Hconf : forall x, public_key_hex x <> "" -> public_key_hex x <> encode_hex (py_public_bytes key) ->
    key_conflict (public_key_hex record) (public_key_hex x) = true).
  { intros x Hne Hdiff. cbn [record arriving node_record py_identity_sign py_public_key public_key_hex].
    pose proof (py_public_size key) as Hsz. destruct key_sizes as (Hks & _). unfold key_conflict. rewrite encode_hex_nil.
    rewrite (bool_decide_false (py_public_bytes key = [])) by (intros Hnil; rewrite Hnil, Hks in Hsz; done).
    apply str_empty_false in Hne. rewrite Hne. cbn [negb andb]. apply bool_decide_true. congruence. }
  apply Forall_app in Hall as [Hall Hown]. apply Forall_singleton in Hown as (Hid & Hne & Hdiff).
  assert (Hreg : st_registry (stores st owns) = st_registry st).
  { apply (stores_conflict st record); [done|]. eapply Forall_impl; [exact Hall|]. intros x (? & ? & ?). auto. }
  split; [done|]. pose proof (handle_store_conflict own record "OK message=registered" (stores st owns)) as Hc.
  rewrite Hid, Hreg in Hc. apply Hc; auto.
Qed.

(** ** Heartbeats *)

Lemma parse_heartbeat init now id rev : is_word id = true -> u64 rev ->
  let c := parse_command protocol init now ("HEARTBEAT agent_id=" +:+ id +:+ " revision=" +:+ to_string rev) in
  error c = "" /\ action c = Heartbeat /\ cmd_agent_id c = id /\ revision (registration c) = rev.
Proof.
  intros Hid Hrev. unfold parse_command, control_split_tokens.
  replace ("HEARTBEAT agent_id=" +:+ id +:+ " revision=" +:+ to_string rev)
    with ("HEARTBEAT" +:+ fields_text ["agent_id=" +:+ id; "revision=" +:+ to_string rev] +:+ "")
    by (unfold fields_text; cbn [foldr]; by autorewrite with str).
  rewrite tokens_fields; [|done| |done].
  2:{ repeat apply Forall_cons_2; [apply word_after_prefix; [done|]..|constructor]; apply is_word_no_space_line; [done|].
      apply to_string_word. lia. }
  change (tokens "") with (@nil string). rewrite app_nil_r.
  change (parse_action protocol now "HEARTBEAT" (default_ControlCommand init)) with
    (inl (set_action Heartbeat (default_ControlCommand init)) : ControlCommand + ControlCommand).
  cbn [parse_fields]. unfold parse_field. resolve_prefix. cbn match.
  unfold get_value. rewrite !after_equals_literal by done.
  unfold parse_revision. rewrite parse_unsigned_to_string by (unfold uint64_max; lia).
  unfold check_command. cbn. apply is_word_spec in Hid as [Hid%str_empty_false _]. rewrite Hid. done.
Qed.

Lemma heartbeat_line id rev : is_word id = true -> u64 rev ->
  no_char newline ("HEARTBEAT agent_id=" +:+ id +:+ " revision=" +:+ to_string rev) = true /\
  starts_with ("HEARTBEAT agent_id=" +:+ id +:+ " revision=" +:+ to_string rev) "BN" = false.
Proof.
  intros Hid Hrev. split; [|done]. pose proof (to_string_no_char newline rev ltac:(lia) eq_refl) as Hr.
  apply is_word_no_space_line, no_space_no_newline in Hid. unfold no_char in *. by rewrite !str_forall_app, Hid, Hr.
Qed.

Definition heartbeat_messages : list string := ["heartbeat"; "unknown_or_stale_agent"]%string.
Lemma heartbeat_status (accepted : bool) id :
  says_ok accepted (py_parse_status (if accepted then "OK message=heartbeat" +:+ nl else "ERR message=unknown_or_stale_agent" +:+ nl)
    [("agent_id", SVal (VStr id))]%string) /\
  let response := V1.mkControlResponse accepted (if accepted then "heartbeat" else "unknown_or_stale_agent") None in
  says_ok accepted (py_parse_proto_status response [("agent_id", SVal (VStr id))]%string) /\ proto_valid response.
Proof. destruct accepted; (split; [vm_compute; reflexivity|]); (split; [vm_compute; reflexivity|split; [done|constructor]]). Qed.

(** A heartbeat can be sent, over the protocol the client is set to. *)
Definition beat_carried this (id : string) (rev : Z) (n : nat) : Prop :=
  if is_protobuf this then
    pb = true /\ (forall bs, (9 <= length bs)%nat -> peek n bs = 9%nat) /\ utf8_valid id = true /\
    is_Some (SerializeToString (V1.heartbeat (V1.mkHeartbeat id "" rev 0 []))) /\
    Forall (fun m => forall b, is_Some (SerializeToString (V1.mkControlResponse b m None))) heartbeat_messages
  else is_word id = true.

(** [heartbeat] of the SDK, over lines and over frames, refreshes exactly the named agent, as
    the registry's own operation does, and tells whether it was refreshed. *)
Theorem sdk_heartbeat_end_to_end this id rev node (rev_ok : u64 rev) (sent : beat_carried this id rev (peer_connections node)) :
  let n := peer_connections node in
  let '(reg, accepted) := refresh_heartbeat id (clock n + milliseconds (heartbeat_ttl (lifecycle_ protocol))) rev (st_registry (peer_state node)) in
  exists status, @py_heartbeat _ transport Req Resp this id rev node =
      (mkPeerNode (mkNodeState reg (st_world (peer_state node)) (st_identity (peer_state node))) (Datatypes.S n), status) /\
    says_ok accepted status.
Proof.
  intros n. destruct (refresh_heartbeat _ _ _ _) as [reg accepted] eqn:Hb. destruct (heartbeat_status accepted id) as (Hline & Hproto & Hvalid).
  unfold beat_carried in sent. unfold py_heartbeat. destruct (is_protobuf this).
  - destruct sent as (Hpb & Hpeek & Hutf & [ser Hser] & Hroom). rewrite Forall_forall in Hroom.
    unfold fits. rewrite (proj2 (Z.leb_le _ _)), (proj2 (Z.ltb_lt _ _)) by lia. cbn [andb negb].
    destruct (Hroom (if accepted then "heartbeat" else "unknown_or_stale_agent")%string ltac:(unfold heartbeat_messages; destruct accepted; set_solver) accepted)
      as [out Hout].
    rewrite (py_round_trip_frame this _ node ser (mkNodeState reg (st_world (peer_state node)) (st_identity (peer_state node)))
      (V1.mkControlResponse accepted (if accepted then "heartbeat" else "unknown_or_stale_agent") None) out); eauto.
    + split_and!; done || simpl; lia.
    + cbn [handle_request V1.hb_agent_id V1.hb_revision]. fold n. rewrite Hb. by destruct accepted.
  - destruct (heartbeat_line id rev sent rev_ok) as [Hnl Hbn]. unfold py_str_int. rewrite (proj2 (Z.ltb_ge _ _)) by lia.
    rewrite py_round_trip_line by done. unfold handle_line.
    destruct (parse_heartbeat (clock n) (clock n) id rev sent rev_ok) as (He & Ha & Hid & Hr).
    fold n. rewrite He, Ha, Hid, Hr. cbn [str_empty negb]. rewrite Hb. eauto.
Qed.

(** A client that is set to frames, as clients are by default, and a server built without
    protobuf: the server answers with a line, and the call raises the [ValueError] of the frame
    reader, whatever was asked; the node is left alone. *)
Theorem sdk_frames_refused_by_text_build this (request : V1.ControlRequest) node serialized (no_protobuf : pb = false)
    (whole : forall bs, (9 <= length bs)%nat -> peek (peer_connections node) bs = 9%nat)
    (sent : SerializeToString request = Some serialized) :
  @py_round_trip_proto _ transport Req Resp this request node =
    (mkPeerNode (peer_state node) (Datatypes.S (peer_connections node)), inr ValueError).
Proof.
  unfold py_round_trip_proto. rewrite sent. pose proof (serialized_size _ _ sent) as Hsz. pose proof (size_of_nonneg serialized).
  set (f := mkFrame FRAME_CONTROL_REQUEST serialized).
  assert (Hf : frame_ok f) by (split; simpl; [unfold FRAME_CONTROL_REQUEST|]; lia).
  rewrite pack_encode by done. unfold tcp_exchange, beacon_peer. rewrite no_protobuf, bytes_of_string_of_bytes.
  destruct (encode_frame_cons f) as (k1 & k0 & l3 & l2 & l1 & l0 & He & _).
  unfold serve_session, peek_header. cbn [sess_input sess_peeked]. rewrite whole by (rewrite He; simpl; lia).
  rewrite He. rewrite bool_decide_eq_false_2 by done. cbn. reflexivity.
Qed.
End node.

(** ** Witnesses *)

Definition text_client (identity : option bytes) : BeaconClient := mkBeaconClient "127.0.0.1" 43171 "text" identity.
Definition frame_client (identity : option bytes) : BeaconClient := mkBeaconClient "127.0.0.1" 43171 "protobuf" identity.
Definition example_agent_py : Registration := mkRegistration "agent-1" "node-1" "h:1" [("role", VStr "w")]%string 3 [] [].
Definition example_server (protocol : ControlProtocol) : Transport (@PeerNode unit) :=
  @beacon_peer unit toy_sodium _ libstdcxx_moved_from toy_request toy_response true protocol (fun _ => 5) whole_peek.
Definition toy_request_laws : @ProtoLaws V1.ControlRequest _ toy_request := countable_ProtoLaws _.

Lemma example_agent_encodable : encodable example_agent_py.
Proof. split; [by apply (bool_decide_unpack _)|]. cbn. lia. Qed.

Lemma example_framed identity : framed (@py_signed toy_ed (frame_client identity) example_agent_py).
Proof.
  destruct identity; (split_and!; [split; [done|reflexivity]..| |]); [apply example_agent_encodable| |apply example_agent_encodable|];
    (apply Forall_cons_2; [|apply Forall_nil_2]; eexists; split_and!; reflexivity).
Qed.

Lemma example_sendable identity : sendable (@py_signed toy_ed (text_client identity) example_agent_py).
Proof.
  destruct identity; (split_and!; [reflexivity..| |]); [apply example_agent_encodable| |apply example_agent_encodable|];
    (apply Forall_cons_2; [|apply Forall_nil_2]; split_and!; reflexivity).
Qed.

Lemma whole_peek_header n bs : (9 <= length bs)%nat -> whole_peek n bs = 9%nat.
Proof. unfold whole_peek. lia. Qed.

Lemma example_frames_work identity body success :
  (body = V1.register_agent /\ success = "registered" \/ body = V1.sync_merge /\ success = "merged")%string ->
  (identity = None \/ identity = Some toy_key) ->
  @frames_work toy_request toy_response true whole_peek 0 body success (@py_signed toy_ed (frame_client identity) example_agent_py).
Proof.
  intros Hb Hi. split_and!; [done|apply whole_peek_header| |].
  - destruct Hb as [[-> ->]|[-> ->]], Hi as [-> | ->]; intros a Ha; vm_compute in Ha; injection Ha as <-;
      apply (bool_decide_unpack _); vm_compute; exact I.
  - destruct Hb as [[_ ->]|[_ ->]]; (repeat apply Forall_cons_2; [..|apply Forall_nil_2]);
      intros []; apply (bool_decide_unpack _); vm_compute; exact I.
Qed.

(** Over frames to a strict node: unsigned is refused, signed is stored. *)
Lemma sdk_store_end_to_end_witness :
  (exists st status, @py_register _ (example_server strict_protocol) toy_ed toy_request toy_response (frame_client None) example_agent_py
      (mkPeerNode empty_node 0) = (mkPeerNode st 1, status) /\ says_ok false status /\ records_ (st_registry st) = []) /\
  (exists st status, @py_merge _ (example_server strict_protocol) toy_ed toy_request toy_response (text_client (Some toy_key)) example_agent_py
      (mkPeerNode empty_node 0) = (mkPeerNode st 1, status) /\ says_ok true status /\ agent_id <$> records_ (st_registry st) = ["agent-1"%string]).
Proof.
  split.
  - pose proof (@sdk_store_end_to_end unit toy_sodium _ libstdcxx_moved_from toy_ed toy_request toy_response true strict_protocol
      (fun _ => 5) whole_peek whole_peek_ok toy_request_laws toy_response_laws (frame_client None) example_agent_py (mkPeerNode empty_node 0)) as H.
    apply Forall_cons in H as [H _]. cbv beta iota in H.
    specialize (H (conj (example_framed None) (example_frames_work None V1.register_agent "registered" ltac:(auto) ltac:(auto)))).
    destruct (handle_store _ _ _ _) as [st0 resp] eqn:Hst. vm_compute in Hst. injection Hst as <- <-.
    destruct H as (st & status & Hs & Hok & Hreg & _). exists st, status. split; [exact Hs|]. split; [exact Hok|].
    rewrite Hreg. reflexivity.
  - pose proof (@sdk_store_end_to_end unit toy_sodium _ libstdcxx_moved_from toy_ed toy_request toy_response true strict_protocol
      (fun _ => 5) whole_peek whole_peek_ok toy_request_laws toy_response_laws (text_client (Some toy_key)) example_agent_py (mkPeerNode empty_node 0)) as H.
    apply Forall_cons in H as [_ H]. apply Forall_cons in H as [H _]. cbv beta iota in H.
    specialize (H (example_sendable (Some toy_key))).
    destruct (handle_store _ _ _ _) as [st0 resp] eqn:Hst. vm_compute in Hst. injection Hst as <- <-.
    destruct H as (st & status & Hs & Hok & Hreg & _). exists st, status. split; [exact Hs|]. split; [exact Hok|].
    rewrite Hreg. reflexivity.
Defined.

Lemma sdk_signed_register_witness :
  exists st status, @py_register _ (example_server strict_protocol) toy_ed toy_request toy_response (frame_client (Some toy_key)) example_agent_py
      (mkPeerNode empty_node 0) = (mkPeerNode st 1, status) /\ says_ok true status /\
    endpoint <$> find "agent-1" (st_registry st) = Some "h:1"%string.
Proof.
  destruct (@sdk_signed_register unit toy_sodium _ libstdcxx_moved_from toy_ed toy_request toy_response true strict_protocol
    (fun _ => 5) whole_peek whole_peek_ok toy_request_laws toy_response_laws toy_sodium_laws toy_interop (frame_client (Some toy_key)) toy_key
    example_agent_py (mkPeerNode empty_node 0) eq_refl eq_refl example_agent_encodable
    (conj (example_framed _) (example_frames_work _ V1.register_agent "registered" ltac:(auto) ltac:(auto)))) as (st & status & Hs & Hok & Hf).
  { intros e [=]. }
  exists st, status. split; [exact Hs|]. split; [exact Hok|]. change (py_agent_id example_agent_py) with "agent-1"%string in Hf.
  rewrite Hf. reflexivity.
Defined.

(** The agent's own registration, under its own key, is refused, also the second time. *)
Lemma sdk_merge_captures_agent_witness :
  let own := signed_record 1 (mkAgentRecord "agent-1" "node-1" "h:1" ∅ 9 0 "" "") in
  exists st status, @py_merge _ (example_server open_protocol) toy_ed toy_request toy_response (text_client (Some toy_key)) example_agent_py
      (mkPeerNode empty_node 0) = (mkPeerNode st 1, status) /\ says_ok true status /\
    let '(st', resp) := handle_store open_protocol own "OK message=registered" (handle_store open_protocol own "OK message=registered" st).1 in
    starts_with resp "ERR" = true /\ st_registry st' = st_registry st.
Proof.
  intros own.
  destruct (@sdk_merge_captures_agent unit toy_sodium _ libstdcxx_moved_from toy_ed toy_request toy_response true open_protocol
    (fun _ => 5) whole_peek whole_peek_ok toy_request_laws toy_response_laws toy_sodium_laws toy_interop (text_client (Some toy_key)) toy_key
    example_agent_py (mkPeerNode empty_node 0) eq_refl eq_refl example_agent_encodable (example_sendable _) eq_refl)
    as ((st & status & Hs & Hok & Hf) & Hown).
  exists st, status. split; [exact Hs|]. split; [exact Hok|].
  destruct (Hown st [own] own Hf) as [_ H]; [|exact H].
  apply Forall_cons_2; [|apply Forall_singleton]; (split; [reflexivity|split; by vm_compute]).
Defined.

Lemma sdk_heartbeat_end_to_end_witness :
  let node := mkPeerNode (example_node [example_agent "a" 4]) 0 in
  exists status, @py_heartbeat _ (example_server open_protocol) toy_request toy_response (text_client None) "a" 5 node =
      (mkPeerNode (example_node [set_revision 5 (set_expires_at (5 + milliseconds (heartbeat_ttl (lifecycle_ open_protocol))) (example_agent "a" 4))]) 1, status) /\
    says_ok true status.
Proof.
  intros node.
  exact (@sdk_heartbeat_end_to_end unit toy_sodium _ libstdcxx_moved_from toy_request toy_response true open_protocol
    (fun _ => 5) whole_peek whole_peek_ok toy_request_laws toy_response_laws (text_client None) "a" 5 node ltac:(lia) eq_refl).
Defined.

Lemma sdk_frames_refused_by_text_build_witness :
  (@py_stats _ (@beacon_peer unit toy_sodium _ libstdcxx_moved_from toy_request toy_response false open_protocol (fun _ => 5) whole_peek)
     toy_request toy_response (frame_client None) (mkPeerNode empty_node 0)).2 = inr ValueError.
Proof.
  unfold py_stats. change (is_protobuf (frame_client None)) with true. cbn match.
  rewrite (@sdk_frames_refused_by_text_build unit toy_sodium _ libstdcxx_moved_from toy_request toy_response false open_protocol
    (fun _ => 5) whole_peek toy_request_laws (frame_client None) V1.stats_request (mkPeerNode empty_node 0) _ eq_refl
    (whole_peek_header 0) eq_refl). reflexivity.
Defined.
