(* ===== verification/PySdkList.v ===== *)
(** * Listing through the Python client

    What [list_agents] and [sync_pull] return for what a node holds.  A field of a line that is
    made of digits is read as a number: [listed] is what is left of a record. *)

From S2P Require Import Prelude CxxString CxxContainers Types Sodium SecureBuffer Crypto IdentityService AgentRegistry RegistrySpec RegistryProps Framing ControlProtocol ControlProps RegistrySync Protobuf ControlProtobuf ControlServer SyncClient PyText PySdk PySdkProps PySdkNode.

(** ** The fields of a line *)

(** What [_parse_fields] makes of a value. *)
Definition classify (v : string) : value := if isdecimal v then VInt (read_digits 0 v).1 else VStr v.
Definition raw_keys : list string := ["public_key"; "signature"]%string.
Definition field_of (kv : string * string) : string * value :=
  (kv.1, if bool_decide (kv.1 ∈ raw_keys) then VStr kv.2 else classify kv.2).
Definition field_token (kv : string * string) : string := kv.1 +:+ "=" +:+ kv.2.
Definition short (v : string) : Prop := isdecimal v = true -> (String.length v <= max_str_digits)%nat.
(** A key without '=', and a value that can be read. *)
Definition readable_field (kv : string * string) : Prop := no_char "="%char kv.1 = true /\ (kv.1 ∉ raw_keys -> short kv.2).

Lemma split_equals_token k v : no_char "="%char k = true -> split_equals (k +:+ "=" +:+ v) = Some (k, v).
Proof.
  intros Hk. unfold split_equals. change ("=" +:+ v) with (String "=" v). rewrite find_char_app by done.
  rewrite substr_from_after. unfold substr. by rewrite substring_all.
Qed.

Lemma py_parse_field_token d kv : readable_field kv ->
  py_parse_field raw_keys (Some d) (field_token kv) = Some (dict_set kv.1 (field_of kv).2 d).
Proof.
  intros [Hk Hs]. unfold py_parse_field, field_token. cbn [mbind option_bind]. rewrite split_equals_token by done.
  unfold py_field_value, field_of. cbn [snd]. case_bool_decide as Hraw; [done|]. unfold classify.
  destruct (isdecimal kv.2) eqn:Hd; [|done]. by rewrite py_int_decimal by (done || by apply Hs).
Qed.

Lemma py_parse_tokens d kvs : Forall readable_field kvs -> NoDup (d.*1 ++ kvs.*1) ->
  foldl (py_parse_field raw_keys) (Some d) (field_token <$> kvs) = Some (d ++ (field_of <$> kvs)).
Proof.
  intros Hall. revert d. induction Hall as [|kv kvs Hkv _ IH]; intros d Hnd; [by rewrite app_nil_r|].
  rewrite fmap_cons. cbn [foldl].
  rewrite py_parse_field_token by done. rewrite dict_set_fresh.
  - rewrite IH; [by rewrite <- app_assoc|]. rewrite fmap_app, <- app_assoc. exact Hnd.
  - apply NoDup_app in Hnd as (_ & Hnd & _). csimpl in Hnd. intros Hin. apply (Hnd _ Hin). left.
Qed.

(** The fields of an AGENT line. *)
Definition optional_pair (name v : string) : list (string * string) := if str_empty v then [] else [(name, v)].
Definition record_pairs (r : AgentRecord) : list (string * string) :=
  [("agent_id", agent_id r); ("node_id", node_id r); ("endpoint", endpoint r); ("revision", to_string (revision r))]%string ++
  optional_pair "public_key" (public_key_hex r) ++ optional_pair "signature" (signature_hex r) ++
  (prod_map (String.append "metadata.") id <$> map_items (metadata r)).

Lemma record_pairs_fields r : field_token <$> record_pairs r = record_fields r.
Proof.
  unfold record_pairs, record_fields. rewrite !fmap_app. f_equal. f_equal; [unfold optional_pair, optional_field; by destruct (str_empty _)|].
  f_equal; [unfold optional_pair, optional_field; by destruct (str_empty _)|].
  unfold metadata_fields. rewrite <- list_fmap_compose. apply list_fmap_ext. by intros _ [k v] _.
Qed.

(** Records an SDK client reads as they are written: ASCII without the separators on which
    Python and C++ differ, numbers that Python's [int] takes, keys in lower-case hexadecimal. *)
Definition readable (r : AgentRecord) : Prop :=
  line_ok r /\ hex_fields r /\
  Forall (fun v => plain v = true /\ short v) [agent_id r; node_id r; endpoint r] /\
  map_Forall (fun k v => plain k = true /\ plain v = true /\ short v) (metadata r).

Definition listed (r : AgentRecord) : Registration :=
  mkRegistration (py_str (classify (agent_id r))) (py_str (classify (node_id r))) (py_str (classify (endpoint r)))
    (prod_map id classify <$> map_items (metadata r)) (revision r)
    (decode_hex (public_key_hex r)) (decode_hex (signature_hex r)).

Lemma metadata_key_fresh s k : starts_with s "metadata." = false -> s <> "metadata." +:+ k.
Proof. intros Hs ->. by rewrite starts_with_app in Hs. Qed.

Lemma record_pairs_NoDup r : NoDup (record_pairs r).*1.
Proof.
  assert (Hm : (prod_map (String.append "metadata.") (@id string) <$> map_items (metadata r)).*1 = String.append "metadata." <$> (map_items (metadata r)).*1).
  { rewrite <- !list_fmap_compose. apply list_fmap_ext. by intros _ [] _. }
  assert (Hnd : NoDup (String.append "metadata." <$> (map_items (metadata r)).*1)).
  { apply NoDup_fmap_2; [|apply map_items_NoDup]. intros a b Hab. by simplify_eq. }
  assert (Hf : forall s, starts_with s "metadata." = false -> s ∉ String.append "metadata." <$> (map_items (metadata r)).*1).
  { intros s Hs (k & -> & _)%list_elem_of_fmap. by rewrite starts_with_app in Hs. }
  unfold record_pairs, optional_pair. rewrite !fmap_app, Hm.
  destruct (str_empty (public_key_hex r)), (str_empty (signature_hex r)); csimpl;
    repeat (apply NoDup_cons_2; [rewrite ?not_elem_of_cons; split_and?; by auto|]); done.
Qed.

Lemma readable_pairs r : readable r -> Forall (fun kv => readable_field kv /\ plain (field_token kv) = true) (record_pairs r).
Proof.
  intros ((_ & _ & _ & _ & _ & Hr & Hm) & [Hpk Hsg] & Hids & Hmd).
  assert (Htok : forall p v, no_char "="%char p = true -> plain p = true -> plain v = true -> (p ∉ raw_keys -> short v) ->
    readable_field (p, v) /\ plain (field_token (p, v)) = true).
  { intros p v Hp1 Hp2 Hv Hs. split; [done|]. unfold field_token. cbn [fst snd]. by rewrite !plain_app, Hp2, Hv. }
  assert (Hopt : forall name v, no_char "="%char name = true -> plain name = true -> name ∈ raw_keys -> encode_hex (decode_hex v) = v ->
    Forall (fun kv => readable_field kv /\ plain (field_token kv) = true) (optional_pair name v)).
  { intros name v H1 H2 Hraw Hv. unfold optional_pair. destruct (str_empty v); [constructor|].
    apply Forall_cons_2; [|constructor]. apply Htok; [done..| |done]. rewrite <- Hv. apply encode_hex_plain. }
  unfold record_pairs. apply Forall_app_2; [|apply Forall_app_2; [|apply Forall_app_2]].
  - rewrite Forall_forall in Hids. repeat apply Forall_cons_2; [..|constructor]; apply Htok; try done.
    1-6: intros; apply Hids; set_solver.
    + apply to_string_plain. lia.
    + intros _ _. by apply to_string_short.
  - apply Hopt; done || set_solver.
  - apply Hopt; done || set_solver.
  - apply Forall_fmap, Forall_forall. intros [k v] Hkv%elem_of_map_items. destruct (Hm k v Hkv) as (_ & Hk & _).
    destruct (Hmd k v Hkv) as (Hk2 & Hv & Hs). apply (Htok ("metadata." +:+ k) v); [..|done|done].
    + unfold no_char in *. by rewrite str_forall_app, Hk.
    + by rewrite plain_app, Hk2.
Qed.

Lemma plain_fields_text fs : Forall (fun f => plain f = true) fs -> plain (fields_text fs) = true.
Proof. induction 1 as [|f fs Hf _ IH]; [done|]. cbn [fields_text foldr]. fold (fields_text fs). by rewrite !plain_app, Hf, IH. Qed.

(** A line of fields, read. *)
Lemma py_parse_fields_line word kvs : is_word word = true -> plain word = true -> NoDup kvs.*1 ->
  Forall (fun kv => readable_field kv /\ plain (field_token kv) = true) kvs -> Forall (fun kv => is_word (field_token kv) = true) kvs ->
  plain (word +:+ fields_text (field_token <$> kvs)) = true /\
  py_parse_fields (word +:+ fields_text (field_token <$> kvs)) = Some (field_of <$> kvs).
Proof.
  intros Hw Hp Hnd Hok Hwords.
  assert (Hplain : plain (word +:+ fields_text (field_token <$> kvs)) = true).
  { rewrite plain_app, Hp, plain_fields_text; [done|]. apply Forall_fmap. eapply Forall_impl; [exact Hok|]. by intros kv [_ H]. }
  split; [done|]. unfold py_parse_fields, py_fields_of. rewrite py_split_plain by done.
  rewrite <- (str_app_nil_r (_ +:+ _)), str_app_assoc. rewrite tokens_fields by (done || by apply Forall_fmap).
  rewrite app_nil_r. cbn [tail]. fold raw_keys. rewrite py_parse_tokens; [done| |done].
  eapply Forall_impl; [exact Hok|]. by intros kv [H _].
Qed.

Lemma agent_line_fields r : readable r ->
  plain ("AGENT" +:+ fields_text (record_fields r)) = true /\
  py_parse_fields ("AGENT" +:+ fields_text (record_fields r)) = Some (field_of <$> record_pairs r).
Proof.
  intros Hr. pose proof Hr as [Hl _]. rewrite <- record_pairs_fields.
  apply py_parse_fields_line; [done|done|apply record_pairs_NoDup|by apply readable_pairs|].
  apply record_fields_words in Hl. rewrite <- record_pairs_fields in Hl. by apply Forall_fmap in Hl.
Qed.

Lemma agent_line_plain r : readable r -> plain ("AGENT" +:+ fields_text (record_fields r)) = true.
Proof. by intros [? _]%agent_line_fields. Qed.
Lemma py_parse_fields_record r : readable r ->
  py_parse_fields ("AGENT" +:+ fields_text (record_fields r)) = Some (field_of <$> record_pairs r).
Proof. by intros [_ ?]%agent_line_fields. Qed.

(** ** Reading a registration *)

Lemma field_of_fst kvs : (field_of <$> kvs).*1 = kvs.*1.
Proof. rewrite <- list_fmap_compose. by apply list_fmap_ext. Qed.

Lemma record_field r k v : (k, v) ∈ record_pairs r -> dict_get k (field_of <$> record_pairs r) = Some (field_of (k, v)).2.
Proof.
  intros Hin. apply dict_get_elem; [rewrite field_of_fst; apply record_pairs_NoDup|].
  apply list_elem_of_fmap. by exists (k, v).
Qed.

Lemma optional_field_value r name v : name ∈ raw_keys -> optional_pair name v ⊆ record_pairs r ->
  (v = "" -> name ∉ (record_pairs r).*1) -> str_field name (field_of <$> record_pairs r) = v.
Proof.
  intros Hraw Hsub Habs. unfold str_field. unfold optional_pair in Hsub. destruct (str_empty v) eqn:Hv.
  - apply str_empty_true in Hv. subst v. rewrite dict_get_none; [done|]. rewrite field_of_fst. auto.
  - rewrite (record_field r name v) by set_solver. unfold field_of. cbn [fst snd from_option]. by rewrite bool_decide_true.
Qed.

Lemma record_pairs_keys r k : k ∈ (record_pairs r).*1 ->
  k ∈ ["agent_id"; "node_id"; "endpoint"; "revision"]%string \/ k = "public_key" /\ public_key_hex r <> "" \/
  k = "signature" /\ signature_hex r <> "" \/ starts_with k "metadata." = true.
Proof.
  unfold record_pairs, optional_pair. rewrite !fmap_app, !elem_of_app. intros [Hk|[Hk|[Hk|Hk]]].
  - by left.
  - destruct (str_empty _) eqn:He; [by apply elem_of_nil in Hk|]. apply list_elem_of_singleton in Hk. apply str_empty_false in He. auto.
  - destruct (str_empty _) eqn:He; [by apply elem_of_nil in Hk|]. apply list_elem_of_singleton in Hk. apply str_empty_false in He. auto.
  - do 3 right. apply list_elem_of_fmap in Hk as (kv & -> & Hkv). apply list_elem_of_fmap in Hkv as ([k' v] & -> & _). apply starts_with_app.
Qed.

Lemma metadata_of_prefix (a b : dict value) : Forall (fun kv => starts_with kv.1 "metadata." = false) a -> metadata_of (a ++ b) = metadata_of b.
Proof.
  intros Ha. unfold metadata_of. f_equal. rewrite filter_app. induction Ha as [|kv a Hkv _ IH]; [done|].
  rewrite filter_cons_False by by rewrite Hkv. exact IH.
Qed.

Lemma metadata_of_metadata (d l : dict value) : NoDup (d.*1 ++ l.*1) ->
  foldl (fun d kv => dict_set (substr_from kv.1 9) kv.2 d) d (filter (fun kv => starts_with kv.1 "metadata." = true) (prod_map (String.append "metadata.") id <$> l)) = d ++ l.
Proof.
  revert d. induction l as [|[k v] l IH]; intros d Hnd; [by rewrite app_nil_r|]. rewrite fmap_cons, filter_cons_True by apply starts_with_app.
  cbn [foldl prod_map fst snd]. replace (substr_from ("metadata." +:+ k) 9) with k by (symmetry; apply (substr_from_app "metadata." k)).
  rewrite dict_set_fresh.
  - rewrite IH; [by rewrite <- app_assoc|]. rewrite fmap_app, <- app_assoc. exact Hnd.
  - apply NoDup_app in Hnd as (_ & Hnd & _). intros Hin. apply (Hnd _ Hin). left.
Qed.

Lemma metadata_of_record r : metadata_of (field_of <$> record_pairs r) = prod_map id classify <$> map_items (metadata r).
Proof.
  unfold record_pairs. rewrite !fmap_app, !app_assoc, metadata_of_prefix.
  - replace (field_of <$> (prod_map _ _ <$> map_items (metadata r)))
      with (prod_map (String.append "metadata.") (@id value) <$> (prod_map id classify <$> map_items (metadata r))).
    + unfold metadata_of. rewrite metadata_of_metadata; [done|]. cbn [app fmap list_fmap]. rewrite fst_prod_map. apply map_items_NoDup.
    + rewrite <- !list_fmap_compose. apply list_fmap_ext. by intros _ [k v] _.
  - rewrite <- !fmap_app. apply Forall_fmap, Forall_forall. intros [k v] Hkv. cbn [field_of fst].
    unfold optional_pair in Hkv. destruct (str_empty (public_key_hex r)), (str_empty (signature_hex r)); simpl in Hkv;
      rewrite ?elem_of_cons, elem_of_nil in Hkv; naive_solver.
Qed.

Lemma py_fromhex_field v : no_space v = true -> encode_hex (decode_hex v) = v -> py_fromhex v = Some (decode_hex v).
Proof. intros Hs Hv. rewrite py_fromhex_word by done. rewrite <- Hv at 1. apply decode_encode_hex_loop. Qed.

Lemma py_parse_agent_line_record r : readable r ->
  py_parse_agent_line ("AGENT" +:+ fields_text (record_fields r)) = Some (listed r).
Proof.
  intros Hr. pose proof Hr as ((_ & _ & _ & Hpk & Hsg & Hrev & _) & [Hpkh Hsgh] & _).
  unfold py_parse_agent_line. rewrite py_parse_fields_record by done. cbn [mbind option_bind].
  assert (Hreq : forall k v, (k, v) ∈ [("agent_id", agent_id r); ("node_id", node_id r); ("endpoint", endpoint r);
    ("revision", to_string (revision r))]%string -> dict_get k (field_of <$> record_pairs r) = Some (field_of (k, v)).2).
  { intros k v Hkv. apply record_field. unfold record_pairs. apply elem_of_app. by left. }
  unfold int_field. rewrite (Hreq "revision" (to_string (revision r)))%string by set_solver.
  change (field_of ("revision"%string, to_string (revision r))).2 with (classify (to_string (revision r))). unfold classify at 1.
  rewrite isdecimal_to_string, read_digits_to_string by lia. cbn [mbind option_bind].
  rewrite (optional_field_value r "public_key" (public_key_hex r)), (optional_field_value r "signature" (signature_hex r)).
  - rewrite !py_fromhex_field by done. cbn [mbind option_bind]. rewrite metadata_of_record. unfold listed.
    unfold str_field. rewrite (Hreq "agent_id" (agent_id r))%string by set_solver.
    rewrite (Hreq "node_id" (node_id r))%string by set_solver. rewrite (Hreq "endpoint" (endpoint r))%string by set_solver.
    reflexivity.
  - unfold raw_keys. set_solver.
  - unfold record_pairs. set_solver.
  - intros He [H|[[H _]|[[_ H]|H]]]%record_pairs_keys; [set_solver|done|done|done].
  - unfold raw_keys. set_solver.
  - unfold record_pairs. set_solver.
  - intros He [H|[[_ H]|[[H _]|H]]]%record_pairs_keys; [set_solver|done|done|done].
Qed.

Lemma py_parse_agent_list_agents rs rest : Forall readable rs ->
  py_parse_agent_list_lines (((fun r => "AGENT" +:+ fields_text (record_fields r)) <$> rs) ++ rest) =
  match py_parse_agent_list_lines rest with inl l => inl ((listed <$> rs) ++ l) | inr e => inr e end.
Proof.
  induction 1 as [|r rs Hr _ IH]; [simpl; by destruct (py_parse_agent_list_lines rest)|]. rewrite fmap_cons, <- app_comm_cons.
  cbn [py_parse_agent_list_lines]. rewrite py_parse_agent_line_record, IH by done.
  replace (starts_with _ "AGENT ") with true by reflexivity. by destruct (py_parse_agent_list_lines rest).
Qed.

Lemma plain_unlines ls : Forall (fun l => plain l = true) ls -> plain (unlines ls) = true.
Proof. induction 1 as [|l ls Hl _ IH]; [done|]. by rewrite unlines_cons, !plain_app, Hl, IH. Qed.

(** The answer to LIST and SYNC_PULL, as the client reads it. *)
Lemma py_parse_agents_response head rs : no_char newline head = true -> plain head = true -> starts_with head "AGENT " = false ->
  Forall readable rs -> py_parse_agent_list (agents_response head rs) = inl (listed <$> rs).
Proof.
  intros Hh Hp Hs Hrs. unfold py_parse_agent_list, agents_response.
  replace (head +:+ nl +:+ encode_agent_lines rs +:+ "END" +:+ nl)
    with (unlines (head :: ((fun r => "AGENT" +:+ fields_text (record_fields r)) <$> rs) ++ ["END"]%string)).
  2: { rewrite encode_agent_lines_unlines, unlines_cons, unlines_app. by autorewrite with str. }
  rewrite py_splitlines_plain.
  2: { apply plain_unlines. constructor; [done|]. apply Forall_app_2; [|by repeat constructor].
       apply Forall_fmap. eapply Forall_impl; [exact Hrs|]. apply agent_line_plain. }
  rewrite getlines_unlines.
  2: { constructor; [done|]. apply Forall_app_2; [|by repeat constructor].
       apply Forall_fmap. eapply Forall_impl; [exact Hrs|]. intros r [Hr _]. by apply agent_line_no_newline. }
  cbn [py_parse_agent_list_lines]. rewrite Hs, py_parse_agent_list_agents by done. simpl. by rewrite app_nil_r.
Qed.

(** ** What is kept of a record *)

(** Text that is not a number with leading zeros. *)
Definition kept (s : string) : Prop := py_str (classify s) = s.

(** What a client is given for a record, and the records that survive it. *)
Definition received (this : BeaconClient) (r : AgentRecord) : Registration :=
  if is_protobuf this then from_proto_agent (to_proto r) else listed r.
Definition preserved (this : BeaconClient) (r : AgentRecord) : Prop :=
  hex_fields r /\
  (is_protobuf this = false -> kept (agent_id r) /\ kept (node_id r) /\ kept (endpoint r) /\ map_Forall (fun _ v => kept v) (metadata r)).

Lemma list_to_map_items {V} (m : gmap string V) : (list_to_map (map_items m) : gmap string V) = m.
Proof.
  rewrite (list_to_map_proper _ (map_to_list m)); [apply list_to_map_to_list|apply map_items_NoDup|apply map_items_perm].
Qed.

Lemma received_record this ex r : preserved this r -> node_record ex (received this r) = set_expires_at ex r.
Proof.
  intros [[Hpk Hsg] Hk]. unfold received. destruct (is_protobuf this).
  - unfold node_record, from_proto_agent, to_proto. cbn. rewrite Hpk, Hsg, map_store_items, <- list_fmap_compose.
    rewrite (list_fmap_ext _ id) by by intros _ [] _. rewrite list_fmap_id, list_to_map_items. by destruct r.
  - destruct (Hk eq_refl) as (Ha & Hn & He & Hm). unfold kept in *. unfold node_record, listed. cbn.
    rewrite Ha, Hn, He, Hpk, Hsg, <- list_fmap_compose.
    rewrite (list_fmap_ext _ id); [by rewrite list_fmap_id, list_to_map_items; destruct r|].
    intros i [k v] Hkv%list_elem_of_lookup_2%elem_of_map_items. unfold compose, prod_map. cbn. by rewrite (Hm k v Hkv).
Qed.

Lemma text_items_number (d : dict value) k n : (k, VInt n) ∈ d -> text_items d = None.
Proof.
  induction d as [|[k' v'] d IH]; [by intros ?%elem_of_nil|]. intros [[= -> <-]|Hin]%elem_of_cons; [done|].
  simpl. destruct v' as [|t]; [done|]. by rewrite IH.
Qed.

(** What is listed over lines cannot always be sent over frames: if a metadata value of a
    stored record is made of digits (a port, say), the registration that [list_agents] returns
    has a number in its place, and [register] and [merge] of a protobuf client raise a
    [TypeError] for it, with nothing sent. *)
Theorem sdk_listed_numbers_break_frames {N} {T : Transport N} {Ed : PyEd25519}
    {Req : ProtoMessage V1.ControlRequest} {Resp : ProtoMessage V1.ControlResponse} this r k v (net : N)
    (frames : is_protobuf this = true) (rev : u64 (revision r))
    (stored : metadata r !! k = Some v) (digits : isdecimal v = true) :
  (k, VInt (read_digits 0 v).1) ∈ py_metadata (listed r) /\
  py_register this (listed r) net = (net, inr TypeError) /\ py_merge this (listed r) net = (net, inr TypeError).
Proof.
  assert (Hin : (k, VInt (read_digits 0 v).1) ∈ py_metadata (listed r)).
  { cbn. apply list_elem_of_fmap. exists (k, v). split; [unfold classify; cbn; by rewrite digits|by apply elem_of_map_items]. }
  split; [done|].
  assert (Hp : to_proto_agent (py_signed this (listed r)) = inr TypeError).
  { unfold to_proto_agent, fits.
    replace (py_revision _) with (revision r) by (unfold py_signed; by destruct (py_identity this)).
    replace (py_metadata _) with (py_metadata (listed r)) by (unfold py_signed; by destruct (py_identity this)).
    rewrite (proj2 (Z.leb_le _ _)), (proj2 (Z.ltb_lt _ _)) by lia. cbn [andb negb]. by erewrite text_items_number. }
  unfold py_register, py_merge, py_store. by rewrite frames, Hp.
Qed.

Section node.
Context {W : Type} {S : Sodium} {Sort : StdSort} {Moved : MovedFrom} {Ed : PyEd25519}
  {Req : ProtoMessage V1.ControlRequest} {Resp : ProtoMessage V1.ControlResponse}
  {LReq : ProtoLaws V1.ControlRequest} {LResp : ProtoLaws V1.ControlResponse}.
Context (pb : bool) (protocol : ControlProtocol) (clock : nat -> TimePoint) (peek : nat -> bytes -> nat).
Context (peek_ok : forall n bs, session_ok (mkSession bs (peek n bs))).
Implicit Types (this : BeaconClient) (node : @PeerNode W).

Abbreviation transport := (beacon_peer pb protocol clock peek).

(** The answer to a request for a page of records. *)
Definition page_answer (message : string) (page : list AgentRecord) : V1.ControlResponse :=
  foldl (fun resp r => add_agent r resp) (set_status true message empty_response) page.

(** The page can be carried. *)
Definition page_carried this (n : nat) (request : V1.ControlRequest) (message : string) (page : list AgentRecord) : Prop :=
  if is_protobuf this then
    pb = true /\ (forall bs, (9 <= length bs)%nat -> peek n bs = 9%nat) /\ is_Some (SerializeToString request) /\
    is_Some (SerializeToString (page_answer message page)) /\ Forall (fun r => registration_valid (to_proto r)) page
  else Forall readable page.

Lemma py_fetch_spec this command request message page node :
  no_char newline command = true -> starts_with command "BN" = false -> proto_valid request ->
  (message = "list" \/ message = "sync_pull")%string ->
  (forall t, handle_line protocol t t command (peer_state node) = (peer_state node, agents_response ("OK message=" +:+ message) page)) ->
  (forall t, handle_request protocol t request (peer_state node) = (peer_state node, page_answer message page)) ->
  page_carried this (peer_connections node) request message page ->
  @py_fetch _ transport Req Resp this command request node =
    (mkPeerNode (peer_state node) (Datatypes.S (peer_connections node)), inl (received this <$> page)).
Proof.
  intros Hnl Hbn Hv Hm Hline Hreq Hc. unfold py_fetch, page_carried, received in *. destruct (is_protobuf this).
  - destruct Hc as (Hpb & Hpeek & [ser Hser] & [out Hout] & Hpage).
    destruct (add_agents_snapshot page (set_status true message empty_response)) as (Hok & Hmsg & Hsnap).
    rewrite (py_round_trip_frame pb protocol clock peek peek_ok this request node ser (peer_state node) (page_answer message page) out);
      try done.
    + unfold py_agents_of, page_answer. rewrite Hsnap. simpl. by rewrite <- list_fmap_compose.
    + unfold page_answer. split; [rewrite Hmsg; by destruct Hm as [-> | ->]|]. rewrite Hsnap. simpl. by apply Forall_fmap.
  - rewrite (py_round_trip_line pb protocol clock peek peek_ok) by done. rewrite Hline.
    rewrite py_parse_agents_response; [done|..|done]; by destruct Hm as [-> | ->].
Qed.

Lemma py_list_spec this node :
  page_carried this (peer_connections node) (V1.list_agents_request (V1.mkListAgentsRequest "" "")) "list" (records_ (st_registry (peer_state node))) ->
  @py_list_agents _ transport Req Resp this node =
    (mkPeerNode (peer_state node) (Datatypes.S (peer_connections node)), inl (received this <$> records_ (st_registry (peer_state node)))).
Proof. intros Hc. unfold py_list_agents. apply (py_fetch_spec this _ _ "list"); try done. by left. Qed.

Lemma py_sync_pull_spec this rev lim node : u64 rev -> u32 lim ->
  let page := entries_after_revision rev lim (st_registry (peer_state node)) in
  page_carried this (peer_connections node) (V1.sync_pull (V1.mkSyncPullRequest rev lim)) "sync_pull" page ->
  @py_sync_pull _ transport Req Resp this rev lim node =
    (mkPeerNode (peer_state node) (Datatypes.S (peer_connections node)), inl (received this <$> page)).
Proof.
  intros Hrev Hlim page Hc. unfold py_sync_pull, fits.
  rewrite !(proj2 (Z.leb_le _ _)), !(proj2 (Z.ltb_lt _ _)) by lia. cbn [andb negb]. rewrite andb_false_r.
  unfold py_str_int. rewrite !(proj2 (Z.ltb_ge _ _)) by lia.
  destruct (sync_pull_line rev lim) as [Hnl Hbn]; [lia..|]. unfold encode_sync_pull_command in *.
  apply (py_fetch_spec this _ _ "sync_pull"); try done; [by right|]. intros t. unfold handle_line.
  change ("SYNC_PULL after_revision=" +:+ to_string rev +:+ " limit=" +:+ to_string lim) with (encode_sync_pull_command rev lim).
  by rewrite parse_sync_pull_command by lia.
Qed.

(** (C23) Listing a node is faithful, over a connection that works and for records the protocol in
    use preserves: the client gets one registration for every record of the node, in order, and
    each of them, sent to a node, is the stored record again.  Keys and signatures are in
    lower-case hexadecimal.  Over lines the records are plain ASCII without white space, and no
    field is a number with leading zeros ([kept]), because the client reads digits as a number;
    over frames the build has protobuf, the first read brings the whole header, and the messages
    serialise. *)
Theorem sdk_list_round_trip this node ex
    (sent : page_carried this (peer_connections node) (V1.list_agents_request (V1.mkListAgentsRequest "" "")) "list"
              (records_ (st_registry (peer_state node))))
    (ok : Forall (preserved this) (records_ (st_registry (peer_state node)))) :
  exists rs, @py_list_agents _ transport Req Resp this node =
      (mkPeerNode (peer_state node) (Datatypes.S (peer_connections node)), inl rs) /\
    node_record ex <$> rs = set_expires_at ex <$> records_ (st_registry (peer_state node)).
Proof.
  eexists. split; [by apply py_list_spec|]. rewrite <- list_fmap_compose. apply list_fmap_ext. intros i r Hr.
  apply received_record. by eapply Forall_lookup_1 in ok.
Qed.

(** ** Statistics *)

Lemma stats_fields a h : u64 a -> u64 h ->
  let line := "OK active_agents=" +:+ to_string a +:+ " highest_revision=" +:+ to_string h in
  plain line = true /\ py_parse_fields line = Some [("active_agents", VInt a); ("highest_revision", VInt h)]%string.
Proof.
  intros Ha Hh line.
  assert (Hn : forall k n, no_char "="%char k = true -> plain k = true -> is_word k = true -> u64 n ->
    (readable_field (k, to_string n) /\ plain (field_token (k, to_string n)) = true) /\ is_word (field_token (k, to_string n)) = true).
  { intros k n Hk Hp Hw Hu. unfold field_token. cbn [fst snd]. split_and!.
    - split; [done|]. intros _ _. by apply to_string_short.
    - rewrite !plain_app, Hp, to_string_plain by lia. done.
    - rewrite <- str_app_assoc. apply word_after_prefix; [by apply word_after_prefix|].
      apply is_word_no_space_line, to_string_word. lia. }
  destruct (py_parse_fields_line "OK" [("active_agents", to_string a); ("highest_revision", to_string h)]%string) as [Hplain Hf];
    [done|done|by apply (bool_decide_unpack _)|repeat apply Forall_cons_2; [apply Hn..|constructor]; done
    |repeat apply Forall_cons_2; [apply Hn..|constructor]; done|].
  replace ("OK" +:+ _) with line in Hplain, Hf.
  - split; [done|]. rewrite Hf. cbn [fmap list_fmap]. unfold field_of. cbn [fst snd].
    rewrite !bool_decide_false by (unfold raw_keys; set_solver). unfold classify.
    by rewrite !isdecimal_to_string, !read_digits_to_string by lia.
  - unfold line, fields_text, field_token. cbn [fmap list_fmap foldr fst snd]. by autorewrite with str.
Qed.

Lemma py_stats_line this node : is_protobuf this = false ->
  u64 (size_of (records_ (st_registry (peer_state node)))) -> u64 (highest_revision (stats (st_registry (peer_state node)))) ->
  exists d, @py_stats _ transport Req Resp this node =
      (mkPeerNode (peer_state node) (Datatypes.S (peer_connections node)), inl d) /\
    py_watermark d = inl (highest_revision (stats (st_registry (peer_state node)))).
Proof.
  intros Hp Ha Hh. unfold py_stats. rewrite Hp, (py_round_trip_line pb protocol clock peek peek_ok) by done.
  change (handle_line protocol _ _ "STATS" _) with
    (peer_state node, "OK active_agents=" +:+ to_string (size_of (records_ (st_registry (peer_state node)))) +:+
       " highest_revision=" +:+ to_string (highest_revision (stats (st_registry (peer_state node)))) +:+ nl).
  destruct (stats_fields _ _ Ha Hh) as [Hplain Hf]. set (h := highest_revision _) in *. set (a := size_of _) in *.
  assert (Hnl : no_char newline ("OK active_agents=" +:+ to_string a +:+ " highest_revision=" +:+ to_string h) = true).
  { pose proof (to_string_no_char newline a) as H1. pose proof (to_string_no_char newline h) as H2. unfold no_char in *.
    rewrite !str_forall_app, H1, H2 by (lia || done). done. }
  set (line := "OK active_agents=" +:+ _) in *.
  replace ("OK active_agents=" +:+ _) with (unlines [line]) by (unfold unlines, line; cbn [foldr]; by autorewrite with str).
  unfold py_parse_status. rewrite py_splitlines_plain by by apply plain_unlines, Forall_singleton.
  rewrite getlines_unlines by by apply Forall_singleton.
  replace (str_empty (unlines [line])) with false by reflexivity. cbn [head default from_option]. unfold id. rewrite Hf.
  eexists. split; reflexivity.
Qed.
End node.

(** ** Witnesses *)

Lemma sdk_listed_numbers_break_frames_witness :
  let r := mkAgentRecord "a" "n" "h:1" (<["port" := "080"]> ∅) 1 0 "" "" in
  py_metadata (listed r) = [("port", VInt 80)]%string /\
  @py_merge _ (example_server open_protocol) toy_ed toy_request toy_response (frame_client None) (listed r) (mkPeerNode empty_node 0) =
    (mkPeerNode empty_node 0, inr TypeError).
Proof.
  intros r. split; [by vm_compute|].
  apply (@sdk_listed_numbers_break_frames _ (example_server open_protocol) toy_ed toy_request toy_response (frame_client None) r "port" "080"
    (mkPeerNode empty_node 0) eq_refl ltac:(cbn; lia) eq_refl eq_refl).
Defined.

Lemma example_readable id rev : is_word id = true -> plain id = true -> isdecimal id = false -> u64 rev -> readable (example_agent id rev).
Proof.
  intros Hw Hp Hd Hr. split; [by apply example_line_ok|]. split; [by split|]. split; [|apply map_Forall_empty].
  repeat apply Forall_cons_2; [..|apply Forall_nil_2]; (split; [done|intros H; try done; cbn in H; congruence]).
Qed.
Lemma example_preserved this id rev : isdecimal id = false -> preserved this (example_agent id rev).
Proof.
  intros Hd. split; [by split|]. intros _. unfold kept, classify. cbn. rewrite Hd. by split_and!.
Qed.

(** An agent whose id is a number with a leading zero is listed under another one. *)
Lemma sdk_list_round_trip_witness :
  (exists rs, @py_list_agents _ (example_server open_protocol) toy_request toy_response (text_client None) (mkPeerNode (example_node [example_agent "a" 4]) 0) =
      (mkPeerNode (example_node [example_agent "a" 4]) 1, inl rs) /\
    node_record 9 <$> rs = [set_expires_at 9 (example_agent "a" 4)]) /\
  py_agent_id (listed (example_agent "007" 4)) = "7"%string.
Proof.
  split; [|by vm_compute].
  apply (@sdk_list_round_trip unit toy_sodium _ libstdcxx_moved_from toy_request toy_response toy_request_laws toy_response_laws true open_protocol
    (fun _ => 5) whole_peek whole_peek_ok (text_client None) (mkPeerNode (example_node [example_agent "a" 4]) 0) 9).
  - apply Forall_cons_2; [|apply Forall_nil_2]. apply example_readable; (reflexivity || lia).
  - apply Forall_cons_2; [|apply Forall_nil_2]. apply example_preserved. reflexivity.
Defined.
