(* ===== verification/PySdkSync.v ===== *)
(** * Synchronising two nodes through the Python client

    What [sync_with_peer] of [sync.py] does to two nodes that run the control server, each at an
    address of its own. *)

From S2P Require Import Prelude CxxString CxxContainers Types Sodium SecureBuffer Crypto IdentityService AgentRegistry RegistrySpec RegistryProps Framing ControlProtocol ControlProps RegistrySync Protobuf ControlProtobuf ControlServer SyncClient PyText PySdk PySdkProps PySdkNode PySdkList.

(** ** A client in a larger network *)

(** A client whose connections all end at one part of the network acts on that part alone. *)
Section embedding.
Context {N M : Type} {T : Transport N} {T' : Transport M} {Ed : PyEd25519}
  {Req : ProtoMessage V1.ControlRequest} {Resp : ProtoMessage V1.ControlResponse}.
Context (get : M -> N) (put : N -> M -> M).
Context (get_put : forall n m, get (put n m) = n) (put_put : forall n n' m, put n (put n' m) = put n m) (put_get : forall m, put (get m) m = m).
Context (this : BeaconClient).
Context (exchanges : forall request m, @tcp_exchange M T' (py_address this) request m =
  let '(n, e) := @tcp_exchange N T (py_address this) request (get m) in (put n m, e)).

Definition lifts {R} (f : M -> M * R) (g : N -> N * R) : Prop := forall m, f m = let '(n, r) := g (get m) in (put n m, r).

Lemma round_trip_lifts command : lifts (py_round_trip this command) (py_round_trip this command).
Proof. intros m. unfold py_round_trip. rewrite exchanges. by destruct (tcp_exchange _ _ _) as [n [| |? []]]. Qed.

Lemma round_trip_proto_lifts request : lifts (py_round_trip_proto this request) (py_round_trip_proto this request).
Proof.
  intros m. unfold py_round_trip_proto. destruct (SerializeToString request); [|by rewrite put_get].
  destruct (py_encode_frame _); [|by rewrite put_get]. rewrite exchanges. by destruct (tcp_exchange _ _ _) as [n [| |? []]].
Qed.

Lemma store_lifts word body r : lifts (py_store this word body r) (py_store this word body r).
Proof.
  intros m. unfold py_store. destruct (is_protobuf this).
  - destruct (to_proto_agent _); [|by rewrite put_get]. rewrite round_trip_proto_lifts. by destruct (py_round_trip_proto _ _ _) as [n []].
  - rewrite round_trip_lifts. by destruct (py_round_trip _ _ _) as [n []].
Qed.

Lemma fetch_lifts command request : lifts (py_fetch this command request) (py_fetch this command request).
Proof.
  intros m. unfold py_fetch. destruct (is_protobuf this).
  - rewrite round_trip_proto_lifts. by destruct (py_round_trip_proto _ _ _) as [n []].
  - rewrite round_trip_lifts. by destruct (py_round_trip _ _ _) as [n []].
Qed.

Lemma sync_pull_lifts rev lim : lifts (py_sync_pull this rev lim) (py_sync_pull this rev lim).
Proof. intros m. unfold py_sync_pull. case_match; [by rewrite put_get|apply fetch_lifts]. Qed.

Lemma stats_lifts : lifts (py_stats this) (py_stats this).
Proof.
  intros m. unfold py_stats. destruct (is_protobuf this).
  - rewrite round_trip_proto_lifts. by destruct (py_round_trip_proto _ _ _) as [n []].
  - rewrite round_trip_lifts. by destruct (py_round_trip _ _ _) as [n []].
Qed.

Lemma merge_all_lifts rs k : lifts (py_merge_all this rs k) (py_merge_all this rs k).
Proof.
  revert k. induction rs as [|r rs IH]; intros k m; cbn [py_merge_all]; [by rewrite put_get|].
  unfold py_merge. rewrite store_lifts. destruct (py_store _ _ _ _ _) as [n [d|e]]; [|done].
  rewrite IH, get_put. destruct (py_merge_all _ _ _ _) as [n' res]. by rewrite put_put.
Qed.
End embedding.

(** ** Merging a page over lines *)

Lemma received_sendable this r : is_protobuf this = false -> readable r -> preserved this r -> sendable (received this r).
Proof.
  intros Hp ((Ha & Hn & He & _ & _ & Hr & Hm) & _) [_ Hk]. destruct (Hk Hp) as (Ka & Kn & Ke & Km).
  unfold received. rewrite Hp. unfold kept in *. split_and!; cbn [listed py_agent_id py_node_id py_endpoint py_revision py_metadata].
  - by rewrite Ka.
  - by rewrite Kn.
  - by rewrite Ke.
  - split; [|done]. cbn [listed py_metadata]. rewrite fst_prod_map. apply map_items_NoDup.
  - apply Forall_fmap, Forall_forall. intros [k v] Hkv%elem_of_map_items. cbn. destruct (Hm k v Hkv) as (? & ? & ?).
    by rewrite (Km k v Hkv).
Qed.

Lemma receive_merges_elem {W} {S : Sodium} protocol clock n es (st : NodeState W) x :
  x ∈ records_ (st_registry (receive_merges protocol clock n es st).1) ->
  x ∈ records_ (st_registry st) \/ exists ex r, r ∈ es /\ x = set_expires_at ex r.
Proof.
  revert n st. induction es as [|r es IH]; intros n st; [by left|]. cbn [receive_merges].
  pose proof (handle_store_records protocol (set_expires_at (clock n + milliseconds (heartbeat_ttl (lifecycle_ protocol))) r)
    "OK message=merged" st x) as Hs.
  destruct (handle_store _ _ _ _) as [st1 resp]. specialize (IH (Datatypes.S n) st1).
  destruct (receive_merges _ _ _ es st1) as [st2 k]. cbn [fst] in *. intros [Hx|(ex & r' & Hr' & ->)]%IH.
  - destruct (Hs Hx) as [?|[-> _]]; [by left|right]. eexists _, r. split; [left|done].
  - right. exists ex, r'. split; [by right|done].
Qed.

Lemma py_merge_all_line {W} {S : Sodium} {Sort : StdSort} {Moved : MovedFrom} {Ed : PyEd25519}
    {Req : ProtoMessage V1.ControlRequest} {Resp : ProtoMessage V1.ControlResponse}
    pb protocol clock peek (peek_ok : forall n bs, session_ok (mkSession bs (peek n bs)))
    (source this : BeaconClient) rs k (node : @PeerNode W) :
  is_protobuf source = false -> is_protobuf this = false -> py_identity this = None -> Forall readable rs -> Forall (preserved source) rs ->
  @py_merge_all _ (beacon_peer pb protocol clock peek) Ed Req Resp this (received source <$> rs) k node =
  let '(st, j) := receive_merges protocol clock (peer_connections node) rs (peer_state node) in
  (mkPeerNode st (peer_connections node + length rs), inl (k + j)).
Proof.
  intros Hsrc Hp Hid. revert k node. induction rs as [|r rs IH]; intros k [st n] Hr Hk.
  { simpl. by rewrite Nat.add_0_r, Z.add_0_r. }
  apply Forall_cons in Hr as [Hr Hrs], Hk as [Hk Hks]. rewrite fmap_cons. cbn [py_merge_all receive_merges].
  pose proof (py_store_line pb protocol clock peek peek_ok this "MERGE" V1.sync_merge "OK message=merged" (received source r)
    (mkPeerNode st n) ltac:(auto) Hp) as Hs.
  unfold py_signed in Hs. rewrite Hid in Hs. specialize (Hs (received_sendable source r Hsrc Hr Hk)).
  unfold arriving in Hs. rewrite received_record in Hs by done. cbn [peer_connections peer_state] in *.
  destruct (handle_store _ _ _ st) as [st1 resp]. destruct Hs as (status & Hs & Hok).
  unfold py_merge. rewrite Hs. destruct status as [d|e]; [|done]. cbn [says_ok] in Hok. rewrite Hok. cbn [py_truthy].
  rewrite IH by done. cbn [peer_connections peer_state]. destruct (receive_merges _ _ _ rs st1) as [st2 j]. cbn [length].
  f_equal; [f_equal; lia|]. f_equal. destruct (starts_with resp "OK"); lia.
Qed.

(** ** [sync_with_peer] of two nodes *)

(** How a node is served: its build, its settings, its clock and its sockets. *)
Record Served := mkServed {
  sv_pb : bool;
  sv_protocol : ControlProtocol;
  sv_clock : nat -> TimePoint;
  sv_peek : nat -> bytes -> nat;
  sv_peek_ok : forall n bs, session_ok (mkSession bs (sv_peek n bs));
}.

#[global] Instance SyncPeer_eq_dec : EqDecision SyncPeer.
Proof. solve_decision. Defined.

(** The network with two nodes in it: where a node is, and what a connection to it does. *)
Record Location (W M : Type) := mkLocation {
  loc_get : M -> @PeerNode W;
  loc_put : @PeerNode W -> M -> M;
  loc_get_put : forall n m, loc_get (loc_put n m) = n;
  loc_put_put : forall n n' m, loc_put n (loc_put n' m) = loc_put n m;
  loc_put_get : forall m, loc_put (loc_get m) m = m;
}.
Arguments loc_get {W M}.
Arguments loc_put {W M}.

Section transfer.
Context {W M : Type} {S : Sodium} {Sort : StdSort} {Moved : MovedFrom} {Ed : PyEd25519}
  {Req : ProtoMessage V1.ControlRequest} {Resp : ProtoMessage V1.ControlResponse}
  {LReq : ProtoLaws V1.ControlRequest} {LResp : ProtoLaws V1.ControlResponse} {T : Transport M}.

Definition peer_of (s : Served) : Transport (@PeerNode W) := beacon_peer (sv_pb s) (sv_protocol s) (sv_clock s) (sv_peek s).

(** The client's address is that of the node at a location. *)
Definition connects (this : BeaconClient) (s : Served) (l : Location W M) : Prop := forall request m,
  tcp_exchange (py_address this) request m =
  let '(n, e) := @tcp_exchange _ (peer_of s) (py_address this) request (loc_get l m) in (loc_put l n m, e).

(** A node whose records the SDK can carry over lines. *)
Definition syncable this (st : NodeState W) : Prop :=
  registry_ok (st_registry st) /\ Forall readable (records_ (st_registry st)) /\ Forall (preserved this) (records_ (st_registry st)).

Lemma py_stats_at this s l m : connects this s l -> is_protobuf this = false ->
  u64 (size_of (records_ (st_registry (peer_state (loc_get l m))))) -> registry_ok (st_registry (peer_state (loc_get l m))) ->
  exists d, py_stats this m =
      (loc_put l (mkPeerNode (peer_state (loc_get l m)) (Datatypes.S (peer_connections (loc_get l m)))) m, inl d) /\
    py_watermark d = inl (highest_revision (stats (st_registry (peer_state (loc_get l m))))).
Proof.
  intros Hc Hp Hs Hr.
  destruct (py_stats_line (sv_pb s) (sv_protocol s) (sv_clock s) (sv_peek s) (sv_peek_ok s) this (loc_get l m)) as (d & Hd & Hw);
    [done..|by apply stats_u64|].
  exists d. split; [|done]. rewrite (stats_lifts (loc_get l) (loc_put l) (loc_put_get _ _ l) this Hc). unfold peer_of. by rewrite Hd.
Qed.

(** A pull from one node, and the merges of the page at another one. *)
Lemma py_transfer_at source target s1 s2 l1 l2 rev limit_ m :
  connects source s1 l1 -> connects target s2 l2 -> (forall n, loc_get l2 (loc_put l1 n m) = loc_get l2 m) ->
  is_protobuf source = false -> is_protobuf target = false -> py_identity target = None -> u64 rev -> u32 limit_ ->
  syncable source (peer_state (loc_get l1 m)) ->
  let page := entries_after_revision rev limit_ (st_registry (peer_state (loc_get l1 m))) in
  let '(st, j) := receive_merges (sv_protocol s2) (sv_clock s2) (peer_connections (loc_get l2 m)) page (peer_state (loc_get l2 m)) in
  py_transfer source target rev limit_ m =
    (loc_put l2 (mkPeerNode st (peer_connections (loc_get l2 m) + length page))
       (loc_put l1 (mkPeerNode (peer_state (loc_get l1 m)) (Datatypes.S (peer_connections (loc_get l1 m)))) m), inl j).
Proof.
  intros Hc1 Hc2 Hind Hp1 Hp2 Hid Hrev Hlim (_ & Hread & Hpres) page.
  assert (Hpage : Forall readable page /\ Forall (preserved source) page).
  { rewrite !Forall_forall in *. split; intros x [Hx _]%entries_after_elem; auto. }
  destruct Hpage as [Hp3 Hp4].
  pose proof (py_sync_pull_spec (sv_pb s1) (sv_protocol s1) (sv_clock s1) (sv_peek s1) (sv_peek_ok s1) source rev limit_ (loc_get l1 m) Hrev Hlim) as Hpull.
  cbv zeta in Hpull. fold page in Hpull. unfold page_carried in Hpull. rewrite Hp1 in Hpull. specialize (Hpull Hp3).
  unfold py_transfer. rewrite (sync_pull_lifts (loc_get l1) (loc_put l1) (loc_put_get _ _ l1) source Hc1). unfold peer_of. rewrite Hpull.
  rewrite (merge_all_lifts (loc_get l2) (loc_put l2) (loc_get_put _ _ l2) (loc_put_put _ _ l2) (loc_put_get _ _ l2) target Hc2), Hind.
  unfold peer_of. rewrite (py_merge_all_line _ _ _ _ (sv_peek_ok s2)) by done.
  by destruct (receive_merges _ _ _ _ _) as [st j].
Qed.
End transfer.

Section two_nodes.
Context {W : Type} {S : Sodium} {Sort : StdSort} {Moved : MovedFrom} {Ed : PyEd25519}
  {Req : ProtoMessage V1.ControlRequest} {Resp : ProtoMessage V1.ControlResponse}
  {LReq : ProtoLaws V1.ControlRequest} {LResp : ProtoLaws V1.ControlResponse}.
Context (here there : Served) (address : SyncPeer).
Abbreviation net := (@PeerNode W * @PeerNode W)%type.

(** The first node listens at [address], the second at every other one. *)
Definition two_peers : Transport net := fun target request '(a, b) =>
  if bool_decide (target = address) then let '(n, e) := peer_of here target request a in ((n, b), e)
  else let '(n, e) := peer_of there target request b in ((a, n), e).

#[local] Existing Instance two_peers.

Program Definition at_first : Location W net := mkLocation _ _ fst (fun n m => (n, m.2)) _ _ _.
Next Obligation. done. Qed.
Next Obligation. done. Qed.
Next Obligation. by intros []. Qed.
Program Definition at_second : Location W net := mkLocation _ _ snd (fun n m => (m.1, n)) _ _ _.
Next Obligation. done. Qed.
Next Obligation. done. Qed.
Next Obligation. by intros []. Qed.

Lemma connects_first this : py_address this = address -> @connects W net S Sort Moved Req Resp two_peers this here at_first.
Proof. intros Ha request [a b]. unfold tcp_exchange, two_peers. by rewrite bool_decide_true. Qed.
Lemma connects_second this : py_address this <> address -> @connects W net S Sort Moved Req Resp two_peers this there at_second.
Proof. intros Ha request [a b]. unfold tcp_exchange, two_peers. by rewrite bool_decide_false. Qed.

Lemma receive_merges_syncable this protocol clock n es (st : NodeState W) :
  registry_ok (st_registry st) -> Forall readable es -> Forall readable (records_ (st_registry st)) ->
  Forall (preserved this) es -> Forall (preserved this) (records_ (st_registry st)) ->
  syncable this (receive_merges protocol clock n es st).1.
Proof.
  intros Hr Hes Hst Kes Kst. split; [|rewrite !Forall_forall in *; split;
    intros x [Hx|(ex & r & Hx & ->)]%receive_merges_elem; [by auto|by apply (Hes r)|by auto|by apply (Kes r)]].
  clear Kes Kst Hst. revert n st Hr. induction Hes as [|r es [(_ & _ & _ & _ & _ & Hrev & _) _] _ IH]; intros n st Hr; [done|].
  cbn [receive_merges].
  pose proof (handle_store_ok protocol (set_expires_at (clock n + milliseconds (heartbeat_ttl (lifecycle_ protocol))) r) "OK message=merged" st Hrev Hr) as Hs.
  destruct (handle_store _ _ _ _) as [st1 resp]. specialize (IH (Datatypes.S n) st1 Hs). by destruct (receive_merges _ _ _ es st1).
Qed.

(** (C11) A round of [sync_with_peer] of the SDK between two nodes at different addresses succeeds
    and does what the nodes' own synchronisation does, if the connections work, both clients are
    set to the line protocol and have no identity, and the records of both nodes are ones the
    client reads as they are written ([syncable]: plain ASCII without white space, lower-case
    hexadecimal keys, no numbers with leading zeros).  With the watermarks taken before anything moves, the local
    node executes a MERGE for exactly the remote page above the local highest revision, and the
    remote node one for exactly the local page above the remote highest revision, as it is after
    the pull; both counts are reported. *)
Theorem sdk_sync_round local remote limit_ (a b : @PeerNode W)
    (at_here : py_address local = address) (at_there : py_address remote <> address)
    (lines : is_protobuf local = false /\ is_protobuf remote = false)
    (unsigned : py_identity local = None /\ py_identity remote = None)
    (ok1 : syncable local (peer_state a)) (ok2 : syncable local (peer_state b))
    (small : u64 (size_of (records_ (st_registry (peer_state a)))) /\ u64 (size_of (records_ (st_registry (peer_state b)))))
    (limit_ok : u32 limit_) :
  let page := entries_after_revision (highest_revision (stats (st_registry (peer_state a)))) limit_ (st_registry (peer_state b)) in
  let '(st1, n_pulled) := receive_merges (sv_protocol here) (sv_clock here) (peer_connections a + 1) page (peer_state a) in
  let push := entries_after_revision (highest_revision (stats (st_registry (peer_state b)))) limit_ (st_registry st1) in
  let '(st2, n_pushed) := receive_merges (sv_protocol there) (sv_clock there) (peer_connections b + 2) push (peer_state b) in
  @py_sync_with_peer _ two_peers Ed Req Resp local remote limit_ (a, b) =
    ((mkPeerNode st1 (peer_connections a + 2 + length page), mkPeerNode st2 (peer_connections b + 2 + length push)),
     inl (mkSyncResult n_pulled n_pushed)).
Proof.
  intros page. destruct a as [sta na], b as [stb nb]. cbn [peer_state peer_connections] in *.
  destruct lines as [Hp1 Hp2], unsigned as [Hi1 Hi2], small as [Hs1 Hs2].
  pose proof (connects_first local at_here) as Hc1. pose proof (connects_second remote at_there) as Hc2.
  assert (Hsync : forall st : NodeState W, syncable local st -> syncable remote st).
  { intros st (H1 & H2 & H3). split_and!; [done|done|]. eapply Forall_impl; [exact H3|]. intros r [Hh Hk]. split; [done|]. intros _. by apply Hk. }
  pose proof ok1 as (Hr1 & Hl1 & Hk1). pose proof ok2 as (Hr2 & Hl2 & Hk2).
  pose proof (stats_u64 _ Hr1) as Hw1. pose proof (stats_u64 _ Hr2) as Hw2.
  assert (Hpage : Forall readable page /\ Forall (preserved local) page).
  { rewrite !Forall_forall in *. split; intros x [Hx _]%entries_after_elem; auto. }
  pose proof (receive_merges_syncable local (sv_protocol here) (sv_clock here) (na + 1) page sta Hr1 (proj1 Hpage) Hl1 (proj2 Hpage) Hk1) as Hst1.
  unfold py_sync_with_peer.
  destruct (py_stats_at local here at_first (mkPeerNode sta na, mkPeerNode stb nb)) as (d1 & -> & Hd1); [done..|]. cbn [loc_get loc_put at_first at_second fst snd peer_state peer_connections] in *.
  destruct (py_stats_at remote there at_second (mkPeerNode sta (Datatypes.S na), mkPeerNode stb nb)) as (d2 & -> & Hd2); [done..|]. cbn [loc_get loc_put at_first at_second fst snd peer_state peer_connections] in *.
  rewrite Hd1, Hd2.
  pose proof (py_transfer_at remote local there here at_second at_first (highest_revision (stats (st_registry sta))) limit_
    (mkPeerNode sta (Datatypes.S na), mkPeerNode stb (Datatypes.S nb))) as Hpull. cbn [loc_get loc_put at_first at_second fst snd peer_state peer_connections] in Hpull. cbv zeta in Hpull. fold page in Hpull.
  rewrite Nat.add_1_r in *.
  destruct (receive_merges _ _ (Datatypes.S na) page sta) as [st1 n_pulled]. cbn [fst] in Hst1. rewrite Hpull by auto. clear Hpull.
  pose proof (py_transfer_at local remote here there at_first at_second (highest_revision (stats (st_registry stb))) limit_
    (mkPeerNode st1 (Datatypes.S na + length page), mkPeerNode stb (Datatypes.S (Datatypes.S nb)))) as Hpush. cbn [loc_get loc_put at_first at_second fst snd peer_state peer_connections] in Hpush. cbv zeta in Hpush.
  replace (nb + 2)%nat with (Datatypes.S (Datatypes.S nb)) by lia. cbv zeta. 
  set (push := entries_after_revision _ _ (st_registry st1)) in *.
  destruct (receive_merges _ _ (Datatypes.S (Datatypes.S nb)) push stb) as [st2 n_pushed]. rewrite Hpush by auto.
  cbn [loc_get loc_put at_first at_second fst snd peer_state peer_connections]. repeat f_equal; lia.
Qed.
End two_nodes.

(** ** Witnesses *)

Definition example_served : Served := mkServed true open_protocol (fun _ => 5) whole_peek whole_peek_ok.

Lemma example_syncable this id rev : is_word id = true -> plain id = true -> isdecimal id = false -> u64 rev ->
  syncable this (example_node [example_agent id rev]).
Proof.
  intros Hw Hp Hd Hr. split; [split; [apply NoDup_singleton|by apply Forall_singleton]|].
  split; apply Forall_singleton; [by apply example_readable|by apply example_preserved].
Qed.

(** The remote node's newer agent is pulled; nothing of the local node is newer than the remote. *)
Lemma sdk_sync_round_witness :
  let a := mkPeerNode (example_node [example_agent "a" 4]) 0 in
  let b := mkPeerNode (example_node [example_agent "b" 7]) 0 in
  let remote := mkBeaconClient "10.0.0.2" 43171 "text" None in
  (@py_sync_with_peer _ (@two_peers unit toy_sodium _ libstdcxx_moved_from toy_request toy_response example_served example_served
     (mkSyncPeer "127.0.0.1" 43171)) toy_ed toy_request toy_response (text_client None) remote 256 (a, b)).2 = inl (mkSyncResult 1 0).
Proof.
  intros a b remote.
  pose proof (@sdk_sync_round unit toy_sodium _ libstdcxx_moved_from toy_ed toy_request toy_response toy_request_laws toy_response_laws
    example_served example_served (mkSyncPeer "127.0.0.1" 43171) (text_client None) remote 256 a b eq_refl ltac:(intros [=])
    (conj eq_refl eq_refl) (conj eq_refl eq_refl)
    (example_syncable _ "a" 4 eq_refl eq_refl eq_refl ltac:(lia)) (example_syncable _ "b" 7 eq_refl eq_refl eq_refl ltac:(lia))
    ltac:(apply (bool_decide_unpack _); vm_compute; exact I) ltac:(lia)) as H.
  cbv zeta in H. destruct (receive_merges _ _ _ _ (peer_state a)) as [st1 n1] eqn:H1. vm_compute in H1. injection H1 as <- <-.
  destruct (receive_merges _ _ _ _ (peer_state b)) as [st2 n2] eqn:H2. vm_compute in H2. injection H2 as <- <-.
  rewrite H. reflexivity.
Defined.
