(* ===== verification/PySdkProbe.v ===== *)
(** * Probing a node from Python

    [probe_peer] of [peer.py] against the UDP responder of a node. *)

From S2P Require Import Prelude CxxString CxxContainers Types Sodium AgentRegistry RegistrySpec RegistryProps SyncClient PeerHandshake ControlProtocol ControlProps UdpResponder PyText PySdk PySdkList.

Lemma py_fields_of_pair word k1 v1 k2 v2 : is_word word = true -> plain word = true ->
  Forall (fun k => is_word k = true /\ plain k = true /\ no_char "="%char k = true) [k1; k2] -> k1 <> k2 ->
  Forall (fun v => no_space v = true /\ plain v = true /\ short v) [v1; v2] ->
  py_fields_of [] (word +:+ " " +:+ k1 +:+ "=" +:+ v1 +:+ " " +:+ k2 +:+ "=" +:+ v2) = Some [(k1, classify v1); (k2, classify v2)].
Proof.
  intros Hw Hpw Hks Hne Hvs. apply Forall_cons in Hks as [(Hk1 & Hp1 & He1) Hks]. apply Forall_cons in Hks as [(Hk2 & Hp2 & He2) _].
  apply Forall_cons in Hvs as [(Hv1 & Hq1 & Hs1) Hvs]. apply Forall_cons in Hvs as [(Hv2 & Hq2 & Hs2) _].
  unfold py_fields_of. rewrite py_split_plain by (by rewrite !plain_app, Hpw, Hp1, Hp2, Hq1, Hq2).
  rewrite message_tokens by done. cbn [tail foldl]. unfold py_parse_field. cbn [mbind option_bind].
  assert (Hval : forall k v, short v -> py_field_value (bool_decide (k ∈ @nil string)) v = Some (classify v)).
  { intros k v Hs. rewrite bool_decide_false by apply not_elem_of_nil. unfold py_field_value, classify.
    destruct (isdecimal v) eqn:Hd; [|done]. by rewrite py_int_decimal by auto. }
  rewrite !split_equals_token, !Hval by done. cbn [mbind option_bind dict_set]. by rewrite bool_decide_false by done.
Qed.

(** Probing works: the hello of the SDK is answered by the node's responder, and the dictionary
    that is returned says so, with the node's id and the highest revision of its registry; a
    hello or an answer that does not fit the datagram buffers is excluded. *)
Theorem sdk_probe_answered {W} (config : NodeConfig) (registry : AgentRegistry W) node_id_ port address
    (hello : hello_ok (mkPeerHello node_id_ port)) (fits1 : (String.length (encode_peer_hello (mkPeerHello node_id_ port)) <= 1024)%nat)
    (ok : registry_ok registry) (named : is_word (cfg_node_id config) = true /\ plain (cfg_node_id config) = true /\ short (cfg_node_id config))
    (fits2 : (String.length (encode_peer_welcome (mkPeerWelcome (cfg_node_id config) (highest_revision (stats registry)))) <= 1024)%nat) :
  exists d, probe_peer (fun datagram => (fun answer => (answer, address)) <$> respond config registry datagram) node_id_ port = inl d /\
    dict_get "ok" d = Some (SBool true) /\ dict_get "node_id" d = Some (SVal (classify (cfg_node_id config))) /\
    dict_get "registry_revision" d = Some (SVal (VInt (highest_revision (stats registry)))).
Proof.
  pose proof hello as [_ Hport]. cbn [hello_listen_port] in Hport. destruct named as (Hw & Hp & Hs). pose proof (stats_u64 _ ok) as Hrev.
  unfold probe_peer, py_str_int. rewrite (proj2 (Z.ltb_ge _ _)) by lia.
  change ("BEACON_HELLO node_id=" +:+ _) with (encode_peer_hello (mkPeerHello node_id_ port)).
  unfold respond. rewrite datagram_payload_short, (hello_round_trip _ hello) by done. cbn [fmap option_fmap option_map].
  change (substr ?s 0 1024) with (datagram_payload s). rewrite datagram_payload_short by done. unfold encode_peer_welcome. cbn [welcome_node_id welcome_registry_revision].
  pose proof (py_fields_of_pair "BEACON_WELCOME" "node_id" (cfg_node_id config) "registry_revision" (to_string (highest_revision (stats registry)))) as Hf.
  change ("BEACON_WELCOME node_id=" +:+ _) with
    ("BEACON_WELCOME" +:+ " " +:+ "node_id" +:+ "=" +:+ cfg_node_id config +:+ " " +:+ "registry_revision" +:+ "=" +:+ to_string (highest_revision (stats registry))).
  rewrite Hf; [|done|done|by repeat constructor|done|].
  - clear Hf fits2. generalize dependent (highest_revision (stats registry)). intros h Hrev.
    eexists. split; [reflexivity|]. split; [reflexivity|]. split; [reflexivity|]. cbn. do 2 f_equal. unfold classify.
    by rewrite isdecimal_to_string, read_digits_to_string by lia.
  - repeat apply Forall_cons_2; [| |constructor]; [split_and!; [by apply is_word_no_space|done..]|].
    split_and!; [apply is_word_no_space, to_string_word; lia|apply to_string_plain; lia|]. intros _. by apply to_string_short.
Qed.

Lemma sdk_probe_answered_witness :
  exists d, probe_peer (fun datagram => (fun answer => (answer, "127.0.0.1:43170"%string)) <$>
      respond (node default_config) (st_registry (example_node [example_agent "a" 4])) datagram) "probe" 43170 = inl d /\
    dict_get "ok" d = Some (SBool true) /\ dict_get "node_id" d = Some (SVal (classify (cfg_node_id (node default_config)))) /\
    dict_get "registry_revision" d = Some (SVal (VInt 4)).
Proof.
  apply (sdk_probe_answered (node default_config) (st_registry (example_node [example_agent "a" 4])) "probe" 43170 "127.0.0.1:43170").
  - split; [reflexivity|]. cbn. lia.
  - apply (bool_decide_unpack _). vm_compute. exact I.
  - exact (example_registry_ok [example_agent "a" 4] eq_refl).
  - split_and!; [reflexivity..|]. intros H. vm_compute in H. discriminate.
  - apply (bool_decide_unpack _). vm_compute. exact I.
Defined.
